(** * gles2.c: OpenGL ES2 video output display -- verification model

    A shallow embedding of [src/gles2.c] (the VLC "gles2" video output
    plugin).  The file is organised in two parts: the model (data,
    operations, external interfaces) and the theorems about it.

    Conventions of the embedding:
    - a C [unsigned] is a [Z] in the range [0, 2^32); wrap-around is written
      out with [wrap32];
    - a C [double] is an IEEE-754 binary64 value.  Only non-negative values
      occur in [compute_bounding_box] (all operands come from unsigned
      integers), so a double is a non-negative rational, +infinity or NaN.
      Every arithmetic operation rounds its exact result to nearest, ties
      to even, at 53 bits of precision ([RN]); all values that occur are
      far inside the normal exponent range, so the exponent is left
      unbounded; expressions are evaluated in double precision
      ([FLT_EVAL_METHOD] 0);
    - values computed on the GPU ([GLfloat] uniforms, GLSL [float]) are
      idealised as exact rationals: their precision is
      implementation-defined;
    - calls into OpenGL ES, EGL, Xlib, libvlc and libc are external: the
      functions of the file emit them as events on a trace, the answers of
      the environment are read from an explicit list, and the part of the
      OpenGL ES state the file depends on is modelled after the OpenGL ES
      2.0 specification;
    - undefined behaviour (an array index out of bounds, a division by
      zero, a [memcpy] outside its objects, a conversion out of range) is
      the result [None]. *)

From Stdlib Require Import ZArith QArith Qround Qabs Qpower Lia Lqa List Bool String.
Import ListNotations.

Local Open Scope Z_scope.

(** ** Part I -- the model *)

(** *** Machine integers *)

Definition UINT_BITS : Z := 32.
Definition UINT_MOD : Z := 2 ^ UINT_BITS.

Definition wrap32 (z : Z) : Z := z mod UINT_MOD.

Definition is_unsigned (z : Z) : Prop := 0 <= z < UINT_MOD.

(** *** IEEE-754 binary64, non-negative fragment *)

Module Binary64.

Definition prec : Z := 53.

(** [ilog2 x] is the integer [k] with [2^k <= x < 2^(k+1)], for [x > 0]. *)
Definition ilog2 (x : Q) : Z :=
  let k := Z.log2 (Qnum x) - Z.log2 (Zpos (Qden x)) in
  if Qle_bool (2 ^ k)%Q x then k else k - 1.

(** Round to nearest integer, ties to even. *)
Definition rne (t : Q) : Z :=
  let f := Qfloor t in
  match (t - inject_Z f ?= 1 # 2)%Q with
  | Lt => f
  | Gt => f + 1
  | Eq => if Z.even f then f else f + 1
  end.

(** Exponent of the unit in the last place of the binade of [x]. *)
Definition ulp_exp (x : Q) : Z := ilog2 x - (prec - 1).

(** Round-to-nearest-even at 53 bits of a non-negative rational. *)
Definition RN (x : Q) : Q :=
  if Qle_bool x 0 then 0%Q
  else let e := ulp_exp x in
       Qred (inject_Z (rne (x * 2 ^ (- e))%Q) * 2 ^ e)%Q.

(** The unit round-off: half an ulp, relative to the value. *)
Definition unit_roundoff : Q := (2 ^ (-53))%Q.

Inductive double : Type :=
| DFin (q : Q)       (* a finite value, [q >= 0] and [RN q == q] *)
| DInf               (* +infinity *)
| DNaN.

(** [(double)u] for an unsigned [u]: exact, since [u < 2^53]. *)
Definition of_unsigned (u : Z) : double := DFin (inject_Z u).

Definition div (a b : double) : double :=
  match a, b with
  | DNaN, _ | _, DNaN => DNaN
  | DInf, DInf => DNaN
  | DInf, DFin _ => DInf
  | DFin _, DInf => DFin 0%Q
  | DFin x, DFin y =>
      if Qeq_bool y 0 then (if Qeq_bool x 0 then DNaN else DInf)
      else DFin (RN (x / y)%Q)
  end.

Definition mul (a b : double) : double :=
  match a, b with
  | DNaN, _ | _, DNaN => DNaN
  | DInf, DInf => DInf
  | DInf, DFin y => if Qeq_bool y 0 then DNaN else DInf
  | DFin x, DInf => if Qeq_bool x 0 then DNaN else DInf
  | DFin x, DFin y => DFin (RN (x * y)%Q)
  end.

(** [a > b] and [a < b]; every comparison with NaN is false. *)
Definition gt (a b : double) : bool :=
  match a, b with
  | DNaN, _ | _, DNaN => false
  | DInf, DInf => false
  | DInf, DFin _ => true
  | DFin _, DInf => false
  | DFin x, DFin y => negb (Qle_bool x y)
  end.

Definition lt (a b : double) : bool := gt b a.

(** Conversion to [unsigned]: truncation toward zero; undefined behaviour
    ([None]) when the truncated value is not representable. *)
Definition to_unsigned (a : double) : option Z :=
  match a with
  | DFin x => let t := Qfloor x in
              if (0 <=? t) && (t <? UINT_MOD) then Some t else None
  | _ => None
  end.

End Binary64.

(** *** Rectangles and the bounding box ([gles2.c], lines 108-192) *)

Record rectangle_t : Type := mkRect {
  x : Z;
  y : Z;
  width : Z;
  height : Z
}.

Definition set_x (r : rectangle_t) (v : Z) := mkRect v (y r) (width r) (height r).
Definition set_y (r : rectangle_t) (v : Z) := mkRect (x r) v (width r) (height r).
Definition set_width (r : rectangle_t) (v : Z) := mkRect (x r) (y r) v (height r).
Definition set_height (r : rectangle_t) (v : Z) := mkRect (x r) (y r) (width r) v.

(** The part of [vout_display_cfg_t] the function reads: [cfg->display]. *)
Record vout_display_cfg_t : Type := mkCfg {
  display_width : Z;
  display_height : Z
}.

(** Bind for computations that may hit undefined behaviour. *)
Definition obind {A B : Type} (o : option A) (k : A -> option B) : option B :=
  match o with Some a => k a | None => None end.

Notation "'do' v <- o ; k" := (obind o (fun v => k))
  (at level 10, v name, o at level 100, k at level 200).

(** [compute_bounding_box(cfg, dst, res)]: [res] is the rectangle behind the
    output pointer as it is on entry, the result is that rectangle on
    return.  The assignments are kept one by one, in the order of the
    source. *)
Definition compute_bounding_box (cfg : vout_display_cfg_t) (dst : rectangle_t)
    (res : rectangle_t) : option rectangle_t :=
  let src := mkRect 0 0 (display_width cfg) (display_height cfg) in
  let src_ratio :=
    Binary64.div (Binary64.of_unsigned (width src)) (Binary64.of_unsigned (height src)) in
  let dst_ratio :=
    Binary64.div (Binary64.of_unsigned (width dst)) (Binary64.of_unsigned (height dst)) in
  if Binary64.gt src_ratio dst_ratio then
    let res := set_width res (width dst) in
    do h <- Binary64.to_unsigned
              (Binary64.div (Binary64.of_unsigned (width dst)) src_ratio);
    let res := set_height res h in
    let res := set_x res 0 in
    let res := set_y res (wrap32 (height dst - height res) / 2) in
    Some res
  else if Binary64.lt src_ratio dst_ratio then
    do w <- Binary64.to_unsigned
              (Binary64.mul (Binary64.of_unsigned (height dst)) src_ratio);
    let res := set_width res w in
    let res := set_height res (height dst) in
    let res := set_x res (wrap32 (width dst - width res) / 2) in
    let res := set_y res 0 in
    Some res
  else
    let res := set_width res (width dst) in
    let res := set_height res (height dst) in
    let res := set_y res 0 in
    let res := set_x res (y res) in
    Some res.

Definition rect0 : rectangle_t := mkRect 0 0 0 0.

(** Two successive calls through the same output pointer: the second call
    finds in [*res] what the first one left there. *)
Definition compute_bounding_box_twice (cfg : vout_display_cfg_t)
    (dst res : rectangle_t) : option (rectangle_t * rectangle_t) :=
  do r1 <- compute_bounding_box cfg dst res;
  do r2 <- compute_bounding_box cfg dst r1;
  Some (r1, r2).

(** The properties of section 8 of the specification, as predicates on the
    source size [cfg], the destination [dst] and the result [res]. *)

Definition fits_inside (dst res : rectangle_t) : Prop :=
  0 <= width res <= width dst /\ 0 <= height res <= height dst.

(** One pixel lost by the truncation to an integer, plus the round-off of
    the two floating-point operations (below [2^-19] for 32-bit sizes). *)
Definition pixel_tolerance : Q := 1 + (1 # 2 ^ 19).

(** The result has the width of the destination and the height the source
    ratio asks for, or the height of the destination and the width the
    source ratio asks for -- up to [pixel_tolerance]. *)
Definition keeps_aspect (cfg : vout_display_cfg_t) (dst res : rectangle_t) : Prop :=
  let sw := inject_Z (display_width cfg) in
  let sh := inject_Z (display_height cfg) in
  (width res = width dst /\
   (Qabs (inject_Z (height res) - inject_Z (width dst) * sh / sw) < pixel_tolerance)%Q)
  \/
  (height res = height dst /\
   (Qabs (inject_Z (width res) - inject_Z (height dst) * sw / sh) < pixel_tolerance)%Q).

Definition centered (dst res : rectangle_t) : Prop :=
  Z.abs (x res + width res / 2 - width dst / 2) <= 1 /\
  Z.abs (y res + height res / 2 - height dst / 2) <= 1.

Definition positive_size (w h : Z) : Prop :=
  0 < w < UINT_MOD /\ 0 < h < UINT_MOD.

(** *** Program data ([gles2.c], lines 103-159, and the libvlc types) *)

Inductive shader_types : Type := SHADER_TYPE_DEINT_LINEAR | SHADER_TYPE_COPY.

Record gl_texture_t : Type := mkTex {
  tex_id : Z;
  tex_loc : Z
}.

Record gl_shader_t : Type := mkShader {
  program : Z;
  vertex : Z;
  fragment : Z;
  position_loc : Z;
  texcoord_loc : Z
}.

Record opengl_es2_t : Type := mkGles {
  framebuffer : Z;
  deint : gl_shader_t;
  scale : gl_shader_t;
  tex : list gl_texture_t;          (* [tex[3]]: y, u, v *)
  rgb_tex : gl_texture_t;
  viewport : rectangle_t;
  has_unpack_row : bool
}.

(** EGL handles; [0] is the null handle ([EGL_NO_DISPLAY], ...). *)
Record egl_backend_t : Type := mkEgl {
  egl_display : Z;
  egl_surface : Z;
  egl_context : Z
}.

Record x11_backend_t : Type := mkX11 {
  x11_display : Z;
  window : Z;
  rect : rectangle_t;
  external : bool
}.

(** [video_format_t], the fields the plugin reads. *)
Record video_format_t : Type := mkFormat {
  i_chroma : Z;
  i_width : Z;
  i_height : Z;
  i_visible_width : Z;
  i_visible_height : Z
}.

(** The fourcc 'I','4','2','0'. *)
Definition VLC_CODEC_I420 : Z := 0x30323449.

(** [plane_t]: [p_pixels] is the memory the plane pointer points to. *)
Record plane_t : Type := mkPlane {
  p_pixels : list Byte.byte;
  i_lines : Z;
  i_pitch : Z;
  i_pixel_pitch : Z;
  i_visible_lines : Z;
  i_visible_pitch : Z
}.

Record picture_t : Type := mkPicture {
  format : video_format_t;
  p : list plane_t;
  i_planes : Z
}.

(** [vlc_chroma_description_t]: per plane the rationals [w] and [h]. *)
Record rational_t : Type := mkRational { num : Z; den : Z }.

Record chroma_plane_t : Type := mkChromaPlane { w : rational_t; h : rational_t }.

Record vlc_chroma_description_t : Type := mkChroma {
  plane_count : Z;
  cp : list chroma_plane_t;
  pixel_size : Z
}.

(** What libvlc's [vlc_fourcc_GetChromaDescription] answers for I420. *)
Definition I420_description : vlc_chroma_description_t :=
  mkChroma 3
    [ mkChromaPlane (mkRational 1 1) (mkRational 1 1);
      mkChromaPlane (mkRational 1 2) (mkRational 1 2);
      mkChromaPlane (mkRational 1 2) (mkRational 1 2) ]
    1.

(** [vout_display_t]: the format and the configuration of the display. *)
Record vout_display_t : Type := mkVd {
  fmt : video_format_t;
  cfg : vout_display_cfg_t
}.

Record vout_display_sys_t : Type := mkSys {
  vd : vout_display_t;
  x11 : x11_backend_t;
  egl : egl_backend_t;
  gl : opengl_es2_t
}.

(** *** External calls

    Every call that leaves the file is an event.  GL enumerants are kept
    symbolic; a texture unit [GL_TEXTURE0 + i] is the index [i]. *)

Inductive GLenum : Type :=
| GL_TEXTURE_2D | GL_LUMINANCE | GL_UNSIGNED_BYTE | GL_UNPACK_ROW_LENGTH
| GL_FRAMEBUFFER | GL_FLOAT | GL_TRIANGLES | GL_UNSIGNED_SHORT
| GL_COLOR_BUFFER_BIT | GL_VERTEX_SHADER | GL_FRAGMENT_SHADER
| GL_COMPILE_STATUS | GL_LINK_STATUS | GL_INFO_LOG_LENGTH.

Definition GL_NO_ERROR : Z := 0.

(** The three GLSL sources of [shader_load]. *)
Inductive shader_text : Type := vertex_text | fragment_copy_text | fragment_deint_text.

(** Values of type [GLfloat] and GLSL [float] are idealised: a finite
    value is the exact rational (the precision of the GPU arithmetic is
    implementation-defined), [None] is a non-finite value. *)
Definition GLfloat : Type := option Q.

(** [1.0 / d] for an unsigned [d]. *)
Definition float_inv (d : Z) : GLfloat :=
  if d =? 0 then None else Some (1 / inject_Z d)%Q.

(** A byte of client memory as GL reads it: [None] is a byte outside the
    object the pointer was derived from (an indeterminate value). *)
Definition cell : Type := option Byte.byte.

Inductive gl_call : Type :=
| GlCreateShader (type : GLenum)
| GlShaderSource (s : Z) (src : shader_text)
| GlCompileShader (s : Z)
| GlGetShaderiv (s : Z) (pname : GLenum)
| GlGetShaderInfoLog (s : Z) (len : Z)
| GlDeleteShader (s : Z)
| GlCreateProgram
| GlGetError
| GlAttachShader (prog s : Z)
| GlBindAttribLocation (prog index : Z) (name : string)
| GlLinkProgram (prog : Z)
| GlGetProgramiv (prog : Z) (pname : GLenum)
| GlGetProgramInfoLog (prog : Z) (len : Z)
| GlDeleteProgram (prog : Z)
| GlUseProgram (prog : Z)
| GlGetAttribLocation (prog : Z) (name : string)
| GlGetUniformLocation (prog : Z) (name : string)
| GlClearColor (r g b a : Q)
| GlActiveTexture (unit : Z)
| GlBindTexture (target : GLenum) (texture : Z)
| GlPixelStorei (pname : GLenum) (param : Z)
| GlTexImage2D (target : GLenum) (level : Z) (internalformat : GLenum)
    (width height border : Z) (format type : GLenum) (pixels : list cell)
| GlUniform1i (location v : Z)
| GlUniform1f (location : Z) (v : GLfloat)
| GlBindFramebuffer (target : GLenum) (fb : Z)
| GlViewport (x y width height : Z)
| GlVertexAttribPointer (index size : Z) (type : GLenum) (normalized : bool)
    (stride : Z) (pointer : list Q)
| GlEnableVertexAttribArray (index : Z)
| GlClear (mask : GLenum)
| GlDrawElements (mode : GLenum) (count : Z) (type : GLenum) (indices : list Z).

Inductive egl_call : Type :=
| EglDestroyContext (dpy ctx : Z)
| EglDestroySurface (dpy surface : Z)
| EglTerminate (dpy : Z)
| EglSwapBuffers (dpy surface : Z).

(** An X event: [ConfigureNotify] with its size, or any other type. *)
Inductive XEvent : Type :=
| ConfigureNotify (width height : Z)
| OtherEvent.

Inductive x11_call : Type :=
| XPending (dpy : Z)
| XNextEvent (dpy : Z).

Inductive vlc_call : Type :=
| Vlc_fourcc_GetChromaDescription (chroma : Z)
| Vlc_fourcc_GetDescription (chroma : Z)
| Picture_Release (pic : picture_t)
| Subpicture_Delete (sp : Z).

Inductive event : Type :=
| Fprintf (format : string)          (* [fprintf(stderr, format, ...)] *)
| Gl (c : gl_call)
| Egl (c : egl_call)
| X11 (c : x11_call)
| Vlc (c : vlc_call)
| Free (what : string)
| Quirk_close_forgotten_handles.

(** *** The environment: GL server state, driver answers, X event queue

    The part of the OpenGL ES 2.0 state machine (with
    [GL_EXT_unpack_subimage]) that the program drives.  Texture and
    uniform name spaces are total maps with an update. *)

Inductive gl_object : Type := Shader (id : Z) | Program (id : Z).

Definition gl_object_eqb (a b : gl_object) : bool :=
  match a, b with
  | Shader i, Shader j => i =? j
  | Program i, Program j => i =? j
  | _, _ => false
  end.

(** Level 0 of a two-dimensional texture: rows of one-byte texels. *)
Record image : Type := mkImage {
  img_width : Z;
  img_height : Z;
  img_rows : list (list cell)
}.

Record gl_state : Type := mkGl {
  live : list gl_object;            (* created and not yet deleted *)
  current_program : Z;
  active_unit : Z;
  bound_2d : Z -> Z;                (* unit -> texture bound to TEXTURE_2D *)
  unpack_row_length : Z;
  unpack_alignment : Z;
  images : Z -> option image;       (* texture -> level 0 image *)
  uniform_i : Z -> Z;               (* location -> integer value *)
  uniform_f : Z -> option Q         (* location -> float value *)
}.

Definition upd {A : Type} (f : Z -> A) (k : Z) (v : A) : Z -> A :=
  fun j => if j =? k then v else f j.

(** The state of a fresh context (OpenGL ES 2.0, section 3.6.1 and the
    state tables of chapter 6): nothing bound, row length 0, unpack
    alignment 4. *)
Definition gl_initial : gl_state :=
  mkGl [] 0 0 (fun _ => 0) 0 4 (fun _ => None) (fun _ => 0) (fun _ => Some 0%Q).

Fixpoint remove_first (o : gl_object) (l : list gl_object) : list gl_object :=
  match l with
  | [] => []
  | o' :: l' => if gl_object_eqb o o' then l' else o' :: remove_first o l'
  end.

(** Pixel unpacking of one-byte, one-component texels (OpenGL ES 2.0,
    section 3.6.2, with the row length of [GL_EXT_unpack_subimage]): rows
    of [width] texels, row [r] starting [r * stride] bytes after the
    pointer, where the stride is the row length ([width] when the row
    length is 0) rounded up to a multiple of the unpack alignment. *)
Definition round_up (n a : Z) : Z := a * ((n + a - 1) / a).

Definition unpack_stride (g : gl_state) (width : Z) : Z :=
  let l := if 0 <? unpack_row_length g then unpack_row_length g else width in
  round_up l (unpack_alignment g).

Definition read_cell (data : list cell) (off : Z) : cell :=
  if off <? 0 then None
  else match nth_error data (Z.to_nat off) with
       | Some c => c
       | None => None
       end.

Definition read_cells (data : list cell) (off len : Z) : list cell :=
  map (fun c => read_cell data (off + Z.of_nat c)) (seq 0 (Z.to_nat len)).

Definition unpack_rows (stride width height : Z) (data : list cell) : list (list cell) :=
  map (fun r => read_cells data (Z.of_nat r * stride) width)
      (seq 0 (Z.to_nat height)).

Definition set_live (l : list gl_object) (g : gl_state) : gl_state :=
  mkGl l (current_program g) (active_unit g) (bound_2d g)
    (unpack_row_length g) (unpack_alignment g) (images g) (uniform_i g)
    (uniform_f g).

Definition set_current_program (prog : Z) (g : gl_state) : gl_state :=
  mkGl (live g) prog (active_unit g) (bound_2d g)
    (unpack_row_length g) (unpack_alignment g) (images g) (uniform_i g)
    (uniform_f g).

Definition set_active_unit (unit : Z) (g : gl_state) : gl_state :=
  mkGl (live g) (current_program g) unit (bound_2d g)
    (unpack_row_length g) (unpack_alignment g) (images g) (uniform_i g)
    (uniform_f g).

Definition set_bound_2d (b : Z -> Z) (g : gl_state) : gl_state :=
  mkGl (live g) (current_program g) (active_unit g) b
    (unpack_row_length g) (unpack_alignment g) (images g) (uniform_i g)
    (uniform_f g).

Definition set_unpack_row_length (l : Z) (g : gl_state) : gl_state :=
  mkGl (live g) (current_program g) (active_unit g) (bound_2d g)
    l (unpack_alignment g) (images g) (uniform_i g) (uniform_f g).

Definition set_images (im : Z -> option image) (g : gl_state) : gl_state :=
  mkGl (live g) (current_program g) (active_unit g) (bound_2d g)
    (unpack_row_length g) (unpack_alignment g) im (uniform_i g) (uniform_f g).

Definition set_uniform_i (u : Z -> Z) (g : gl_state) : gl_state :=
  mkGl (live g) (current_program g) (active_unit g) (bound_2d g)
    (unpack_row_length g) (unpack_alignment g) (images g) u (uniform_f g).

Definition set_uniform_f (u : Z -> option Q) (g : gl_state) : gl_state :=
  mkGl (live g) (current_program g) (active_unit g) (bound_2d g)
    (unpack_row_length g) (unpack_alignment g) (images g) (uniform_i g) u.

(** The effect of a GL command on the modelled state; [answer] is the
    value the command returned.  Commands that only touch state outside
    the model, and commands GL rejects, leave the state as it is. *)
Definition gl_apply (c : gl_call) (answer : Z) (g : gl_state) : gl_state :=
  match c with
  | GlCreateShader _ =>
      if answer =? 0 then g else set_live (Shader answer :: live g) g
  | GlCreateProgram =>
      if answer =? 0 then g else set_live (Program answer :: live g) g
  | GlDeleteShader s => set_live (remove_first (Shader s) (live g)) g
  | GlDeleteProgram prog => set_live (remove_first (Program prog) (live g)) g
  | GlUseProgram prog =>
      if (prog =? 0) || existsb (gl_object_eqb (Program prog)) (live g)
      then set_current_program prog g
      else g                                    (* GL_INVALID_VALUE *)
  | GlActiveTexture unit => set_active_unit unit g
  | GlBindTexture GL_TEXTURE_2D texture =>
      set_bound_2d (upd (bound_2d g) (active_unit g) texture) g
  | GlPixelStorei GL_UNPACK_ROW_LENGTH param =>
      if param <? 0 then g                      (* GL_INVALID_VALUE *)
      else set_unpack_row_length param g
  | GlTexImage2D GL_TEXTURE_2D _ GL_LUMINANCE width height _
                 GL_LUMINANCE GL_UNSIGNED_BYTE pixels =>
      if (width <? 0) || (height <? 0) then g   (* GL_INVALID_VALUE *)
      else
        let img := mkImage width height
                     (unpack_rows (unpack_stride g width) width height pixels) in
        set_images (upd (images g) (bound_2d g (active_unit g)) (Some img)) g
  | GlUniform1i location v => set_uniform_i (upd (uniform_i g) location v) g
  | GlUniform1f location v => set_uniform_f (upd (uniform_f g) location v) g
  | _ => g
  end.

(** The world outside the file: the events so far (oldest first), the
    answers the environment will give to the calls that return an integer
    (in the order of the calls), the GL state, the X events still to be
    delivered, libvlc's table of chroma descriptions, and the one piece of
    hidden program state, the function-local [static] of
    [update_textures_complex]. *)
Record world : Type := mkWorld {
  trace : list event;
  answers : list Z;
  glst : gl_state;
  xqueue : list XEvent;
  chroma_table : Z -> option vlc_chroma_description_t;
  static_c : option vlc_chroma_description_t
}.

Definition set_trace (t : list event) (wd : world) : world :=
  mkWorld t (answers wd) (glst wd) (xqueue wd) (chroma_table wd) (static_c wd).
Definition set_answers (a : list Z) (wd : world) : world :=
  mkWorld (trace wd) a (glst wd) (xqueue wd) (chroma_table wd) (static_c wd).
Definition set_glst (g : gl_state) (wd : world) : world :=
  mkWorld (trace wd) (answers wd) g (xqueue wd) (chroma_table wd) (static_c wd).
Definition set_xqueue (q : list XEvent) (wd : world) : world :=
  mkWorld (trace wd) (answers wd) (glst wd) q (chroma_table wd) (static_c wd).
Definition set_static_c (c : option vlc_chroma_description_t) (wd : world) : world :=
  mkWorld (trace wd) (answers wd) (glst wd) (xqueue wd) (chroma_table wd) c.

(** *** A state monad over the world; [None] is undefined behaviour *)

Definition M (A : Type) : Type := world -> option (A * world).

Definition ret {A : Type} (a : A) : M A := fun wd => Some (a, wd).

Definition bind {A B : Type} (m : M A) (k : A -> M B) : M B :=
  fun wd => match m wd with
            | Some (a, wd') => k a wd'
            | None => None
            end.

Definition undefined {A : Type} : M A := fun _ => None.

Notation "v <- m ;; k" := (bind m (fun v => k))
  (at level 61, m at next level, right associativity).
Notation "m ;; k" := (bind m (fun _ => k))
  (at level 61, right associativity).

Definition emit (e : event) : M unit :=
  fun wd => Some (tt, set_trace (trace wd ++ [e]) wd).

(** The next answer of the environment; [0] when none is left. *)
Definition answer : M Z :=
  fun wd => match answers wd with
            | [] => Some (0, wd)
            | a :: rest => Some (a, set_answers rest wd)
            end.

(** The world after the GL command [c] that answered [a]. *)
Definition gl_step (c : gl_call) (a : Z) (wd : world) : world :=
  set_glst (gl_apply c a (glst wd)) (set_trace (trace wd ++ [Gl c]) wd).

(** A GL command without a result, and one with a result. *)
Definition gl_do (c : gl_call) : M unit :=
  fun wd => Some (tt, gl_step c 0 wd).

Definition gl_ask (c : gl_call) : M Z :=
  a <- answer ;;
  fun wd => Some (a, gl_step c a wd).

Definition fprintf (format : string) : M unit := emit (Fprintf format).

Definition when (b : bool) (m : M unit) : M unit := if b then m else ret tt.

(** A value that must exist, e.g. an array element. *)
Definition defined {A : Type} (o : option A) : M A :=
  match o with Some a => ret a | None => undefined end.

(** [for (unsigned i = 0; i < n; i++) body(i)] *)
Fixpoint for_loop (n : nat) (i : Z) (body : Z -> M unit) : M unit :=
  match n with
  | O => ret tt
  | S n' => body i ;; for_loop n' (i + 1) body
  end.

(** A world with nothing in it, for examples. *)
Definition world0 : world :=
  mkWorld [] [] gl_initial []
    (fun c => if c =? VLC_CODEC_I420 then Some I420_description else None)
    None.

(** *** Shader objects ([gles2.c], lines 475-674) *)

Definition set_program (s : gl_shader_t) (v : Z) : gl_shader_t :=
  mkShader v (vertex s) (fragment s) (position_loc s) (texcoord_loc s).
Definition set_vertex (s : gl_shader_t) (v : Z) : gl_shader_t :=
  mkShader (program s) v (fragment s) (position_loc s) (texcoord_loc s).
Definition set_fragment (s : gl_shader_t) (v : Z) : gl_shader_t :=
  mkShader (program s) (vertex s) v (position_loc s) (texcoord_loc s).
Definition set_position_loc (s : gl_shader_t) (v : Z) : gl_shader_t :=
  mkShader (program s) (vertex s) (fragment s) v (texcoord_loc s).
Definition set_texcoord_loc (s : gl_shader_t) (v : Z) : gl_shader_t :=
  mkShader (program s) (vertex s) (fragment s) (position_loc s) v.

Definition shader_delete (shader : gl_shader_t) : M gl_shader_t :=
  shader <- (if negb (vertex shader =? 0) then
               gl_do (GlDeleteShader (vertex shader)) ;;
               ret (set_vertex shader 0)
             else ret shader) ;;
  shader <- (if negb (fragment shader =? 0) then
               gl_do (GlDeleteShader (fragment shader)) ;;
               ret (set_fragment shader 0)
             else ret shader) ;;
  if negb (program shader =? 0) then
    gl_do (GlDeleteProgram (program shader)) ;;
    ret (set_program shader 0)
  else ret shader.

Definition shader_load_source (src : shader_text) (type : GLenum) : M Z :=
  s <- gl_ask (GlCreateShader type) ;;
  if s =? 0 then
    fprintf "ERR: %s: glCreateShader failed\n" ;;
    ret 0
  else
    gl_do (GlShaderSource s src) ;;
    gl_do (GlCompileShader s) ;;
    compiled <- gl_ask (GlGetShaderiv s GL_COMPILE_STATUS) ;;
    if compiled =? 0 then
      len <- gl_ask (GlGetShaderiv s GL_INFO_LOG_LENGTH) ;;
      when (0 <? len)
        (gl_do (GlGetShaderInfoLog s len) ;;
         fprintf "ERR: %s\n") ;;
      gl_do (GlDeleteShader s) ;;
      ret 0
    else ret s.

Definition shader_load (shader : gl_shader_t) (type : shader_types)
    : M (Z * gl_shader_t) :=
  let fragment_src :=
    match type with
    | SHADER_TYPE_DEINT_LINEAR => fragment_deint_text
    | SHADER_TYPE_COPY => fragment_copy_text
    end in
  v <- shader_load_source vertex_text GL_VERTEX_SHADER ;;
  let shader := set_vertex shader v in
  if vertex shader =? 0 then
    fprintf "ERR: %s: shader_load_source(vertex) failed\n" ;;
    ret (-1, shader)
  else
    f <- shader_load_source fragment_src GL_FRAGMENT_SHADER ;;
    let shader := set_fragment shader f in
    if fragment shader =? 0 then
      fprintf "ERR: %s: shader_load_source(fragment) failed\n" ;;
      ret (-1, shader)
    else ret (0, shader).

(** The code after the label [failure:] of [shader_init]. *)
Definition shader_init_failure (shader : gl_shader_t) : M (Z * gl_shader_t) :=
  _ <- gl_ask GlGetError ;;
  fprintf "ERR: %s: oh no!!! %d\n" ;;
  shader <- shader_delete shader ;;
  ret (-1, shader).

Definition shader_init (shader : gl_shader_t) (type : shader_types)
    : M (Z * gl_shader_t) :=
  prog <- gl_ask GlCreateProgram ;;
  let shader := set_program shader prog in
  if program shader =? 0 then
    _ <- gl_ask GlGetError ;;
    fprintf "ERR: %s: glCreateProgram failed %d\n" ;;
    ret (-1, shader)
  else
    r <- shader_load shader type ;;
    let (ret_, shader) := r in
    if ret_ <? 0 then
      fprintf "ERR: %s: shader_load failed\n" ;;
      shader_init_failure shader
    else
      gl_do (GlAttachShader (program shader) (vertex shader)) ;;
      err <- gl_ask GlGetError ;;
      if negb (err =? GL_NO_ERROR) then
        fprintf "ERR: %s: glAttachShader(vertex) failed %d\n" ;;
        shader_init_failure shader
      else
        gl_do (GlAttachShader (program shader) (fragment shader)) ;;
        err <- gl_ask GlGetError ;;
        if negb (err =? GL_NO_ERROR) then
          fprintf "ERR: %s: glAttachShader(fragment) failed %d\n" ;;
          shader_init_failure shader
        else
          gl_do (GlBindAttribLocation (program shader) 0 "vPosition") ;;
          gl_do (GlLinkProgram (program shader)) ;;
          linked <- gl_ask (GlGetProgramiv (program shader) GL_LINK_STATUS) ;;
          when (linked =? 0)
            (len <- gl_ask (GlGetProgramiv (program shader) GL_INFO_LOG_LENGTH) ;;
             when (0 <? len)
               (gl_do (GlGetProgramInfoLog (program shader) len) ;;
                fprintf "ERR: %s: %s\n") ;;
             gl_do (GlDeleteProgram (program shader))) ;;
          gl_do (GlUseProgram (program shader)) ;;
          ploc <- gl_ask (GlGetAttribLocation (program shader) "vPosition") ;;
          let shader := set_position_loc shader ploc in
          tloc <- gl_ask (GlGetAttribLocation (program shader) "aTexcoord") ;;
          let shader := set_texcoord_loc shader tloc in
          gl_do (GlClearColor 0 0 0 1) ;;
          ret (0, shader).

(** *** Texture upload ([gles2.c], lines 692-753) *)

(** [a[i]]; an index outside the array is undefined. *)
Definition array_get {A : Type} (a : list A) (i : Z) : M A :=
  if i <? 0 then undefined else defined (nth_error a (Z.to_nat i)).

(** [a / b] on [int] and on [unsigned]; division by zero is undefined. *)
Definition int_div (a b : Z) : M Z :=
  if b =? 0 then undefined else ret (Z.quot a b).

Definition unsigned_div (a b : Z) : M Z :=
  if b =? 0 then undefined else ret (a / b).

(** [memcpy(buf + dst, pixels + src, n)]: undefined when a range leaves its
    object. *)
Definition memcpy (buf : list cell) (dst : Z) (pixels : list Byte.byte)
    (src n : Z) : M (list cell) :=
  if (0 <=? src) && (src + n <=? Z.of_nat (List.length pixels))
     && (0 <=? dst) && (dst + n <=? Z.of_nat (List.length buf))
  then ret (firstn (Z.to_nat dst) buf
            ++ map Some (firstn (Z.to_nat n) (skipn (Z.to_nat src) pixels))
            ++ skipn (Z.to_nat (dst + n)) buf)
  else undefined.

(** The row loop of [update_textures_complex]:
    [for (r = 0; r < rows; r++) { memcpy(dst, src, line);
       src += i_pitch / i_pixel_pitch; dst += line; }] *)
Fixpoint copy_rows (rows : nat) (line : Z) (pl : plane_t) (src dst : Z)
    (buf : list cell) : M (list cell) :=
  match rows with
  | O => ret buf
  | S rows' =>
      buf <- memcpy buf dst (p_pixels pl) src line ;;
      step <- int_div (i_pitch pl) (i_pixel_pitch pl) ;;
      copy_rows rows' line pl (src + step) (dst + line) buf
  end.

(** [if (!c) c = vlc_fourcc_GetChromaDescription(f->i_chroma);] on the
    function-local [static c]. *)
Definition load_static_c (f : video_format_t)
    : M (option vlc_chroma_description_t) :=
  fun wd =>
    match static_c wd with
    | Some c => Some (Some c, wd)
    | None =>
        let c := chroma_table wd (i_chroma f) in
        Some (c, set_static_c c
                   (set_trace
                      (trace wd ++ [Vlc (Vlc_fourcc_GetChromaDescription (i_chroma f))])
                      wd))
    end.

(** [alloca(n)]: [n] bytes of indeterminate content. *)
Definition alloca (n : Z) : list cell := repeat None (Z.to_nat n).

(** Lines 713-720: the temporary buffer of one plane and its row loop. *)
Definition pack_plane (line rows : Z) (pl : plane_t) : M (list cell) :=
  let buf := alloca (wrap32 (line * rows)) in
  copy_rows (Z.to_nat rows) line pl 0 0 buf.

(** The body of the plane loop of [update_textures_complex]; [c] is the
    value of the static. *)
Definition upload_plane_complex (vout : vout_display_sys_t) (pic : picture_t)
    (c : option vlc_chroma_description_t) (i : Z) : M unit :=
  let f := fmt (vd vout) in
  c <- defined c ;;
  ci <- array_get (cp c) i ;;
  rows <- unsigned_div (wrap32 (i_visible_height f * num (h ci))) (den (h ci)) ;;
  line <- unsigned_div (wrap32 (i_visible_width f * num (w ci))) (den (w ci)) ;;
  pl <- array_get (p pic) i ;;
  buf <- pack_plane line rows pl ;;
  gl_do (GlActiveTexture i) ;;
  t <- array_get (tex (gl vout)) i ;;
  gl_do (GlBindTexture GL_TEXTURE_2D (tex_id t)) ;;
  gl_do (GlTexImage2D GL_TEXTURE_2D 0 GL_LUMINANCE line rows 0
           GL_LUMINANCE GL_UNSIGNED_BYTE buf) ;;
  gl_do (GlUniform1i (tex_loc t) i).

Definition update_textures_complex (vout : vout_display_sys_t) (pic : picture_t)
    : M unit :=
  fprintf "> %s()\n" ;;
  c <- load_static_c (fmt (vd vout)) ;;
  for_loop (Z.to_nat (wrap32 (i_planes pic))) 0
    (upload_plane_complex vout pic c) ;;
  fprintf "< %s()\n".

(** The body of the plane loop of [update_textures_simple]. *)
Definition upload_plane_simple (vout : vout_display_sys_t) (pic : picture_t)
    (i : Z) : M unit :=
  gl_do (GlActiveTexture i) ;;
  t <- array_get (tex (gl vout)) i ;;
  gl_do (GlBindTexture GL_TEXTURE_2D (tex_id t)) ;;
  pl <- array_get (p pic) i ;;
  step <- int_div (i_pitch pl) (i_pixel_pitch pl) ;;
  gl_do (GlPixelStorei GL_UNPACK_ROW_LENGTH step) ;;
  gl_do (GlTexImage2D GL_TEXTURE_2D 0 GL_LUMINANCE
           (i_visible_pitch pl) (i_visible_lines pl) 0
           GL_LUMINANCE GL_UNSIGNED_BYTE (map Some (p_pixels pl))) ;;
  gl_do (GlUniform1i (tex_loc t) i).

Definition update_textures_simple (vout : vout_display_sys_t) (pic : picture_t)
    : M unit :=
  for_loop (Z.to_nat (wrap32 (i_planes pic))) 0 (upload_plane_simple vout pic) ;;
  (* reset row packing *)
  gl_do (GlPixelStorei GL_UNPACK_ROW_LENGTH 0).

Definition update_textures (vout : vout_display_sys_t) (pic : picture_t) : M unit :=
  if has_unpack_row (gl vout) then update_textures_simple vout pic
  else update_textures_complex vout pic.

(** *** The two render passes ([gles2.c], lines 755-831) *)

Definition indices : list Z := [0; 1; 2; 0; 2; 3].

Definition deint_vVertices : list Q :=
  [ -1; -1; 0; 1;
     1; -1; 1; 1;
     1;  1; 1; 0;
    -1;  1; 0; 0 ]%Q.

Definition scale_vVertices : list Q :=
  [ -1; -1; 0; 0;
     1; -1; 1; 0;
     1;  1; 1; 1;
    -1;  1; 0; 1 ]%Q.

Definition do_deinterlace_and_color_conversion (vout : vout_display_sys_t)
    (pic : picture_t) : M unit :=
  let height_ := i_height (format pic) in
  let width_ := i_width (format pic) in
  let g := gl vout in
  gl_do (GlBindFramebuffer GL_FRAMEBUFFER (framebuffer g)) ;;
  gl_do (GlUseProgram (program (deint g))) ;;
  gl_do (GlViewport 0 0 width_ height_) ;;
  gl_do (GlVertexAttribPointer (position_loc (deint g)) 2 GL_FLOAT false 16
           deint_vVertices) ;;
  gl_do (GlVertexAttribPointer (texcoord_loc (deint g)) 2 GL_FLOAT false 16
           (skipn 2 deint_vVertices)) ;;
  gl_do (GlEnableVertexAttribArray (position_loc (deint g))) ;;
  gl_do (GlEnableVertexAttribArray (texcoord_loc (deint g))) ;;
  update_textures vout pic ;;
  line_height_loc <- gl_ask (GlGetUniformLocation (program (deint g)) "line_height") ;;
  gl_do (GlUniform1f line_height_loc (float_inv height_)) ;;
  gl_do (GlDrawElements GL_TRIANGLES 6 GL_UNSIGNED_SHORT indices).

Definition do_scaling (vout : vout_display_sys_t) (pic : picture_t) : M unit :=
  let g := gl vout in
  gl_do (GlUseProgram (program (scale g))) ;;
  gl_do (GlBindFramebuffer GL_FRAMEBUFFER 0) ;;
  gl_do (GlViewport (x (viewport g)) (y (viewport g))
           (width (viewport g)) (height (viewport g))) ;;
  gl_do (GlClear GL_COLOR_BUFFER_BIT) ;;
  gl_do (GlVertexAttribPointer (position_loc (scale g)) 2 GL_FLOAT false 16
           scale_vVertices) ;;
  gl_do (GlVertexAttribPointer (texcoord_loc (scale g)) 2 GL_FLOAT false 16
           (skipn 2 scale_vVertices)) ;;
  gl_do (GlEnableVertexAttribArray (position_loc (scale g))) ;;
  gl_do (GlEnableVertexAttribArray (texcoord_loc (scale g))) ;;
  gl_do (GlActiveTexture 3) ;;
  gl_do (GlBindTexture GL_TEXTURE_2D (tex_id (rgb_tex g))) ;;
  gl_do (GlUniform1i (tex_loc (rgb_tex g)) 3) ;;
  gl_do (GlDrawElements GL_TRIANGLES 6 GL_UNSIGNED_SHORT indices).

(** *** The fragment shaders ([gles2.c], lines 535-588)

    The GLSL programs are embedded as functions on idealised floats.  A
    sampler is the function [texture2D] computes for it. *)

Module GLSL.

Local Open Scope Q_scope.

Record vec2 : Type := mkVec2 { vx : Q; vy : Q }.
Record vec4 : Type := mkVec4 { cr : Q; cg : Q; cb : Q; ca : Q }.

Definition sampler2D : Type := vec2 -> vec4.

Definition texture2D (s : sampler2D) (coord : vec2) : vec4 := s coord.

(** The built-in [mix(x, y, a)] is [x * (1 - a) + y * a]. *)
Definition mix (a b t : Q) : Q := a * (1 - t) + b * t.

Definition fragment_copy (s_tex : sampler2D) (vTexcoord : vec2) : vec4 :=
  let c := texture2D s_tex vTexcoord in
  mkVec4 (cr c) (cg c) (cb c) 1.

Definition fragment_deint (s_ytex s_utex s_vtex : sampler2D) (line_height : Q)
    (vTexcoord : vec2) : vec4 :=
  let tmpcoord := mkVec2 (vx vTexcoord) (vy vTexcoord + line_height) in
  let tmpcoord_2 := mkVec2 (vx vTexcoord) (vy vTexcoord + line_height * 2) in
  let y1 := cr (texture2D s_ytex vTexcoord) in
  let y2 := cr (texture2D s_ytex tmpcoord) in
  let u1 := cr (texture2D s_utex vTexcoord) in
  let u2 := cr (texture2D s_utex tmpcoord_2) in
  let v1 := cr (texture2D s_vtex vTexcoord) in
  let v2 := cr (texture2D s_vtex tmpcoord_2) in
  let y := mix y1 y2 0.5 in
  let u := mix u1 u2 0.5 in
  let v := mix v1 v2 0.5 in
  let y := 1.1643 * (y - 0.0625) in
  let u := u - 0.5 in
  let v := v - 0.5 in
  let r := y + 1.5958 * v in
  let g := y - 0.39173 * u - 0.81290 * v in
  let b := y + 2.017 * u in
  mkVec4 r g b 1.

End GLSL.

(** The deinterlace-convert computation as the specification words it. *)
Module BT601.

Import GLSL.
Local Open Scope Q_scope.

(** Two samples blended with weight 0.5 each. *)
Definition blend (a b : Q) : Q := 0.5 * a + 0.5 * b.

(** The coordinate [offset] below [coord]. *)
Definition row_below (coord : vec2) (offset : Q) : vec2 :=
  mkVec2 (vx coord) (vy coord + offset).

Definition convert (Y U V : Q) : vec4 :=
  let Y' := 1.1643 * (Y - 0.0625) in
  let U' := U - 0.5 in
  let V' := V - 0.5 in
  mkVec4 (Y' + 1.5958 * V')
         (Y' - 0.39173 * U' - 0.81290 * V')
         (Y' + 2.017 * U')
         1.

Definition deinterlace_convert (ytex utex vtex : sampler2D) (line_height : Q)
    (coord : vec2) : vec4 :=
  let next_row := row_below coord line_height in
  let two_rows_down := row_below coord (line_height * 2) in
  let Y := blend (cr (ytex coord)) (cr (ytex next_row)) in
  let U := blend (cr (utex coord)) (cr (utex two_rows_down)) in
  let V := blend (cr (vtex coord)) (cr (vtex two_rows_down)) in
  convert Y U V.

(** Equality of colours, component by component. *)
Definition vec4_eq (a b : vec4) : Prop :=
  cr a == cr b /\ cg a == cg b /\ cb a == cb b /\ ca a == ca b.

(** The colour the deinterlace fragment shader computes at [coord] when it
    runs in the GL state [g], with its [line_height] uniform at
    [line_height_loc]; [None] when the uniform is not a finite number. *)
Definition run_fragment_deint (g : gl_state) (line_height_loc : Z)
    (s_ytex s_utex s_vtex : sampler2D) (coord : vec2) : option vec4 :=
  option_map (fun lh => fragment_deint s_ytex s_utex s_vtex lh coord)
    (uniform_f g line_height_loc).

(** Three constant samplers, for examples. *)
Definition grey (v : Q) : sampler2D := fun _ => mkVec4 v v v 1.

End BT601.

(** *** Window events and display ([gles2.c], lines 218-233, 1055-1077) *)

Definition set_rect (x : x11_backend_t) (r : rectangle_t) : x11_backend_t :=
  mkX11 (x11_display x) (window x) r (external x).

Definition set_viewport (g : opengl_es2_t) (r : rectangle_t) : opengl_es2_t :=
  mkGles (framebuffer g) (deint g) (scale g) (tex g) (rgb_tex g) r
    (has_unpack_row g).

(** The body of the loop of [x11_backend_handle_events] for one event. *)
Definition handle_event (sys : vout_display_sys_t) (xev : XEvent)
    : M vout_display_sys_t :=
  match xev with
  | ConfigureNotify width_ height_ =>
      let r := set_width (rect (x11 sys)) (wrap32 width_) in
      let r := set_height r (wrap32 height_) in
      v <- defined (compute_bounding_box (cfg (vd sys)) r (viewport (gl sys))) ;;
      ret (mkSys (vd sys) (set_rect (x11 sys) r) (egl sys)
             (set_viewport (gl sys) v))
  | OtherEvent => ret sys
  end.

(** The X server hands over one event: [q] is what stays queued. *)
Definition put_xqueue (q : list XEvent) : M unit :=
  fun wd => Some (tt, set_xqueue q wd).

(** [while (XPending(dpy)) { XNextEvent(dpy, &xev); ... }], by recursion on
    the events that are pending. *)
Fixpoint drain_events (q : list XEvent) (sys : vout_display_sys_t)
    : M vout_display_sys_t :=
  match q with
  | [] => emit (X11 (XPending (x11_display (x11 sys)))) ;; ret sys
  | xev :: q' =>
      emit (X11 (XPending (x11_display (x11 sys)))) ;;
      emit (X11 (XNextEvent (x11_display (x11 sys)))) ;;
      put_xqueue q' ;;
      sys <- handle_event sys xev ;;
      drain_events q' sys
  end.

Definition x11_backend_handle_events (sys : vout_display_sys_t)
    : M vout_display_sys_t :=
  fun wd => drain_events (xqueue wd) sys wd.

(** [do_display(vd, p, sp)]; [sp] is [None] for a null subpicture.  The
    result is [vd->sys] as the call leaves it. *)
Definition do_display (sys : vout_display_sys_t) (pic : picture_t)
    (sp : option Z) : M vout_display_sys_t :=
  let e := egl sys in
  if negb (i_chroma (format pic) =? VLC_CODEC_I420) || negb (i_planes pic =? 3)
  then
    emit (Vlc (Vlc_fourcc_GetDescription (i_chroma (format pic)))) ;;
    fprintf "ERR: unsupported picture format: %s\n" ;;
    ret sys
  else
    (* do event handling stuff *)
    sys <- x11_backend_handle_events sys ;;
    (* do the rendering *)
    do_deinterlace_and_color_conversion sys pic ;;
    do_scaling sys pic ;;
    (* do the actual drawing *)
    emit (Egl (EglSwapBuffers (egl_display e) (egl_surface e))) ;;
    emit (Vlc (Picture_Release pic)) ;;
    match sp with
    | Some s => emit (Vlc (Subpicture_Delete s))
    | None => ret tt
    end ;;
    ret sys.

(** *** EGL teardown ([gles2.c], lines 367-389) *)

(** [egl_backend_destroy(egl)]; [None] is the null pointer. *)
Definition egl_backend_destroy (e : option egl_backend_t) : M unit :=
  match e with
  | None => ret tt
  | Some e =>
      when (negb (egl_context e =? 0))
        (emit (Egl (EglDestroyContext (egl_display e) (egl_context e)))) ;;
      when (negb (egl_surface e =? 0))
        (emit (Egl (EglDestroySurface (egl_display e) (egl_surface e)))) ;;
      when (negb (egl_display e =? 0))
        (emit (Egl (EglTerminate (egl_display e)))) ;;
      emit (Free "egl") ;;
      (* FIXME: this is required due to a tegra l4t driver bug. *)
      emit Quirk_close_forgotten_handles
  end.

(** *** Observations on traces, and the statements of the specification *)

Definition is_draw (e : event) : bool :=
  match e with Gl (GlDrawElements _ _ _ _) => true | _ => false end.

Definition is_swap (e : event) : bool :=
  match e with Egl (EglSwapBuffers _ _) => true | _ => false end.

Definition is_release (e : event) : bool :=
  match e with
  | Vlc (Picture_Release _) | Vlc (Subpicture_Delete _) => true
  | _ => false
  end.

Definition is_x11 (e : event) : bool :=
  match e with X11 _ => true | _ => false end.

Definition count (f : event -> bool) (l : list event) : nat :=
  List.length (filter f l).

(** [trace_blind m]: [m] only appends to the trace, and what it does,
    returns and appends does not depend on the trace it finds. *)
Definition trace_blind {A : Type} (m : M A) : Prop :=
  forall wd t,
    match m wd with
    | Some (a, wd') =>
        exists evs,
          trace wd' = trace wd ++ evs /\
          m (set_trace t wd) = Some (a, set_trace (t ++ evs) wd')
    | None => m (set_trace t wd) = None
    end.

(** [returns m Q wd]: started in [wd], [m] returns (no undefined
    behaviour) a value and a world that satisfy [Q]. *)
Definition returns {A : Type} (m : M A) (Q : A -> world -> Prop) (wd : world)
    : Prop :=
  exists a wd', m wd = Some (a, wd') /\ Q a wd'.

(** A frame [do_display] rejects. *)
Definition rejected (pic : picture_t) : Prop :=
  i_chroma (format pic) <> VLC_CODEC_I420 \/ i_planes pic <> 3.

Definition unsupported_format_message : string :=
  "ERR: unsupported picture format: %s\n".

(** The EGL calls of a trace, in order. *)
Fixpoint egl_calls (l : list event) : list egl_call :=
  match l with
  | [] => []
  | Egl c :: l' => c :: egl_calls l'
  | _ :: l' => egl_calls l'
  end.

(** Teardown in the order the specification gives: surface, context,
    display, each only when it is not null. *)
Definition spec_teardown (e : egl_backend_t) : list egl_call :=
  (if egl_surface e =? 0 then []
   else [EglDestroySurface (egl_display e) (egl_surface e)])
  ++ (if egl_context e =? 0 then []
      else [EglDestroyContext (egl_display e) (egl_context e)])
  ++ (if egl_display e =? 0 then [] else [EglTerminate (egl_display e)]).

(** Teardown in the order of the code: context, surface, display. *)
Definition code_teardown (e : egl_backend_t) : list egl_call :=
  (if egl_context e =? 0 then []
   else [EglDestroyContext (egl_display e) (egl_context e)])
  ++ (if egl_surface e =? 0 then []
      else [EglDestroySurface (egl_display e) (egl_surface e)])
  ++ (if egl_display e =? 0 then [] else [EglTerminate (egl_display e)]).

(** The object an EGL teardown call destroys. *)
Definition destroyed (c : egl_call) : Z :=
  match c with
  | EglDestroyContext _ ctx => ctx
  | EglDestroySurface _ surface => surface
  | EglTerminate dpy => dpy
  | EglSwapBuffers _ _ => 1
  end.

(** Example data: an I420 picture of 6x2 visible pixels; the luma plane
    has a pitch of 8 bytes, the chroma planes 3x1 pixels and a pitch of 4. *)
Definition example_bytes (start n : nat) : list Byte.byte :=
  map (fun k => match Byte.of_nat k with Some b => b | None => Byte.x00 end)
      (seq start n).

Definition example_format : video_format_t := mkFormat VLC_CODEC_I420 8 2 6 2.

Definition example_picture : picture_t :=
  mkPicture example_format
    [ mkPlane (example_bytes 0 16) 2 8 1 2 6;
      mkPlane (example_bytes 16 4) 1 4 1 1 3;
      mkPlane (example_bytes 32 4) 1 4 1 1 3 ]
    3.

Definition example_sys (unpack : bool) : vout_display_sys_t :=
  mkSys (mkVd example_format (mkCfg 6 2))
    (mkX11 1 2 (mkRect 0 0 12 12) false)
    (mkEgl 1 2 3)
    (mkGles 7 (mkShader 10 11 12 0 1) (mkShader 20 21 22 0 1)
       [mkTex 31 0; mkTex 32 1; mkTex 33 2] (mkTex 34 0)
       (mkRect 0 4 12 4) unpack).

(** A zero-initialised [gl_shader_t], as [calloc] leaves it in
    [opengl_es2_create]. *)
Definition shader0 : gl_shader_t := mkShader 0 0 0 0 0.

(** The shader program the specification asks for: usable, or absent. *)
Definition program_usable (g : gl_state) (s : gl_shader_t) : Prop :=
  In (Program (program s)) (live g) /\
  In (Shader (vertex s)) (live g) /\
  In (Shader (fragment s)) (live g).

(** A driver that creates program 1 and shaders 2 and 3, compiles both
    shaders, attaches them without error, and then fails to link: link
    status 0, an info log of 17 bytes; the attribute queries on the
    deleted program answer -1. *)
Definition link_failure_world : world :=
  set_answers [1; 2; 1; 3; 1; 0; 0; 0; 17; -1; -1] world0.

(** [n] rows of [line] bytes taken from [pixels], the first at offset
    [src], each [step] bytes after the one before. *)
Fixpoint rows_from (n : nat) (line step src : Z) (pixels : list Byte.byte)
    : list (list Byte.byte) :=
  match n with
  | O => []
  | S n' =>
      firstn (Z.to_nat line) (skipn (Z.to_nat src) pixels)
      :: rows_from n' line step (src + step) pixels
  end.

(** The bytes of a region of [rows] rows, tightly packed. *)
Definition region (line rows step : Z) (pixels : list Byte.byte) : list Byte.byte :=
  List.concat (rows_from (Z.to_nat rows) line step 0 pixels).

(** The visible region of a plane in the layout of libvlc:
    [i_visible_lines] rows of [i_visible_pitch] bytes, [i_pitch] bytes apart. *)
Definition visible_region (pl : plane_t) : list Byte.byte :=
  region (i_visible_pitch pl) (i_visible_lines pl) (i_pitch pl) (p_pixels pl).

(** A plane of two rows of two 2-byte pixels, with a pitch of 8 bytes. *)
Definition wide_pixel_plane : plane_t :=
  mkPlane (example_bytes 0 16) 2 8 2 2 4.

(** [world0] with the unpack alignment set to 1 by whoever created the
    context (the file itself never sets it). *)
Definition byte_aligned_world : world :=
  set_glst
    (mkGl [] 0 0 (fun _ => 0) 0 1 (fun _ => None) (fun _ => 0) (fun _ => Some 0%Q))
    world0.

(** The level 0 images of the three plane textures of [vout]. *)
Definition plane_images (vout : vout_display_sys_t) (wd : world)
    : list (option image) :=
  map (fun t => images (glst wd) (tex_id t)) (tex (gl vout)).

(** The image a plane should end up as: its visible region, row by row. *)
Definition visible_image (pl : plane_t) : image :=
  mkImage (i_visible_pitch pl) (i_visible_lines pl)
    (map (map Some)
       (rows_from (Z.to_nat (i_visible_lines pl)) (i_visible_pitch pl)
          (i_pitch pl) 0 (p_pixels pl))).

(** The GL calls of the direct-stride upload for plane [i]. *)
Definition simple_plane_calls (i : Z) (t : gl_texture_t) (pl : plane_t)
    : list gl_call :=
  [ GlActiveTexture i;
    GlBindTexture GL_TEXTURE_2D (tex_id t);
    GlPixelStorei GL_UNPACK_ROW_LENGTH (Z.quot (i_pitch pl) (i_pixel_pitch pl));
    GlTexImage2D GL_TEXTURE_2D 0 GL_LUMINANCE
      (i_visible_pitch pl) (i_visible_lines pl) 0
      GL_LUMINANCE GL_UNSIGNED_BYTE (map Some (p_pixels pl));
    GlUniform1i (tex_loc t) i ].

(** The GL state after a sequence of commands without results. *)
Definition gl_run (cs : list gl_call) (g : gl_state) : gl_state :=
  fold_left (fun g c => gl_apply c 0 g) cs g.

(** The world after a sequence of GL commands without results. *)
Definition gl_steps (cs : list gl_call) (wd : world) : world :=
  fold_left (fun wd c => gl_step c 0 wd) cs wd.

(** The GL calls of the deinterlace pass that come before the texture
    upload. *)
Definition deint_setup (vout : vout_display_sys_t) (pic : picture_t)
    : list gl_call :=
  let g := gl vout in
  [ GlBindFramebuffer GL_FRAMEBUFFER (framebuffer g);
    GlUseProgram (program (deint g));
    GlViewport 0 0 (i_width (format pic)) (i_height (format pic));
    GlVertexAttribPointer (position_loc (deint g)) 2 GL_FLOAT false 16
      deint_vVertices;
    GlVertexAttribPointer (texcoord_loc (deint g)) 2 GL_FLOAT false 16
      (skipn 2 deint_vVertices);
    GlEnableVertexAttribArray (position_loc (deint g));
    GlEnableVertexAttribArray (texcoord_loc (deint g)) ].

(** The global pixel-store state. *)
Definition pixel_store (g : gl_state) : Z * Z :=
  (unpack_row_length g, unpack_alignment g).

(** *** Further observations and example data, for the properties of the
    code beyond the statements of the specification *)

(** The rectangle lies inside a window of the size of [dst]. *)
Definition inside_window (dst res : rectangle_t) : Prop :=
  0 <= x res /\ 0 <= y res /\ 0 <= width res /\ 0 <= height res /\
  x res + width res <= width dst /\ y res + height res <= height dst.

(** The size carried by the last [ConfigureNotify] of a queue of events. *)
Fixpoint last_configure (q : list XEvent) : option (Z * Z) :=
  match q with
  | [] => None
  | ConfigureNotify width_ height_ :: q' =>
      match last_configure q' with
      | Some s => Some s
      | None => Some (width_, height_)
      end
  | OtherEvent :: q' => last_configure q'
  end.

(** The Xlib calls of [x11_backend_handle_events] when [n] events are
    pending: [XPending] before every event and once more at the end. *)
Fixpoint drain_calls (dpy : Z) (n : nat) : list event :=
  match n with
  | O => [X11 (XPending dpy)]
  | S n' => X11 (XPending dpy) :: X11 (XNextEvent dpy) :: drain_calls dpy n'
  end.

(** [emits P m]: every event [m] appends to the trace satisfies [P]. *)
Definition emits {A : Type} (P : event -> Prop) (m : M A) : Prop :=
  forall wd a wd',
    m wd = Some (a, wd') ->
    exists evs, trace wd' = trace wd ++ evs /\ Forall P evs.




(** The GL calls of [shader_delete]: one deletion for every non-zero id. *)
Definition shader_delete_calls (s : gl_shader_t) : list gl_call :=
  (if vertex s =? 0 then [] else [GlDeleteShader (vertex s)])
  ++ (if fragment s =? 0 then [] else [GlDeleteShader (fragment s)])
  ++ (if program s =? 0 then [] else [GlDeleteProgram (program s)]).

(** The size of a plane as [update_textures_complex] computes it from the
    visible size of the format and the chroma description of the plane. *)
Definition plane_rows (f : video_format_t) (ci : chroma_plane_t) : Z :=
  wrap32 (i_visible_height f * num (h ci)) / den (h ci).

Definition plane_line (f : video_format_t) (ci : chroma_plane_t) : Z :=
  wrap32 (i_visible_width f * num (w ci)) / den (w ci).

(** The GL calls of the compacting upload for plane [i]. *)
Definition complex_plane_calls (i : Z) (t : gl_texture_t) (line rows : Z)
    (buf : list cell) : list gl_call :=
  [ GlActiveTexture i;
    GlBindTexture GL_TEXTURE_2D (tex_id t);
    GlTexImage2D GL_TEXTURE_2D 0 GL_LUMINANCE line rows 0
      GL_LUMINANCE GL_UNSIGNED_BYTE buf;
    GlUniform1i (tex_loc t) i ].

(** What the row loop copies for a plane: [rows] rows of [line] bytes,
    [i_pitch / i_pixel_pitch] bytes apart. *)
Definition packed (f : video_format_t) (ci : chroma_plane_t) (pl : plane_t)
    : list cell :=
  map Some (region (plane_line f ci) (plane_rows f ci)
              (Z.quot (i_pitch pl) (i_pixel_pitch pl)) (p_pixels pl)).

(** The conditions under which the row loop stays inside the plane and
    the temporary buffer. *)
Definition packable (f : video_format_t) (ci : chroma_plane_t) (pl : plane_t)
    : Prop :=
  let line := plane_line f ci in
  let rows := plane_rows f ci in
  let step := Z.quot (i_pitch pl) (i_pixel_pitch pl) in
  0 < den (w ci) /\ 0 < den (h ci) /\
  line * rows < UINT_MOD /\ 0 <= step /\ i_pixel_pitch pl <> 0 /\
  (0 < rows -> (rows - 1) * step + line <= Z.of_nat (List.length (p_pixels pl))).

(** The GL calls of the compacting upload of a three-plane picture. *)
Definition complex_calls (f : video_format_t) (c0 c1 c2 : chroma_plane_t)
    (p0 p1 p2 : plane_t) (t0 t1 t2 : gl_texture_t) : list gl_call :=
  complex_plane_calls 0 t0 (plane_line f c0) (plane_rows f c0) (packed f c0 p0)
  ++ complex_plane_calls 1 t1 (plane_line f c1) (plane_rows f c1) (packed f c1 p1)
  ++ complex_plane_calls 2 t2 (plane_line f c2) (plane_rows f c2) (packed f c2 p2).

(** The look-up of the chroma description: made only while the static is
    still null. *)
Definition chroma_lookup (wd : world) (f : video_format_t) : list event :=
  match static_c wd with
  | Some _ => []
  | None => [Vlc (Vlc_fourcc_GetChromaDescription (i_chroma f))]
  end.

(** The chroma description a call of [update_textures_complex] works
    with: the one in the static, or the one it looks up. *)
Definition cached_chroma (wd : world) (f : video_format_t)
    : option vlc_chroma_description_t :=
  match static_c wd with
  | Some c => Some c
  | None => chroma_table wd (i_chroma f)
  end.

(** The display with another chroma in its format. *)
Definition with_chroma (vout : vout_display_sys_t) (chroma : Z)
    : vout_display_sys_t :=
  let f := fmt (vd vout) in
  mkSys (mkVd (mkFormat chroma (i_width f) (i_height f)
                 (i_visible_width f) (i_visible_height f))
           (cfg (vd vout)))
    (x11 vout) (egl vout) (gl vout).

(** An event other than the look-up of a chroma description. *)
Definition is_no_lookup (e : event) : Prop :=
  match e with
  | Vlc (Vlc_fourcc_GetChromaDescription _) => False
  | _ => True
  end.


(** *** Extension lookup ([gles2.c], lines 859-871)

    A C string is the list of its characters before the terminating NUL;
    a pointer into a string is the rest of the string from there on, and
    the null pointer is [None]. *)

Module CString.
Import Ascii.

Definition NUL : ascii := zero.
Definition SPACE : ascii := " "%char.

(** No character of a C string is NUL. *)
Definition c_string (s : list ascii) : Prop := ~ In NUL s.

(** The character the pointer [s] points to. *)
Definition deref (s : list ascii) : ascii :=
  match s with [] => NUL | c :: _ => c end.

(** [s[n]]; the terminator is the last element of the array, an index
    behind it is undefined. *)
Fixpoint char_at (s : list ascii) (n : nat) : option ascii :=
  match n, s with
  | O, _ => Some (deref s)
  | S n', [] => None
  | S n', _ :: s' => char_at s' n'
  end.

Definition strlen (s : list ascii) : nat := List.length s.

(** [strncmp(a, b, n)]: at most [n] characters are compared, and none
    after a NUL; the result is the difference of the first two characters
    that differ. *)
Fixpoint strncmp (a b : list ascii) (n : nat) : Z :=
  match n with
  | O => 0
  | S n' =>
      let ca := deref a in
      let cb := deref b in
      if eqb ca cb then
        if eqb ca NUL then 0 else strncmp (tl a) (tl b) n'
      else Z.of_nat (nat_of_ascii ca) - Z.of_nat (nat_of_ascii cb)
  end.

(** [strchr(s, c)]: a pointer to the first [c], or null. *)
Fixpoint strchr (s : list ascii) (c : ascii) : option (list ascii) :=
  match s with
  | [] => if eqb c NUL then Some [] else None
  | a :: s' => if eqb a c then Some s else strchr s' c
  end.

(** [memchr(obj, c, n) != NULL] for an array [obj] of at least [n]
    characters. *)
Definition memchr (obj : list ascii) (c : ascii) (n : nat) : option bool :=
  if (n <=? List.length obj)%nat then Some (existsb (eqb c) (firstn n obj))
  else None.

(** The inner loop: the pointer is advanced while it points to a space. *)
Fixpoint skip_spaces (s : list ascii) : list ascii :=
  match s with
  | c :: s' => if eqb c SPACE then skip_spaces s' else s
  | [] => []
  end.

(** The test of one iteration of the outer loop:
    [strncmp(extentions, search, len) == 0 &&
     memchr(" ", extentions[len], 2)]; the string literal is the array of a
    space and its terminator. *)
Definition found_here (e search : list ascii) (len : nat) : option bool :=
  if strncmp e search len =? 0
  then do c <- char_at e len; memchr [SPACE; NUL] c 2
  else Some false.

(** The outer loop, [while (extentions) { ... }], with a bound on the
    number of iterations; the result is [None] for undefined behaviour
    and when the bound is used up. *)
Fixpoint have_extention_loop (fuel : nat) (extentions : option (list ascii))
    (search : list ascii) (len : nat) : option bool :=
  match extentions, fuel with
  | None, _ => Some false
  | Some _, O => None
  | Some e, S fuel' =>
      let e := skip_spaces e in
      do found <- found_here e search len;
      if found then Some true
      else have_extention_loop fuel' (strchr e SPACE) search len
  end.

(** [opengl_have_extention(extentions, search)]: every iteration moves
    the pointer forward, so one iteration per character and one more
    suffice. *)
Definition opengl_have_extention (extentions : option (list ascii))
    (search : list ascii) : option bool :=
  have_extention_loop
    (S (match extentions with Some e => strlen e | None => O end))
    extentions search (strlen search).

(** The words of a string: its maximal runs of characters other than
    spaces.  [cur] is the word read so far, last character first. *)
Fixpoint tokens_from (cur : list ascii) (s : list ascii) : list (list ascii) :=
  match s with
  | [] => match cur with [] => [] | _ => [rev cur] end
  | c :: s' =>
      if eqb c SPACE then
        match cur with
        | [] => tokens_from [] s'
        | _ => rev cur :: tokens_from [] s'
        end
      else tokens_from (c :: cur) s'
  end.

Definition tokens (s : list ascii) : list (list ascii) := tokens_from [] s.

(** An extension string as a driver reports it, and the name the plugin
    looks for. *)
Definition example_extensions : list ascii :=
  list_ascii_of_string
    "GL_OES_rgb8_rgba8 GL_EXT_unpack_subimage2  GL_EXT_unpack_subimage GL_OES_depth24 ".

Definition unpack_subimage : list ascii :=
  list_ascii_of_string "GL_EXT_unpack_subimage".

End CString.

(** A queue of window events, and a display with a picture to show. *)
Definition example_events : list XEvent :=
  [ConfigureNotify 100 50; OtherEvent; ConfigureNotify 640 480].

Definition resized_world : world := set_xqueue example_events world0.

(** A driver that creates shader 5 and compiles it. *)
Definition compiling_world : world := set_answers [5; 1] world0.

(** *** Set-up and tear-down ([gles2.c], lines 194-216, 235-318, 391-473,
    676-690, 833-857, 873-1042, 1079-1107)

    The functions that create and destroy the window, the EGL context and
    the GL objects make calls the rendering code does not make.  They run
    in a second monad, over a world that wraps the world of the rendering
    code: its log holds the events of both kinds in the order in which
    they happen, and it keeps the texture and framebuffer names that are
    in use. *)

Inductive vlc_code : Type := VLC_SUCCESS | VLC_ENOMEM | VLC_EGENERIC.

Inductive GLparam : Type :=
| GL_TEXTURE_MIN_FILTER | GL_TEXTURE_MAG_FILTER | GL_TEXTURE_WRAP_S
| GL_TEXTURE_WRAP_T | GL_NEAREST | GL_LINEAR | GL_CLAMP_TO_EDGE | GL_RGB
| GL_COLOR_ATTACHMENT0 | GL_EXTENSIONS.

Inductive xmask : Type := ExposureMask | StructureNotifyMask | VisibilityChangeMask.

Inductive setup_call : Type :=
(* OpenGL ES *)
| GlGenTextures (n : Z)
| GlTexParameteri (target : GLenum) (pname param : GLparam)
| GlDeleteTextures (names : list Z)
| GlGenFramebuffers (n : Z)
| GlDeleteFramebuffers (names : list Z)
| GlTexImage2D_null (target : GLenum) (level : Z) (internalformat : GLparam)
    (width height border : Z) (format : GLparam) (type : GLenum)
| GlFramebufferTexture2D (target : GLenum) (attachment : GLparam)
    (textarget : GLenum) (texture level : Z)
| GlGetString (name : GLparam)
(* EGL *)
| EglGetDisplay (native : Z)
| EglGetError
| EglInitialize (dpy : Z)
| EglBindAPI
| EglChooseConfig (dpy : Z)
| EglCreateWindowSurface (dpy config win : Z)
| EglCreateContext (dpy config : Z)
| EglMakeCurrent (dpy draw read ctx : Z)
(* Xlib *)
| XOpenDisplay
| XLockDisplay (dpy : Z)
| XUnlockDisplay (dpy : Z)
| XDefaultRootWindow (dpy : Z)
| XSelectInput (dpy win : Z) (mask : list xmask)
| XGetGeometry (dpy win : Z)
| XFlush (dpy : Z)
| XCreateWindow (dpy parent x y width height : Z)
| XSetWindowBackgroundPixmap (dpy win : Z)
| XSetWMHints (dpy win : Z)
| XMapWindow (dpy win : Z)
| XStoreName (dpy win : Z) (name : string)
| XDestroyWindow (dpy win : Z)
| XCloseDisplay (dpy : Z)
(* libvlc and libc *)
| Var_InheritInteger (name : string)
| Picture_pool_NewFromFormat (f : video_format_t) (count : Z)
| Picture_pool_Delete (pool : Z)
| Msg_Err (format : string)
| Calloc (what : string)
| Malloc (what : string).

Inductive sys_event : Type :=
| Render (e : event)        (* an event of the rendering code *)
| Setup (c : setup_call).

(** [inner] is the world of the rendering code, of which the answers of
    the environment and the GL state are shared; its own trace is not
    used, the events go to [log].  [extensions] is the string
    [glGetString(GL_EXTENSIONS)] answers. *)
Record sys_world : Type := mkSysWorld {
  inner : world;
  log : list sys_event;
  textures : list Z;
  framebuffers : list Z;
  extensions : option (list Ascii.ascii)
}.

Definition set_inner (wd : world) (sw : sys_world) : sys_world :=
  mkSysWorld wd (log sw) (textures sw) (framebuffers sw) (extensions sw).
Definition set_log (l : list sys_event) (sw : sys_world) : sys_world :=
  mkSysWorld (inner sw) l (textures sw) (framebuffers sw) (extensions sw).
Definition set_textures (l : list Z) (sw : sys_world) : sys_world :=
  mkSysWorld (inner sw) (log sw) l (framebuffers sw) (extensions sw).
Definition set_framebuffers (l : list Z) (sw : sys_world) : sys_world :=
  mkSysWorld (inner sw) (log sw) (textures sw) l (extensions sw).

Definition SysM (A : Type) : Type := sys_world -> option (A * sys_world).

Definition sret {A : Type} (a : A) : SysM A := fun sw => Some (a, sw).

Definition sbind {A B : Type} (m : SysM A) (k : A -> SysM B) : SysM B :=
  fun sw => match m sw with
            | Some (a, sw') => k a sw'
            | None => None
            end.

Notation "v <~ m ;; k" := (sbind m (fun v => k))
  (at level 61, m at next level, right associativity).
Notation "m ;;> k" := (sbind m (fun _ => k))
  (at level 61, right associativity).

(** A computation of the rendering code, run on the shared world; what
    it writes to the trace goes to the log. *)
Definition lift {A : Type} (m : M A) : SysM A :=
  fun sw =>
    match m (set_trace [] (inner sw)) with
    | Some (a, wd') =>
        Some (a, set_log (log sw ++ map Render (trace wd'))
                   (set_inner (set_trace [] wd') sw))
    | None => None
    end.

(** A call without a result, and a call that answers an integer. *)
Definition call (c : setup_call) : SysM unit :=
  fun sw => Some (tt, set_log (log sw ++ [Setup c]) sw).

Definition ask (c : setup_call) : SysM Z :=
  call c ;;> lift answer.

Definition sfprintf (format : string) : SysM unit := lift (fprintf format).

Definition swhen (b : bool) (m : SysM unit) : SysM unit := if b then m else sret tt.

Definition sundefined {A : Type} : SysM A := fun _ => None.

Definition sdefined {A : Type} (o : option A) : SysM A :=
  match o with Some a => sret a | None => sundefined end.

(** A name the GL hands out is in use until it is deleted; deleting 0 or
    a name that is not in use has no effect. *)
Fixpoint remove_name (n : Z) (l : list Z) : list Z :=
  match l with
  | [] => []
  | m :: l' => if n =? m then l' else m :: remove_name n l'
  end.

Definition remove_names (names l : list Z) : list Z :=
  fold_left (fun l n => remove_name n l) names l.

(** [glGenTextures(1, &v)] and [glGenFramebuffers(1, &v)] for a variable
    that holds [old]: the answer 0 stands for a call that failed and wrote
    nothing. *)
Definition gen_texture (old : Z) : SysM Z :=
  a <~ ask (GlGenTextures 1) ;;
  if a =? 0 then sret old
  else fun sw => Some (a, set_textures (a :: textures sw) sw).

Definition gen_framebuffer (old : Z) : SysM Z :=
  a <~ ask (GlGenFramebuffers 1) ;;
  if a =? 0 then sret old
  else fun sw => Some (a, set_framebuffers (a :: framebuffers sw) sw).

Definition delete_textures (names : list Z) : SysM unit :=
  call (GlDeleteTextures names) ;;>
  fun sw => Some (tt, set_textures (remove_names names (textures sw)) sw).

Definition delete_framebuffers (names : list Z) : SysM unit :=
  call (GlDeleteFramebuffers names) ;;>
  fun sw => Some (tt, set_framebuffers (remove_names names (framebuffers sw)) sw).

(** **** [texture_create] *)

Definition texture_create (type : GLparam) : SysM Z :=
  tex <~ gen_texture 0 ;;
  lift (gl_do (GlBindTexture GL_TEXTURE_2D tex)) ;;>
  call (GlTexParameteri GL_TEXTURE_2D GL_TEXTURE_MIN_FILTER type) ;;>
  call (GlTexParameteri GL_TEXTURE_2D GL_TEXTURE_MAG_FILTER type) ;;>
  call (GlTexParameteri GL_TEXTURE_2D GL_TEXTURE_WRAP_S GL_CLAMP_TO_EDGE) ;;>
  call (GlTexParameteri GL_TEXTURE_2D GL_TEXTURE_WRAP_T GL_CLAMP_TO_EDGE) ;;>
  sret tex.

(** **** [x11_backend_destroy] *)

(** [x] is [None] for a null pointer. *)
Definition x11_backend_destroy (x : option x11_backend_t) : SysM unit :=
  match x with
  | None => sret tt
  | Some x =>
      swhen (negb (window x =? 0))
        (call (XLockDisplay (x11_display x)) ;;>
         (if negb (external x)
          then call (XDestroyWindow (x11_display x) (window x))
          else call (XSelectInput (x11_display x) (window x) [])) ;;>
         call (XUnlockDisplay (x11_display x))) ;;>
      swhen (negb (x11_display x =? 0))
        (call (XCloseDisplay (x11_display x))) ;;>
      lift (emit (Free "x11"))
  end.

(** **** [egl_backend_create] *)

Definition set_egl_display (e : egl_backend_t) (v : Z) : egl_backend_t :=
  mkEgl v (egl_surface e) (egl_context e).
Definition set_egl_surface (e : egl_backend_t) (v : Z) : egl_backend_t :=
  mkEgl (egl_display e) v (egl_context e).
Definition set_egl_context (e : egl_backend_t) (v : Z) : egl_backend_t :=
  mkEgl (egl_display e) (egl_surface e) v.

(** The code after the label [cleanup:]. *)
Definition egl_backend_create_cleanup (e : egl_backend_t)
    : SysM (vlc_code * option egl_backend_t) :=
  lift (egl_backend_destroy (Some e)) ;;>
  sret (VLC_EGENERIC, None).

(** [eglInitialize(dpy, &major, &minor)]: the version is written only
    when the call succeeds; [major] and [minor] start as 0. *)
Definition egl_initialize (dpy : Z) : SysM (Z * Z * Z) :=
  r <~ ask (EglInitialize dpy) ;;
  if r =? 0 then sret (r, 0, 0)
  else major <~ lift answer ;;
       minor <~ lift answer ;;
       sret (r, major, minor).

(** [eglChooseConfig(dpy, cfg_attr, &cfg, 1, &num)]: the result and the
    value of [cfg] after the call. *)
Definition egl_choose_config (dpy : Z) : SysM (Z * Z) :=
  r <~ ask (EglChooseConfig dpy) ;;
  config <~ lift answer ;;
  sret (r, config).

(** [egl_backend_create(&egl, x11)]: the result is the return value and
    what is stored through the first argument ([None]: nothing).
    [garbage] is the content of the memory [malloc] returns: the members
    of [*e] hold it until they are assigned. *)
Definition egl_backend_create (garbage : egl_backend_t) (x : x11_backend_t)
    : SysM (vlc_code * option egl_backend_t) :=
  mem <~ ask (Malloc "egl") ;;
  if mem =? 0 then
    sfprintf "ERR: %s: malloc failed\n" ;;>
    sret (VLC_ENOMEM, None)
  else
    let e := garbage in
    d <~ ask (EglGetDisplay (x11_display x)) ;;
    let e := set_egl_display e d in
    if egl_display e =? 0 then
      ask EglGetError ;;>
      sfprintf "ERR: %s: eglGetDisplay failed: 0x%x\n" ;;>
      egl_backend_create_cleanup e
    else
      v <~ egl_initialize (egl_display e) ;;
      let '(r, major, minor) := v in
      if (r =? 0) || negb (major =? 1) || (minor <? 2) then
        ask EglGetError ;;>
        sfprintf "ERR: %s: eglInitialize failed: %d.%d: 0x%x\n" ;;>
        egl_backend_create_cleanup e
      else
        r <~ ask EglBindAPI ;;
        if r =? 0 then
          ask EglGetError ;;>
          sfprintf "ERR: %s: eglBindAPI failed: 0x%x\n" ;;>
          egl_backend_create_cleanup e
        else
          v <~ egl_choose_config (egl_display e) ;;
          let (r, config) := v in
          if r =? 0 then
            ask EglGetError ;;>
            sfprintf "ERR: %s: eglChooseConfig failed: 0x%x\n" ;;>
            egl_backend_create_cleanup e
          else
            s <~ ask (EglCreateWindowSurface (egl_display e) config (window x)) ;;
            let e := set_egl_surface e s in
            if egl_surface e =? 0 then
              ask EglGetError ;;>
              sfprintf "ERR: %s: eglCreateWindowSurface failed: 0x%x\n" ;;>
              egl_backend_create_cleanup e
            else
              c <~ ask (EglCreateContext (egl_display e) config) ;;
              let e := set_egl_context e c in
              if egl_context e =? 0 then
                ask EglGetError ;;>
                sfprintf "ERR: %s: eglCreateContext failed: 0x%x\n" ;;>
                egl_backend_create_cleanup e
              else
                r <~ ask (EglMakeCurrent (egl_display e) (egl_surface e)
                            (egl_surface e) (egl_context e)) ;;
                if r =? 0 then
                  ask EglGetError ;;>
                  sfprintf "ERR: %s: eglMakeCurrent failed: 0x%x\n" ;;>
                  egl_backend_create_cleanup e
                else sret (VLC_SUCCESS, Some e).

(** The world after a call that answered: the call is in the log, and the
    first answer of the environment is used up. *)
Definition asked (c : setup_call) (sw : sys_world) : sys_world :=
  mkSysWorld (set_answers (tl (answers (inner sw))) (set_trace [] (inner sw)))
    (log sw ++ [Setup c]) (textures sw) (framebuffers sw) (extensions sw).

(** The world after an answer was read, and after events were logged. *)
Definition answered (sw : sys_world) : sys_world :=
  mkSysWorld (set_answers (tl (answers (inner sw))) (set_trace [] (inner sw)))
    (log sw) (textures sw) (framebuffers sw) (extensions sw).

Definition logged (evs : list sys_event) (sw : sys_world) : sys_world :=
  mkSysWorld (set_trace [] (inner sw)) (log sw ++ evs) (textures sw)
    (framebuffers sw) (extensions sw).

(** The events of [egl_backend_destroy] on [e]. *)
Definition teardown_events (e : egl_backend_t) : list sys_event :=
  map (fun c => Render (Egl c)) (code_teardown e)
  ++ [Render (Free "egl"); Render Quirk_close_forgotten_handles].

(** An EGL call that destroys something. *)
Definition is_egl_destroy (e : sys_event) : Prop :=
  match e with
  | Render (Egl (EglDestroyContext _ _))
  | Render (Egl (EglDestroySurface _ _))
  | Render (Egl (EglTerminate _)) => True
  | _ => False
  end.

(** [l] ends with [suffix]. *)
Definition ends_with {A : Type} (l suffix : list A) : Prop :=
  exists pre, l = pre ++ suffix.

(** **** [opengl_es2_destroy], [opengl_es2_create] *)

Definition tex_zero : gl_texture_t := mkTex 0 0.

(** The structure as [calloc] leaves it. *)
Definition gl_zero : opengl_es2_t :=
  mkGles 0 shader0 shader0 [tex_zero; tex_zero; tex_zero] tex_zero rect0 false.

Definition Y_PLANE : Z := 0.
Definition U_PLANE : Z := 1.
Definition V_PLANE : Z := 2.

Definition set_deint (g : opengl_es2_t) (s : gl_shader_t) : opengl_es2_t :=
  mkGles (framebuffer g) s (scale g) (tex g) (rgb_tex g) (viewport g)
    (has_unpack_row g).
Definition set_scale (g : opengl_es2_t) (s : gl_shader_t) : opengl_es2_t :=
  mkGles (framebuffer g) (deint g) s (tex g) (rgb_tex g) (viewport g)
    (has_unpack_row g).
Definition set_tex (g : opengl_es2_t) (t : list gl_texture_t) : opengl_es2_t :=
  mkGles (framebuffer g) (deint g) (scale g) t (rgb_tex g) (viewport g)
    (has_unpack_row g).
Definition set_rgb_tex (g : opengl_es2_t) (t : gl_texture_t) : opengl_es2_t :=
  mkGles (framebuffer g) (deint g) (scale g) (tex g) t (viewport g)
    (has_unpack_row g).
Definition set_framebuffer (g : opengl_es2_t) (fb : Z) : opengl_es2_t :=
  mkGles fb (deint g) (scale g) (tex g) (rgb_tex g) (viewport g)
    (has_unpack_row g).
Definition set_has_unpack_row (g : opengl_es2_t) (b : bool) : opengl_es2_t :=
  mkGles (framebuffer g) (deint g) (scale g) (tex g) (rgb_tex g) (viewport g) b.

(** [a[i] = v] on an array; an index outside of it is undefined. *)
Fixpoint list_set {A : Type} (a : list A) (i : nat) (v : A) : option (list A) :=
  match a, i with
  | [], _ => None
  | _ :: a', O => Some (v :: a')
  | u :: a', S i' => option_map (cons u) (list_set a' i' v)
  end.

(** [gl->tex[i].id = v] and [gl->tex[i].loc = v]. *)
Definition set_tex_id (g : opengl_es2_t) (i v : Z) : SysM opengl_es2_t :=
  t <~ lift (array_get (tex g) i) ;;
  l <~ sdefined (list_set (tex g) (Z.to_nat i) (mkTex v (tex_loc t))) ;;
  sret (set_tex g l).

Definition set_tex_loc (g : opengl_es2_t) (i v : Z) : SysM opengl_es2_t :=
  t <~ lift (array_get (tex g) i) ;;
  l <~ sdefined (list_set (tex g) (Z.to_nat i) (mkTex (tex_id t) v)) ;;
  sret (set_tex g l).

(** [g] is [None] for a null pointer. *)
Definition opengl_es2_destroy (g : option opengl_es2_t) : SysM unit :=
  match g with
  | None => sret tt
  | Some g =>
      let framebuffers := [framebuffer g] in
      ty <~ lift (array_get (tex g) Y_PLANE) ;;
      tu <~ lift (array_get (tex g) U_PLANE) ;;
      tv <~ lift (array_get (tex g) V_PLANE) ;;
      let textures := [tex_id ty; tex_id tu; tex_id tv; tex_id (rgb_tex g)] in
      lift (shader_delete (deint g)) ;;>
      lift (shader_delete (scale g)) ;;>
      delete_textures textures ;;>
      delete_framebuffers framebuffers ;;>
      lift (emit (Free "gl"))
  end.

(** The code after the label [cleanup:] of [opengl_es2_create]. *)
Definition opengl_es2_create_cleanup (g : opengl_es2_t)
    : SysM (vlc_code * option opengl_es2_t) :=
  lift (shader_delete (deint g)) ;;>
  lift (shader_delete (scale g)) ;;>
  lift (emit (Free "gl")) ;;>
  sret (VLC_EGENERIC, None).

(** One plane texture: [gl->tex[i].id = texture_create(GL_NEAREST);
    gl->tex[i].loc = glGetUniformLocation(gl->deint.program, name);] *)
Definition create_plane_texture (g : opengl_es2_t) (i : Z) (name : string)
    : SysM opengl_es2_t :=
  id <~ texture_create GL_NEAREST ;;
  g <~ set_tex_id g i id ;;
  loc <~ lift (gl_ask (GlGetUniformLocation (program (deint g)) name)) ;;
  set_tex_loc g i loc.

(** The name of the extension that allows [GL_UNPACK_ROW_LENGTH]. *)
Definition GL_EXT_unpack_subimage : list Ascii.ascii :=
  list_ascii_of_string "GL_EXT_unpack_subimage".

(** [opengl_es2_create(&p_gl)]: the return value and what is stored
    through the argument.  The block under [#if GL_UNPACK_ROW_LENGTH] is
    compiled in: the file defines the macro as 0x0CF2 when the header does
    not.  Printing a null string with [%s] is undefined. *)
Definition opengl_es2_create : SysM (vlc_code * option opengl_es2_t) :=
  mem <~ ask (Calloc "gl") ;;
  if mem =? 0 then sret (VLC_ENOMEM, None)
  else
    let g := gl_zero in
    r <~ lift (shader_init (deint g) SHADER_TYPE_DEINT_LINEAR) ;;
    let g := set_deint g (snd r) in
    if fst r <? 0 then
      sfprintf "ERR: %s: shader_init(DEINT)\n" ;;>
      opengl_es2_create_cleanup g
    else
      g <~ create_plane_texture g Y_PLANE "s_ytex" ;;
      g <~ create_plane_texture g U_PLANE "s_utex" ;;
      g <~ create_plane_texture g V_PLANE "s_vtex" ;;
      r <~ lift (shader_init (scale g) SHADER_TYPE_COPY) ;;
      let g := set_scale g (snd r) in
      if fst r <? 0 then
        sfprintf "ERR: %s: shader_init(SCALE)\n" ;;>
        opengl_es2_create_cleanup g
      else
        loc <~ lift (gl_ask (GlGetUniformLocation (program (scale g)) "s_tex")) ;;
        let g := set_rgb_tex g (mkTex (tex_id (rgb_tex g)) loc) in
        (* The rest is done when pool is requested *)
        call (GlGetString GL_EXTENSIONS) ;;>
        ext <~ (fun sw => Some (extensions sw, sw)) ;;
        sdefined ext ;;>
        sfprintf "MSG: available extentions:\n   %s\n" ;;>
        has <~ sdefined (CString.opengl_have_extention ext GL_EXT_unpack_subimage) ;;
        let g := set_has_unpack_row g has in
        sfprintf "MSG: have %sunpack_row support\n" ;;>
        sret (VLC_SUCCESS, Some g).

(** **** [do_pool] *)

(** [do_pool(vd, count)]; [pool] is [sys->pool], 0 for a null pointer.
    The result is the display state and [sys->pool] as the call leaves
    them; the function returns the latter. *)
Definition do_pool (sys : vout_display_sys_t) (pool count : Z)
    : SysM (vout_display_sys_t * Z) :=
  if pool =? 0 then
    let g := gl sys in
    pool <~ ask (Picture_pool_NewFromFormat (fmt (vd sys)) count) ;;
    (* create the framebuffer and the corresponding texture *)
    fb <~ gen_framebuffer (framebuffer g) ;;
    let g := set_framebuffer g fb in
    id <~ texture_create GL_LINEAR ;;
    let g := set_rgb_tex g (mkTex id (tex_loc (rgb_tex g))) in
    call (GlTexImage2D_null GL_TEXTURE_2D 0 GL_RGB (i_width (fmt (vd sys)))
            (i_height (fmt (vd sys))) 0 GL_RGB GL_UNSIGNED_BYTE) ;;>
    lift (gl_do (GlBindFramebuffer GL_FRAMEBUFFER (framebuffer g))) ;;>
    call (GlFramebufferTexture2D GL_FRAMEBUFFER GL_COLOR_ATTACHMENT0
            GL_TEXTURE_2D (tex_id (rgb_tex g)) 0) ;;>
    sret (mkSys (vd sys) (x11 sys) (egl sys) g, pool)
  else sret (sys, pool).

(** **** [do_control] *)

(** A query with the argument the caller passes for it. *)
Inductive control_query : Type :=
| VOUT_DISPLAY_HIDE_MOUSE
| VOUT_DISPLAY_CHANGE_FULLSCREEN
| VOUT_DISPLAY_CHANGE_WINDOW_STATE (state : Z)
| VOUT_DISPLAY_CHANGE_DISPLAY_SIZE (cfg : vout_display_cfg_t)
| VOUT_DISPLAY_CHANGE_SOURCE_ASPECT (cfg : vout_display_cfg_t)
| VOUT_DISPLAY_other (query : Z).

Definition change_display_size (vout : vout_display_sys_t)
    (c : vout_display_cfg_t) : SysM (vlc_code * vout_display_sys_t) :=
  sfprintf "MSG: VOUT_DISPLAY_CHANGE_DISPLAY_SIZE\n" ;;>
  v <~ sdefined (compute_bounding_box c (rect (x11 vout)) (viewport (gl vout))) ;;
  sret (VLC_SUCCESS,
        mkSys (vd vout) (x11 vout) (egl vout) (set_viewport (gl vout) v)).

Definition do_control (vout : vout_display_sys_t) (query : control_query)
    : SysM (vlc_code * vout_display_sys_t) :=
  match query with
  | VOUT_DISPLAY_HIDE_MOUSE =>
      sfprintf "MSG: VOUT_DISPLAY_HIDE_MOUSE\n" ;;>
      sret (VLC_SUCCESS, vout)
  | VOUT_DISPLAY_CHANGE_FULLSCREEN =>
      sfprintf "MSG: VOUT_DISPLAY_CHANGE_FULLSCREEN\n" ;;>
      sret (VLC_SUCCESS, vout)
  | VOUT_DISPLAY_CHANGE_WINDOW_STATE _ =>
      sfprintf "MSG: VOUT_DISPLAY_CHANGE_WINDOW_STATE -> state=%d\n" ;;>
      sret (VLC_SUCCESS, vout)
  | VOUT_DISPLAY_CHANGE_DISPLAY_SIZE c => change_display_size vout c
  | VOUT_DISPLAY_CHANGE_SOURCE_ASPECT c => change_display_size vout c
  | VOUT_DISPLAY_other _ =>
      call (Msg_Err "Unsupported query %d in vout display gles2") ;;>
      sret (VLC_EGENERIC, vout)
  end.

(** **** [Close] *)

(** [vd->sys] as [Open] and [Close] see it: the three backends may be
    null, [pool] is 0 for a null pointer. *)
Record plugin_t : Type := mkPlugin {
  plugin_x11 : option x11_backend_t;
  plugin_egl : option egl_backend_t;
  plugin_gl : option opengl_es2_t;
  plugin_pool : Z
}.

Definition Close (sys : plugin_t) : SysM unit :=
  opengl_es2_destroy (plugin_gl sys) ;;>
  lift (egl_backend_destroy (plugin_egl sys)) ;;>
  x11_backend_destroy (plugin_x11 sys) ;;>
  swhen (negb (plugin_pool sys =? 0))
    (call (Picture_pool_Delete (plugin_pool sys))) ;;>
  lift (emit (Free "sys")).

(** Example data: a world in which nothing has happened, and a backend
    as uninitialised memory may hold it. *)
Definition sys_world0 : sys_world := mkSysWorld world0 [] [] [] None.

Definition with_answers (a : list Z) (sw : sys_world) : sys_world :=
  set_inner (set_answers a (inner sw)) sw.

Definition garbage_backend : egl_backend_t := mkEgl 7 8 9.

(** [sw'] is [sw] after the events [evs], with the texture names [gens]
    generated and still in use; no framebuffer name was generated or
    deleted. *)
Definition advances (sw sw' : sys_world) (evs : list sys_event)
    (gens : list Z) : Prop :=
  log sw' = log sw ++ evs /\ textures sw' = gens ++ textures sw /\
  framebuffers sw' = framebuffers sw /\ extensions sw' = extensions sw.

(** The shader and program objects are the same. *)
Definition same_objects (sw sw' : sys_world) : Prop :=
  live (glst (inner sw')) = live (glst (inner sw)).

(** The names among [l] that GL handed out: not 0. *)
Definition handed_out (l : list Z) : list Z :=
  filter (fun n => negb (n =? 0)) l.

(** The events of [texture_create] when [glGenTextures] answers [id]. *)
Definition texture_events (id : Z) (type : GLparam) : list sys_event :=
  [ Setup (GlGenTextures 1);
    Render (Gl (GlBindTexture GL_TEXTURE_2D id));
    Setup (GlTexParameteri GL_TEXTURE_2D GL_TEXTURE_MIN_FILTER type);
    Setup (GlTexParameteri GL_TEXTURE_2D GL_TEXTURE_MAG_FILTER type);
    Setup (GlTexParameteri GL_TEXTURE_2D GL_TEXTURE_WRAP_S GL_CLAMP_TO_EDGE);
    Setup (GlTexParameteri GL_TEXTURE_2D GL_TEXTURE_WRAP_T GL_CLAMP_TO_EDGE) ].

(** An event that deletes no texture. *)
Definition keeps_textures (e : sys_event) : Prop :=
  match e with
  | Setup (GlDeleteTextures _) => False
  | _ => True
  end.

Definition deint_failed : sys_event := Render (Fprintf "ERR: %s: shader_init(DEINT)\n").
Definition scale_failed : sys_event := Render (Fprintf "ERR: %s: shader_init(SCALE)\n").

(** The objects of a shader handle that [shader_init] left alive: both
    shaders, and the program unless linking failed. *)
Definition shader_objects (s : gl_shader_t) (linked : bool) : list gl_object :=
  Shader (fragment s) :: Shader (vertex s)
  :: (if linked then [Program (program s)] else []).


(** The objects [shader_delete] deletes, in its order. *)
Definition shader_handles (s : gl_shader_t) : list gl_object :=
  (if vertex s =? 0 then [] else [Shader (vertex s)])
  ++ (if fragment s =? 0 then [] else [Shader (fragment s)])
  ++ (if program s =? 0 then [] else [Program (program s)]).

Definition remove_objects (os l : list gl_object) : list gl_object :=
  fold_left (fun l o => remove_first o l) os l.

(** No shader, program, texture or framebuffer is in use. *)
Definition nothing_in_use (sw : sys_world) : Prop :=
  live (glst (inner sw)) = [] /\ textures sw = [] /\ framebuffers sw = [].

(** An event that deletes no framebuffer. *)
Definition keeps_framebuffers (e : sys_event) : Prop :=
  match e with
  | Setup (GlDeleteFramebuffers _) => False
  | _ => True
  end.

(** The events of [do_pool] when it allocates: [fb] and [id] are the
    framebuffer and the texture the structure holds afterwards. *)
Definition pool_events (f : video_format_t) (count fb id : Z) : list sys_event :=
  [Setup (Picture_pool_NewFromFormat f count); Setup (GlGenFramebuffers 1)]
  ++ texture_events id GL_LINEAR
  ++ [Setup (GlTexImage2D_null GL_TEXTURE_2D 0 GL_RGB (i_width f) (i_height f)
               0 GL_RGB GL_UNSIGNED_BYTE);
      Render (Gl (GlBindFramebuffer GL_FRAMEBUFFER fb));
      Setup (GlFramebufferTexture2D GL_FRAMEBUFFER GL_COLOR_ATTACHMENT0
               GL_TEXTURE_2D id 0)].

(** The events of [opengl_es2_destroy]. *)
Definition destroy_events (g : opengl_es2_t) (ty tu tv : Z) : list sys_event :=
  map Render (map Gl (shader_delete_calls (deint g)))
  ++ map Render (map Gl (shader_delete_calls (scale g)))
  ++ [Setup (GlDeleteTextures [ty; tu; tv; tex_id (rgb_tex g)]);
      Setup (GlDeleteFramebuffers [framebuffer g]);
      Render (Free "gl")].

(** Example data for the GL objects: a driver that reports
    [CString.example_extensions], and the answers of runs of
    [opengl_es2_create] -- [calloc]; a program with its two shaders, both
    compiled, attached and linked, and the two attribute locations; the
    three plane textures 11, 12, 13 with their uniform locations; the
    second program, or 0 where [glCreateProgram] fails. *)
Definition driver_world (a : list Z) : sys_world :=
  mkSysWorld (set_answers a world0) [] [] [] (Some CString.example_extensions).

Definition shader_answers (prog v f : Z) : list Z :=
  [prog; v; 1; f; 1; 0; 0; 1; 0; 1].

Definition plane_answers : list Z := [11; 0; 12; 1; 13; 2].

Definition create_answers : list Z :=
  [1] ++ shader_answers 1 2 3 ++ plane_answers ++ shader_answers 4 5 6 ++ [0].

Definition scale_fails_answers : list Z :=
  [1] ++ shader_answers 1 2 3 ++ plane_answers ++ [0; 0].

(** [query] is one of the two queries that recompute the viewport, with
    the configuration [c]. *)
Definition resizes (query : control_query) (c : vout_display_cfg_t) : Prop :=
  query = VOUT_DISPLAY_CHANGE_DISPLAY_SIZE c \/
  query = VOUT_DISPLAY_CHANGE_SOURCE_ASPECT c.

(** **** [x11_backend_create] *)

(** libvlc's [vout_window_cfg_t], the members the plugin uses: [x] and
    [y] are of type [int], [width] and [height] of type [unsigned]. *)
Record vout_window_cfg_t : Type := mkWindowCfg {
  window_x : Z;
  window_y : Z;
  window_width : Z;
  window_height : Z
}.

Definition UINT_MAX : Z := UINT_MOD - 1.

Definition x11_zero : x11_backend_t := mkX11 0 0 rect0 false.

Definition set_x11_display (b : x11_backend_t) (v : Z) : x11_backend_t :=
  mkX11 v (window b) (rect b) (external b).
Definition set_window (b : x11_backend_t) (v : Z) : x11_backend_t :=
  mkX11 (x11_display b) v (rect b) (external b).
Definition set_external (b : x11_backend_t) (v : bool) : x11_backend_t :=
  mkX11 (x11_display b) (window b) (rect b) v.

Definition event_masks : list xmask :=
  [ExposureMask; StructureNotifyMask; VisibilityChangeMask].

(** [XGetGeometry(dpy, win, &root, &r.x, &r.y, &r.width, &r.height,
    &border, &depth)]: Xlib writes through the pointers only when the
    request succeeded.  The result is the rectangle after the call; the
    status is not looked at. *)
Definition x_get_geometry (dpy win : Z) (r : rectangle_t) : SysM rectangle_t :=
  status <~ ask (XGetGeometry dpy win) ;;
  if status =? 0 then sret r
  else
    gx <~ lift answer ;;
    gy <~ lift answer ;;
    gw <~ lift answer ;;
    gh <~ lift answer ;;
    sret (mkRect (wrap32 gx) (wrap32 gy) (wrap32 gw) (wrap32 gh)).

(** [x11_backend_create(&x11, cfg, vd)]: the return value and what is
    stored through the first argument.  The answer to
    [var_InheritInteger(vd, "drawable-xid")] is taken as the value of the
    variable [external], of type [Window]; [DefaultRootWindow] is a macro
    of Xlib that reads the root window of the display. *)
Definition x11_backend_create (cfg : vout_window_cfg_t)
    : SysM (vlc_code * option x11_backend_t) :=
  mem <~ ask (Calloc "x11") ;;
  if mem =? 0 then sret (VLC_ENOMEM, None)
  else
    let b := x11_zero in
    let r := mkRect (wrap32 (window_x cfg)) (wrap32 (window_y cfg))
               (window_width cfg) (window_height cfg) in
    let r := if (width r =? UINT_MAX) && (height r =? UINT_MAX)
             then set_height (set_width r 768) 576
             else r in
    let b := set_rect b r in
    ext <~ ask (Var_InheritInteger "drawable-xid") ;;
    let b := if negb (ext =? 0) then set_window (set_external b true) ext
             else b in
    d <~ ask XOpenDisplay ;;
    let b := set_x11_display b d in
    if x11_display b =? 0 then
      sfprintf "ERR: %s: Could not create X display\n" ;;>
      lift (emit (Free "x11")) ;;>
      sret (VLC_EGENERIC, None)
    else
      call (XLockDisplay (x11_display b)) ;;>
      root <~ ask (XDefaultRootWindow (x11_display b)) ;;
      b <~ (if external b then
              call (XSelectInput (x11_display b) (window b) event_masks) ;;>
              g <~ x_get_geometry (x11_display b) (window b) (rect b) ;;
              let b := set_rect b g in
              call (XFlush (x11_display b)) ;;>
              sret b
            else
              w <~ ask (XCreateWindow (x11_display b) root (x (rect b))
                          (y (rect b)) (width (rect b)) (height (rect b))) ;;
              let b := set_window b w in
              call (XSetWindowBackgroundPixmap (x11_display b) (window b)) ;;>
              call (XSetWMHints (x11_display b) (window b)) ;;>
              call (XMapWindow (x11_display b) (window b)) ;;>
              call (XFlush (x11_display b)) ;;>
              call (XStoreName (x11_display b) (window b) "VLC OpenGL ES2") ;;>
              sret b) ;;
      call (XUnlockDisplay (x11_display b)) ;;>
      sret (VLC_SUCCESS, Some b).

(** **** [Open] *)

(** The conversion of the [int64_t] that [var_InheritInteger] returns to
    [int]: the value modulo [2^32], as gcc defines it for a value that
    is out of range. *)
Definition to_int (z : Z) : Z :=
  (z + UINT_MOD / 2) mod UINT_MOD - UINT_MOD / 2.

Definition set_i_chroma (f : video_format_t) (v : Z) : video_format_t :=
  mkFormat v (i_width f) (i_height f) (i_visible_width f) (i_visible_height f).

Definition is_success (c : vlc_code) : bool :=
  match c with VLC_SUCCESS => true | _ => false end.

(** The code after the label [cleanup:] of [Open]. *)
Definition Open_cleanup (sys : plugin_t)
    : SysM (vlc_code * option vout_display_sys_t) :=
  opengl_es2_destroy (plugin_gl sys) ;;>
  lift (egl_backend_destroy (plugin_egl sys)) ;;>
  x11_backend_destroy (plugin_x11 sys) ;;>
  lift (emit (Free "sys")) ;;>
  sret (VLC_EGENERIC, None).

(** [Open(object)] for a display with the format [f] and the
    configuration [vd_cfg], [None] for a null [vd->cfg].  The result is
    the return value and, on success, the state the plugin works with
    from then on: the display with its new chroma, and the three
    backends; [sys->pool] is null.  A null pointer that is dereferenced
    is undefined behaviour. *)
Definition Open (f : video_format_t) (vd_cfg : option vout_display_cfg_t)
    (garbage : egl_backend_t) : SysM (vlc_code * option vout_display_sys_t) :=
  mem <~ ask (Calloc "sys") ;;
  if mem =? 0 then sret (VLC_ENOMEM, None)
  else
    let sys := mkPlugin None None None 0 in
    vx <~ ask (Var_InheritInteger "video-x") ;;
    vy <~ ask (Var_InheritInteger "video-y") ;;
    let cfg :=
      match vd_cfg with
      | Some c => mkWindowCfg (to_int vx) (to_int vy) (display_width c)
                    (display_height c)
      | None => mkWindowCfg (to_int vx) (to_int vy) UINT_MAX UINT_MAX
      end in
    rx <~ x11_backend_create cfg ;;
    let sys := mkPlugin (snd rx) (plugin_egl sys) (plugin_gl sys)
                 (plugin_pool sys) in
    if negb (is_success (fst rx)) then
      sfprintf "ERR: %s: failed to create x11\n" ;;>
      Open_cleanup sys
    else
      b <~ sdefined (plugin_x11 sys) ;;
      re <~ egl_backend_create garbage b ;;
      let sys := mkPlugin (plugin_x11 sys) (snd re) (plugin_gl sys)
                   (plugin_pool sys) in
      if negb (is_success (fst re)) then
        sfprintf "ERR: %s: failed to create egl\n" ;;>
        Open_cleanup sys
      else
        rg <~ opengl_es2_create ;;
        let sys := mkPlugin (plugin_x11 sys) (plugin_egl sys) (snd rg)
                     (plugin_pool sys) in
        if negb (is_success (fst rg)) then
          sfprintf "ERR: %s: failed to create gles2\n" ;;>
          Open_cleanup sys
        else
          c <~ sdefined vd_cfg ;;
          g <~ sdefined (plugin_gl sys) ;;
          e <~ sdefined (plugin_egl sys) ;;
          v <~ sdefined (compute_bounding_box c (rect b) (viewport g)) ;;
          sret (VLC_SUCCESS,
                Some (mkSys (mkVd (set_i_chroma f VLC_CODEC_I420) c) b e
                        (set_viewport g v))).

(** The world after a call without a result. *)
Definition called (c : setup_call) (sw : sys_world) : sys_world :=
  set_log (log sw ++ [Setup c]) sw.

(** The GL objects, the names in use and the extension string are the
    same. *)
Definition keeps_gl (sw sw' : sys_world) : Prop :=
  textures sw' = textures sw /\ framebuffers sw' = framebuffers sw /\
  extensions sw' = extensions sw /\ same_objects sw sw'.

(** The rectangle [x11_backend_create] starts with: the position and the
    size of [cfg], or 768x576 when the size is that of a null [vd->cfg]. *)
Definition window_rect (cfg : vout_window_cfg_t) : rectangle_t :=
  if (window_width cfg =? UINT_MAX) && (window_height cfg =? UINT_MAX)
  then mkRect (wrap32 (window_x cfg)) (wrap32 (window_y cfg)) 768 576
  else mkRect (wrap32 (window_x cfg)) (wrap32 (window_y cfg))
         (window_width cfg) (window_height cfg).

(** The events of a successful [x11_backend_create], for a window of the
    embedding application and for a window of its own. *)
Definition x11_preamble : list sys_event :=
  [Setup (Calloc "x11"); Setup (Var_InheritInteger "drawable-xid");
   Setup XOpenDisplay].

Definition x11_external_events (d w : Z) : list sys_event :=
  x11_preamble
  ++ [Setup (XLockDisplay d); Setup (XDefaultRootWindow d);
      Setup (XSelectInput d w event_masks); Setup (XGetGeometry d w);
      Setup (XFlush d); Setup (XUnlockDisplay d)].

Definition x11_window_events (d root w : Z) (r : rectangle_t) : list sys_event :=
  x11_preamble
  ++ [Setup (XLockDisplay d); Setup (XDefaultRootWindow d);
      Setup (XCreateWindow d root (x r) (y r) (width r) (height r));
      Setup (XSetWindowBackgroundPixmap d w); Setup (XSetWMHints d w);
      Setup (XMapWindow d w); Setup (XFlush d);
      Setup (XStoreName d w "VLC OpenGL ES2"); Setup (XUnlockDisplay d)].

(** The events of [x11_backend_destroy]. *)
Definition x11_teardown (b : x11_backend_t) : list sys_event :=
  (if window b =? 0 then []
   else [Setup (XLockDisplay (x11_display b));
         (if external b
          then Setup (XSelectInput (x11_display b) (window b) [])
          else Setup (XDestroyWindow (x11_display b) (window b)));
         Setup (XUnlockDisplay (x11_display b))])
  ++ (if x11_display b =? 0 then []
      else [Setup (XCloseDisplay (x11_display b))])
  ++ [Render (Free "x11")].

(** The library an event is a call of. *)
Inductive library : Type := LibGL | LibEGL | LibX11 | LibVLC | LibC.

Definition library_of (e : sys_event) : library :=
  match e with
  | Render (Gl _) => LibGL
  | Render (Egl _) => LibEGL
  | Render (X11 _) => LibX11
  | Render (Vlc _) => LibVLC
  | Render (Fprintf _) | Render (Free _)
  | Render Quirk_close_forgotten_handles => LibC
  | Setup (GlGenTextures _) | Setup (GlTexParameteri _ _ _)
  | Setup (GlDeleteTextures _) | Setup (GlGenFramebuffers _)
  | Setup (GlDeleteFramebuffers _) | Setup (GlTexImage2D_null _ _ _ _ _ _ _ _)
  | Setup (GlFramebufferTexture2D _ _ _ _ _) | Setup (GlGetString _) => LibGL
  | Setup (EglGetDisplay _) | Setup EglGetError | Setup (EglInitialize _)
  | Setup EglBindAPI | Setup (EglChooseConfig _)
  | Setup (EglCreateWindowSurface _ _ _) | Setup (EglCreateContext _ _)
  | Setup (EglMakeCurrent _ _ _ _) => LibEGL
  | Setup XOpenDisplay | Setup (XLockDisplay _) | Setup (XUnlockDisplay _)
  | Setup (XDefaultRootWindow _) | Setup (XSelectInput _ _ _)
  | Setup (XGetGeometry _ _) | Setup (XFlush _)
  | Setup (XCreateWindow _ _ _ _ _ _) | Setup (XSetWindowBackgroundPixmap _ _)
  | Setup (XSetWMHints _ _) | Setup (XMapWindow _ _) | Setup (XStoreName _ _ _)
  | Setup (XDestroyWindow _ _) | Setup (XCloseDisplay _) => LibX11
  | Setup (Var_InheritInteger _) | Setup (Picture_pool_NewFromFormat _ _)
  | Setup (Picture_pool_Delete _) | Setup (Msg_Err _) => LibVLC
  | Setup (Calloc _) | Setup (Malloc _) => LibC
  end.

(** [e] is a call of one of the libraries [libs]. *)
Definition uses (libs : list library) (e : sys_event) : Prop :=
  In (library_of e) libs.

(** The events of the teardown of a backend that may be null. *)
Definition gl_teardown (g : option opengl_es2_t) : list sys_event :=
  match g with
  | Some g =>
      destroy_events g (tex_id (nth 0 (tex g) tex_zero))
        (tex_id (nth 1 (tex g) tex_zero)) (tex_id (nth 2 (tex g) tex_zero))
  | None => []
  end.

Definition egl_teardown (e : option egl_backend_t) : list sys_event :=
  match e with Some e => teardown_events e | None => [] end.

Definition x_teardown (b : option x11_backend_t) : list sys_event :=
  match b with Some b => x11_teardown b | None => [] end.

Definition pool_teardown (pool : Z) : list sys_event :=
  if pool =? 0 then [] else [Setup (Picture_pool_Delete pool)].

(** Counting the events of a log. *)
Definition occurrences (f : sys_event -> bool) (l : list sys_event) : nat :=
  List.length (filter f l).

Definition is_lock (e : sys_event) : bool :=
  match e with Setup (XLockDisplay _) => true | _ => false end.

Definition is_unlock (e : sys_event) : bool :=
  match e with Setup (XUnlockDisplay _) => true | _ => false end.

Definition is_destroy_window (e : sys_event) : bool :=
  match e with Setup (XDestroyWindow _ _) => true | _ => false end.

Definition is_create_window (e : sys_event) : bool :=
  match e with Setup (XCreateWindow _ _ _ _ _ _) => true | _ => false end.

(** Example data: the window configuration [Open] passes for a null
    [vd->cfg], and a complete plugin state. *)
Definition null_cfg_window : vout_window_cfg_t := mkWindowCfg 10 20 UINT_MAX UINT_MAX.

Definition example_plugin : plugin_t :=
  mkPlugin (Some (x11 (example_sys true))) (Some (egl (example_sys true)))
    (Some (gl (example_sys true))) 77.

(** [logs P m]: every event [m] appends to the log satisfies [P]. *)
Definition logs {A : Type} (P : sys_event -> Prop) (m : SysM A) : Prop :=
  forall sw a sw',
    m sw = Some (a, sw') ->
    exists evs, log sw' = log sw ++ evs /\ Forall P evs.

(** What [Open] logs before it creates the backends, and what is known
    of the events of a backend that was created, or was not. *)
Definition Open_preamble : list sys_event :=
  [Setup (Calloc "sys"); Setup (Var_InheritInteger "video-x");
   Setup (Var_InheritInteger "video-y")].

Definition x11_created (cfg : vout_window_cfg_t) (b : x11_backend_t)
    (evs : list sys_event) : Prop :=
  x11_display b <> 0 /\
  ((external b = true /\ window b <> 0 /\
    evs = x11_external_events (x11_display b) (window b)) \/
   (external b = false /\ rect b = window_rect cfg /\
    exists root,
      evs = x11_window_events (x11_display b) root (window b) (rect b))).

Definition x11_failed (evs : list sys_event) : Prop :=
  evs = [Setup (Calloc "x11")] \/
  evs = x11_preamble
        ++ [Render (Fprintf "ERR: %s: Could not create X display\n");
            Render (Free "x11")].

Definition egl_created (e : egl_backend_t) (evs : list sys_event) : Prop :=
  egl_display e <> 0 /\ egl_surface e <> 0 /\ egl_context e <> 0 /\
  Forall (uses [LibEGL; LibC]) evs /\
  forall d, In (Setup (EglInitialize d)) evs -> d = egl_display e.

Definition egl_failed (evs : list sys_event) : Prop :=
  Forall (uses [LibEGL; LibC]) evs /\
  forall d, In (Setup (EglInitialize d)) evs ->
            In (Render (Egl (EglTerminate d))) evs.

(** The window configuration [Open] passes to [x11_backend_create]. *)
Definition Open_window (vd_cfg : option vout_display_cfg_t) (vx vy : Z)
    : vout_window_cfg_t :=
  match vd_cfg with
  | Some c => mkWindowCfg (to_int vx) (to_int vy) (display_width c)
                (display_height c)
  | None => mkWindowCfg (to_int vx) (to_int vy) UINT_MAX UINT_MAX
  end.

Definition x11_message : sys_event :=
  Render (Fprintf "ERR: %s: failed to create x11\n").
Definition egl_message : sys_event :=
  Render (Fprintf "ERR: %s: failed to create egl\n").
Definition gles2_message : sys_event :=
  Render (Fprintf "ERR: %s: failed to create gles2\n").


(** Example data: the answers of a run of [Open] in which
    [XOpenDisplay] fails, and of one in which every call succeeds (the
    display 5 with the root window 9 and the window 42; EGL 1.4 with the
    display 6, the configuration 7, the surface 8 and the context 9). *)
Definition display_fails_answers : list Z := [1; 10; 20; 1; 0; 0].

Definition open_answers : list Z :=
  [1; 10; 20] ++ [1; 0; 5; 9; 42] ++ [1; 6; 1; 1; 4; 1; 1; 7; 8; 9; 1]
  ++ create_answers.

(** [Open] gets as far as the three backends, and all three are created. *)
Definition backends_created (garbage : egl_backend_t)
    (vd_cfg : option vout_display_cfg_t) (sw : sys_world) : Prop :=
  exists mem vx vy b e g sw1 sw2 sw3 sw4 sw5 sw6,
    ask (Calloc "sys") sw = Some (mem, sw1) /\ mem <> 0 /\
    ask (Var_InheritInteger "video-x") sw1 = Some (vx, sw2) /\
    ask (Var_InheritInteger "video-y") sw2 = Some (vy, sw3) /\
    x11_backend_create (Open_window vd_cfg vx vy) sw3
    = Some ((VLC_SUCCESS, Some b), sw4) /\
    egl_backend_create garbage b sw4 = Some ((VLC_SUCCESS, Some e), sw5) /\
    opengl_es2_create sw5 = Some ((VLC_SUCCESS, Some g), sw6).
(** ** Part II -- theorems *)

(** *** The trace is write-only *)

Module MonadFacts.

Lemma bind_Some {A B : Type} (m : M A) (k : A -> M B) (wd : world) (r : B * world) :
  bind m k wd = Some r ->
  exists a wd1, m wd = Some (a, wd1) /\ k a wd1 = Some r.
Proof.
  unfold bind. destruct (m wd) as [[a wd1]|]; [|discriminate].
  intros H. now exists a, wd1.
Qed.

Lemma bind_run {A B : Type} (m : M A) (k : A -> M B) (wd wd1 : world) (a : A) :
  m wd = Some (a, wd1) -> bind m k wd = k a wd1.
Proof. intros H. unfold bind. now rewrite H. Qed.

Lemma blind_grows {A : Type} (m : M A) (wd : world) (a : A) (wd' : world) :
  trace_blind m -> m wd = Some (a, wd') ->
  exists evs, trace wd' = trace wd ++ evs.
Proof.
  intros B H. specialize (B wd []). rewrite H in B.
  destruct B as (evs & E & _). now exists evs.
Qed.

Lemma blind_ret {A : Type} (a : A) : trace_blind (ret a).
Proof. intros wd t. cbn. exists []. now rewrite !app_nil_r. Qed.

Lemma blind_undefined {A : Type} : trace_blind (@undefined A).
Proof. intros wd t. reflexivity. Qed.

Lemma blind_bind {A B : Type} (m : M A) (k : A -> M B) :
  trace_blind m -> (forall a, trace_blind (k a)) -> trace_blind (bind m k).
Proof.
  intros Hm Hk wd t. unfold bind. specialize (Hm wd t).
  destruct (m wd) as [[a wd1]|]; [|now rewrite Hm].
  destruct Hm as (e1 & E1 & ->). specialize (Hk a wd1 (t ++ e1)).
  destruct (k a wd1) as [[b wd2]|]; [|exact Hk].
  destruct Hk as (e2 & E2 & ->). exists (e1 ++ e2).
  now rewrite E2, E1, !app_assoc.
Qed.

Lemma blind_emit (e : event) : trace_blind (emit e).
Proof. intros wd t. cbn. now exists [e]. Qed.

Lemma blind_answer : trace_blind answer.
Proof.
  intros wd t. unfold answer. cbn.
  destruct (answers wd); exists []; cbn; now rewrite !app_nil_r.
Qed.

Lemma blind_gl_do (c : gl_call) : trace_blind (gl_do c).
Proof. intros wd t. cbn. now exists [Gl c]. Qed.

Lemma blind_gl_ask (c : gl_call) : trace_blind (gl_ask c).
Proof.
  apply blind_bind; [apply blind_answer|].
  intros a wd t. cbn. now exists [Gl c].
Qed.

Lemma blind_defined {A : Type} (o : option A) : trace_blind (defined o).
Proof. destruct o; [apply blind_ret | apply blind_undefined]. Qed.

Lemma blind_if {A : Type} (b : bool) (m1 m2 : M A) :
  trace_blind m1 -> trace_blind m2 -> trace_blind (if b then m1 else m2).
Proof. now destruct b. Qed.

Lemma blind_for_loop (n : nat) (i : Z) (body : Z -> M unit) :
  (forall j, trace_blind (body j)) -> trace_blind (for_loop n i body).
Proof.
  intros Hb. revert i.
  induction n as [|n IH]; intros i; cbn [for_loop];
    [apply blind_ret | apply blind_bind; auto].
Qed.

Lemma blind_put_xqueue (q : list XEvent) : trace_blind (put_xqueue q).
Proof. intros wd t. cbn. exists []. now rewrite !app_nil_r. Qed.

(** Rules for [returns], one per constructor of the monad. *)
Lemma returns_ret {A : Type} (a : A) (Q : A -> world -> Prop) (wd : world) :
  Q a wd -> returns (ret a) Q wd.
Proof. intros H. now exists a, wd. Qed.

Lemma returns_bind {A B : Type} (m : M A) (k : A -> M B)
    (Q : B -> world -> Prop) (wd : world) :
  returns m (fun a wd1 => returns (k a) Q wd1) wd -> returns (bind m k) Q wd.
Proof.
  intros (a & wd1 & E & b & wd2 & E2 & H).
  exists b, wd2. split; [|exact H]. now rewrite (bind_run _ _ _ _ _ E).
Qed.

Lemma returns_gl_do (c : gl_call) (Q : unit -> world -> Prop) (wd : world) :
  Q tt (gl_step c 0 wd) -> returns (gl_do c) Q wd.
Proof. intros H. now exists tt, (gl_step c 0 wd). Qed.

Lemma returns_gl_ask (c : gl_call) (Q : Z -> world -> Prop) (wd : world) :
  (forall a wd0, glst wd0 = glst wd -> Q a (gl_step c a wd0)) ->
  returns (gl_ask c) Q wd.
Proof.
  intros H. unfold returns, gl_ask, bind, answer.
  destruct (answers wd) as [|a rest].
  - exists 0, (gl_step c 0 wd). split; [reflexivity | now apply H].
  - eexists. eexists. split; [reflexivity | now apply H].
Qed.

Lemma returns_emit (e : event) (Q : unit -> world -> Prop) (wd : world) :
  Q tt (set_trace (trace wd ++ [e]) wd) -> returns (emit e) Q wd.
Proof. intros H. now eexists; eexists. Qed.

Lemma returns_mono {A : Type} (m : M A) (Q Q' : A -> world -> Prop) (wd : world) :
  returns m Q wd -> (forall a wd', Q a wd' -> Q' a wd') -> returns m Q' wd.
Proof. intros (a & wd' & E & H) HQ. exists a, wd'. auto. Qed.

Create HintDb blind.

#[export] Hint Resolve blind_ret blind_undefined blind_emit blind_answer
  blind_gl_do blind_gl_ask blind_defined blind_put_xqueue : blind.

(** Decompose an action into its primitives and discharge each with the
    hint database. *)
Ltac blind_tac :=
  repeat first
    [ solve [auto with blind]
    | apply blind_bind; [|intros ?]
    | apply blind_for_loop; intros ?
    | apply blind_if
    | progress unfold when, fprintf
    | match goal with
      | |- trace_blind (match ?a with _ => _ end) => destruct a
      | |- trace_blind (let (_, _) := ?a in _) => destruct a
      end ].

End MonadFacts.

(** *** Rounding to binary64 *)

Module Binary64Facts.
Import Binary64.

Local Open Scope Q_scope.

Lemma pow2_pos (k : Z) : 0 < 2 ^ k.
Proof. apply Qpower_0_lt. reflexivity. Qed.

Lemma pow2_add (a b : Z) : 2 ^ (a + b) == 2 ^ a * 2 ^ b.
Proof. apply Qpower_plus. discriminate. Qed.

Lemma pow2_succ (a : Z) : 2 ^ (a + 1) == 2 * 2 ^ a.
Proof. rewrite pow2_add. change (2 ^ 1) with 2. ring. Qed.

Lemma pow2_cancel (a : Z) : 2 ^ a * 2 ^ (- a) == 1.
Proof. rewrite <- pow2_add. now replace (a + - a)%Z with 0%Z by lia. Qed.

Lemma pow2_le (a b : Z) : (a <= b)%Z -> 2 ^ a <= 2 ^ b.
Proof. intros H. apply Qpower_le_compat_l; [exact H | discriminate]. Qed.

Lemma pow2_lt (a b : Z) : (a < b)%Z -> 2 ^ a < 2 ^ b.
Proof. intros H. apply Qpower_lt_compat_l; [exact H | reflexivity]. Qed.

Lemma pow2_lt_inv (a b : Z) : 2 ^ a < 2 ^ b -> (a < b)%Z.
Proof. intros H. apply (Qpower_lt_compat_l_inv 2); [exact H | reflexivity]. Qed.

Lemma pow2_inject (a : Z) : (0 <= a)%Z -> inject_Z (2 ^ a) == 2 ^ a.
Proof. intros H. now rewrite Zpower_Qpower. Qed.

Lemma ilog2_spec (x : Q) : 0 < x -> 2 ^ ilog2 x <= x < 2 ^ (ilog2 x + 1).
Proof.
  destruct x as [n d]. intros Hx.
  assert (Hn : (0 < n)%Z) by (unfold Qlt in Hx; simpl in Hx; lia).
  unfold ilog2. cbn [Qnum Qden].
  set (a := Z.log2 n). set (b := Z.log2 (Z.pos d)).
  pose proof (Z.log2_spec n Hn) as [Ha1 Ha2]. fold a in Ha1, Ha2.
  pose proof (Z.log2_spec (Z.pos d) eq_refl) as [Hb1 Hb2]. fold b in Hb1, Hb2.
  assert (Ha0 : (0 <= a)%Z) by apply Z.log2_nonneg.
  assert (Hb0 : (0 <= b)%Z) by apply Z.log2_nonneg.
  set (N := inject_Z n). set (D := inject_Z (Z.pos d)).
  assert (HD : 0 < D) by reflexivity.
  assert (Hx' : n # d == N / D) by apply Qmake_Qdiv.
  assert (HNa : 2 ^ a <= N).
  { rewrite <- pow2_inject by exact Ha0. unfold N. now rewrite <- Zle_Qle. }
  assert (HNa' : N < 2 ^ (a + 1)).
  { rewrite <- pow2_inject by lia. unfold N. now rewrite <- Zlt_Qlt. }
  assert (HDb : 2 ^ b <= D).
  { rewrite <- pow2_inject by exact Hb0. unfold D. now rewrite <- Zle_Qle. }
  assert (HDb' : D < 2 ^ (b + 1)).
  { rewrite <- pow2_inject by lia. unfold D. now rewrite <- Zlt_Qlt. }
  assert (Hup : n # d < 2 ^ (a - b + 1)).
  { rewrite Hx'. apply Qlt_shift_div_r; [exact HD|].
    apply Qlt_le_trans with (2 ^ (a + 1)); [exact HNa'|].
    replace (a + 1)%Z with ((a - b + 1) + b)%Z by lia.
    rewrite pow2_add. apply Qmult_le_l; [apply pow2_pos | exact HDb]. }
  assert (Hlo : 2 ^ (a - b - 1) <= n # d).
  { rewrite Hx'. apply Qle_shift_div_l; [exact HD|].
    apply Qle_trans with (2 ^ a); [|exact HNa].
    replace a with ((a - b - 1) + (b + 1))%Z at 2 by lia.
    rewrite pow2_add. apply Qmult_le_l; [apply pow2_pos|].
    apply Qlt_le_weak, HDb'. }
  destruct (Qle_bool (2 ^ (a - b)) (n # d)) eqn:E.
  - apply Qle_bool_iff in E. split; assumption.
  - assert (E' : n # d < 2 ^ (a - b)).
    { apply Qnot_le_lt. intros H. apply Qle_bool_iff in H. congruence. }
    replace (a - b - 1 + 1)%Z with (a - b)%Z by lia. split; assumption.
Qed.

Lemma ilog2_unique (x : Q) (k : Z) : 2 ^ k <= x < 2 ^ (k + 1) -> ilog2 x = k.
Proof.
  intros [H1 H2].
  assert (Hx : 0 < x) by (eapply Qlt_le_trans; [apply (pow2_pos k) | exact H1]).
  destruct (ilog2_spec x Hx) as [L1 L2].
  assert (k < ilog2 x + 1)%Z
    by (apply pow2_lt_inv; eapply Qle_lt_trans; eassumption).
  assert (ilog2 x < k + 1)%Z
    by (apply pow2_lt_inv; eapply Qle_lt_trans; eassumption).
  lia.
Qed.

Lemma ilog2_mono (x y : Q) : 0 < x -> x <= y -> (ilog2 x <= ilog2 y)%Z.
Proof.
  intros Hx Hxy.
  assert (Hy : 0 < y) by (eapply Qlt_le_trans; eassumption).
  destruct (ilog2_spec x Hx) as [L1 _], (ilog2_spec y Hy) as [_ L2].
  assert (ilog2 x < ilog2 y + 1)%Z; [|lia].
  apply pow2_lt_inv. eapply Qle_lt_trans; [exact L1|].
  eapply Qle_lt_trans; eassumption.
Qed.

(** Case analysis on the comparison inside [rne], with the three outcomes
    turned into order facts. *)
Lemma rne_cases (t : Q) :
  let f := Qfloor t in
  (t - inject_Z f < 1 # 2 /\ rne t = f) \/
  (t - inject_Z f == 1 # 2 /\ rne t = if Z.even f then f else (f + 1)%Z) \/
  (1 # 2 < t - inject_Z f /\ rne t = (f + 1)%Z).
Proof.
  intros f. unfold rne. fold f.
  destruct (t - inject_Z f ?= 1 # 2) eqn:E.
  - right; left. split; [now apply Qeq_alt | reflexivity].
  - left. split; [now apply Qlt_alt | reflexivity].
  - right; right. split; [now apply Qgt_alt in E | reflexivity].
Qed.

Lemma floor_bounds (t : Q) :
  inject_Z (Qfloor t) <= t /\ t < inject_Z (Qfloor t) + 1.
Proof.
  split; [apply Qfloor_le|].
  pose proof (Qlt_floor t) as H. now rewrite inject_Z_plus in H.
Qed.

Lemma rne_floor (t : Q) : (Qfloor t <= rne t <= Qfloor t + 1)%Z.
Proof.
  destruct (rne_cases t) as [[_ ->] | [[_ ->] | [_ ->]]];
    try destruct (Z.even _); lia.
Qed.

Lemma rne_error (t : Q) :
  t - (1 # 2) <= inject_Z (rne t) <= t + (1 # 2).
Proof.
  destruct (floor_bounds t) as [F1 F2].
  destruct (rne_cases t) as [[H ->] | [[H ->] | [H ->]]];
    try destruct (Z.even _); rewrite ?inject_Z_plus;
    change (inject_Z 1) with 1; lra.
Qed.

Lemma rne_integer (t : Q) (n : Z) : t == inject_Z n -> rne t = n.
Proof.
  intros H.
  assert (F : Qfloor t = n) by (rewrite H; apply Qfloor_Z).
  destruct (rne_cases t) as [[_ ->] | [[C _] | [C _]]];
    [exact F | rewrite F in C; lra ..].
Qed.

Lemma rne_mono (s t : Q) : s <= t -> (rne s <= rne t)%Z.
Proof.
  intros Hst.
  pose proof (Qfloor_resp_le _ _ Hst) as Hf.
  pose proof (rne_floor s) as Bs. pose proof (rne_floor t) as Bt.
  destruct (Z.eq_dec (Qfloor s) (Qfloor t)) as [E|]; [|lia].
  destruct (rne_cases s) as [[Hs Rs] | [[Hs Rs] | [Hs Rs]]];
    destruct (rne_cases t) as [[Ht Rt] | [[Ht Rt] | [Ht Rt]]];
    rewrite Rs, Rt; rewrite E in *;
    try destruct (Z.even (Qfloor t)); try lia; lra.
Qed.

Lemma RN_nonpos (x : Q) : x <= 0 -> RN x = 0.
Proof.
  intros H. unfold RN. apply Qle_bool_iff in H. now rewrite H.
Qed.

Lemma RN_pos (x : Q) :
  0 < x -> RN x == inject_Z (rne (x * 2 ^ (- ulp_exp x))) * 2 ^ ulp_exp x.
Proof.
  intros H. unfold RN.
  destruct (Qle_bool x 0) eqn:E.
  - apply Qle_bool_iff in E. lra.
  - apply Qred_correct.
Qed.

(** The scaled significand lies in [2^52, 2^53). *)
Lemma scaled_bounds (x : Q) :
  0 < x -> 2 ^ 52 <= x * 2 ^ (- ulp_exp x) < 2 ^ 53.
Proof.
  intros Hx. destruct (ilog2_spec x Hx) as [L1 L2].
  unfold ulp_exp, prec. set (k := ilog2 x) in *.
  set (e := (- (k - (53 - 1)))%Z).
  pose proof (pow2_pos e) as Hp.
  assert (E52 : 2 ^ 52 == 2 ^ k * 2 ^ e)
    by (rewrite <- pow2_add; now replace (k + e)%Z with 52%Z by lia).
  assert (E53 : 2 ^ 53 == 2 ^ (k + 1) * 2 ^ e)
    by (rewrite <- pow2_add; now replace (k + 1 + e)%Z with 53%Z by lia).
  split.
  - rewrite E52. apply Qmult_le_compat_r; [exact L1 | lra].
  - rewrite E53. apply Qmult_lt_compat_r; [exact Hp | exact L2].
Qed.

Lemma rne_scaled_bounds (x : Q) :
  0 < x -> (2 ^ 52 <= rne (x * 2 ^ (- ulp_exp x)) <= 2 ^ 53)%Z.
Proof.
  intros Hx. destruct (scaled_bounds x Hx) as [B1 B2].
  split.
  - rewrite <- (rne_integer (2 ^ 52) (2 ^ 52)%Z) by reflexivity.
    now apply rne_mono.
  - rewrite <- (rne_integer (2 ^ 53) (2 ^ 53)%Z) by reflexivity.
    apply rne_mono. lra.
Qed.

Lemma RN_nonneg (x : Q) : 0 <= RN x.
Proof.
  destruct (Qlt_le_dec 0 x) as [Hx|Hx].
  - rewrite (RN_pos x Hx).
    apply Qmult_le_0_compat; [|apply Qlt_le_weak, pow2_pos].
    pose proof (rne_scaled_bounds x Hx) as [B _].
    change 0 with (inject_Z 0). rewrite <- Zle_Qle. lia.
  - rewrite (RN_nonpos x Hx). lra.
Qed.

(** Rounding is monotone. *)
Lemma RN_mono (x y : Q) : x <= y -> RN x <= RN y.
Proof.
  intros Hxy.
  destruct (Qlt_le_dec 0 x) as [Hx|Hx];
    [|rewrite (RN_nonpos x Hx); apply RN_nonneg].
  assert (Hy : 0 < y) by lra.
  rewrite (RN_pos x Hx), (RN_pos y Hy).
  pose proof (ilog2_mono x y Hx Hxy) as Hk.
  assert (He : (ulp_exp x <= ulp_exp y)%Z) by (unfold ulp_exp; lia).
  destruct (Z.eq_dec (ulp_exp x) (ulp_exp y)) as [E|NE].
  - rewrite E. apply Qmult_le_compat_r; [|apply Qlt_le_weak, pow2_pos].
    rewrite <- Zle_Qle. apply rne_mono.
    apply Qmult_le_compat_r; [exact Hxy | apply Qlt_le_weak, pow2_pos].
  - pose proof (rne_scaled_bounds x Hx) as [_ Bx].
    pose proof (rne_scaled_bounds y Hy) as [By _].
    apply Qle_trans with (inject_Z (2 ^ 53) * 2 ^ ulp_exp x).
    { apply Qmult_le_compat_r; [|apply Qlt_le_weak, pow2_pos].
      now rewrite <- Zle_Qle. }
    apply Qle_trans with (inject_Z (2 ^ 52) * 2 ^ ulp_exp y).
    { change (inject_Z (2 ^ 53)) with (inject_Z (2 ^ 52) * 2).
      rewrite <- Qmult_assoc, <- pow2_succ.
      apply Qmult_le_l; [reflexivity | apply pow2_le; lia]. }
    apply Qmult_le_compat_r; [|apply Qlt_le_weak, pow2_pos].
    now rewrite <- Zle_Qle.
Qed.

(** The relative error of one rounding is at most [2^-53]. *)
Lemma RN_error (x : Q) :
  0 < x -> x - x * unit_roundoff <= RN x <= x + x * unit_roundoff.
Proof.
  intros Hx. rewrite (RN_pos x Hx).
  set (e := ulp_exp x). set (t := x * 2 ^ (- e)).
  pose proof (rne_error t) as [R1 R2].
  pose proof (scaled_bounds x Hx) as [B1 _]. fold e t in B1.
  pose proof (pow2_pos e) as He. pose proof (pow2_cancel e) as Hc.
  assert (Hx' : x == t * 2 ^ e).
  { unfold t. rewrite <- Qmult_assoc, (Qmult_comm (2 ^ (- e))), Hc. ring. }
  assert (Hu : 2 ^ e * (1 # 2) <= x * unit_roundoff).
  { rewrite Hx'. unfold unit_roundoff.
    change (2 ^ (-53)) with ((1 # 2) * / 2 ^ 52).
    assert (H52 : 0 < 2 ^ 52) by reflexivity.
    set (p := 2 ^ 52) in *. set (q := 2 ^ e) in *.
    assert (Hw : 0 < / p) by now apply Qinv_lt_0_compat.
    assert (Hpw : p * / p == 1) by (apply Qmult_inv_r; lra).
    set (w := / p) in *.
    assert (H0 : 0 <= (t - p) * (q * w))
      by (apply Qmult_le_0_compat; [lra|]; apply Qmult_le_0_compat; lra).
    assert (H1 : q * (p * w) == q) by (rewrite Hpw; ring).
    setoid_replace (t * q * ((1 # 2) * w))
      with ((1 # 2) * ((t - p) * (q * w) + q * (p * w))) by ring.
    rewrite H1. lra. }
  assert (M1 : (t - (1 # 2)) * 2 ^ e <= inject_Z (rne t) * 2 ^ e)
    by (apply Qmult_le_compat_r; [exact R1 | lra]).
  assert (M2 : inject_Z (rne t) * 2 ^ e <= (t + (1 # 2)) * 2 ^ e)
    by (apply Qmult_le_compat_r; [exact R2 | lra]).
  split; rewrite Hx' at 1; lra.
Qed.

Lemma RN_compat (x y : Q) : x == y -> RN x == RN y.
Proof.
  intros H. apply Qle_antisym; apply RN_mono; rewrite H; apply Qle_refl.
Qed.

(** A value whose scaled significand is an integer is not changed. *)
Lemma RN_exact (x : Q) (n : Z) :
  0 < x -> x * 2 ^ (- ulp_exp x) == inject_Z n -> RN x == x.
Proof.
  intros Hx Hn. rewrite (RN_pos x Hx), (rne_integer _ n Hn), <- Hn.
  rewrite <- Qmult_assoc, (Qmult_comm (2 ^ _)), pow2_cancel. ring.
Qed.

(** Every integer below [2^53] is a binary64 value. *)
Lemma RN_inject_Z (n : Z) : (0 <= n < 2 ^ 53)%Z -> RN (inject_Z n) == inject_Z n.
Proof.
  intros [H0 H53].
  destruct (Z.eq_dec n 0) as [->|NZ]; [reflexivity|].
  assert (Hn : (0 < n)%Z) by lia.
  pose proof (Z.log2_spec n Hn) as [L1 L2].
  pose proof (Z.log2_nonneg n) as L0.
  set (k := Z.log2 n) in *.
  assert (k < 53)%Z by (apply (Z.pow_lt_mono_r_iff 2); lia).
  assert (Hk : ilog2 (inject_Z n) = k).
  { apply ilog2_unique. rewrite <- !pow2_inject by lia.
    rewrite <- Zle_Qle, <- Zlt_Qlt. lia. }
  apply (RN_exact _ (n * 2 ^ (52 - k))).
  - change 0 with (inject_Z 0). now rewrite <- Zlt_Qlt.
  - unfold ulp_exp, prec. rewrite Hk.
    replace (- (k - (53 - 1)))%Z with (52 - k)%Z by lia.
    rewrite inject_Z_mult, pow2_inject by lia. reflexivity.
Qed.

(** Rounding is idempotent: the result of [RN] is a binary64 value. *)
Lemma RN_idem (x : Q) : RN (RN x) == RN x.
Proof.
  destruct (Qlt_le_dec 0 x) as [Hx|Hx];
    [|rewrite (RN_nonpos x Hx); reflexivity].
  pose proof (rne_scaled_bounds x Hx) as [B1 B2].
  pose proof (RN_pos x Hx) as E.
  set (e := ulp_exp x) in *. set (m := rne (x * 2 ^ (- e))) in *.
  assert (Hr : 0 < RN x).
  { rewrite E. apply Qmult_lt_0_compat; [|apply pow2_pos].
    change 0 with (inject_Z 0). rewrite <- Zlt_Qlt. lia. }
  pose proof (pow2_pos e) as He.
  destruct (Z.eq_dec m (2 ^ 53)) as [Em|Nm].
  - assert (Hk : ilog2 (RN x) = (53 + e)%Z).
    { apply ilog2_unique. rewrite E, Em.
      replace (53 + e + 1)%Z with (1 + (53 + e))%Z by lia.
      rewrite (pow2_add 1), (pow2_add 53).
      change (inject_Z (2 ^ 53)) with (2 ^ 53). change (2 ^ 1) with 2.
      set (q := 2 ^ 53 * 2 ^ e).
      assert (0 < q) by (apply Qmult_lt_0_compat; [reflexivity | exact He]).
      lra. }
    apply (RN_exact _ (2 ^ 52)); [exact Hr|].
    unfold ulp_exp, prec. rewrite Hk, E, Em.
    replace (- (53 + e - (53 - 1)))%Z with (- e + - 1)%Z by lia.
    rewrite pow2_add, Qmult_assoc, <- (Qmult_assoc _ (2 ^ e)), pow2_cancel.
    reflexivity.
  - assert (Hk : ilog2 (RN x) = (52 + e)%Z).
    { apply ilog2_unique. rewrite E.
      replace (52 + e + 1)%Z with (53 + e)%Z by lia.
      rewrite (pow2_add 52), (pow2_add 53).
      split.
      - apply Qmult_le_compat_r; [|lra].
        change (2 ^ 52) with (inject_Z (2 ^ 52)). now rewrite <- Zle_Qle.
      - apply Qmult_lt_compat_r; [exact He|].
        change (2 ^ 53) with (inject_Z (2 ^ 53)). rewrite <- Zlt_Qlt. lia. }
    apply (RN_exact _ m); [exact Hr|].
    unfold ulp_exp, prec. rewrite Hk, E.
    replace (- (52 + e - (53 - 1)))%Z with (- e)%Z by lia.
    rewrite <- Qmult_assoc, pow2_cancel. ring.
Qed.

(** Error propagation through the two operations of the bounding box:
    a division by a rounded ratio, and a multiplication by one. *)
Section ErrorPropagation.

Variable u : Q.
Hypothesis u_pos : 0 <= u.
Hypothesis u_small : u < 1.

Lemma div_round_bounds (a X r q : Q) :
  0 < a -> 0 < X ->
  X - X * u <= r <= X + X * u ->
  a / r - a / r * u <= q <= a / r + a / r * u ->
  a / X * ((1 - u) / (1 + u)) <= q <= a / X * ((1 + u) / (1 - u)).
Proof.
  intros Ha HX [R1 R2] [Q1 Q2].
  assert (Hr : 0 < r) by nra.
  set (t := a / r) in *. set (H := a / X).
  assert (Ht : t * r == a) by (unfold t; field; lra).
  assert (HH : H * X == a) by (unfold H; field; lra).
  assert (Ht0 : 0 < t) by (unfold t; apply Qlt_shift_div_l; lra).
  assert (HH0 : 0 < H) by (unfold H; apply Qlt_shift_div_l; lra).
  assert (U1 : t * (1 - u) <= H).
  { assert (t * (X - X * u) <= t * r) by (apply Qmult_le_l; auto).
    assert (0 <= X * (H - t * (1 - u))) by nra.
    nra. }
  assert (U2 : H <= t * (1 + u)).
  { assert (t * r <= t * (X + X * u)) by (apply Qmult_le_l; auto).
    assert (0 <= X * (t * (1 + u) - H)) by nra.
    nra. }
  split.
  - apply Qle_trans with (t - t * u); [|exact Q1].
    setoid_replace (H * ((1 - u) / (1 + u))) with (H * (1 - u) / (1 + u))
      by (field; lra).
    apply Qle_shift_div_r; [lra|]. nra.
  - apply Qle_trans with (t + t * u); [exact Q2|].
    setoid_replace (H * ((1 + u) / (1 - u))) with (H * (1 + u) / (1 - u))
      by (field; lra).
    apply Qle_shift_div_l; [lra|]. nra.
Qed.

Lemma mul_round_bounds (d X r q : Q) :
  0 < d -> 0 < X ->
  X - X * u <= r <= X + X * u ->
  d * r - d * r * u <= q <= d * r + d * r * u ->
  d * X * ((1 - u) * (1 - u)) <= q <= d * X * ((1 + u) * (1 + u)).
Proof.
  intros Hd HX [R1 R2] [Q1 Q2].
  assert (D1 : d * (X - X * u) <= d * r) by (apply Qmult_le_l; auto).
  assert (D2 : d * r <= d * (X + X * u)) by (apply Qmult_le_l; auto).
  split; nra.
Qed.

End ErrorPropagation.

Lemma unit_roundoff_range : 0 <= unit_roundoff /\ unit_roundoff < 1.
Proof. split; [discriminate | reflexivity]. Qed.

Lemma div_unsigned (a b : Z) :
  b <> 0%Z ->
  div (of_unsigned a) (of_unsigned b) = DFin (RN (inject_Z a / inject_Z b)).
Proof.
  intros Hb. unfold div, of_unsigned.
  destruct (Qeq_bool (inject_Z b) 0) eqn:E; [|reflexivity].
  apply Qeq_bool_iff in E. unfold Qeq in E. simpl in E. lia.
Qed.

Lemma RN_pos_pos (x : Q) : 0 < x -> 0 < RN x.
Proof.
  intros Hx. destruct (RN_error x Hx) as [E _].
  assert (x * unit_roundoff < x * 1)
    by (apply Qmult_lt_l; [exact Hx | reflexivity]).
  lra.
Qed.

End Binary64Facts.

(** *** Geometry: [compute_bounding_box] *)

Module GeometryFacts.
Import Binary64 Binary64Facts.

Local Open Scope Q_scope.

Lemma inject_pos (n : Z) : (0 < n < UINT_MOD)%Z -> 0 < inject_Z n < 4294967296.
Proof.
  intros [H1 H2]. change 0 with (inject_Z 0).
  change 4294967296 with (inject_Z UINT_MOD).
  now rewrite <- !Zlt_Qlt.
Qed.

Lemma ratio_pos (a b : Z) :
  (0 < a < UINT_MOD)%Z -> (0 < b < UINT_MOD)%Z -> 0 < inject_Z a / inject_Z b.
Proof.
  intros Ha Hb. apply inject_pos in Ha, Hb.
  apply Qlt_shift_div_l; lra.
Qed.

Lemma RN_unsigned (n : Z) : (0 < n < UINT_MOD)%Z -> RN (inject_Z n) == inject_Z n.
Proof.
  intros [H1 H2]. apply RN_inject_Z.
  assert (UINT_MOD < 2 ^ 53)%Z by reflexivity. lia.
Qed.

Section Branches.

Variables sw sh dw dh : Z.
Hypothesis Hsw : (0 < sw < UINT_MOD)%Z.
Hypothesis Hsh : (0 < sh < UINT_MOD)%Z.
Hypothesis Hdw : (0 < dw < UINT_MOD)%Z.
Hypothesis Hdh : (0 < dh < UINT_MOD)%Z.

Notation "'SW'" := (inject_Z sw).
Notation "'SH'" := (inject_Z sh).
Notation "'DW'" := (inject_Z dw).
Notation "'DH'" := (inject_Z dh).
Notation "'src_ratio'" := (RN (SW / SH)).
Notation "'dst_ratio'" := (RN (DW / DH)).

(** The comparison of the rounded ratios says on which side of the exact
    destination ratio the rounded source ratio lies. *)
Lemma gt_exact : dst_ratio < src_ratio -> DW / DH <= src_ratio /\ DW / DH < SW / SH.
Proof.
  intros H. split.
  - apply Qnot_lt_le. intros C.
    apply Qlt_le_weak, RN_mono in C. rewrite RN_idem in C. lra.
  - apply Qnot_le_lt. intros C. apply RN_mono in C. lra.
Qed.

Lemma lt_exact : src_ratio < dst_ratio -> src_ratio <= DW / DH /\ SW / SH < DW / DH.
Proof.
  intros H. split.
  - apply Qnot_lt_le. intros C.
    apply Qlt_le_weak, RN_mono in C. rewrite RN_idem in C. lra.
  - apply Qnot_le_lt. intros C. apply RN_mono in C. lra.
Qed.

(** The constants of the error analysis, computed once. *)
Lemma roundoff_div :
  0 < (1 # 2 ^ 51) /\
  4294967296 * (1 # 2 ^ 51) == 1 # 2 ^ 19 /\
  (1 + unit_roundoff) / (1 - unit_roundoff) <= 1 + (1 # 2 ^ 51) /\
  1 - (1 # 2 ^ 51) <= (1 - unit_roundoff) / (1 + unit_roundoff).
Proof. repeat split; vm_compute; first [reflexivity | discriminate]. Qed.

Lemma roundoff_mul :
  (1 + unit_roundoff) * (1 + unit_roundoff) <= 1 + (1 # 2 ^ 51) /\
  1 - (1 # 2 ^ 51) <= (1 - unit_roundoff) * (1 - unit_roundoff).
Proof. repeat split; vm_compute; first [reflexivity | discriminate]. Qed.

Lemma tolerance_split (v e : Q) (n : Z) :
  inject_Z n <= v -> v < inject_Z n + 1 ->
  e - (1 # 2 ^ 19) < v -> v < e + (1 # 2 ^ 19) ->
  Qabs (inject_Z n - e) < pixel_tolerance.
Proof.
  intros F1 F2 E1 E2. apply Qabs_Qlt_condition.
  unfold pixel_tolerance. set (e19 := 1 # 2 ^ 19) in *. split; lra.
Qed.

(** Source wider than the destination: the height is computed. *)
Lemma branch_wide :
  dst_ratio < src_ratio ->
  let h := Qfloor (RN (DW / src_ratio)) in
  (0 <= h <= dh)%Z /\ Qabs (inject_Z h - DW * SH / SW) < pixel_tolerance.
Proof.
  intros Hgt h.
  destruct (gt_exact Hgt) as [G1 G2].
  pose proof (inject_pos sw Hsw) as Psw. pose proof (inject_pos sh Hsh) as Psh.
  pose proof (inject_pos dw Hdw) as Pdw. pose proof (inject_pos dh Hdh) as Pdh.
  pose proof (ratio_pos sw sh Hsw Hsh) as PX.
  pose proof (ratio_pos dw dh Hdw Hdh) as PV.
  pose proof (RN_pos_pos _ PX) as Pr.
  assert (Pq : 0 < DW / src_ratio) by (apply Qlt_shift_div_l; lra).
  assert (Hle : DW / src_ratio <= DH).
  { apply Qle_shift_div_r; [exact Pr|].
    assert (DH * (DW / DH) <= DH * src_ratio) by (apply Qmult_le_l; lra).
    assert (DH * (DW / DH) == DW) by (field; lra). lra. }
  assert (Hq : RN (DW / src_ratio) <= DH).
  { rewrite <- (RN_unsigned dh Hdh). now apply RN_mono. }
  pose proof (floor_bounds (RN (DW / src_ratio))) as [F1 F2]. fold h in F1, F2.
  pose proof (RN_nonneg (DW / src_ratio)) as Q0.
  split.
  - split.
    + change 0%Z with (Qfloor (inject_Z 0)). now apply Qfloor_resp_le.
    + rewrite <- (Qfloor_Z dh). now apply Qfloor_resp_le.
  - destruct unit_roundoff_range as [U0 U1].
    pose proof (div_round_bounds unit_roundoff U0 U1 DW (SW / SH) src_ratio
                  (RN (DW / src_ratio)) (proj1 Pdw) PX (RN_error _ PX)
                  (RN_error _ Pq)) as [B1 B2].
    set (H := DW / (SW / SH)) in *.
    assert (EH : H == DW * SH / SW) by (unfold H; field; lra).
    assert (HH : 0 < H < 4294967296).
    { split; [unfold H; apply Qlt_shift_div_l; lra|].
      assert (E1 : H * (SW / SH) == DW) by (unfold H; field; lra).
      assert (E2 : DH * (DW / DH) == DW) by (field; lra).
      assert (H < DH); [|lra].
      apply Qnot_le_lt. intros C.
      assert (DH * (DW / DH) < DH * (SW / SH)) by (apply Qmult_lt_l; lra).
      assert (DH * (SW / SH) <= H * (SW / SH))
        by (apply Qmult_le_compat_r; lra).
      lra. }
    destruct roundoff_div as (E0 & E1 & K1 & K2).
    set (e51 := 1 # 2 ^ 51) in *. set (e19 := 1 # 2 ^ 19) in *.
    assert (M1 : H * ((1 + unit_roundoff) / (1 - unit_roundoff))
                 <= H * (1 + e51)) by (apply Qmult_le_l; lra).
    assert (M2 : H * (1 - e51)
                 <= H * ((1 - unit_roundoff) / (1 + unit_roundoff)))
      by (apply Qmult_le_l; lra).
    assert (T : H * e51 < 4294967296 * e51)
      by (apply Qmult_lt_compat_r; lra).
    rewrite <- EH.
    apply (tolerance_split (RN (DW / src_ratio))); fold e19; lra.
Qed.

(** Source narrower than the destination: the width is computed. *)
Lemma branch_tall :
  src_ratio < dst_ratio ->
  let w := Qfloor (RN (DH * src_ratio)) in
  (0 <= w <= dw)%Z /\ Qabs (inject_Z w - DH * SW / SH) < pixel_tolerance.
Proof.
  intros Hlt w.
  destruct (lt_exact Hlt) as [G1 G2].
  pose proof (inject_pos sw Hsw) as Psw. pose proof (inject_pos sh Hsh) as Psh.
  pose proof (inject_pos dw Hdw) as Pdw. pose proof (inject_pos dh Hdh) as Pdh.
  pose proof (ratio_pos sw sh Hsw Hsh) as PX.
  pose proof (ratio_pos dw dh Hdw Hdh) as PV.
  pose proof (RN_pos_pos _ PX) as Pr.
  assert (EV : DH * (DW / DH) == DW) by (field; lra).
  assert (Pq : 0 < DH * src_ratio) by (apply Qmult_lt_0_compat; lra).
  assert (Hle : DH * src_ratio <= DW).
  { assert (DH * src_ratio <= DH * (DW / DH)) by (apply Qmult_le_l; lra). lra. }
  assert (Hq : RN (DH * src_ratio) <= DW).
  { rewrite <- (RN_unsigned dw Hdw). now apply RN_mono. }
  pose proof (floor_bounds (RN (DH * src_ratio))) as [F1 F2]. fold w in F1, F2.
  pose proof (RN_nonneg (DH * src_ratio)) as Q0.
  split.
  - split.
    + change 0%Z with (Qfloor (inject_Z 0)). now apply Qfloor_resp_le.
    + rewrite <- (Qfloor_Z dw). now apply Qfloor_resp_le.
  - destruct unit_roundoff_range as [U0 U1].
    pose proof (mul_round_bounds unit_roundoff U0 U1 DH (SW / SH) src_ratio
                  (RN (DH * src_ratio)) (proj1 Pdh) PX (RN_error _ PX)
                  (RN_error _ Pq)) as [B1 B2].
    set (W := DH * (SW / SH)) in *.
    assert (EW : W == DH * SW / SH) by (unfold W; field; lra).
    assert (HW : 0 < W < 4294967296).
    { split; [unfold W; apply Qmult_lt_0_compat; lra|].
      assert (W < DH * (DW / DH)) by (unfold W; apply Qmult_lt_l; lra).
      lra. }
    destruct roundoff_div as (E0 & E1 & _ & _).
    destruct roundoff_mul as (K1 & K2).
    set (e51 := 1 # 2 ^ 51) in *. set (e19 := 1 # 2 ^ 19) in *.
    assert (M1 : W * ((1 + unit_roundoff) * (1 + unit_roundoff))
                 <= W * (1 + e51)) by (apply Qmult_le_l; lra).
    assert (M2 : W * (1 - e51)
                 <= W * ((1 - unit_roundoff) * (1 - unit_roundoff)))
      by (apply Qmult_le_l; lra).
    assert (T : W * e51 < 4294967296 * e51)
      by (apply Qmult_lt_compat_r; lra).
    rewrite <- EW.
    apply (tolerance_split (RN (DH * src_ratio))); fold e19; lra.
Qed.

(** The rounded ratios are equal: the destination is returned as it is. *)
Lemma branch_equal :
  src_ratio == dst_ratio ->
  Qabs (DH - DW * SH / SW) < pixel_tolerance.
Proof.
  intros Heq.
  pose proof (inject_pos sw Hsw) as Psw. pose proof (inject_pos sh Hsh) as Psh.
  pose proof (inject_pos dw Hdw) as Pdw. pose proof (inject_pos dh Hdh) as Pdh.
  pose proof (ratio_pos sw sh Hsw Hsh) as PX.
  pose proof (ratio_pos dw dh Hdw Hdh) as PV.
  destruct (RN_error _ PX) as [X1 X2]. destruct (RN_error _ PV) as [V1 V2].
  destruct unit_roundoff_range as [U0 U1].
  set (X := SW / SH) in *. set (V := DW / DH) in *.
  set (H := DW * SH / SW).
  assert (EH : H * X == DW) by (unfold H, X; field; lra).
  assert (EV : DH * V == DW) by (unfold V; field; lra).
  assert (PH : 0 < H) by (unfold H; apply Qlt_shift_div_l; nra).
  set (u := unit_roundoff) in *.
  assert (A1 : V * (1 - u) <= X * (1 + u)) by lra.
  assert (A2 : X * (1 - u) <= V * (1 + u)) by lra.
  assert (B1 : H * (1 - u) <= DH * (1 + u)).
  { assert (T1 : H * DH * (V * (1 - u)) <= H * DH * (X * (1 + u)))
      by (apply Qmult_le_l; [apply Qmult_lt_0_compat; lra | exact A1]).
    assert (T2 : H * DH * (V * (1 - u)) == DW * (H * (1 - u)))
      by (rewrite <- EV; ring).
    assert (T3 : H * DH * (X * (1 + u)) == DW * (DH * (1 + u)))
      by (rewrite <- EH; ring).
    rewrite T2, T3 in T1. apply Qmult_le_l in T1; lra. }
  assert (B2 : DH * (1 - u) <= H * (1 + u)).
  { assert (T1 : H * DH * (X * (1 - u)) <= H * DH * (V * (1 + u)))
      by (apply Qmult_le_l; [apply Qmult_lt_0_compat; lra | exact A2]).
    assert (T2 : H * DH * (X * (1 - u)) == DW * (DH * (1 - u)))
      by (rewrite <- EH; ring).
    assert (T3 : H * DH * (V * (1 + u)) == DW * (H * (1 + u)))
      by (rewrite <- EV; ring).
    rewrite T2, T3 in T1. apply Qmult_le_l in T1; lra. }
  destruct roundoff_div as (E0 & E1 & K1 & K2). fold u in K1, K2.
  set (e51 := 1 # 2 ^ 51) in *. set (e19 := 1 # 2 ^ 19) in *.
  assert (C1 : H <= DH * (1 + e51)).
  { apply Qle_trans with (DH * ((1 + u) / (1 - u))); [|apply Qmult_le_l; lra].
    setoid_replace (DH * ((1 + u) / (1 - u))) with (DH * (1 + u) / (1 - u))
      by (field; lra).
    apply Qle_shift_div_l; lra. }
  assert (C2 : DH * (1 - e51) <= H).
  { apply Qle_trans with (DH * ((1 - u) / (1 + u))); [apply Qmult_le_l; lra|].
    setoid_replace (DH * ((1 - u) / (1 + u))) with (DH * (1 - u) / (1 + u))
      by (field; lra).
    apply Qle_shift_div_r; lra. }
  assert (T : DH * e51 < 4294967296 * e51)
    by (apply Qmult_lt_compat_r; lra).
  apply Qabs_Qlt_condition. unfold pixel_tolerance. fold e19. split; lra.
Qed.

End Branches.

Local Close Scope Q_scope.

Lemma to_unsigned_floor (q : Q) (b : Z) :
  (0 <= Qfloor q <= b)%Z -> (b < UINT_MOD)%Z ->
  to_unsigned (DFin q) = Some (Qfloor q).
Proof.
  intros [H0 H1] Hb. unfold to_unsigned.
  destruct (Z.leb_spec 0 (Qfloor q)); [|lia].
  destruct (Z.ltb_spec (Qfloor q) UINT_MOD); [reflexivity | lia].
Qed.

Lemma half_centered (d n : Z) :
  (0 <= n <= d)%Z -> (d < UINT_MOD)%Z ->
  (Z.abs (wrap32 (d - n) / 2 + n / 2 - d / 2) <= 1)%Z.
Proof.
  intros Hn Hd. unfold wrap32. rewrite Z.mod_small by lia.
  pose proof (Z.div_mod (d - n) 2 ltac:(lia)).
  pose proof (Z.div_mod n 2 ltac:(lia)).
  pose proof (Z.div_mod d 2 ltac:(lia)).
  pose proof (Z.mod_pos_bound (d - n) 2 ltac:(lia)).
  pose proof (Z.mod_pos_bound n 2 ltac:(lia)).
  pose proof (Z.mod_pos_bound d 2 ltac:(lia)).
  lia.
Qed.

(** The three branches put together: the function is defined on positive
    sizes, and its result is described branch by branch. *)
Ltac rect_simpl :=
  unfold keeps_aspect, set_x, set_y, set_width, set_height;
  cbn [x y width height display_width display_height].

Lemma compute_bounding_box_cases (sw sh dw dh dx dy : Z) (res0 : rectangle_t) :
  positive_size sw sh -> positive_size dw dh ->
  exists res,
    compute_bounding_box (mkCfg sw sh) (mkRect dx dy dw dh) res0 = Some res /\
    fits_inside (mkRect dx dy dw dh) res /\
    keeps_aspect (mkCfg sw sh) (mkRect dx dy dw dh) res /\
    centered (mkRect dx dy dw dh) res.
Proof.
  intros [Hsw Hsh] [Hdw Hdh].
  unfold compute_bounding_box. cbn [display_width display_height width height].
  rewrite !div_unsigned by lia.
  set (rs := RN (inject_Z sw / inject_Z sh)).
  set (rd := RN (inject_Z dw / inject_Z dh)).
  assert (Prs : (0 < rs)%Q) by (apply RN_pos_pos, ratio_pos; assumption).
  unfold lt, gt.
  destruct (Qle_bool rs rd) eqn:E1; cbn [negb].
  - destruct (Qle_bool rd rs) eqn:E2; cbn [negb].
    + (* equal ratios *)
      apply Qle_bool_iff in E1, E2.
      assert (Heq : (rs == rd)%Q) by now apply Qle_antisym.
      eexists. split; [reflexivity|]. split; [|split].
      * unfold fits_inside; rect_simpl. lia.
      * left. rect_simpl. split; [reflexivity|].
        now apply (branch_equal sw sh dw dh).
      * unfold centered; rect_simpl. rewrite ?Z.add_0_l, !Z.sub_diag. simpl. lia.
    + (* source narrower *)
      assert (Hlt : (rs < rd)%Q).
      { apply Qnot_le_lt. intros C. apply Qle_bool_iff in C. congruence. }
      destruct (branch_tall sw sh dw dh Hsw Hsh Hdw Hdh Hlt) as [Hw Ha].
      fold rs in Hw, Ha.
      unfold mul, of_unsigned.
      rewrite (to_unsigned_floor _ dw) by (assumption || lia).
      cbn [obind]. eexists. split; [reflexivity|]. split; [|split].
      * unfold fits_inside; rect_simpl. lia.
      * right. rect_simpl. split; [reflexivity | exact Ha].
      * unfold centered; rect_simpl. split; [apply half_centered; lia|].
        rewrite ?Z.add_0_l, Z.sub_diag. simpl. lia.
  - (* source wider *)
    assert (Hgt : (rd < rs)%Q).
    { apply Qnot_le_lt. intros C. apply Qle_bool_iff in C. congruence. }
    destruct (branch_wide sw sh dw dh Hsw Hsh Hdw Hdh Hgt) as [Hh Ha].
    fold rs in Hh, Ha.
    unfold div at 1. unfold of_unsigned.
    destruct (Qeq_bool rs 0) eqn:E0; [apply Qeq_bool_iff in E0; lra|].
    rewrite (to_unsigned_floor _ dh) by (assumption || lia).
    cbn [obind]. eexists. split; [reflexivity|]. split; [|split].
    + unfold fits_inside; rect_simpl. lia.
    + left. rect_simpl. split; [reflexivity | exact Ha].
    + unfold centered; rect_simpl. split; [|apply half_centered; lia].
      rewrite ?Z.add_0_l, Z.sub_diag. simpl. lia.
Qed.

(** C1 -- For every source display size and destination window size with
    positive width and height, [compute_bounding_box] returns a rectangle
    that fits inside the destination, keeps the source aspect ratio up to
    the rounding tolerance, and is centered within one pixel; and for the
    source 1920x1080 and the destination 800x800 the result is
    {width 800, height 450, x 0, y 175}. *)
Theorem compute_bounding_box_spec (cfg : vout_display_cfg_t) (dst res0 : rectangle_t) :
  positive_size (display_width cfg) (display_height cfg) ->
  positive_size (width dst) (height dst) ->
  (exists res,
      compute_bounding_box cfg dst res0 = Some res /\
      fits_inside dst res /\ keeps_aspect cfg dst res /\ centered dst res) /\
  compute_bounding_box (mkCfg 1920 1080) (mkRect 0 0 800 800) res0
  = Some (mkRect 0 175 800 450).
Proof.
  intros Hs Hd. split.
  - destruct cfg as [sw sh], dst as [dx dy dw dh].
    now apply compute_bounding_box_cases.
  - destruct res0. vm_compute. reflexivity.
Qed.

Lemma compute_bounding_box_spec_witness :
  (exists res,
      compute_bounding_box (mkCfg 4 3) (mkRect 0 0 100 100) rect0 = Some res /\
      fits_inside (mkRect 0 0 100 100) res /\
      keeps_aspect (mkCfg 4 3) (mkRect 0 0 100 100) res /\
      centered (mkRect 0 0 100 100) res) /\
  compute_bounding_box (mkCfg 1920 1080) (mkRect 0 0 800 800) rect0
  = Some (mkRect 0 175 800 450).
Proof.
  apply (compute_bounding_box_spec (mkCfg 4 3) (mkRect 0 0 100 100) rect0);
    unfold positive_size, UINT_MOD, UINT_BITS; simpl; lia.
Defined.

(** Definedness of the two conversions to [unsigned], without assuming
    that the sizes are positive. *)
Lemma wide_defined (X : Q) (dw dh : Z) :
  (0 <= dw < UINT_MOD)%Z -> (0 < dh < UINT_MOD)%Z ->
  (RN (inject_Z dw / inject_Z dh) < RN X)%Q ->
  (0 <= Qfloor (RN (inject_Z dw / RN X)) <= dh)%Z.
Proof.
  intros Hdw Hdh Hgt.
  pose proof (inject_pos dh Hdh) as Pdh.
  pose proof (RN_nonneg (inject_Z dw / inject_Z dh)) as P0.
  assert (Pr : (0 < RN X)%Q) by lra.
  assert (G1 : (inject_Z dw / inject_Z dh <= RN X)%Q).
  { apply Qnot_lt_le. intros C.
    apply Qlt_le_weak, RN_mono in C. rewrite RN_idem in C. lra. }
  assert (Hle : (inject_Z dw / RN X <= inject_Z dh)%Q).
  { apply Qle_shift_div_r; [exact Pr|].
    assert (inject_Z dh * (inject_Z dw / inject_Z dh) <= inject_Z dh * RN X)%Q
      by (apply Qmult_le_l; lra).
    assert (inject_Z dh * (inject_Z dw / inject_Z dh) == inject_Z dw)%Q
      by (field; lra).
    lra. }
  assert (Hq : (RN (inject_Z dw / RN X) <= inject_Z dh)%Q).
  { rewrite <- (RN_unsigned dh Hdh). now apply RN_mono. }
  pose proof (RN_nonneg (inject_Z dw / RN X)) as Q0.
  split.
  - change 0%Z with (Qfloor (inject_Z 0)). now apply Qfloor_resp_le.
  - rewrite <- (Qfloor_Z dh). now apply Qfloor_resp_le.
Qed.

Lemma tall_defined (X : Q) (dw dh : Z) :
  (0 <= dw < UINT_MOD)%Z -> (0 < dh < UINT_MOD)%Z ->
  (RN X < RN (inject_Z dw / inject_Z dh))%Q ->
  (0 <= Qfloor (RN (inject_Z dh * RN X)) <= dw)%Z.
Proof.
  intros Hdw Hdh Hlt.
  pose proof (inject_pos dh Hdh) as Pdh.
  assert (Pdw : (0 < dw)%Z).
  { destruct (Z.eq_dec dw 0) as [->|]; [|lia].
    pose proof (RN_nonneg X).
    rewrite (RN_nonpos (inject_Z 0 / inject_Z dh)) in Hlt; [lra|].
    unfold Qdiv. rewrite Qmult_0_l. apply Qle_refl. }
  assert (G1 : (RN X <= inject_Z dw / inject_Z dh)%Q).
  { apply Qnot_lt_le. intros C.
    apply Qlt_le_weak, RN_mono in C. rewrite RN_idem in C. lra. }
  assert (Hle : (inject_Z dh * RN X <= inject_Z dw)%Q).
  { assert (inject_Z dh * RN X <= inject_Z dh * (inject_Z dw / inject_Z dh))%Q
      by (apply Qmult_le_l; lra).
    assert (inject_Z dh * (inject_Z dw / inject_Z dh) == inject_Z dw)%Q
      by (field; lra).
    lra. }
  assert (Hq : (RN (inject_Z dh * RN X) <= inject_Z dw)%Q).
  { rewrite <- (RN_unsigned dw) by lia. now apply RN_mono. }
  pose proof (RN_nonneg (inject_Z dh * RN X)) as Q0.
  split.
  - change 0%Z with (Qfloor (inject_Z 0)). now apply Qfloor_resp_le.
  - rewrite <- (Qfloor_Z dw). now apply Qfloor_resp_le.
Qed.

Lemma div_unsigned_zero (a : Z) :
  div (of_unsigned a) (of_unsigned 0) = if (a =? 0)%Z then DNaN else DInf.
Proof. destruct a; reflexivity. Qed.

(** The function never runs into undefined behaviour: every conversion of
    a [double] to [unsigned] is in range, whatever the sizes are. *)
Lemma compute_bounding_box_total (cfg : vout_display_cfg_t) (dst res0 : rectangle_t) :
  is_unsigned (display_width cfg) -> is_unsigned (display_height cfg) ->
  is_unsigned (width dst) -> is_unsigned (height dst) ->
  exists res, compute_bounding_box cfg dst res0 = Some res.
Proof.
  destruct cfg as [sw sh], dst as [dx dy dw dh]. unfold is_unsigned.
  cbn [display_width display_height width height].
  intros Hsw Hsh Hdw Hdh.
  unfold compute_bounding_box. cbn [display_width display_height width height].
  destruct (Z.eq_dec sh 0) as [->|Nsh].
  - (* source height 0: the source ratio is NaN or +infinity *)
    rewrite (div_unsigned_zero sw).
    destruct (sw =? 0)%Z; [destruct (div _ _); cbn; eauto|].
    destruct (Z.eq_dec dh 0) as [->|Ndh].
    + rewrite (div_unsigned_zero dw). destruct (dw =? 0)%Z; cbn; eauto.
    + rewrite (div_unsigned dw dh Ndh). cbn. eauto.
  - rewrite (div_unsigned sw sh Nsh).
    destruct (Z.eq_dec dh 0) as [->|Ndh].
    + (* destination height 0 *)
      rewrite (div_unsigned_zero dw). destruct (dw =? 0)%Z; [cbn; eauto|].
      cbn [gt lt negb mul of_unsigned].
      rewrite RN_nonpos by (rewrite Qmult_0_l; apply Qle_refl).
      cbn. eauto.
    + rewrite (div_unsigned dw dh Ndh). unfold lt, gt.
      set (X := (inject_Z sw / inject_Z sh)%Q).
      destruct (Qle_bool (RN X) _) eqn:E1; cbn [negb].
      * destruct (Qle_bool _ (RN X)) eqn:E2; cbn [negb]; [eauto|].
        assert (Hlt : (RN X < RN (inject_Z dw / inject_Z dh))%Q).
        { apply Qnot_le_lt. intros C. apply Qle_bool_iff in C. congruence. }
        unfold mul, of_unsigned.
        rewrite (to_unsigned_floor _ dw);
          [cbn [obind]; eauto | apply tall_defined; [lia | lia | exact Hlt] | lia].
      * assert (Hgt : (RN (inject_Z dw / inject_Z dh) < RN X)%Q).
        { apply Qnot_le_lt. intros C. apply Qle_bool_iff in C. congruence. }
        pose proof (RN_nonneg (inject_Z dw / inject_Z dh)).
        unfold div, of_unsigned.
        destruct (Qeq_bool (RN X) 0) eqn:E0; [apply Qeq_bool_iff in E0; lra|].
        rewrite (to_unsigned_floor _ dh);
          [cbn [obind]; eauto | apply wide_defined; [lia | lia | exact Hgt] | lia].
Qed.

Lemma compute_bounding_box_overwrites (cfg : vout_display_cfg_t)
    (dst res0 res0' : rectangle_t) :
  compute_bounding_box cfg dst res0 = compute_bounding_box cfg dst res0'.
Proof.
  unfold compute_bounding_box.
  destruct (gt _ _); [|destruct (lt _ _)];
    try destruct (to_unsigned _); reflexivity.
Qed.

(** C9 -- [compute_bounding_box] is a pure function of the source size and
    the destination rectangle: what the output rectangle held before the
    call has no influence on the result, a second call with the same
    inputs (finding the first result behind the output pointer) returns
    the same rectangle again, and for all unsigned sizes a result is
    returned. *)
Theorem compute_bounding_box_pure (cfg : vout_display_cfg_t)
    (dst res0 res0' : rectangle_t) :
  is_unsigned (display_width cfg) -> is_unsigned (display_height cfg) ->
  is_unsigned (width dst) -> is_unsigned (height dst) ->
  exists res,
    compute_bounding_box cfg dst res0 = Some res /\
    compute_bounding_box cfg dst res0' = Some res /\
    compute_bounding_box_twice cfg dst res0 = Some (res, res).
Proof.
  intros H1 H2 H3 H4.
  destruct (compute_bounding_box_total cfg dst res0 H1 H2 H3 H4) as [res E].
  exists res. split; [exact E|]. split.
  - now rewrite (compute_bounding_box_overwrites cfg dst res0' res0).
  - unfold compute_bounding_box_twice. rewrite E. cbn [obind].
    rewrite (compute_bounding_box_overwrites cfg dst res res0), E.
    reflexivity.
Qed.

Lemma compute_bounding_box_pure_witness :
  exists res,
    compute_bounding_box (mkCfg 4 3) (mkRect 0 0 100 100) rect0 = Some res /\
    compute_bounding_box (mkCfg 4 3) (mkRect 0 0 100 100) (mkRect 7 7 7 7)
    = Some res /\
    compute_bounding_box_twice (mkCfg 4 3) (mkRect 0 0 100 100) rect0
    = Some (res, res).
Proof.
  apply (compute_bounding_box_pure (mkCfg 4 3) (mkRect 0 0 100 100));
    unfold is_unsigned, UINT_MOD, UINT_BITS; simpl; lia.
Defined.

End GeometryFacts.

(** *** Resource context teardown: [egl_backend_destroy] *)

Module TeardownFacts.

Lemma spec_order_refuted :
  exists wd',
    egl_backend_destroy (Some (mkEgl 1 2 3)) world0 = Some (tt, wd') /\
    egl_calls (trace wd') <> spec_teardown (mkEgl 1 2 3).
Proof.
  eexists. split; [vm_compute; reflexivity|]. vm_compute. discriminate.
Qed.

Lemma code_teardown_nonnull (e : egl_backend_t) :
  Forall (fun c => destroyed c <> 0) (code_teardown e).
Proof.
  unfold code_teardown.
  apply Forall_app; split; [|apply Forall_app; split];
    match goal with
    | |- Forall _ (if ?a =? 0 then _ else _) =>
        destruct (Z.eqb_spec a 0); constructor; cbn; auto
    end.
Qed.

(** C8 (amended) -- Resource-context teardown destroys the context first,
    then the surface, then the display, in that order; for every
    combination of null members it completes and destroys no null object;
    and for a null backend pointer it does nothing. *)
Theorem egl_backend_destroy_order (e : egl_backend_t) (wd : world) :
  egl_backend_destroy (Some e) wd
  = Some (tt, set_trace (trace wd ++ map Egl (code_teardown e)
                           ++ [Free "egl"; Quirk_close_forgotten_handles]) wd)
  /\ Forall (fun c => destroyed c <> 0) (code_teardown e)
  /\ egl_backend_destroy None wd = Some (tt, wd).
Proof.
  split; [|split; [apply code_teardown_nonnull | reflexivity]].
  destruct e as [d s c].
  unfold egl_backend_destroy, code_teardown, when, bind, emit, ret.
  cbn [egl_display egl_surface egl_context].
  destruct (c =? 0), (s =? 0), (d =? 0); cbn [negb];
    unfold set_trace; cbn [trace answers glst xqueue chroma_table static_c map app];
    rewrite <- ?app_assoc; reflexivity.
Qed.

End TeardownFacts.

(** *** Shader programs: [shader_init] *)

Module ShaderFacts.

Lemma gl_object_eqb_refl (o : gl_object) : gl_object_eqb o o = true.
Proof. destruct o; cbn; apply Z.eqb_refl. Qed.

Lemma remove_first_head (o : gl_object) (l : list gl_object) :
  remove_first o (o :: l) = l.
Proof. cbn. now rewrite gl_object_eqb_refl. Qed.

Lemma gl_object_eqb_sym (a b : gl_object) : gl_object_eqb a b = gl_object_eqb b a.
Proof. destruct a, b; cbn; auto using Z.eqb_sym. Qed.

(** Two objects created one after the other and deleted in the order of
    their creation. *)
Lemma remove_first_two (a b : gl_object) (l : list gl_object) :
  remove_first b (remove_first a (b :: a :: l)) = l.
Proof.
  cbn [remove_first]. destruct (gl_object_eqb a b) eqn:E.
  - cbn [remove_first]. now rewrite gl_object_eqb_sym, E.
  - rewrite gl_object_eqb_refl. apply remove_first_head.
Qed.

(** Symbolic execution of a [returns] goal: [returns_ask a w H] runs a
    command with a result, [returns_run] everything up to the next one. *)
Ltac returns_run :=
  repeat match goal with
    | |- returns (bind (gl_ask _) _) _ _ => fail 1
    | |- returns (bind _ _) _ _ => apply MonadFacts.returns_bind
    | |- returns (gl_do _) _ _ => apply MonadFacts.returns_gl_do
    | |- returns (emit _) _ _ => apply MonadFacts.returns_emit
    | |- returns (ret _) _ _ => apply MonadFacts.returns_ret
    | |- returns (fprintf _) _ _ => unfold fprintf
    | |- returns (when _ _) _ _ => unfold when
    end.

Ltac returns_ask a w H :=
  match goal with
  | |- returns (bind (gl_ask _) _) _ _ =>
      apply MonadFacts.returns_bind; apply MonadFacts.returns_gl_ask
  | |- returns (gl_ask _) _ _ => apply MonadFacts.returns_gl_ask
  end;
  intros a w H.

Ltac live_simpl :=
  cbn [gl_step glst set_glst set_trace trace gl_apply live set_live].

Ltac live_simpl_in H :=
  cbn [gl_step glst set_glst set_trace trace gl_apply live set_live] in H.

(** [shader_load_source] leaves the objects alone when it answers 0, and
    has created exactly the shader it answers otherwise. *)
Lemma shader_load_source_live (src : shader_text) (type : GLenum) (wd : world) :
  returns (shader_load_source src type)
    (fun s wd' =>
       (s = 0 /\ live (glst wd') = live (glst wd)) \/
       (s <> 0 /\ live (glst wd') = Shader s :: live (glst wd)))
    wd.
Proof.
  unfold shader_load_source. returns_ask s w0 H0.
  destruct (Z.eqb_spec s 0) as [->|Ns].
  - returns_run. left. live_simpl. now rewrite H0.
  - apply Z.eqb_neq in Ns.
    returns_run. returns_ask compiled w1 H1. live_simpl_in H1.
    rewrite Ns, H0 in H1.
    destruct (compiled =? 0).
    + returns_ask len w2 H2. live_simpl_in H2. rewrite H1 in H2.
      destruct (0 <? len); returns_run; left; (split; [reflexivity|]);
        live_simpl; rewrite H2; live_simpl; apply remove_first_head.
    + returns_run. right. apply Z.eqb_neq in Ns. split; [exact Ns|].
      live_simpl. rewrite H1. reflexivity.
Qed.

(** [shader_load]: on failure at most the vertex shader is left, on
    success both shaders exist. *)
Lemma shader_load_live (pr : Z) (type : shader_types) (wd : world) :
  returns (shader_load (mkShader pr 0 0 0 0) type)
    (fun r wd' =>
       (r = (-1, mkShader pr 0 0 0 0) /\ live (glst wd') = live (glst wd)) \/
       (exists v, v <> 0 /\ r = (-1, mkShader pr v 0 0 0) /\
                  live (glst wd') = Shader v :: live (glst wd)) \/
       (exists v f, v <> 0 /\ f <> 0 /\ r = (0, mkShader pr v f 0 0) /\
                    live (glst wd') = Shader f :: Shader v :: live (glst wd)))
    wd.
Proof.
  unfold shader_load. apply MonadFacts.returns_bind.
  eapply MonadFacts.returns_mono; [apply shader_load_source_live|].
  intros v w1 [[-> L1] | [Nv L1]]; cbn [vertex set_vertex].
  - cbn [Z.eqb]. returns_run. left. split; [reflexivity|].
    cbn [set_trace glst]. exact L1.
  - apply Z.eqb_neq in Nv. rewrite Nv. apply Z.eqb_neq in Nv.
    apply MonadFacts.returns_bind.
    eapply MonadFacts.returns_mono; [apply shader_load_source_live|].
    intros f w2 [[-> L2] | [Nf L2]]; cbn [fragment set_fragment].
    + cbn [Z.eqb]. returns_run. right. left. exists v.
      split; [exact Nv|]. split; [reflexivity|].
      cbn [set_trace glst]. now rewrite L2, L1.
    + apply Z.eqb_neq in Nf. rewrite Nf. apply Z.eqb_neq in Nf.
      returns_run. right. right. exists v, f.
      repeat split; try assumption. now rewrite L2, L1.
Qed.

(** The code after [failure:], for the handles that can reach it. *)
Lemma shader_init_failure_live (pr v f : Z) (l : list gl_object) (wd : world) :
  pr <> 0 ->
  (v = 0 /\ f = 0 /\ live (glst wd) = Program pr :: l) \/
  (v <> 0 /\ f = 0 /\ live (glst wd) = Shader v :: Program pr :: l) \/
  (v <> 0 /\ f <> 0 /\ live (glst wd) = Shader f :: Shader v :: Program pr :: l) ->
  returns (shader_init_failure (mkShader pr v f 0 0))
    (fun r wd' => r = (-1, shader0) /\ live (glst wd') = l) wd.
Proof.
  intros Np H. unfold shader_init_failure, shader_delete.
  returns_ask e w0 H0. returns_run.
  cbn [vertex fragment program set_vertex set_fragment set_program].
  apply Z.eqb_neq in Np.
  destruct H as [(-> & -> & L) | [(Nv & -> & L) | (Nv & Nf & L)]].
  - cbn [Z.eqb negb]. returns_run.
    cbn [vertex fragment program set_vertex set_fragment set_program Z.eqb negb].
    returns_run.
    cbn [vertex fragment program set_vertex set_fragment set_program].
    rewrite Np. cbn [negb]. returns_run. split; [reflexivity|].
    live_simpl. rewrite H0. live_simpl. rewrite L. apply remove_first_head.
  - apply Z.eqb_neq in Nv. rewrite Nv. cbn [negb]. returns_run.
    cbn [vertex fragment program set_vertex set_fragment set_program Z.eqb negb].
    returns_run.
    cbn [vertex fragment program set_vertex set_fragment set_program].
    rewrite Np. cbn [negb]. returns_run. split; [reflexivity|].
    live_simpl. rewrite H0. live_simpl. rewrite L.
    now rewrite !remove_first_head.
  - apply Z.eqb_neq in Nv, Nf. rewrite Nv. cbn [negb]. returns_run.
    cbn [vertex fragment program set_vertex set_fragment set_program].
    rewrite Nf. cbn [negb]. returns_run.
    cbn [vertex fragment program set_vertex set_fragment set_program].
    rewrite Np. cbn [negb]. returns_run. split; [reflexivity|].
    live_simpl. rewrite H0. live_simpl. rewrite L.
    now rewrite remove_first_two, remove_first_head.
Qed.

(** All outcomes of [shader_init] on a zeroed handle.  A failure that is
    reported leaves no object behind and a zeroed handle; success is
    reported with the complete program, or -- after a link failure -- with
    both shaders alive and the program deleted. *)
Lemma shader_init_outcomes (type : shader_types) (wd : world) :
  returns (shader_init shader0 type)
    (fun r wd' =>
       (r = (-1, shader0) /\ live (glst wd') = live (glst wd)) \/
       (fst r = 0 /\
        (live (glst wd')
         = Shader (fragment (snd r)) :: Shader (vertex (snd r))
           :: Program (program (snd r)) :: live (glst wd) \/
         live (glst wd')
         = Shader (fragment (snd r)) :: Shader (vertex (snd r))
           :: live (glst wd))))
    wd.
Proof.
  unfold shader_init. returns_ask pr w0 H0.
  cbn [program set_program shader0].
  destruct (Z.eqb_spec pr 0) as [->|Np].
  - returns_ask e w1 H1. returns_run. left. split; [reflexivity|].
    live_simpl. rewrite H1. live_simpl. now rewrite H0.
  - assert (L0 : live (glst (gl_step GlCreateProgram pr w0))
                 = Program pr :: live (glst wd)).
    { live_simpl. apply Z.eqb_neq in Np. rewrite Np. cbn. now rewrite H0. }
    set (w1 := gl_step GlCreateProgram pr w0) in *. clearbody w1.
    apply MonadFacts.returns_bind.
    eapply MonadFacts.returns_mono; [apply (shader_load_live pr)|].
    intros r w2 [(-> & L) | [(v & Nv & -> & L) | (v & f & Nv & Nf & -> & L)]];
      cbn [Z.ltb Z.compare].
    + returns_run.
      eapply MonadFacts.returns_mono;
        [apply (shader_init_failure_live pr 0 0 (live (glst wd))); auto|].
      * left. repeat split. cbn [set_trace glst]. now rewrite L, L0.
      * cbn beta. intros r w3 [-> L3]. left. auto.
    + returns_run.
      eapply MonadFacts.returns_mono;
        [apply (shader_init_failure_live pr v 0 (live (glst wd))); auto|].
      * right. left. repeat split; auto. cbn [set_trace glst]. now rewrite L, L0.
      * cbn beta. intros r w3 [-> L3]. left. auto.
    + cbn [program vertex fragment]. returns_run. returns_ask e1 w3 H3.
      live_simpl_in H3.
      destruct (e1 =? GL_NO_ERROR); cbn [negb].
      2: { returns_run.
           eapply MonadFacts.returns_mono;
             [apply (shader_init_failure_live pr v f (live (glst wd))); auto|].
           - right. right. repeat split; auto. live_simpl.
             now rewrite H3, L, L0.
           - cbn beta. intros r w4 [-> L4]. left. auto. }
      returns_run. returns_ask e2 w4 H4. live_simpl_in H4.
      destruct (e2 =? GL_NO_ERROR); cbn [negb].
      2: { returns_run.
           eapply MonadFacts.returns_mono;
             [apply (shader_init_failure_live pr v f (live (glst wd))); auto|].
           - right. right. repeat split; auto. live_simpl.
             now rewrite H4, H3, L, L0.
           - cbn beta. intros r w5 [-> L5]. left. auto. }
      returns_run. returns_ask linked w5 H5. live_simpl_in H5.
      assert (L5 : live (glst w5)
                   = Shader f :: Shader v :: Program pr :: live (glst wd))
        by now rewrite H5, H4, H3, L, L0.
      destruct (linked =? 0).
      * returns_run. returns_ask len w6 H6. live_simpl_in H6.
        assert (L6 : live (glst w6)
                     = Shader f :: Shader v :: Program pr :: live (glst wd))
          by now rewrite H6.
        assert (D : remove_first (Program pr)
                      (Shader f :: Shader v :: Program pr :: live (glst wd))
                    = Shader f :: Shader v :: live (glst wd)).
        { cbn [remove_first gl_object_eqb]. now rewrite Z.eqb_refl. }
        destruct (0 <? len); returns_run.
        -- returns_ask ploc w7 H7. returns_ask tloc w8 H8. returns_run.
           right. split; [reflexivity|]. right.
           cbn [snd program vertex fragment set_position_loc set_texcoord_loc].
           live_simpl. rewrite H8. live_simpl. rewrite H7. live_simpl.
           rewrite L6, D. now destruct (_ || _).
        -- returns_ask ploc w7 H7. returns_ask tloc w8 H8. returns_run.
           right. split; [reflexivity|]. right.
           cbn [snd program vertex fragment set_position_loc set_texcoord_loc].
           live_simpl. rewrite H8. live_simpl. rewrite H7. live_simpl.
           rewrite L6, D. now destruct (_ || _).
      * returns_run. returns_ask ploc w7 H7. returns_ask tloc w8 H8. returns_run.
        right. split; [reflexivity|]. left.
        cbn [snd program vertex fragment set_position_loc set_texcoord_loc].
        live_simpl. rewrite H8. live_simpl. rewrite H7. live_simpl.
        rewrite L5. now destruct (_ || _).
Qed.

(** C4 (the code at the failing input) -- when linking fails,
    [shader_init] deletes the program object only, keeps both shader
    objects alive, leaves the id of the deleted program in the handle, and
    returns 0, the value for success. *)
Theorem shader_init_link_failure :
  exists wd',
    shader_init shader0 SHADER_TYPE_DEINT_LINEAR link_failure_world
    = Some ((0, mkShader 1 2 3 (-1) (-1)), wd') /\
    live (glst wd') = [Shader 3; Shader 2] /\
    In (Gl (GlGetProgramiv 1 GL_LINK_STATUS)) (trace wd') /\
    In (Gl (GlDeleteProgram 1)) (trace wd') /\
    ~ program_usable (glst wd') (mkShader 1 2 3 (-1) (-1)).
Proof.
  eexists. split; [vm_compute; reflexivity|].
  split; [reflexivity|]. split; [cbn; tauto|]. split; [cbn; tauto|].
  intros [H _]. cbn in H. destruct H as [H|[H|[]]]; discriminate.
Qed.

End ShaderFacts.

(** *** Texture upload *)

Module UploadFacts.

Lemma gl_apply_alignment (c : gl_call) (a : Z) (g : gl_state) :
  unpack_alignment (gl_apply c a g) = unpack_alignment g.
Proof.
  destruct c; cbn;
    repeat match goal with
           | |- context [match ?v with _ => _ end] => destruct v
           end; reflexivity.
Qed.

Lemma gl_run_alignment (cs : list gl_call) (g : gl_state) :
  unpack_alignment (gl_run cs g) = unpack_alignment g.
Proof.
  revert g. induction cs as [|c cs IH]; intros g; [reflexivity|].
  cbn. rewrite IH. apply gl_apply_alignment.
Qed.

Lemma gl_run_app (cs1 cs2 : list gl_call) (g : gl_state) :
  gl_run (cs1 ++ cs2) g = gl_run cs2 (gl_run cs1 g).
Proof. apply fold_left_app. Qed.

(** The upload commands leave the texture bindings of the other units
    alone. *)
Lemma upload_binding (pn : GLenum) (v w_ h_ loc val : Z) (data : list cell)
    (g : gl_state) :
  let g' :=
    gl_apply (GlUniform1i loc val) 0
      (gl_apply (GlTexImage2D GL_TEXTURE_2D 0 GL_LUMINANCE w_ h_ 0
                   GL_LUMINANCE GL_UNSIGNED_BYTE data) 0
         (gl_apply (GlPixelStorei pn v) 0 g)) in
  bound_2d g' = bound_2d g /\ active_unit g' = active_unit g.
Proof.
  cbn. destruct pn; cbn;
    repeat match goal with
           | |- context [if ?v then _ else _] => destruct v; cbn
           end; auto.
Qed.

Lemma simple_plane_binding (i : Z) (t : gl_texture_t) (pl : plane_t)
    (g : gl_state) :
  bound_2d (gl_run (simple_plane_calls i t pl) g) = upd (bound_2d g) i (tex_id t).
Proof.
  unfold simple_plane_calls, gl_run. cbn [fold_left].
  destruct (upload_binding GL_UNPACK_ROW_LENGTH
              (Z.quot (i_pitch pl) (i_pixel_pitch pl))
              (i_visible_pitch pl) (i_visible_lines pl) (tex_loc t) i
              (map Some (p_pixels pl))
              (gl_apply (GlBindTexture GL_TEXTURE_2D (tex_id t)) 0
                 (gl_apply (GlActiveTexture i) 0 g))) as [B A].
  rewrite B. reflexivity.
Qed.

Lemma reset_binding (g : gl_state) :
  bound_2d (gl_run [GlPixelStorei GL_UNPACK_ROW_LENGTH 0] g) = bound_2d g.
Proof. reflexivity. Qed.

Lemma reset_row_length (g : gl_state) :
  unpack_row_length (gl_run [GlPixelStorei GL_UNPACK_ROW_LENGTH 0] g) = 0.
Proof. reflexivity. Qed.

Lemma gl_steps_app (cs1 cs2 : list gl_call) (wd : world) :
  gl_steps (cs1 ++ cs2) wd = gl_steps cs2 (gl_steps cs1 wd).
Proof. apply fold_left_app. Qed.

(** A sequence of commands appends its calls to the trace and runs them
    on the GL state; nothing else changes. *)
Lemma gl_steps_world (cs : list gl_call) (wd : world) :
  gl_steps cs wd
  = set_glst (gl_run cs (glst wd)) (set_trace (trace wd ++ map Gl cs) wd).
Proof.
  revert wd. induction cs as [|c cs IH]; intros wd.
  - destruct wd. cbn. now rewrite app_nil_r.
  - change (gl_steps (c :: cs) wd) with (gl_steps cs (gl_step c 0 wd)).
    rewrite IH. destruct wd. cbn. now rewrite <- app_assoc.
Qed.

(** One turn of the plane loop of the direct-stride path. *)
Lemma upload_plane_simple_run vout pic i t pl wd :
  nth_error (tex (gl vout)) (Z.to_nat i) = Some t ->
  nth_error (p pic) (Z.to_nat i) = Some pl ->
  0 <= i -> i_pixel_pitch pl <> 0 ->
  upload_plane_simple vout pic i wd
  = Some (tt, gl_steps (simple_plane_calls i t pl) wd).
Proof.
  intros Et Ep Hi Hpp.
  unfold upload_plane_simple, bind, array_get, defined, int_div, gl_do, ret.
  apply Z.eqb_neq in Hpp. apply Z.ltb_ge in Hi. rewrite Hi, Et, Ep, Hpp.
  reflexivity.
Qed.

(** C7 -- The direct-stride upload path, for each of the 3 planes, makes
    texture unit [i] active and binds the texture of plane [i] to it, sets
    the unpack row length to the stride of the plane in pixels, uploads
    visible width x visible lines of single-channel 8-bit data from the
    plane, and sets the sampler uniform of the plane to [i]; before it
    returns it sets the unpack row length to 0, so that the pixel-store state
    is the default again: the alignment is never touched, and a state that
    had the default row length on entry has the same pixel-store state on
    return. *)
Theorem update_textures_simple_spec (vout : vout_display_sys_t) (pic : picture_t)
    (wd : world) (p0 p1 p2 : plane_t) (t0 t1 t2 : gl_texture_t) :
  i_planes pic = 3 ->
  p pic = [p0; p1; p2] ->
  tex (gl vout) = [t0; t1; t2] ->
  i_pixel_pitch p0 <> 0 -> i_pixel_pitch p1 <> 0 -> i_pixel_pitch p2 <> 0 ->
  let calls :=
    simple_plane_calls 0 t0 p0 ++ simple_plane_calls 1 t1 p1
    ++ simple_plane_calls 2 t2 p2 ++ [GlPixelStorei GL_UNPACK_ROW_LENGTH 0] in
  let g' := gl_run calls (glst wd) in
  update_textures_simple vout pic wd
  = Some (tt, set_glst g' (set_trace (trace wd ++ map Gl calls) wd)) /\
  unpack_row_length g' = 0 /\
  unpack_alignment g' = unpack_alignment (glst wd) /\
  (unpack_row_length (glst wd) = 0 -> pixel_store g' = pixel_store (glst wd)) /\
  bound_2d g' 0 = tex_id t0 /\ bound_2d g' 1 = tex_id t1 /\
  bound_2d g' 2 = tex_id t2.
Proof.
  intros Hn Hp Ht H0 H1 H2 calls g'.
  assert (R : unpack_row_length g' = 0).
  { unfold g', calls. rewrite !app_assoc, gl_run_app. apply reset_row_length. }
  assert (A : unpack_alignment g' = unpack_alignment (glst wd))
    by apply gl_run_alignment.
  split; [|split; [exact R | split; [exact A | split]]].
  - unfold g', calls. rewrite <- gl_steps_world, !gl_steps_app.
    unfold update_textures_simple. rewrite Hn.
    change (Z.to_nat (wrap32 3)) with 3%nat. cbn [for_loop].
    change (0 + 1) with 1. change (1 + 1) with 2.
    unfold bind at 1 2 3 4.
    rewrite (upload_plane_simple_run vout pic 0 t0 p0)
      by (rewrite ?Ht, ?Hp; reflexivity || lia || assumption).
    cbv beta iota.
    rewrite (upload_plane_simple_run vout pic 1 t1 p1)
      by (rewrite ?Ht, ?Hp; reflexivity || lia || assumption).
    cbv beta iota.
    rewrite (upload_plane_simple_run vout pic 2 t2 p2)
      by (rewrite ?Ht, ?Hp; reflexivity || lia || assumption).
    reflexivity.
  - intros E. unfold pixel_store. now rewrite R, A, E.
  - unfold g', calls.
    rewrite !gl_run_app, reset_binding, !simple_plane_binding.
    unfold upd. cbn. auto.
Qed.

(** The row loop, as an invariant: [pre] is the part of the buffer that is
    already written, [rest] the part still to be filled. *)
Lemma copy_rows_spec (pl : plane_t) (line : Z) (n : nat) :
  let step := Z.quot (i_pitch pl) (i_pixel_pitch pl) in
  0 <= line -> 0 <= step -> i_pixel_pitch pl <> 0 ->
  forall (src : Z) (pre rest : list cell) (wd : world),
    0 <= src ->
    List.length rest = (n * Z.to_nat line)%nat ->
    (n <> 0%nat ->
     src + (Z.of_nat n - 1) * step + line <= Z.of_nat (List.length (p_pixels pl))) ->
    copy_rows n line pl src (Z.of_nat (List.length pre)) (pre ++ rest) wd
    = Some (pre ++ map Some (List.concat (rows_from n line step src (p_pixels pl))), wd).
Proof.
  intros step Hline Hstep Hpp.
  induction n as [|n IH]; intros src pre rest wd Hsrc Hlen Hb.
  - destruct rest; [|discriminate]. reflexivity.
  - cbn [copy_rows rows_from List.concat].
    assert (Hb' : src + line <= Z.of_nat (List.length (p_pixels pl))) by nia.
    set (row := firstn (Z.to_nat line) (skipn (Z.to_nat src) (p_pixels pl))).
    assert (Hrow : List.length row = Z.to_nat line).
    { unfold row. rewrite length_firstn, length_skipn. lia. }
    assert (Hsplit : rest = firstn (Z.to_nat line) rest ++ skipn (Z.to_nat line) rest)
      by (symmetry; apply firstn_skipn).
    assert (Hrest : List.length (skipn (Z.to_nat line) rest) = (n * Z.to_nat line)%nat)
      by (rewrite length_skipn; lia).
    unfold bind, memcpy.
    replace ((0 <=? src) && (src + line <=? Z.of_nat (List.length (p_pixels pl)))
             && (0 <=? Z.of_nat (List.length pre))
             && (Z.of_nat (List.length pre) + line
                 <=? Z.of_nat (List.length (pre ++ rest)))) with true.
    2: { symmetry. rewrite !andb_true_iff, !Z.leb_le, length_app. lia. }
    unfold ret. cbv beta iota. fold row.
    unfold int_div. apply Z.eqb_neq in Hpp. rewrite Hpp. fold step.
    unfold ret. cbv beta iota.
    assert (Hbuf : firstn (Z.to_nat (Z.of_nat (List.length pre))) (pre ++ rest)
                   ++ map Some row
                   ++ skipn (Z.to_nat (Z.of_nat (List.length pre) + line)) (pre ++ rest)
                   = (pre ++ map Some row) ++ skipn (Z.to_nat line) rest).
    { rewrite Nat2Z.id, firstn_app, Nat.sub_diag, firstn_all, firstn_O, app_nil_r.
      replace (Z.to_nat (Z.of_nat (List.length pre) + line))
        with (List.length pre + Z.to_nat line)%nat by lia.
      rewrite skipn_app, skipn_all2 by lia.
      replace (List.length pre + Z.to_nat line - List.length pre)%nat
        with (Z.to_nat line) by lia.
      now rewrite <- app_assoc. }
    rewrite Hbuf.
    replace (Z.of_nat (List.length pre) + line)
      with (Z.of_nat (List.length (pre ++ map Some row)))
      by (rewrite length_app, length_map, Hrow; lia).
    rewrite IH; [|lia|exact Hrest|lia].
    now rewrite map_app, <- app_assoc.
Qed.

Lemma pack_plane_run (pl : plane_t) (line rows : Z) (wd : world) :
  let step := Z.quot (i_pitch pl) (i_pixel_pitch pl) in
  0 <= line -> 0 <= rows -> line * rows < UINT_MOD ->
  0 <= step -> i_pixel_pitch pl <> 0 ->
  (0 < rows ->
   (rows - 1) * step + line <= Z.of_nat (List.length (p_pixels pl))) ->
  pack_plane line rows pl wd
  = Some (map Some (region line rows step (p_pixels pl)), wd).
Proof.
  intros step Hline Hrows Hsize Hstep Hpp Hb.
  unfold pack_plane, wrap32. rewrite Z.mod_small by nia.
  pose proof (copy_rows_spec pl line (Z.to_nat rows) Hline Hstep Hpp 0 []
                (alloca (line * rows)) wd) as C.
  cbn [List.length app] in C. apply C; [lia | |lia].
  unfold alloca. rewrite repeat_length. nia.
Qed.

Lemma rows_from_length (n : nat) (line step src : Z) (pixels : list Byte.byte) :
  0 <= line -> 0 <= step -> 0 <= src ->
  (n <> 0%nat ->
   src + (Z.of_nat n - 1) * step + line <= Z.of_nat (List.length pixels)) ->
  List.length (List.concat (rows_from n line step src pixels)) = (n * Z.to_nat line)%nat.
Proof.
  intros Hline Hstep. revert src.
  induction n as [|n IH]; intros src Hsrc Hb; [reflexivity|].
  cbn [rows_from List.concat]. rewrite length_app, IH by nia.
  rewrite length_firstn, length_skipn. nia.
Qed.

(** The counterexample to the claim as it stands: with 2-byte pixels the
    source pointer advances by 4 bytes, not by the pitch of 8 bytes, and
    the buffer is not the visible region. *)
Lemma pack_plane_wide_pixels :
  pack_plane 2 2 wide_pixel_plane world0
  = Some (map Some (region 2 2 4 (p_pixels wide_pixel_plane)), world0) /\
  region 2 2 4 (p_pixels wide_pixel_plane)
  <> region 2 2 (i_pitch wide_pixel_plane) (p_pixels wide_pixel_plane) /\
  region 2 2 4 (p_pixels wide_pixel_plane) <> visible_region wide_pixel_plane.
Proof.
  split; [reflexivity|]. split; vm_compute; discriminate.
Qed.

(** C6 (amended) -- In the compacting upload path the temporary buffer of
    a plane has exactly line x rows bytes and is filled row by row, the
    source pointer advancing by [i_pitch / i_pixel_pitch] after each row,
    so that for every plane with 1-byte pixels, whose rows lie inside the
    pixel buffer, the packed buffer holds exactly the bytes of the rows of
    the plane, and the bytes of its visible region when line and rows are
    the visible pitch and the visible lines of the plane. *)
Theorem pack_plane_spec (pl : plane_t) (line rows : Z) (wd : world) :
  let step := Z.quot (i_pitch pl) (i_pixel_pitch pl) in
  0 <= line -> 0 <= rows -> line * rows < UINT_MOD ->
  0 <= step -> i_pixel_pitch pl <> 0 ->
  (0 < rows ->
   (rows - 1) * step + line <= Z.of_nat (List.length (p_pixels pl))) ->
  exists buf,
    pack_plane line rows pl wd = Some (buf, wd) /\
    Z.of_nat (List.length buf) = line * rows /\
    buf = map Some (region line rows step (p_pixels pl)) /\
    (i_pixel_pitch pl = 1 ->
     buf = map Some (region line rows (i_pitch pl) (p_pixels pl)) /\
     (line = i_visible_pitch pl -> rows = i_visible_lines pl ->
      buf = map Some (visible_region pl))).
Proof.
  intros step Hline Hrows Hsize Hstep Hpp Hb.
  exists (map Some (region line rows step (p_pixels pl))).
  split; [now apply pack_plane_run|]. split; [|split; [reflexivity|]].
  - rewrite length_map. unfold region.
    rewrite rows_from_length; lia.
  - intros H1. assert (E : step = i_pitch pl)
      by (unfold step; rewrite H1; apply Z.quot_1_r).
    rewrite E. split; [reflexivity|]. intros -> ->. reflexivity.
Qed.

Lemma pack_plane_spec_witness :
  exists buf,
    pack_plane 6 2 (mkPlane (example_bytes 0 16) 2 8 1 2 6) world0
    = Some (buf, world0) /\
    Z.of_nat (List.length buf) = 6 * 2 /\
    buf = map Some (region 6 2 8 (example_bytes 0 16)) /\
    buf = map Some (visible_region (mkPlane (example_bytes 0 16) 2 8 1 2 6)).
Proof.
  assert (H : exists buf,
             pack_plane 6 2 (mkPlane (example_bytes 0 16) 2 8 1 2 6) world0
             = Some (buf, world0) /\
             Z.of_nat (List.length buf) = 6 * 2 /\
             buf = map Some (region 6 2
                               (Z.quot (i_pitch (mkPlane (example_bytes 0 16) 2 8 1 2 6))
                                  (i_pixel_pitch (mkPlane (example_bytes 0 16) 2 8 1 2 6)))
                               (p_pixels (mkPlane (example_bytes 0 16) 2 8 1 2 6))) /\
             (i_pixel_pitch (mkPlane (example_bytes 0 16) 2 8 1 2 6) = 1 ->
              buf = map Some (region 6 2
                                (i_pitch (mkPlane (example_bytes 0 16) 2 8 1 2 6))
                                (p_pixels (mkPlane (example_bytes 0 16) 2 8 1 2 6))) /\
              (6 = i_visible_pitch (mkPlane (example_bytes 0 16) 2 8 1 2 6) ->
               2 = i_visible_lines (mkPlane (example_bytes 0 16) 2 8 1 2 6) ->
               buf = map Some (visible_region (mkPlane (example_bytes 0 16) 2 8 1 2 6))))).
  { apply (pack_plane_spec (mkPlane (example_bytes 0 16) 2 8 1 2 6) 6 2 world0);
      unfold UINT_MOD, UINT_BITS; cbn; try lia; discriminate. }
  destruct H as (buf & E & L & R & V).
  exists buf. split; [exact E|]. split; [exact L|]. split; [exact R|].
  destruct (V eq_refl) as [_ V']. exact (V' eq_refl eq_refl).
Defined.

(** Reading a range that lies inside the data. *)
Lemma read_cells_inside (data : list Byte.byte) (n off : nat) :
  (off + n <= List.length data)%nat ->
  map (fun c => read_cell (map Some data) (Z.of_nat off + Z.of_nat c)) (seq 0 n)
  = map Some (firstn n (skipn off data)).
Proof.
  revert off. induction n as [|n IH]; intros off Hb; [reflexivity|].
  destruct (nth_error data off) as [b|] eqn:E;
    [|apply nth_error_None in E; lia].
  assert (Hsk : skipn off data = b :: skipn (S off) data).
  { clear -E. revert data E. induction off as [|off IH]; intros [|d data] E;
      try discriminate; cbn in *; [now injection E as -> | now apply IH]. }
  rewrite Hsk. cbn [seq map firstn]. f_equal.
  - unfold read_cell. rewrite Z.add_0_r.
    destruct (Z.ltb_spec (Z.of_nat off) 0); [lia|].
    now rewrite Nat2Z.id, nth_error_map, E.
  - rewrite <- seq_shift, map_map, <- (IH (S off)) by lia.
    apply map_ext. intros c. f_equal. lia.
Qed.

Lemma read_cells_some (data : list Byte.byte) (off len : Z) :
  0 <= off -> 0 <= len -> off + len <= Z.of_nat (List.length data) ->
  read_cells (map Some data) off len
  = map Some (firstn (Z.to_nat len) (skipn (Z.to_nat off) data)).
Proof.
  intros Ho Hl Hb. unfold read_cells.
  rewrite <- (read_cells_inside data (Z.to_nat len) (Z.to_nat off)) by lia.
  apply map_ext. intros c. f_equal. lia.
Qed.

(** Unpacking rows that lie inside the data gives the rows of the data. *)
Lemma unpack_rows_from (pixels : list Byte.byte) (stride line : Z) (n : nat)
    (src : Z) :
  0 <= stride -> 0 <= line -> 0 <= src ->
  (n <> 0%nat ->
   src + (Z.of_nat n - 1) * stride + line <= Z.of_nat (List.length pixels)) ->
  map (fun r => read_cells (map Some pixels) (src + Z.of_nat r * stride) line)
      (seq 0 n)
  = map (map Some) (rows_from n line stride src pixels).
Proof.
  intros Hs Hl. revert src. induction n as [|n IH]; intros src Hsrc Hb;
    [reflexivity|].
  cbn [seq map rows_from]. f_equal.
  - rewrite Z.mul_0_l, Z.add_0_r. apply read_cells_some; nia.
  - rewrite <- seq_shift, map_map, <- (IH (src + stride)) by nia.
    apply map_ext. intros r. f_equal. lia.
Qed.

(** The rows of a tightly packed buffer are the rows it was packed from. *)
Lemma rows_from_packed (line : Z) (rws : list (list Byte.byte))
    (pre : list Byte.byte) :
  0 <= line ->
  Forall (fun r => List.length r = Z.to_nat line) rws ->
  rows_from (List.length rws) line line (Z.of_nat (List.length pre))
    (pre ++ List.concat rws) = rws.
Proof.
  intros Hl H. revert pre. induction H as [|r rws Hr _ IH]; intros pre;
    [reflexivity|].
  cbn [List.length rows_from List.concat]. f_equal.
  - rewrite Nat2Z.id, skipn_app, skipn_all, Nat.sub_diag. cbn [skipn app].
    rewrite firstn_app, <- Hr, firstn_all, Nat.sub_diag. cbn [firstn].
    apply app_nil_r.
  - replace (Z.of_nat (List.length pre) + line)
      with (Z.of_nat (List.length (pre ++ r)))
      by (rewrite length_app, Hr; lia).
    rewrite app_assoc. apply IH.
Qed.

Lemma rows_from_shape (n : nat) (line step src : Z) (pixels : list Byte.byte) :
  0 <= line -> 0 <= step -> 0 <= src ->
  (n <> 0%nat ->
   src + (Z.of_nat n - 1) * step + line <= Z.of_nat (List.length pixels)) ->
  List.length (rows_from n line step src pixels) = n /\
  Forall (fun r => List.length r = Z.to_nat line)
    (rows_from n line step src pixels).
Proof.
  intros Hl Hs. revert src. induction n as [|n IH]; intros src Hsrc Hb;
    [split; [reflexivity | constructor]|].
  destruct (IH (src + step)) as [L F]; [lia|nia|].
  cbn [rows_from List.length]. split; [now rewrite L|].
  constructor; [|exact F]. rewrite length_firstn, length_skipn. nia.
Qed.

(** The two upload strategies agree on a plane whenever the rows lie
    inside the pixel buffer and both the pitch and the width of the rows
    are multiples of the unpack alignment: [stride_s] is the row stride GL
    uses for the direct upload, [stride_c] the one for the packed buffer. *)
Lemma upload_strategies_agree (pl : plane_t) (line rows : Z) (g_s g_c : gl_state) :
  let step := Z.quot (i_pitch pl) (i_pixel_pitch pl) in
  0 <= line -> 0 <= rows -> 0 < step ->
  (0 < rows ->
   (rows - 1) * step + line <= Z.of_nat (List.length (p_pixels pl))) ->
  unpack_row_length g_s = step -> unpack_row_length g_c = 0 ->
  round_up step (unpack_alignment g_s) = step ->
  round_up line (unpack_alignment g_c) = line ->
  unpack_rows (unpack_stride g_s line) line rows (map Some (p_pixels pl))
  = unpack_rows (unpack_stride g_c line) line rows
      (map Some (region line rows step (p_pixels pl))).
Proof.
  intros step Hl Hr Hs Hb Es Ec As Ac.
  assert (Ss : unpack_stride g_s line = step).
  { unfold unpack_stride. rewrite Es.
    destruct (Z.ltb_spec 0 step); [exact As | lia]. }
  assert (Sc : unpack_stride g_c line = line).
  { unfold unpack_stride. rewrite Ec. exact Ac. }
  rewrite Ss, Sc. unfold unpack_rows, region.
  destruct (rows_from_shape (Z.to_nat rows) line step 0 (p_pixels pl))
    as [L F]; try lia.
  pose proof (unpack_rows_from (p_pixels pl) step line (Z.to_nat rows) 0) as U.
  cbn [Z.add] in U. rewrite U by lia.
  set (rws := rows_from (Z.to_nat rows) line step 0 (p_pixels pl)) in *.
  pose proof (unpack_rows_from (List.concat rws) line line (Z.to_nat rows) 0) as P.
  cbn [Z.add] in P. rewrite P; try lia.
  - f_equal. rewrite <- L. symmetry. apply (rows_from_packed line rws []); auto.
  - intros Hn. clearbody rws. clear -F L Hl Hn.
    assert (E : Z.of_nat (List.length (List.concat rws))
                = Z.of_nat (List.length rws) * line).
    { clear L. induction F as [|r rws Hr _ IH]; [reflexivity|].
      cbn [List.concat List.length]. rewrite length_app, Hr. nia. }
    rewrite E, L. lia.
Qed.

(** C2 (the code at the failing input) -- for an I420 picture whose
    visible width, 6, is not a multiple of the unpack alignment of a fresh
    GL context, 4, the direct-stride path uploads the visible region of
    every plane, and the compacting path uploads a luma image whose second
    row is skewed: it starts two bytes late and ends outside the packed
    buffer. *)
Theorem upload_paths_differ :
  exists wd_s wd_c,
    update_textures (example_sys true) example_picture world0 = Some (tt, wd_s) /\
    update_textures (example_sys false) example_picture world0 = Some (tt, wd_c) /\
    plane_images (example_sys true) wd_s
    = map (fun pl => Some (visible_image pl)) (p example_picture) /\
    plane_images (example_sys false) wd_c <> plane_images (example_sys true) wd_s /\
    option_map img_rows (images (glst wd_c) 31)
    = Some [ map Some (example_bytes 0 6);
             map Some (example_bytes 10 4) ++ [None; None] ].
Proof.
  eexists. eexists.
  split; [vm_compute; reflexivity|]. split; [vm_compute; reflexivity|].
  split; [vm_compute; reflexivity|]. split; [|vm_compute; reflexivity].
  vm_compute. discriminate.
Qed.

(** With an unpack alignment of 1 the two paths upload the same images,
    the visible regions of the planes. *)
Lemma upload_paths_agree_byte_aligned :
  exists wd_s wd_c,
    update_textures (example_sys true) example_picture byte_aligned_world
    = Some (tt, wd_s) /\
    update_textures (example_sys false) example_picture byte_aligned_world
    = Some (tt, wd_c) /\
    plane_images (example_sys true) wd_s
    = map (fun pl => Some (visible_image pl)) (p example_picture) /\
    plane_images (example_sys false) wd_c = plane_images (example_sys true) wd_s.
Proof.
  eexists. eexists.
  split; [vm_compute; reflexivity|]. split; [vm_compute; reflexivity|].
  split; vm_compute; reflexivity.
Qed.

Lemma update_textures_simple_spec_witness :
  let calls :=
    simple_plane_calls 0 (mkTex 31 0) (mkPlane (example_bytes 0 16) 2 8 1 2 6)
    ++ simple_plane_calls 1 (mkTex 32 1) (mkPlane (example_bytes 16 4) 1 4 1 1 3)
    ++ simple_plane_calls 2 (mkTex 33 2) (mkPlane (example_bytes 32 4) 1 4 1 1 3)
    ++ [GlPixelStorei GL_UNPACK_ROW_LENGTH 0] in
  let g' := gl_run calls gl_initial in
  update_textures_simple (example_sys true) example_picture world0
  = Some (tt, set_glst g' (set_trace (map Gl calls) world0)) /\
  pixel_store g' = pixel_store gl_initial.
Proof.
  intros calls g'.
  pose proof (update_textures_simple_spec (example_sys true) example_picture
                world0 _ _ _ _ _ _ eq_refl eq_refl eq_refl
                ltac:(discriminate) ltac:(discriminate) ltac:(discriminate))
    as (E & _ & _ & P & _).
  split; [exact E | exact (P eq_refl)].
Defined.

End UploadFacts.

(** *** Display: [do_display] *)

Module DisplayFacts.
Import MonadFacts.

Lemma blind_array_get {A : Type} (a : list A) (i : Z) : trace_blind (array_get a i).
Proof. unfold array_get. blind_tac. Qed.

Lemma blind_int_div (a b : Z) : trace_blind (int_div a b).
Proof. unfold int_div. blind_tac. Qed.

Lemma blind_unsigned_div (a b : Z) : trace_blind (unsigned_div a b).
Proof. unfold unsigned_div. blind_tac. Qed.

Lemma blind_memcpy buf dst pixels src n :
  trace_blind (memcpy buf dst pixels src n).
Proof. unfold memcpy. blind_tac. Qed.

#[export] Hint Resolve blind_array_get blind_int_div blind_unsigned_div
  blind_memcpy : blind.

Lemma blind_copy_rows rows line pl src dst buf :
  trace_blind (copy_rows rows line pl src dst buf).
Proof.
  revert src dst buf. induction rows as [|rows IH]; intros; cbn [copy_rows];
    blind_tac.
Qed.

Lemma blind_load_static_c f : trace_blind (load_static_c f).
Proof.
  intros wd t. unfold load_static_c. cbn.
  destruct (static_c wd); cbn.
  - exists []. now rewrite !app_nil_r.
  - eexists. split; reflexivity.
Qed.

#[export] Hint Resolve blind_copy_rows blind_load_static_c : blind.

Lemma blind_update_textures vout pic : trace_blind (update_textures vout pic).
Proof.
  unfold update_textures, update_textures_simple, update_textures_complex,
    upload_plane_simple, upload_plane_complex, pack_plane.
  blind_tac.
Qed.

#[export] Hint Resolve blind_update_textures : blind.

Lemma blind_do_deinterlace vout pic :
  trace_blind (do_deinterlace_and_color_conversion vout pic).
Proof. unfold do_deinterlace_and_color_conversion. blind_tac. Qed.

Lemma blind_do_scaling vout pic : trace_blind (do_scaling vout pic).
Proof. unfold do_scaling. blind_tac. Qed.

Lemma blind_handle_event sys xev : trace_blind (handle_event sys xev).
Proof. unfold handle_event. blind_tac. Qed.

#[export] Hint Resolve blind_do_deinterlace blind_do_scaling
  blind_handle_event : blind.

Lemma blind_drain_events q sys : trace_blind (drain_events q sys).
Proof.
  revert sys. induction q as [|xev q IH]; intros sys; cbn [drain_events];
    blind_tac.
Qed.

#[export] Hint Resolve blind_drain_events : blind.

Lemma blind_x11_backend_handle_events sys :
  trace_blind (x11_backend_handle_events sys).
Proof.
  intros wd t. unfold x11_backend_handle_events. cbn [set_trace xqueue].
  apply blind_drain_events.
Qed.

#[export] Hint Resolve blind_x11_backend_handle_events : blind.

Lemma blind_do_display sys pic sp : trace_blind (do_display sys pic sp).
Proof. unfold do_display. blind_tac. Qed.

(** Draining the event queue asks [XPending] first, whatever is queued. *)
Lemma x11_backend_handle_events_trace sys wd sys' wd' :
  x11_backend_handle_events sys wd = Some (sys', wd') ->
  exists evs,
    trace wd' = trace wd ++ X11 (XPending (x11_display (x11 sys))) :: evs.
Proof.
  unfold x11_backend_handle_events.
  destruct (xqueue wd) as [|xev q]; cbn [drain_events].
  - intros [= _ <-]. now exists [].
  - intros H. apply bind_Some in H as ([] & wd1 & [= <-] & H).
    assert (G : trace_blind
                  (emit (X11 (XNextEvent (x11_display (x11 sys)))) ;;
                   put_xqueue q ;;
                   sys0 <- handle_event sys xev ;; drain_events q sys0))
      by blind_tac.
    destruct (blind_grows _ _ _ _ G H) as [evs E]. exists evs. rewrite E. cbn.
    now rewrite <- app_assoc.
Qed.

Lemma rejected_test pic :
  rejected pic ->
  negb (i_chroma (format pic) =? VLC_CODEC_I420) || negb (i_planes pic =? 3) = true.
Proof.
  intros [H|H]; apply orb_true_iff; [left | right];
    now apply negb_true_iff, Z.eqb_neq.
Qed.

Lemma accepted_test pic :
  ~ rejected pic ->
  negb (i_chroma (format pic) =? VLC_CODEC_I420) || negb (i_planes pic =? 3) = false.
Proof.
  intros H. unfold rejected in H.
  destruct (Z.eqb_spec (i_chroma (format pic)) VLC_CODEC_I420);
    destruct (Z.eqb_spec (i_planes pic) 3); try reflexivity; tauto.
Qed.

(** What [do_display] does with a rejected frame, event by event. *)
Lemma do_display_rejected sys pic sp wd :
  rejected pic ->
  do_display sys pic sp wd
  = Some (sys, set_trace
                 (trace wd ++ [Vlc (Vlc_fourcc_GetDescription (i_chroma (format pic)));
                               Fprintf unsupported_format_message]) wd).
Proof.
  intros H. unfold do_display. rewrite (rejected_test pic H).
  unfold bind, emit, fprintf, ret, set_trace. cbn.
  now rewrite <- app_assoc.
Qed.

(** C3 -- For every displayed picture whose chroma is not I420 or whose
    plane count is not 3, [do_display] rejects the frame: it issues no draw
    call and no buffer swap, it prints a diagnostic, and the condition is
    recoverable -- the display state, the GL state and everything else but
    the trace are as before, so that any later frame is handled exactly as
    it would have been without the rejected one. *)
Theorem do_display_rejects_frame sys pic sp wd :
  rejected pic ->
  exists evs,
    do_display sys pic sp wd = Some (sys, set_trace (trace wd ++ evs) wd) /\
    count is_draw evs = 0%nat /\
    count is_swap evs = 0%nat /\
    In (Fprintf unsupported_format_message) evs /\
    forall pic' sp',
      match do_display sys pic' sp' wd with
      | Some (sys', wd') =>
          exists evs',
            trace wd' = trace wd ++ evs' /\
            do_display sys pic' sp' (set_trace (trace wd ++ evs) wd)
            = Some (sys', set_trace (trace wd ++ evs ++ evs') wd')
      | None => do_display sys pic' sp' (set_trace (trace wd ++ evs) wd) = None
      end.
Proof.
  intros H. eexists. split; [apply (do_display_rejected _ _ _ _ H)|].
  repeat split; [cbn; auto|].
  intros pic' sp'.
  pose proof (blind_do_display sys pic' sp' wd
                (trace wd ++ [Vlc (Vlc_fourcc_GetDescription (i_chroma (format pic)));
                              Fprintf unsupported_format_message])) as B.
  destruct (do_display sys pic' sp' wd) as [[sys' wd']|]; [|exact B].
  destruct B as (evs' & E & R). exists evs'. split; [exact E|].
  now rewrite R, <- app_assoc.
Qed.

Lemma do_display_rejects_frame_witness :
  exists evs,
    do_display (example_sys true)
      (mkPicture example_format (p example_picture) 2) None world0
    = Some (example_sys true, set_trace (trace world0 ++ evs) world0) /\
    count is_draw evs = 0%nat /\
    count is_swap evs = 0%nat /\
    In (Fprintf unsupported_format_message) evs /\
    forall pic' sp',
      match do_display (example_sys true) pic' sp' world0 with
      | Some (sys', wd') =>
          exists evs',
            trace wd' = trace world0 ++ evs' /\
            do_display (example_sys true) pic' sp'
              (set_trace (trace world0 ++ evs) world0)
            = Some (sys', set_trace (trace world0 ++ evs ++ evs') wd')
      | None =>
          do_display (example_sys true) pic' sp'
            (set_trace (trace world0 ++ evs) world0) = None
      end.
Proof.
  apply (do_display_rejects_frame (example_sys true)
           (mkPicture example_format (p example_picture) 2) None world0).
  right. cbn. discriminate.
Defined.

(** An accepted frame runs to completion: two draw calls, one swap. *)
Lemma do_display_accepted_example :
  exists wd',
    do_display (example_sys true) example_picture (Some 5) world0
    = Some (example_sys true, wd') /\
    count is_draw (trace wd') = 2%nat /\
    count is_swap (trace wd') = 1%nat /\
    count is_release (trace wd') = 2%nat.
Proof.
  eexists. split; [vm_compute; reflexivity|]. vm_compute. auto.
Qed.

(** C10 -- For every rejected frame, [do_display] returns without
    releasing the picture and without deleting the subpicture, and
    without draining the window events; on an accepted frame, whenever
    the call returns, the events were drained and the picture (and the
    subpicture, when there is one) was released. *)
Theorem do_display_release_only_when_accepted sys pic sp wd :
  (rejected pic ->
   exists evs,
     do_display sys pic sp wd = Some (sys, set_trace (trace wd ++ evs) wd) /\
     count is_release evs = 0%nat /\ count is_x11 evs = 0%nat) /\
  (forall sys' wd',
     ~ rejected pic ->
     do_display sys pic sp wd = Some (sys', wd') ->
     exists evs,
       trace wd' = trace wd ++ evs /\
       In (X11 (XPending (x11_display (x11 sys)))) evs /\
       In (Vlc (Picture_Release pic)) evs /\
       forall s, sp = Some s -> In (Vlc (Subpicture_Delete s)) evs).
Proof.
  split.
  - intros H. eexists. split; [apply (do_display_rejected _ _ _ _ H)|].
    split; reflexivity.
  - intros sys' wd' Hacc H. unfold do_display in H.
    rewrite (accepted_test pic Hacc) in H.
    apply bind_Some in H as (sys1 & wd1 & H1 & H).
    apply bind_Some in H as ([] & wd2 & H2 & H).
    apply bind_Some in H as ([] & wd3 & H3 & H).
    apply bind_Some in H as ([] & wd4 & [= <-] & H).
    apply bind_Some in H as ([] & wd5 & [= <-] & H).
    apply bind_Some in H as ([] & wd6 & H6 & [= _ <-]).
    apply x11_backend_handle_events_trace in H1 as [e1 E1].
    apply (blind_grows _ _ _ _ (blind_do_deinterlace _ _)) in H2 as [e2 E2].
    apply (blind_grows _ _ _ _ (blind_do_scaling _ _)) in H3 as [e3 E3].
    cbn [trace set_trace] in H6.
    destruct sp as [s|].
    + injection H6 as <-. cbn [trace set_trace].
      rewrite E3, E2, E1. rewrite <- !app_assoc. eexists. split; [reflexivity|].
      cbn. repeat split.
      * now left.
      * apply in_cons, in_or_app. right. apply in_or_app. right.
        apply in_or_app. right. right. now left.
      * intros s' [= ->].
        apply in_cons, in_or_app. right. apply in_or_app. right.
        apply in_or_app. right. right. right. now left.
    + injection H6 as <-. cbn [trace set_trace].
      rewrite E3, E2, E1. rewrite <- !app_assoc. eexists. split; [reflexivity|].
      cbn. repeat split.
      * now left.
      * apply in_cons, in_or_app. right. apply in_or_app. right.
        apply in_or_app. right. right. now left.
      * intros s' [=].
Qed.

Lemma do_display_release_only_when_accepted_witness :
  (exists evs,
     do_display (example_sys true)
       (mkPicture example_format (p example_picture) 2) (Some 5) world0
     = Some (example_sys true, set_trace (trace world0 ++ evs) world0) /\
     count is_release evs = 0%nat /\ count is_x11 evs = 0%nat) /\
  (exists sys' wd' evs,
     do_display (example_sys true) example_picture (Some 5) world0
     = Some (sys', wd') /\
     trace wd' = trace world0 ++ evs /\
     In (X11 (XPending 1)) evs /\
     In (Vlc (Picture_Release example_picture)) evs /\
     In (Vlc (Subpicture_Delete 5)) evs).
Proof.
  split.
  - apply (do_display_release_only_when_accepted (example_sys true)
             (mkPicture example_format (p example_picture) 2) (Some 5) world0).
    right. cbn. discriminate.
  - destruct (do_display (example_sys true) example_picture (Some 5) world0)
      as [[sys' wd']|] eqn:E; [|vm_compute in E; discriminate].
    destruct (proj2 (do_display_release_only_when_accepted (example_sys true)
                       example_picture (Some 5) world0) sys' wd')
      as (evs & T & X & R & D); [|exact E|].
    + intros [H|H]; cbn in H; congruence.
    + exists sys', wd', evs. repeat split; auto.
Defined.

End DisplayFacts.

(** *** The deinterlace-convert pass *)

Module ShaderPassFacts.
Import MonadFacts DisplayFacts GLSL BT601.

(** The fragment shader computes the formula of the specification. *)
Lemma fragment_deint_formula (s_ytex s_utex s_vtex : sampler2D) (lh : Q)
    (coord : vec2) :
  vec4_eq (fragment_deint s_ytex s_utex s_vtex lh coord)
          (deinterlace_convert s_ytex s_utex s_vtex lh coord).
Proof.
  unfold fragment_deint, deinterlace_convert, convert, blend, mix, texture2D,
    vec4_eq, row_below.
  cbn [cr cg cb ca].
  set (y1 := cr (s_ytex coord)).
  set (y2 := cr (s_ytex (mkVec2 (vx coord) (vy coord + lh)%Q))).
  set (u1 := cr (s_utex coord)).
  set (u2 := cr (s_utex (mkVec2 (vx coord) (vy coord + lh * 2)%Q))).
  set (v1 := cr (s_vtex coord)).
  set (v2 := cr (s_vtex (mkVec2 (vx coord) (vy coord + lh * 2)%Q))).
  repeat split; try ring; reflexivity.
Qed.

Ltac step_grows H :=
  let e := fresh "e" in
  let E := fresh "E" in
  apply bind_Some in H as ([] & ? & E & H);
  eapply blind_grows in E; [destruct E as [e E] | solve [auto with blind]].

(** The pass ends with three calls: the uniform is looked up, set to
    [1.0 / height], and the quad is drawn. *)
Lemma do_deinterlace_tail vout pic wd wd' :
  do_deinterlace_and_color_conversion vout pic wd = Some (tt, wd') ->
  exists loc wd1 evs,
    trace wd1 = trace wd ++ evs /\
    wd' = gl_steps [GlUniform1f loc (float_inv (i_height (format pic)));
                    GlDrawElements GL_TRIANGLES 6 GL_UNSIGNED_SHORT indices]
            (gl_step (GlGetUniformLocation (program (deint (gl vout))) "line_height")
               loc wd1).
Proof.
  intros H. unfold do_deinterlace_and_color_conversion in H.
  do 8 step_grows H.
  apply bind_Some in H as (loc & wd2 & Hask & H).
  unfold gl_ask in Hask.
  apply bind_Some in Hask as (a & wd1 & Ha & Hask).
  apply (blind_grows _ _ _ _ blind_answer) in Ha as [e8 E8].
  injection Hask as -> <-.
  unfold bind, gl_do in H. injection H as <-.
  exists loc, wd1. eexists. split; [|reflexivity].
  rewrite E8, E6, E5, E4, E3, E2, E1, E0, E. rewrite <- !app_assoc. reflexivity.
Qed.

(** The pass returns whenever the texture upload in its middle does. *)
Lemma do_deinterlace_returns vout pic wd :
  update_textures vout pic (gl_steps (deint_setup vout pic) wd) <> None ->
  exists wd', do_deinterlace_and_color_conversion vout pic wd = Some (tt, wd').
Proof.
  intros Hdef.
  change (do_deinterlace_and_color_conversion vout pic wd)
    with ((update_textures vout pic ;;
           line_height_loc <-
             gl_ask (GlGetUniformLocation (program (deint (gl vout))) "line_height") ;;
           gl_do (GlUniform1f line_height_loc (float_inv (i_height (format pic)))) ;;
           gl_do (GlDrawElements GL_TRIANGLES 6 GL_UNSIGNED_SHORT indices))
            (gl_steps (deint_setup vout pic) wd)).
  unfold bind at 1.
  destruct (update_textures vout pic (gl_steps (deint_setup vout pic) wd))
    as [[[] wd1]|]; [|congruence].
  unfold gl_ask, answer, bind, gl_do.
  destruct (answers wd1); eexists; reflexivity.
Qed.

(** C5 -- The deinterlace-convert fragment computation blends the
    current-row and next-row Y samples, and the current-row and
    two-rows-down U and V samples, with weight 0.5, the row offsets being
    multiples of the line height, applies the BT.601 transform
    Y' = 1.1643 (Y - 0.0625), U' = U - 0.5, V' = V - 0.5,
    R = Y' + 1.5958 V', G = Y' - 0.39173 U' - 0.81290 V', B = Y' + 2.017 U',
    and outputs (R, G, B, 1); and the render pass, which returns whenever
    its texture upload does, sets the line height to 1/frame-height right
    before it draws. *)
Theorem deinterlace_pass_spec vout pic wd
    (s_ytex s_utex s_vtex : sampler2D) (coord : vec2) :
  0 < i_height (format pic) ->
  update_textures vout pic (gl_steps (deint_setup vout pic) wd) <> None ->
  let line_height := (1 / inject_Z (i_height (format pic)))%Q in
  exists wd' loc evs col,
    do_deinterlace_and_color_conversion vout pic wd = Some (tt, wd') /\
    trace wd'
    = trace wd ++ evs
      ++ [Gl (GlGetUniformLocation (program (deint (gl vout))) "line_height");
          Gl (GlUniform1f loc (Some line_height));
          Gl (GlDrawElements GL_TRIANGLES 6 GL_UNSIGNED_SHORT indices)] /\
    uniform_f (glst wd') loc = Some line_height /\
    run_fragment_deint (glst wd') loc s_ytex s_utex s_vtex coord = Some col /\
    vec4_eq col (deinterlace_convert s_ytex s_utex s_vtex line_height coord) /\
    ca col = 1%Q.
Proof.
  intros Hh Hdef lh.
  destruct (do_deinterlace_returns vout pic wd Hdef) as [wd' H].
  exists wd'. pose proof H as H'.
  apply do_deinterlace_tail in H' as (loc & wd1 & evs & E & ->).
  assert (Ef : float_inv (i_height (format pic)) = Some lh).
  { unfold float_inv. destruct (Z.eqb_spec (i_height (format pic)) 0); [lia|].
    reflexivity. }
  rewrite Ef in H |- *.
  assert (U : uniform_f
                (glst (gl_steps
                         [GlUniform1f loc (Some lh);
                          GlDrawElements GL_TRIANGLES 6 GL_UNSIGNED_SHORT indices]
                         (gl_step
                            (GlGetUniformLocation (program (deint (gl vout)))
                               "line_height") loc wd1))) loc = Some lh).
  { cbn. unfold upd. now rewrite Z.eqb_refl. }
  exists loc, evs, (fragment_deint s_ytex s_utex s_vtex lh coord).
  split; [exact H|].
  split; [|split; [exact U | split; [|split]]].
  - cbn. rewrite E, <- !app_assoc. reflexivity.
  - unfold run_fragment_deint. now rewrite U.
  - apply fragment_deint_formula.
  - reflexivity.
Qed.

Lemma deinterlace_pass_spec_witness :
  exists wd' loc evs col,
    do_deinterlace_and_color_conversion (example_sys true) example_picture world0
    = Some (tt, wd') /\
    trace wd'
    = trace world0 ++ evs
      ++ [Gl (GlGetUniformLocation 10 "line_height");
          Gl (GlUniform1f loc (Some (1 / 2)%Q));
          Gl (GlDrawElements GL_TRIANGLES 6 GL_UNSIGNED_SHORT indices)] /\
    uniform_f (glst wd') loc = Some (1 / 2)%Q /\
    run_fragment_deint (glst wd') loc (grey 0.0625) (grey 0.5) (grey 0.5)
      (mkVec2 0 0) = Some col /\
    vec4_eq col
      (deinterlace_convert (grey 0.0625) (grey 0.5) (grey 0.5) (1 / 2)%Q
         (mkVec2 0 0)) /\
    ca col = 1%Q.
Proof.
  apply (deinterlace_pass_spec (example_sys true) example_picture world0
           (grey 0.0625) (grey 0.5) (grey 0.5) (mkVec2 0 0)).
  - cbn; lia.
  - vm_compute; discriminate.
Defined.

(** Reference colours: studio black and studio white come out as
    (0, 0, 0, 1) and (close to) (1, 1, 1, 1). *)
Lemma convert_black :
  vec4_eq (convert 0.0625 0.5 0.5) (mkVec4 0 0 0 1).
Proof. repeat split; reflexivity. Qed.

End ShaderPassFacts.

(** *** More on [compute_bounding_box] *)

Module BoundingBoxFacts.
Import Binary64 Binary64Facts GeometryFacts.

Lemma RN_ext (a b : Q) : (a == b)%Q -> RN a = RN b.
Proof.
  intros E. unfold RN.
  assert (Eb : Qle_bool a 0 = Qle_bool b 0).
  { destruct (Qle_bool a 0) eqn:A, (Qle_bool b 0) eqn:B; try reflexivity.
    - apply Qle_bool_iff in A. rewrite E in A. apply Qle_bool_iff in A. congruence.
    - apply Qle_bool_iff in B. rewrite <- E in B. apply Qle_bool_iff in B. congruence. }
  rewrite Eb. destruct (Qle_bool b 0) eqn:B; [reflexivity|].
  assert (Pb : (0 < b)%Q).
  { apply Qnot_le_lt. intros C. apply Qle_bool_iff in C. congruence. }
  assert (Ei : ilog2 a = ilog2 b).
  { apply ilog2_unique. rewrite E. now apply ilog2_spec. }
  unfold ulp_exp. rewrite Ei.
  set (e := (ilog2 b - (prec - 1))%Z).
  assert (Er : rne (a * 2 ^ (- e))%Q = rne (b * 2 ^ (- e))%Q).
  { apply Z.le_antisymm; apply rne_mono; rewrite E; apply Qle_refl. }
  rewrite Er. reflexivity.
Qed.

Lemma ratio_ext (a b c d : Z) :
  b <> 0 -> d <> 0 -> a * d = c * b ->
  (inject_Z a / inject_Z b == inject_Z c / inject_Z d)%Q.
Proof.
  intros Hb Hd H.
  assert (Nb : ~ (inject_Z b == 0)%Q) by (unfold Qeq; simpl; lia).
  assert (Nd : ~ (inject_Z d == 0)%Q) by (unfold Qeq; simpl; lia).
  assert (E : (inject_Z a * inject_Z d == inject_Z c * inject_Z b)%Q)
    by (rewrite <- !inject_Z_mult, H; reflexivity).
  setoid_replace (inject_Z a / inject_Z b)%Q
    with (inject_Z a * inject_Z d / (inject_Z b * inject_Z d))%Q
    by (field; split; assumption).
  rewrite E. field. split; assumption.
Qed.

Lemma gt_irrefl (q : Q) : gt (DFin q) (DFin q) = false.
Proof.
  unfold gt. assert (H : Qle_bool q q = true) by (apply Qle_bool_iff, Qle_refl).
  now rewrite H.
Qed.

(** X2 -- The result depends on the source size only through its aspect
    ratio: two source sizes with the same ratio give the same rectangle,
    exactly. *)
Theorem compute_bounding_box_same_ratio (sw sh sw' sh' : Z)
    (dst res0 : rectangle_t) :
  positive_size sw sh -> positive_size sw' sh' -> sw * sh' = sw' * sh ->
  compute_bounding_box (mkCfg sw sh) dst res0
  = compute_bounding_box (mkCfg sw' sh') dst res0.
Proof.
  intros [_ P] [_ P'] H.
  assert (Hs : sh <> 0) by lia. assert (Hs' : sh' <> 0) by lia.
  unfold compute_bounding_box.
  cbn [display_width display_height width height].
  rewrite (div_unsigned sw sh Hs), (div_unsigned sw' sh' Hs').
  rewrite (RN_ext _ _ (ratio_ext sw sh sw' sh' Hs Hs' H)). reflexivity.
Qed.

(** X3 -- When the window has the aspect ratio of the source, the result is
    the whole window. *)
Theorem compute_bounding_box_fills (sw sh : Z) (dst res0 : rectangle_t) :
  positive_size sw sh -> positive_size (width dst) (height dst) ->
  sw * height dst = width dst * sh ->
  compute_bounding_box (mkCfg sw sh) dst res0
  = Some (mkRect 0 0 (width dst) (height dst)).
Proof.
  intros [_ P] [_ P'] H.
  assert (Hs : sh <> 0) by lia. assert (Hd : height dst <> 0) by lia.
  unfold compute_bounding_box.
  cbn [display_width display_height width height].
  rewrite (div_unsigned sw sh Hs), (div_unsigned _ _ Hd).
  rewrite (RN_ext _ _ (ratio_ext sw sh _ _ Hs Hd H)).
  unfold lt. rewrite gt_irrefl. reflexivity.
Qed.

Lemma half_inside (d n : Z) :
  0 <= n <= d -> d < UINT_MOD ->
  0 <= wrap32 (d - n) / 2 /\ wrap32 (d - n) / 2 + n <= d.
Proof.
  intros Hn Hd. unfold wrap32. rewrite Z.mod_small by lia.
  pose proof (Z.div_mod (d - n) 2 ltac:(lia)).
  pose proof (Z.mod_pos_bound (d - n) 2 ltac:(lia)).
  lia.
Qed.

Ltac inside_tac :=
  unfold inside_window, set_x, set_y, set_width, set_height;
  cbn [x y width height].

(** The rectangle lies inside the window, for a source and a window
    given by their members. *)
Lemma bounding_box_inside (sw sh dx dy dw dh : Z) (res0 : rectangle_t) :
  0 <= sw < UINT_MOD -> 0 <= sh < UINT_MOD ->
  0 <= dw < UINT_MOD -> 0 <= dh < UINT_MOD ->
  exists res,
    compute_bounding_box (mkCfg sw sh) (mkRect dx dy dw dh) res0 = Some res /\
    inside_window (mkRect dx dy dw dh) res.
Proof.
  intros Hsw Hsh Hdw Hdh.
  assert (Full : inside_window (mkRect dx dy dw dh)
                   (set_x (set_y (set_height (set_width res0 dw) dh) 0)
                      (y (set_y (set_height (set_width res0 dw) dh) 0))))
    by (inside_tac; lia).
  unfold compute_bounding_box. cbn [display_width display_height width height].
  destruct (Z.eq_dec sh 0) as [->|Nsh].
  - (* source height 0: the source ratio is NaN or +infinity *)
    rewrite (div_unsigned_zero sw).
    destruct (sw =? 0)%Z; [destruct (div _ _); cbn [gt lt]; eauto|].
    destruct (Z.eq_dec dh 0) as [->|Ndh].
    + rewrite (div_unsigned_zero dw). destruct (dw =? 0)%Z; cbn [gt lt]; eauto.
    + rewrite (div_unsigned dw dh Ndh). cbn [gt div of_unsigned to_unsigned].
      change (Qfloor 0) with 0. cbn [Z.leb Z.ltb andb obind].
      eexists. split; [reflexivity|]. inside_tac.
      destruct (half_inside dh 0); lia.
  - rewrite (div_unsigned sw sh Nsh).
    destruct (Z.eq_dec dh 0) as [->|Ndh].
    + (* destination height 0 *)
      rewrite (div_unsigned_zero dw). destruct (dw =? 0)%Z eqn:Edw; [cbn [gt lt]; eauto|].
      cbn [gt lt negb mul of_unsigned].
      rewrite RN_nonpos by (rewrite Qmult_0_l; apply Qle_refl).
      cbn [to_unsigned]. change (Qfloor 0) with 0. cbn [Z.leb Z.ltb andb obind].
      eexists. split; [reflexivity|]. inside_tac.
      destruct (half_inside dw 0); lia.
    + rewrite (div_unsigned dw dh Ndh). unfold lt, gt.
      set (X := (inject_Z sw / inject_Z sh)%Q).
      destruct (Qle_bool (RN X) _) eqn:E1; cbn [negb].
      * destruct (Qle_bool _ (RN X)) eqn:E2; cbn [negb]; [eauto|].
        assert (Hlt : (RN X < RN (inject_Z dw / inject_Z dh))%Q).
        { apply Qnot_le_lt. intros C. apply Qle_bool_iff in C. congruence. }
        assert (B : 0 <= Qfloor (RN (inject_Z dh * RN X)) <= dw)
          by (apply tall_defined; [lia | lia | exact Hlt]).
        unfold mul, of_unsigned.
        rewrite (to_unsigned_floor _ dw) by (assumption || lia).
        cbn [obind]. eexists. split; [reflexivity|]. inside_tac.
        destruct (half_inside dw _ B); lia.
      * assert (Hgt : (RN (inject_Z dw / inject_Z dh) < RN X)%Q).
        { apply Qnot_le_lt. intros C. apply Qle_bool_iff in C. congruence. }
        pose proof (RN_nonneg (inject_Z dw / inject_Z dh)).
        assert (B : 0 <= Qfloor (RN (inject_Z dw / RN X)) <= dh)
          by (apply wide_defined; [lia | lia | exact Hgt]).
        unfold div, of_unsigned.
        destruct (Qeq_bool (RN X) 0) eqn:E0; [apply Qeq_bool_iff in E0; lra|].
        rewrite (to_unsigned_floor _ dh) by (assumption || lia).
        cbn [obind]. eexists. split; [reflexivity|]. inside_tac.
        destruct (half_inside dh _ B); lia.
Qed.

(** X1 -- For all unsigned sizes -- an empty window or an empty source
    included -- the function returns a rectangle that lies inside the
    window: no division by zero, infinity or NaN makes it leave the
    window. *)
Theorem compute_bounding_box_inside (cfg : vout_display_cfg_t)
    (dst res0 : rectangle_t) :
  is_unsigned (display_width cfg) -> is_unsigned (display_height cfg) ->
  is_unsigned (width dst) -> is_unsigned (height dst) ->
  exists res,
    compute_bounding_box cfg dst res0 = Some res /\ inside_window dst res.
Proof.
  destruct cfg as [sw sh], dst as [dx dy dw dh]. unfold is_unsigned.
  cbn [display_width display_height width height].
  intros Hsw Hsh Hdw Hdh.
  apply bounding_box_inside; assumption.
Qed.

Lemma compute_bounding_box_same_ratio_witness :
  compute_bounding_box (mkCfg 1920 1080) (mkRect 0 0 800 800) rect0
  = compute_bounding_box (mkCfg 16 9) (mkRect 0 0 800 800) rect0.
Proof.
  apply compute_bounding_box_same_ratio;
    unfold positive_size, UINT_MOD, UINT_BITS; simpl; lia.
Defined.

Lemma compute_bounding_box_fills_witness :
  compute_bounding_box (mkCfg 16 9) (mkRect 5 7 1280 720) rect0
  = Some (mkRect 0 0 1280 720).
Proof.
  apply (compute_bounding_box_fills 16 9 (mkRect 5 7 1280 720));
    unfold positive_size, UINT_MOD, UINT_BITS; simpl; lia.
Defined.

Lemma compute_bounding_box_inside_witness :
  exists res,
    compute_bounding_box (mkCfg 16 0) (mkRect 0 0 0 480) rect0 = Some res /\
    inside_window (mkRect 0 0 0 480) res.
Proof.
  apply compute_bounding_box_inside;
    unfold is_unsigned, UINT_MOD, UINT_BITS; simpl; lia.
Defined.

End BoundingBoxFacts.

(** *** Window events: [x11_backend_handle_events] *)

Module EventFacts.
Import MonadFacts GeometryFacts.

Lemma drain_events_spec (q : list XEvent) :
  forall (sys : vout_display_sys_t) (wd : world),
    is_unsigned (display_width (cfg (vd sys))) ->
    is_unsigned (display_height (cfg (vd sys))) ->
    exists sys',
      drain_events q sys wd
      = Some (sys', set_xqueue (match q with [] => xqueue wd | _ => [] end)
                      (set_trace (trace wd
                                  ++ drain_calls (x11_display (x11 sys)) (List.length q))
                         wd)) /\
      vd sys' = vd sys /\ egl sys' = egl sys /\
      match last_configure q with
      | None => sys' = sys
      | Some (w_, h_) =>
          let r := set_height (set_width (rect (x11 sys)) (wrap32 w_)) (wrap32 h_) in
          x11 sys' = set_rect (x11 sys) r /\
          exists v, compute_bounding_box (cfg (vd sys)) r rect0 = Some v /\
                    gl sys' = set_viewport (gl sys) v
      end.
Proof.
  induction q as [|xev q IH]; intros sys wd U1 U2.
  - exists sys. cbn. unfold bind, emit, ret. cbn.
    destruct wd; repeat split; reflexivity.
  - cbn [drain_events List.length drain_calls last_configure].
    unfold bind at 1 2 3. unfold emit at 1 2. unfold put_xqueue. cbv beta iota.
    destruct xev as [w_ h_|].
    + cbn [handle_event].
      set (r := set_height (set_width (rect (x11 sys)) (wrap32 w_)) (wrap32 h_)).
      assert (Ur : is_unsigned (width r) /\ is_unsigned (height r)).
      { unfold r, is_unsigned, wrap32. cbn. split; apply Z.mod_pos_bound; reflexivity. }
      destruct (compute_bounding_box_total (cfg (vd sys)) r (viewport (gl sys))
                  U1 U2 (proj1 Ur) (proj2 Ur)) as [v Ev].
      unfold bind at 1. unfold bind at 1. rewrite Ev. cbn [defined ret].
      set (sys1 := mkSys _ _ _ _).
      destruct (IH sys1 (set_xqueue q
                           (set_trace
                              ((trace wd ++ [X11 (XPending (x11_display (x11 sys)))])
                               ++ [X11 (XNextEvent (x11_display (x11 sys)))])
                              wd)) U1 U2) as (sys' & E & Hvd & Hegl & Hl).
      exists sys'. split; [|split; [exact Hvd | split; [exact Hegl|]]].
      * refine (eq_trans E _). f_equal. f_equal. destruct q; destruct wd; cbn;
          rewrite <- ?app_assoc; reflexivity.
      * destruct (last_configure q) as [[w2 h2]|].
        -- cbn [x11 sys1 rect set_rect gl cfg vd] in Hl.
           destruct Hl as (Hx & v2 & Ev2 & Hg).
           split; [rewrite Hx; destruct (x11 sys) as [d wn [rx ry rw rh] ex]; reflexivity|].
           exists v2. split.
           ++ rewrite <- Ev2.
              destruct (x11 sys) as [d wn [rx ry rw rh] ex]; reflexivity.
           ++ rewrite Hg. destruct (gl sys); reflexivity.
        -- subst sys'. cbn [x11 gl sys1]. split; [reflexivity|].
           exists v. split; [|reflexivity].
           rewrite <- Ev. apply compute_bounding_box_overwrites.
    + cbn [handle_event]. unfold bind at 1. cbn [ret].
      destruct (IH sys (set_xqueue q
                          (set_trace
                             ((trace wd ++ [X11 (XPending (x11_display (x11 sys)))])
                              ++ [X11 (XNextEvent (x11_display (x11 sys)))])
                             wd)) U1 U2) as (sys' & E & Hvd & Hegl & Hl).
      exists sys'. split; [|split; [exact Hvd | split; [exact Hegl | exact Hl]]].
      refine (eq_trans E _). f_equal. f_equal. destruct q; destruct wd; cbn;
        rewrite <- ?app_assoc; reflexivity.
Qed.



(** X5 -- Of several resize events the last one wins: after the call the
    window rectangle has the size of the last [ConfigureNotify] (its
    position is kept), and the viewport is the bounding box for that size;
    without a [ConfigureNotify] nothing changes. *)
Theorem x11_backend_handle_events_last_configure (sys : vout_display_sys_t)
    (wd : world) :
  is_unsigned (display_width (cfg (vd sys))) ->
  is_unsigned (display_height (cfg (vd sys))) ->
  exists sys' wd',
    x11_backend_handle_events sys wd = Some (sys', wd') /\
    vd sys' = vd sys /\ egl sys' = egl sys /\
    match last_configure (xqueue wd) with
    | None => sys' = sys
    | Some (w_, h_) =>
        let r := set_height (set_width (rect (x11 sys)) (wrap32 w_)) (wrap32 h_) in
        x11 sys' = set_rect (x11 sys) r /\
        exists v, compute_bounding_box (cfg (vd sys)) r rect0 = Some v /\
                  gl sys' = set_viewport (gl sys) v
    end.
Proof.
  intros U1 U2. unfold x11_backend_handle_events.
  destruct (drain_events_spec (xqueue wd) sys wd U1 U2) as (sys' & E & H).
  eexists. eexists. split; [exact E | exact H].
Qed.

Lemma x11_backend_handle_events_last_configure_witness :
  exists sys' wd',
    x11_backend_handle_events (example_sys true) resized_world = Some (sys', wd') /\
    vd sys' = vd (example_sys true) /\ egl sys' = egl (example_sys true) /\
    x11 sys' = set_rect (x11 (example_sys true)) (mkRect 0 0 640 480) /\
    exists v, compute_bounding_box (mkCfg 6 2) (mkRect 0 0 640 480) rect0 = Some v /\
              gl sys' = set_viewport (gl (example_sys true)) v.
Proof.
  apply (x11_backend_handle_events_last_configure (example_sys true) resized_world);
    vm_compute; split; congruence.
Defined.

End EventFacts.

(** *** Accepted frames: [do_display], [do_scaling] *)

Module FrameFacts.
Import MonadFacts DisplayFacts UploadFacts.

Lemma emits_ret {A : Type} (P : event -> Prop) (a : A) : emits P (ret a).
Proof. intros wd a' wd' [= _ <-]. exists []. now rewrite app_nil_r. Qed.

Lemma emits_undefined {A : Type} (P : event -> Prop) : emits P (@undefined A).
Proof. intros wd a wd' H. discriminate. Qed.

Lemma emits_bind {A B : Type} (P : event -> Prop) (m : M A) (k : A -> M B) :
  emits P m -> (forall a, emits P (k a)) -> emits P (bind m k).
Proof.
  intros Hm Hk wd b wd' H. apply bind_Some in H as (a & wd1 & H1 & H2).
  destruct (Hm _ _ _ H1) as (e1 & E1 & F1).
  destruct (Hk a _ _ _ H2) as (e2 & E2 & F2).
  exists (e1 ++ e2). split; [now rewrite E2, E1, app_assoc|].
  apply Forall_app. now split.
Qed.

Lemma emits_emit (P : event -> Prop) (e : event) : P e -> emits P (emit e).
Proof. intros H wd a wd' [= _ <-]. exists [e]. split; [reflexivity | now constructor]. Qed.

Lemma emits_answer (P : event -> Prop) : emits P answer.
Proof.
  intros wd a wd'. unfold answer. destruct wd as [t [|z l] g q c s]; cbn;
    intros [= _ <-]; exists []; now rewrite app_nil_r.
Qed.

Lemma emits_gl_do (P : event -> Prop) (c : gl_call) : P (Gl c) -> emits P (gl_do c).
Proof.
  intros H wd a wd' [= _ <-]. exists [Gl c]. split; [reflexivity | now constructor].
Qed.

Lemma emits_gl_ask (P : event -> Prop) (c : gl_call) : P (Gl c) -> emits P (gl_ask c).
Proof.
  intros H. unfold gl_ask. apply emits_bind; [apply emits_answer|].
  intros z wd a wd' [= _ <-]. exists [Gl c]. split; [reflexivity | now constructor].
Qed.

Lemma emits_defined {A : Type} (P : event -> Prop) (o : option A) :
  emits P (defined o).
Proof. destruct o; [apply emits_ret | apply emits_undefined]. Qed.

Lemma emits_for_loop (P : event -> Prop) (n : nat) (i : Z) (body : Z -> M unit) :
  (forall j, emits P (body j)) -> emits P (for_loop n i body).
Proof.
  intros H. revert i. induction n as [|n IH]; intros i; cbn [for_loop].
  - apply emits_ret.
  - apply emits_bind; [apply H | intros _; apply IH].
Qed.

Lemma emits_weaken {A : Type} (P Q : event -> Prop) (m : M A) :
  (forall e, P e -> Q e) -> emits P m -> emits Q m.
Proof.
  intros I H wd a wd' E. destruct (H _ _ _ E) as (evs & T & F).
  exists evs. split; [exact T|]. eapply Forall_impl; eauto.
Qed.

Ltac emits_tac :=
  repeat first
    [ apply emits_ret
    | apply emits_undefined
    | apply emits_defined
    | apply emits_answer
    | apply emits_emit; exact I
    | apply emits_gl_do; exact I
    | apply emits_gl_ask; exact I
    | apply emits_bind; [|intros ?]
    | apply emits_for_loop; intros ?
    | progress unfold when, fprintf, array_get, int_div, unsigned_div, memcpy
    | match goal with
      | |- emits _ (if ?a then _ else _) => destruct a
      | |- emits _ (match ?a with _ => _ end) => destruct a
      end ].

Lemma emits_copy_rows P rows line pl src dst buf :
  emits P (copy_rows rows line pl src dst buf).
Proof.
  revert src dst buf. induction rows as [|n IH]; intros src dst buf;
    cbn [copy_rows]; [apply emits_ret|].
  apply emits_bind; [emits_tac|]. intros ?.
  apply emits_bind; [emits_tac|]. intros ?. apply IH.
Qed.

















End FrameFacts.

(** *** Shader objects: [shader_delete], [shader_load_source], [shader_init] *)

Module ShaderLifeFacts.
Import MonadFacts ShaderFacts UploadFacts.

Lemma shader_delete_run (s : gl_shader_t) (wd : world) :
  shader_delete s wd
  = Some (mkShader 0 0 0 (position_loc s) (texcoord_loc s),
          gl_steps (shader_delete_calls s) wd).
Proof.
  destruct s as [pr v f pl tl].
  unfold shader_delete, shader_delete_calls, bind, gl_do, ret,
    set_vertex, set_fragment, set_program.
  cbn [vertex fragment program position_loc texcoord_loc].
  destruct (Z.eqb_spec v 0) as [->|];
    cbn [negb vertex fragment program position_loc texcoord_loc];
    (destruct (Z.eqb_spec f 0) as [->|]);
    cbn [negb vertex fragment program position_loc texcoord_loc];
    (destruct (Z.eqb_spec pr 0) as [->|]); reflexivity.
Qed.

(** X8 -- [shader_delete] deletes every object whose id is not zero, zeroes
    the three ids and keeps the attribute locations; a second call on the
    result does nothing. *)
Theorem shader_delete_idempotent (s : gl_shader_t) (wd : world) :
  exists s' wd',
    shader_delete s wd = Some (s', wd') /\
    trace wd' = trace wd ++ map Gl (shader_delete_calls s) /\
    vertex s' = 0 /\ fragment s' = 0 /\ program s' = 0 /\
    position_loc s' = position_loc s /\ texcoord_loc s' = texcoord_loc s /\
    shader_delete s' wd' = Some (s', wd').
Proof.
  eexists. eexists. split; [apply shader_delete_run|].
  split; [now rewrite gl_steps_world|].
  repeat split.
Qed.

(** X10 -- [shader_init] on a zero-initialised handle always returns, with -1
    or 0.  When it returns -1, no object it created exists any more and
    the handle is all zero again; when it returns 0, both shader objects
    exist. *)
Theorem shader_init_reports (type : shader_types) (wd : world) :
  exists r s' wd',
    shader_init shader0 type wd = Some ((r, s'), wd') /\
    (r = -1 \/ r = 0) /\
    (r = -1 -> s' = shader0 /\ live (glst wd') = live (glst wd)) /\
    (r = 0 -> In (Shader (vertex s')) (live (glst wd')) /\
              In (Shader (fragment s')) (live (glst wd'))).
Proof.
  destruct (shader_init_outcomes type wd) as ([r s'] & wd' & E & H).
  exists r, s', wd'. split; [exact E|]. cbn [fst snd] in H.
  destruct H as [[[= -> ->] L] | [-> H]].
  - split; [now left|]. split; [auto | discriminate].
  - split; [now right|]. split; [discriminate|]. intros _.
    destruct H as [-> | ->]; cbn; auto.
Qed.

(** X9 -- [shader_load_source] answers the id of the new shader when the
    driver created and compiled it, and 0 otherwise; when it answers 0
    no shader object is left behind: a shader that did not compile is
    deleted again. *)
Theorem shader_load_source_result (src : shader_text) (type : GLenum)
    (created compiled : Z) (rest : list Z) (wd : world) :
  answers wd = created :: compiled :: rest ->
  let failed := (created =? 0) || (compiled =? 0) in
  exists wd',
    shader_load_source src type wd
    = Some ((if failed then 0 else created), wd') /\
    live (glst wd')
    = (if failed then live (glst wd) else Shader created :: live (glst wd)) /\
    (created <> 0 -> compiled = 0 -> In (Gl (GlDeleteShader created)) (trace wd')).
Proof.
  intros Ha failed. subst failed.
  destruct wd as [t an g q ct sc]. cbn [answers] in Ha. subst an.
  unfold shader_load_source, gl_ask, answer, bind. cbn [answers set_answers].
  destruct (Z.eqb_spec created 0) as [->|Nc].
  - cbn. eexists. split; [reflexivity|]. split; [reflexivity|]. congruence.
  - cbn [orb]. unfold gl_do, fprintf, emit, when, ret.
    assert (Nc' := Nc). apply Z.eqb_neq in Nc'.
    cbn. rewrite ?Nc'. cbn.
    destruct (Z.eqb_spec compiled 0) as [->|Nz].
    + destruct rest as [|len rest]; cbn; [|destruct (0 <? len); cbn];
        rewrite ?Nc'; cbn; rewrite ?Z.eqb_refl;
        (eexists; split; [reflexivity|]; split;
         [cbn; rewrite ?Nc'; cbn; rewrite ?Z.eqb_refl; reflexivity|]);
        intros _ _; cbn; apply in_or_app; right; now left.
    + eexists. split; [reflexivity|]. split; [|congruence].
      cbn. rewrite ?Nc'. reflexivity.
Qed.

Lemma shader_load_source_result_witness :
  exists wd',
    shader_load_source vertex_text GL_VERTEX_SHADER compiling_world
    = Some (5, wd') /\
    live (glst wd') = [Shader 5] /\
    (5 <> 0 -> 1 = 0 -> In (Gl (GlDeleteShader 5)) (trace wd')).
Proof.
  apply (shader_load_source_result vertex_text GL_VERTEX_SHADER 5 1 []
           compiling_world).
  reflexivity.
Defined.

End ShaderLifeFacts.

(** *** The compacting upload path: [update_textures_complex] *)

Module CompactingFacts.
Import MonadFacts UploadFacts FrameFacts.

Lemma plane_size_nonneg (f : video_format_t) (ci : chroma_plane_t) :
  0 < den (w ci) -> 0 < den (h ci) ->
  0 <= plane_line f ci /\ 0 <= plane_rows f ci.
Proof.
  intros Hw Hh. unfold plane_line, plane_rows, wrap32.
  split; apply Z.div_pos; try lia; apply Z.mod_pos_bound; reflexivity.
Qed.

Lemma upload_plane_complex_run vout pic c i ci pl t wd :
  nth_error (cp c) (Z.to_nat i) = Some ci ->
  nth_error (p pic) (Z.to_nat i) = Some pl ->
  nth_error (tex (gl vout)) (Z.to_nat i) = Some t ->
  0 <= i -> packable (fmt (vd vout)) ci pl ->
  upload_plane_complex vout pic (Some c) i wd
  = Some (tt, gl_steps
                (complex_plane_calls i t (plane_line (fmt (vd vout)) ci)
                   (plane_rows (fmt (vd vout)) ci) (packed (fmt (vd vout)) ci pl))
                wd).
Proof.
  intros Ec Ep Et Hi (Hw & Hh & Hsz & Hst & Hpp & Hb).
  destruct (plane_size_nonneg (fmt (vd vout)) ci Hw Hh) as [Hl Hr].
  unfold upload_plane_complex.
  unfold bind at 1. cbn [defined ret].
  unfold bind at 1. unfold array_get at 1. apply Z.ltb_ge in Hi. rewrite Hi, Ec.
  cbn [defined ret].
  unfold bind at 1. unfold unsigned_div at 1.
  destruct (Z.eqb_spec (den (h ci)) 0) as [E|_]; [lia|]. cbn [ret].
  unfold bind at 1. unfold unsigned_div at 1.
  destruct (Z.eqb_spec (den (w ci)) 0) as [E|_]; [lia|]. cbn [ret].
  unfold bind at 1. unfold array_get at 1. rewrite Hi, Ep. cbn [defined ret].
  unfold bind at 1.
  fold (plane_line (fmt (vd vout)) ci). fold (plane_rows (fmt (vd vout)) ci).
  rewrite (pack_plane_run pl _ _ wd Hl Hr Hsz Hst Hpp Hb).
  unfold bind, gl_do, array_get. rewrite Hi, Et. reflexivity.
Qed.

Lemma load_static_c_run (f : video_format_t) (wd : world) :
  load_static_c f wd
  = Some (cached_chroma wd f,
          set_static_c (cached_chroma wd f)
            (set_trace (trace wd ++ chroma_lookup wd f) wd)).
Proof.
  unfold load_static_c, cached_chroma, chroma_lookup.
  destruct wd as [t an g q ct [c|]]; cbn; [|reflexivity].
  now rewrite app_nil_r.
Qed.

Lemma complex_plane_binding (i : Z) (t : gl_texture_t) (line rows : Z)
    (buf : list cell) (g : gl_state) :
  let g' := gl_run (complex_plane_calls i t line rows buf) g in
  bound_2d g' = upd (bound_2d g) i (tex_id t) /\
  pixel_store g' = pixel_store g.
Proof.
  unfold complex_plane_calls, gl_run, pixel_store. cbn.
  destruct ((line <? 0) || (rows <? 0)); cbn; auto.
Qed.

Lemma update_textures_complex_run vout pic wd c c0 c1 c2 p0 p1 p2 t0 t1 t2 :
  let f := fmt (vd vout) in
  cached_chroma wd f = Some c ->
  cp c = [c0; c1; c2] ->
  i_planes pic = 3 -> p pic = [p0; p1; p2] -> tex (gl vout) = [t0; t1; t2] ->
  packable f c0 p0 -> packable f c1 p1 -> packable f c2 p2 ->
  let W := gl_steps (complex_calls f c0 c1 c2 p0 p1 p2 t0 t1 t2)
             (set_static_c (Some c)
                (set_trace ((trace wd ++ [Fprintf "> %s()\n"]) ++ chroma_lookup wd f)
                   wd)) in
  update_textures_complex vout pic wd
  = Some (tt, set_trace (trace W ++ [Fprintf "< %s()\n"]) W).
Proof.
  intros f Hc Hcp Hn Hp Ht P0 P1 P2 W.
  unfold update_textures_complex. rewrite Hn.
  change (Z.to_nat (wrap32 3)) with 3%nat. cbn [for_loop].
  change (0 + 1) with 1. change (1 + 1) with 2.
  unfold fprintf at 1. unfold bind at 1. unfold emit at 1. cbv beta iota.
  unfold bind at 1. rewrite load_static_c_run. cbv beta iota.
  replace (cached_chroma (set_trace (trace wd ++ [Fprintf "> %s()\n"]) wd)
             (fmt (vd vout))) with (Some c)
    by (rewrite <- Hc; destruct wd; reflexivity).
  replace (chroma_lookup (set_trace (trace wd ++ [Fprintf "> %s()\n"]) wd)
             (fmt (vd vout))) with (chroma_lookup wd f)
    by (destruct wd; reflexivity).
  unfold bind at 1. unfold bind at 1.
  rewrite (upload_plane_complex_run vout pic c 0 c0 p0 t0)
    by (rewrite ?Hcp, ?Hp, ?Ht; reflexivity || lia || assumption).
  cbv beta iota. unfold bind at 1.
  rewrite (upload_plane_complex_run vout pic c 1 c1 p1 t1)
    by (rewrite ?Hcp, ?Hp, ?Ht; reflexivity || lia || assumption).
  cbv beta iota. unfold bind at 1.
  rewrite (upload_plane_complex_run vout pic c 2 c2 p2 t2)
    by (rewrite ?Hcp, ?Hp, ?Ht; reflexivity || lia || assumption).
  cbv beta iota. unfold ret, fprintf, emit.
  unfold W, complex_calls. rewrite !gl_steps_app.
  fold f. destruct wd; reflexivity.
Qed.

(** X11 -- The compacting upload path, for each of the 3 planes, makes texture
    unit [i] active, binds the texture of plane [i], uploads the packed
    rows as line x rows of single-channel 8-bit data and sets the sampler
    uniform to [i]; it never touches the pixel-store state, and the chroma
    description it used stays in the static. *)
Theorem update_textures_complex_spec vout pic wd c c0 c1 c2 p0 p1 p2 t0 t1 t2 :
  let f := fmt (vd vout) in
  cached_chroma wd f = Some c ->
  cp c = [c0; c1; c2] ->
  i_planes pic = 3 -> p pic = [p0; p1; p2] -> tex (gl vout) = [t0; t1; t2] ->
  packable f c0 p0 -> packable f c1 p1 -> packable f c2 p2 ->
  let calls := complex_calls f c0 c1 c2 p0 p1 p2 t0 t1 t2 in
  exists wd',
    update_textures_complex vout pic wd = Some (tt, wd') /\
    trace wd'
    = trace wd ++ [Fprintf "> %s()\n"] ++ chroma_lookup wd f
      ++ map Gl calls ++ [Fprintf "< %s()\n"] /\
    glst wd' = gl_run calls (glst wd) /\
    static_c wd' = Some c /\
    pixel_store (glst wd') = pixel_store (glst wd) /\
    bound_2d (glst wd') 0 = tex_id t0 /\ bound_2d (glst wd') 1 = tex_id t1 /\
    bound_2d (glst wd') 2 = tex_id t2.
Proof.
  intros f Hc Hcp Hn Hp Ht P0 P1 P2 calls.
  eexists.
  split; [exact (update_textures_complex_run vout pic wd c c0 c1 c2 p0 p1 p2
                   t0 t1 t2 Hc Hcp Hn Hp Ht P0 P1 P2)|].
  fold f. fold calls. rewrite gl_steps_world.
  cbn [trace glst static_c set_trace set_glst set_static_c].
  split; [rewrite <- !app_assoc; reflexivity|].
  split; [reflexivity|]. split; [reflexivity|].
  unfold calls, complex_calls. rewrite !gl_run_app.
  set (g0 := glst wd).
  destruct (complex_plane_binding 0 t0 (plane_line f c0) (plane_rows f c0)
              (packed f c0 p0) g0) as [B0 S0].
  set (g1 := gl_run (complex_plane_calls 0 t0 _ _ _) g0) in *.
  destruct (complex_plane_binding 1 t1 (plane_line f c1) (plane_rows f c1)
              (packed f c1 p1) g1) as [B1 S1].
  set (g2 := gl_run (complex_plane_calls 1 t1 _ _ _) g1) in *.
  destruct (complex_plane_binding 2 t2 (plane_line f c2) (plane_rows f c2)
              (packed f c2 p2) g2) as [B2 S2].
  set (g3 := gl_run (complex_plane_calls 2 t2 _ _ _) g2) in *.
  split; [congruence|].
  rewrite B2, B1, B0. unfold upd. cbn. auto.
Qed.

Lemma example_packable (ci : chroma_plane_t) (pl : plane_t) :
  In (ci, pl) (combine (cp I420_description) (p example_picture)) ->
  packable example_format ci pl.
Proof.
  cbn. intros [[= <- <-]|[[= <- <-]|[[= <- <-]|[]]]];
    unfold packable, plane_line, plane_rows, UINT_MOD, UINT_BITS, wrap32;
    cbn; repeat split; try lia; discriminate.
Qed.

Lemma update_textures_complex_spec_witness :
  let f := example_format in
  let calls :=
    complex_calls f (mkChromaPlane (mkRational 1 1) (mkRational 1 1))
      (mkChromaPlane (mkRational 1 2) (mkRational 1 2))
      (mkChromaPlane (mkRational 1 2) (mkRational 1 2))
      (mkPlane (example_bytes 0 16) 2 8 1 2 6)
      (mkPlane (example_bytes 16 4) 1 4 1 1 3)
      (mkPlane (example_bytes 32 4) 1 4 1 1 3)
      (mkTex 31 0) (mkTex 32 1) (mkTex 33 2) in
  exists wd',
    update_textures_complex (example_sys false) example_picture world0
    = Some (tt, wd') /\
    trace wd'
    = trace world0 ++ [Fprintf "> %s()\n"] ++ chroma_lookup world0 f
      ++ map Gl calls ++ [Fprintf "< %s()\n"] /\
    glst wd' = gl_run calls (glst world0) /\
    static_c wd' = Some I420_description /\
    pixel_store (glst wd') = pixel_store (glst world0) /\
    bound_2d (glst wd') 0 = 31 /\ bound_2d (glst wd') 1 = 32 /\
    bound_2d (glst wd') 2 = 33.
Proof.
  apply (update_textures_complex_spec (example_sys false) example_picture world0
           I420_description);
    try reflexivity; apply example_packable; cbn; auto.
Defined.

Lemma complex_cached vout pic wd (c : vlc_chroma_description_t) :
  static_c wd = Some c ->
  update_textures_complex vout pic wd
  = (for_loop (Z.to_nat (wrap32 (i_planes pic))) 0
       (upload_plane_complex vout pic (Some c)) ;;
     fprintf "< %s()\n")
      (set_trace (trace wd ++ [Fprintf "> %s()\n"]) wd).
Proof.
  intros H.
  change (update_textures_complex vout pic wd)
    with ((c0 <- load_static_c (fmt (vd vout)) ;;
           for_loop (Z.to_nat (wrap32 (i_planes pic))) 0
             (upload_plane_complex vout pic c0) ;;
           fprintf "< %s()\n")
            (set_trace (trace wd ++ [Fprintf "> %s()\n"]) wd)).
  unfold bind at 1. rewrite load_static_c_run.
  destruct wd as [t an g q ct sc]. cbn [static_c] in H. subst sc.
  unfold cached_chroma, chroma_lookup, set_static_c, set_trace.
  cbn [static_c trace answers glst xqueue chroma_table].
  now rewrite app_nil_r.
Qed.

(** X12 -- The chroma description is looked up once and kept in a static: once
    it is set, a call does not look at the chroma of the display format
    any more -- a display with any other chroma is treated the same --
    and makes no look-up. *)
Theorem update_textures_complex_static_cache vout pic wd
    (c : vlc_chroma_description_t) (chroma : Z) :
  static_c wd = Some c ->
  update_textures_complex (with_chroma vout chroma) pic wd
  = update_textures_complex vout pic wd /\
  forall r wd',
    update_textures_complex vout pic wd = Some (r, wd') ->
    exists evs, trace wd' = trace wd ++ evs /\ Forall is_no_lookup evs.
Proof.
  intros H. split.
  - rewrite !(complex_cached _ pic wd c H). reflexivity.
  - intros r wd' E. rewrite (complex_cached _ pic wd c H) in E.
    assert (G : emits is_no_lookup
                  (for_loop (Z.to_nat (wrap32 (i_planes pic))) 0
                     (upload_plane_complex vout pic (Some c)) ;;
                   fprintf "< %s()\n")).
    { apply emits_bind; [|intros _; emits_tac].
      apply emits_for_loop. intros j. unfold upload_plane_complex, pack_plane.
      apply emits_bind; [emits_tac|]. intros c'.
      apply emits_bind; [emits_tac|]. intros ci.
      apply emits_bind; [emits_tac|]. intros rows.
      apply emits_bind; [emits_tac|]. intros line.
      apply emits_bind; [emits_tac|]. intros pl.
      apply emits_bind; [apply emits_copy_rows|]. intros buf.
      emits_tac. }
    destruct (G _ _ _ E) as (evs & T & F). cbn [trace set_trace] in T.
    exists (Fprintf "> %s()\n" :: evs). split.
    + rewrite T, <- app_assoc. reflexivity.
    + constructor; [exact I | exact F].
Qed.

Lemma update_textures_complex_static_cache_witness :
  update_textures_complex (with_chroma (example_sys false) 0) example_picture
    (set_static_c (Some I420_description) world0)
  = update_textures_complex (example_sys false) example_picture
      (set_static_c (Some I420_description) world0) /\
  forall r wd',
    update_textures_complex (example_sys false) example_picture
      (set_static_c (Some I420_description) world0) = Some (r, wd') ->
    exists evs,
      trace wd' = trace (set_static_c (Some I420_description) world0) ++ evs /\
      Forall is_no_lookup evs.
Proof.
  apply (update_textures_complex_static_cache (example_sys false) example_picture
           (set_static_c (Some I420_description) world0) I420_description 0).
  reflexivity.
Defined.

(** X13 -- While the static is still null, a display format whose chroma libvlc
    does not know makes the first plane dereference a null description:
    the behaviour is undefined. *)
Theorem update_textures_complex_unknown_chroma vout pic wd :
  static_c wd = None ->
  chroma_table wd (i_chroma (fmt (vd vout))) = None ->
  0 < wrap32 (i_planes pic) ->
  update_textures_complex vout pic wd = None.
Proof.
  intros Hs Ht Hn.
  change (update_textures_complex vout pic wd)
    with ((c0 <- load_static_c (fmt (vd vout)) ;;
           for_loop (Z.to_nat (wrap32 (i_planes pic))) 0
             (upload_plane_complex vout pic c0) ;;
           fprintf "< %s()\n")
            (set_trace (trace wd ++ [Fprintf "> %s()\n"]) wd)).
  unfold bind at 1. rewrite load_static_c_run.
  unfold cached_chroma. cbn [static_c set_trace chroma_table]. rewrite Hs, Ht.
  destruct (Z.to_nat (wrap32 (i_planes pic))) as [|n] eqn:En; [lia|].
  reflexivity.
Qed.

Lemma update_textures_complex_unknown_chroma_witness :
  update_textures_complex (with_chroma (example_sys false) 0) example_picture world0
  = None.
Proof.
  apply update_textures_complex_unknown_chroma; reflexivity.
Defined.

End CompactingFacts.

(** *** The colour arithmetic of the deinterlace shader *)

Module ColourFacts.
Import GLSL BT601.


End ColourFacts.

(** *** Extension lookup: [opengl_have_extention] *)

Module ExtensionFacts.
Import Ascii CString.

Lemma space_not_nul : Ascii.eqb SPACE NUL = false.
Proof. reflexivity. Qed.

Lemma nat_of_ascii_diff (a b : ascii) :
  Z.of_nat (nat_of_ascii a) - Z.of_nat (nat_of_ascii b) = 0 -> a = b.
Proof.
  intros H. assert (E : nat_of_ascii a = nat_of_ascii b) by lia.
  rewrite <- (ascii_nat_embedding a), <- (ascii_nat_embedding b). now rewrite E.
Qed.

(** [strncmp(e, search, strlen(search)) == 0] tests for a prefix. *)
Lemma strncmp_prefix (search e : list ascii) :
  c_string search ->
  (strncmp e search (List.length search) =? 0) = true <->
  exists post, e = search ++ post.
Proof.
  unfold c_string. revert e. induction search as [|c s IH]; intros e Hc.
  - split; [intros _; now exists e | reflexivity].
  - assert (Hn : c <> NUL) by (intros ->; apply Hc; now left).
    assert (Hs : ~ In NUL s) by (intros H; apply Hc; now right).
    cbn [List.length strncmp deref].
    destruct e as [|a e]; cbn [deref tl].
    + destruct (Ascii.eqb_spec NUL c) as [E|E]; [congruence|].
      split.
      * intros H. apply Z.eqb_eq, nat_of_ascii_diff in H. congruence.
      * intros [post H]. discriminate.
    + destruct (Ascii.eqb_spec a c) as [->|E].
      * destruct (Ascii.eqb_spec c NUL) as [E|_]; [congruence|].
        rewrite (IH e Hs). split; intros [post H]; exists post.
        -- cbn. now rewrite H.
        -- cbn in H. now injection H.
      * split.
        -- intros H. apply Z.eqb_eq, nat_of_ascii_diff in H. congruence.
        -- intros [post H]. cbn in H. injection H as H _. congruence.
Qed.

Lemma char_at_app (s post : list ascii) :
  char_at (s ++ post) (List.length s) = Some (deref post).
Proof.
  induction s as [|c s IH]; [now destruct post|]. exact IH.
Qed.

Lemma skip_spaces_spec (e : list ascii) :
  exists k, e = repeat SPACE k ++ skip_spaces e /\
            deref (skip_spaces e) <> SPACE.
Proof.
  induction e as [|c e (k & E & H)]; [now exists 0%nat|].
  cbn [skip_spaces]. destruct (Ascii.eqb_spec c SPACE) as [->|N].
  - exists (S k). split; [cbn; now rewrite <- E | exact H].
  - now exists 0%nat.
Qed.

Lemma strchr_space (e : list ascii) :
  match strchr e SPACE with
  | None => ~ In SPACE e
  | Some r => exists t q, e = t ++ r /\ r = SPACE :: q /\ ~ In SPACE t
  end.
Proof.
  induction e as [|c e IH]; [cbn; auto|].
  cbn [strchr]. destruct (Ascii.eqb_spec c SPACE) as [->|N].
  - exists [], e. auto.
  - destruct (strchr e SPACE) as [r|].
    + destruct IH as (t & q & -> & -> & H). exists (c :: t), q.
      split; [reflexivity|]. split; [reflexivity|].
      intros [E|I]; [congruence | auto].
    + intros [E|I]; [congruence | auto].
Qed.

Lemma tokens_space (e : list ascii) : tokens (SPACE :: e) = tokens e.
Proof. reflexivity. Qed.

Lemma tokens_spaces (k : nat) (e : list ascii) :
  tokens (repeat SPACE k ++ e) = tokens e.
Proof. induction k; [reflexivity | exact IHk]. Qed.

Lemma tokens_from_word (t cur r : list ascii) :
  ~ In SPACE t ->
  tokens_from cur (t ++ r) = tokens_from (rev t ++ cur) r.
Proof.
  revert cur. induction t as [|c t IH]; intros cur H; [reflexivity|].
  cbn [app tokens_from].
  destruct (Ascii.eqb_spec c SPACE) as [->|N]; [exfalso; apply H; now left|].
  rewrite IH by (intros I; apply H; now right).
  cbn [rev]. now rewrite <- app_assoc.
Qed.

Lemma rev_cons_cases (t : list ascii) :
  t <> [] -> exists c l, rev t ++ [] = c :: l.
Proof.
  intros H. rewrite app_nil_r. destruct (rev t) as [|c l] eqn:E.
  - apply (f_equal (@rev ascii)) in E. rewrite rev_involutive in E. now destruct H.
  - now exists c, l.
Qed.

(** The first word of a string and the words after it. *)
Lemma tokens_word_last (t : list ascii) :
  t <> [] -> ~ In SPACE t -> tokens t = [t].
Proof.
  intros Hn Hs. unfold tokens.
  rewrite <- (app_nil_r t) at 1. rewrite tokens_from_word by exact Hs.
  destruct (rev_cons_cases t Hn) as (c & l & E). rewrite E. cbn [tokens_from].
  rewrite <- E, app_nil_r, rev_involutive. reflexivity.
Qed.

Lemma tokens_word_more (t q : list ascii) :
  t <> [] -> ~ In SPACE t -> tokens (t ++ SPACE :: q) = t :: tokens q.
Proof.
  intros Hn Hs. unfold tokens. rewrite tokens_from_word by exact Hs.
  destruct (rev_cons_cases t Hn) as (c & l & E). rewrite E. cbn [tokens_from].
  change (Ascii.eqb SPACE SPACE) with true. cbv iota.
  rewrite <- E, app_nil_r, rev_involutive. reflexivity.
Qed.

Lemma first_space_unique (t s q p : list ascii) :
  ~ In SPACE t -> ~ In SPACE s ->
  t ++ SPACE :: q = s ++ SPACE :: p -> t = s.
Proof.
  revert s. induction t as [|c t IH]; intros [|d s] Ht Hs E; cbn in E.
  - reflexivity.
  - injection E as E _. exfalso. apply Hs. now left.
  - injection E as E _. exfalso. apply Ht. now left.
  - injection E as -> E. f_equal. apply (IH s); auto.
    + intros I; apply Ht; now right.
    + intros I; apply Hs; now right.
Qed.

Lemma memchr_space_nul (c : ascii) :
  memchr [SPACE; NUL] c 2 = Some (Ascii.eqb c SPACE || Ascii.eqb c NUL).
Proof. unfold memchr. cbn. now rewrite orb_false_r. Qed.

Lemma found_here_spec (e search : list ascii) :
  c_string e -> c_string search ->
  exists b, found_here e search (List.length search) = Some b /\
    (b = true <->
     exists post, e = search ++ post /\ (post = [] \/ exists q, post = SPACE :: q)).
Proof.
  intros He Hs. unfold found_here.
  destruct (strncmp e search (List.length search) =? 0) eqn:P.
  - apply (strncmp_prefix search e Hs) in P as [post ->].
    rewrite char_at_app. cbn [obind]. rewrite memchr_space_nul.
    eexists. split; [reflexivity|]. split.
    + intros H. exists post. split; [reflexivity|].
      apply orb_true_iff in H as [H|H].
      * right. destruct post as [|c q]; [discriminate|].
        cbn in H. apply Ascii.eqb_eq in H. subst. now exists q.
      * destruct post as [|c q]; [now left|].
        cbn in H. apply Ascii.eqb_eq in H. subst. exfalso. apply He.
        apply in_or_app. right. now left.
    + intros (post' & E & H). apply app_inv_head in E. subst post'.
      destruct H as [->|[q ->]]; reflexivity.
  - exists false. split; [reflexivity|]. split; [discriminate|].
    intros (post & E & _).
    assert (T : (strncmp e search (List.length search) =? 0) = true)
      by (apply strncmp_prefix; eauto).
    congruence.
Qed.

Lemma c_string_app (a b : list ascii) :
  c_string (a ++ b) -> c_string a /\ c_string b.
Proof. unfold c_string. intros H. split; intros I; apply H, in_or_app; auto. Qed.

Lemma loop_null (fuel : nat) (search : list ascii) (len : nat) :
  have_extention_loop fuel None search len = Some false.
Proof. now destruct fuel. Qed.

Lemma loop_tokens (search : list ascii) :
  c_string search -> search <> [] -> ~ In SPACE search ->
  forall (fuel : nat) (e : list ascii),
    (List.length e < fuel)%nat -> c_string e ->
    exists b,
      have_extention_loop fuel (Some e) search (List.length search) = Some b /\
      (b = true <-> In search (tokens e)).
Proof.
  intros Hs Hne Hsp. induction fuel as [|fuel IH]; intros e Hl He; [lia|].
  cbn [have_extention_loop]. 
  destruct (skip_spaces_spec e) as (k & E & Hd).
  remember (skip_spaces e) as e' eqn:R. clear R. subst e.
  assert (He' : c_string e') by now apply c_string_app in He.
  assert (Hl' : (List.length e' < S fuel)%nat) by (rewrite length_app in Hl; lia).
  clear Hl He. rewrite tokens_spaces.
  destruct (found_here_spec e' search He' Hs) as (b & F & Hb). rewrite F.
  cbn [obind].
  pose proof (strchr_space e') as C.
  destruct e' as [|c e0] eqn:Ee.
  - (* at the terminator *)
    destruct b.
    + exfalso. destruct Hb as [Hb _]. destruct (Hb eq_refl) as (post & P & _).
      destruct search; [now apply Hne | discriminate].
    + cbn [strchr]. rewrite space_not_nul, loop_null.
      exists false. split; [reflexivity|]. split; [discriminate | intros []].
  - assert (Hc : c <> SPACE) by exact Hd. rewrite <- Ee in *.
    destruct (strchr e' SPACE) as [r|].
    + destruct C as (t & q & Et & -> & Ht).
      assert (Htn : t <> []).
      { intros ->. cbn in Et. rewrite Ee in Et. injection Et as Et _. congruence. }
      assert (Tk : tokens e' = t :: tokens (SPACE :: q))
        by (rewrite Et, tokens_space; now apply tokens_word_more).
      assert (Hm : b = true <-> search = t).
      { rewrite Hb. split.
        - intros (post & P & [->|[p ->]]).
          + exfalso. rewrite app_nil_r in P. apply Hsp. rewrite <- P, Et.
            apply in_or_app. right. now left.
          + symmetry. apply (first_space_unique t search q p Ht Hsp). congruence.
        - intros ->. exists (SPACE :: q). split; [exact Et | right; eauto]. }
      destruct b.
      * exists true. split; [reflexivity|]. split; [intros _ | reflexivity].
        rewrite Tk. left. symmetry. now apply Hm.
      * destruct (IH (SPACE :: q)) as (b & L & Hb').
        -- rewrite Et, length_app in Hl'. destruct t; [now destruct Htn|].
           cbn [List.length] in *. lia.
        -- rewrite Et in He'. now apply c_string_app in He'.
        -- exists b. split; [exact L|]. rewrite Hb', Tk. split; [now right|].
           intros [Eq|I]; [|exact I]. symmetry in Eq. apply Hm in Eq. discriminate.
    + assert (Tk : tokens e' = [e'])
        by (apply tokens_word_last; [rewrite Ee; discriminate | exact C]).
      assert (Hm : b = true <-> search = e').
      { rewrite Hb. split.
        - intros (post & P & [->|[p ->]]).
          + now rewrite app_nil_r in P.
          + exfalso. apply C. rewrite P. apply in_or_app. right. now left.
        - intros ->. exists []. split; [now rewrite app_nil_r | now left]. }
      destruct b.
      * exists true. split; [reflexivity|]. split; [intros _ | reflexivity].
        rewrite Tk. left. symmetry. now apply Hm.
      * rewrite loop_null.
        exists false. split; [reflexivity|]. split; [discriminate|].
        rewrite Tk. intros [Eq|[]]. symmetry in Eq. apply Hm in Eq. discriminate.
Qed.

(** X15 -- [opengl_have_extention] finds a name exactly when it is one of the
    words of the extension string: a name that is only the beginning of a
    listed extension is not found. *)
Theorem opengl_have_extention_tokens (ext search : list ascii) :
  c_string ext -> c_string search -> search <> [] -> ~ In SPACE search ->
  exists b,
    opengl_have_extention (Some ext) search = Some b /\
    (b = true <-> In search (tokens ext)).
Proof.
  intros He Hs Hne Hsp. unfold opengl_have_extention, strlen.
  apply loop_tokens; auto.
Qed.

Lemma loop_sound (search : list ascii) :
  c_string search ->
  forall (fuel : nat) (e : list ascii),
    (List.length e < fuel)%nat -> c_string e ->
    exists b,
      have_extention_loop fuel (Some e) search (List.length search) = Some b /\
      (b = true ->
       exists pre post,
         e = pre ++ search ++ post /\ (post = [] \/ exists q, post = SPACE :: q)).
Proof.
  intros Hs. induction fuel as [|fuel IH]; intros e Hl He; [lia|].
  cbn [have_extention_loop]. 
  destruct (skip_spaces_spec e) as (k & E & Hd).
  remember (skip_spaces e) as e' eqn:R. clear R. subst e.
  assert (He' : c_string e') by now apply c_string_app in He.
  assert (Hl' : (List.length e' < S fuel)%nat) by (rewrite length_app in Hl; lia).
  clear Hl He.
  destruct (found_here_spec e' search He' Hs) as (b & F & Hb). rewrite F.
  cbn [obind]. destruct b.
  - exists true. split; [reflexivity|]. intros _.
    destruct Hb as [Hb _]. destruct (Hb eq_refl) as (post & -> & P).
    now exists (repeat SPACE k), post.
  - pose proof (strchr_space e') as C.
    destruct (strchr e' SPACE) as [r|]; [|rewrite loop_null; eauto; now exists false].
    destruct C as (t & q & -> & -> & Ht).
    destruct t as [|c t]; [now destruct Hd|].
    destruct (IH (SPACE :: q)) as (b & L & Hb').
    + rewrite length_app in Hl'. cbn [List.length] in *. lia.
    + now apply c_string_app in He'.
    + exists b. split; [exact L|]. intros Hbt.
      destruct (Hb' Hbt) as (pre & post & E & P).
      exists (repeat SPACE k ++ (c :: t) ++ pre), post. split; [|exact P].
      rewrite E, <- !app_assoc. reflexivity.
Qed.

(** X16 -- For every search string -- empty, or with spaces in it -- the call
    returns without reading outside the two strings; a null extension
    string gives [false]; and [true] is only answered when the search
    string occurs in the list, followed by a space or by the end. *)
Theorem opengl_have_extention_sound (ext : option (list ascii)) (search : list ascii) :
  c_string search ->
  (forall e, ext = Some e -> c_string e) ->
  exists b,
    opengl_have_extention ext search = Some b /\
    (ext = None -> b = false) /\
    (b = true ->
     exists pre post,
       ext = Some (pre ++ search ++ post) /\
       (post = [] \/ exists q, post = SPACE :: q)).
Proof.
  intros Hs He. destruct ext as [e|].
  - destruct (loop_sound search Hs (S (List.length e)) e) as (b & L & Hb);
      [lia | now apply He |].
    exists b. split; [exact L|]. split; [discriminate|].
    intros Hbt. destruct (Hb Hbt) as (pre & post & -> & P). eauto.
  - exists false. split; [reflexivity|]. split; [reflexivity | discriminate].
Qed.

Lemma c_string_literal (s : string) :
  forallb (fun c => negb (Ascii.eqb c NUL)) (list_ascii_of_string s) = true ->
  c_string (list_ascii_of_string s).
Proof.
  intros H I. rewrite forallb_forall in H. apply H in I.
  now rewrite Ascii.eqb_refl in I.
Qed.

Lemma opengl_have_extention_tokens_witness :
  exists b,
    opengl_have_extention (Some example_extensions) unpack_subimage = Some b /\
    (b = true <-> In unpack_subimage (tokens example_extensions)).
Proof.
  apply opengl_have_extention_tokens.
  - apply c_string_literal. reflexivity.
  - apply c_string_literal. reflexivity.
  - discriminate.
  - vm_compute. intuition discriminate.
Defined.

Lemma opengl_have_extention_sound_witness :
  exists b,
    opengl_have_extention (Some example_extensions) [] = Some b /\
    (Some example_extensions = None -> b = false) /\
    (b = true ->
     exists pre post,
       Some example_extensions = Some (pre ++ [] ++ post) /\
       (post = [] \/ exists q, post = SPACE :: q)).
Proof.
  apply opengl_have_extention_sound.
  - intros [].
  - intros e [= <-]. apply c_string_literal. reflexivity.
Defined.

End ExtensionFacts.

(** *** Set-up and tear-down *)

Module SetupFacts.
Import MonadFacts.

Lemma ask_run (c : setup_call) (sw : sys_world) :
  ask c sw = Some (hd 0 (answers (inner sw)), asked c sw).
Proof.
  destruct sw as [[t [|a an] g q ct sc] l tx fb ex];
    unfold ask, sbind, call, lift, answer, asked; cbn;
    now rewrite app_nil_r.
Qed.

Lemma lift_answer_run (sw : sys_world) :
  lift answer sw = Some (hd 0 (answers (inner sw)), answered sw).
Proof.
  destruct sw as [[t [|a an] g q ct sc] l tx fb ex];
    unfold lift, answer, answered; cbn; now rewrite app_nil_r.
Qed.

Lemma sfprintf_run (f : string) (sw : sys_world) :
  sfprintf f sw = Some (tt, logged [Render (Fprintf f)] sw).
Proof. destruct sw as [[t an g q ct sc] l tx fb ex]. reflexivity. Qed.

Lemma egl_backend_destroy_run (e : egl_backend_t) (wd : world) :
  egl_backend_destroy (Some e) wd
  = Some (tt, set_trace (trace wd ++ map Egl (code_teardown e)
                           ++ [Free "egl"; Quirk_close_forgotten_handles]) wd).
Proof.
  destruct e as [d s c].
  unfold egl_backend_destroy, code_teardown, when, bind, emit, ret.
  cbn [egl_display egl_surface egl_context].
  destruct (c =? 0), (s =? 0), (d =? 0); cbn [negb];
    unfold set_trace; cbn [trace answers glst xqueue chroma_table static_c map app];
    rewrite <- ?app_assoc; reflexivity.
Qed.

Lemma cleanup_run (e : egl_backend_t) (sw : sys_world) :
  egl_backend_create_cleanup e sw
  = Some ((VLC_EGENERIC, None), logged (teardown_events e) sw).
Proof.
  unfold egl_backend_create_cleanup, sbind, lift.
  rewrite egl_backend_destroy_run. unfold sret, logged, teardown_events.
  destruct sw as [[t an g q ct sc] l tx fb ex]. cbn.
  now rewrite map_app, map_map.
Qed.

Ltac egl_step :=
  unfold sbind at 1;
  first [ rewrite ask_run | rewrite lift_answer_run | rewrite sfprintf_run ];
  cbv beta iota.

Ltac egl_fail :=
  do 2 egl_step; rewrite cleanup_run.

Lemma log_asked c sw : log (asked c sw) = log sw ++ [Setup c].
Proof. reflexivity. Qed.

Lemma log_answered sw : log (answered sw) = log sw.
Proof. reflexivity. Qed.

Lemma log_logged evs sw : log (logged evs sw) = log sw ++ evs.
Proof. reflexivity. Qed.

Lemma call_run (c : setup_call) (sw : sys_world) :
  call c sw = Some (tt, called c sw).
Proof. reflexivity. Qed.

Lemma free_run (what : string) (sw : sys_world) :
  lift (emit (Free what)) sw = Some (tt, logged [Render (Free what)] sw).
Proof. destruct sw as [[t an g q ct sc] l tx fb ex]. reflexivity. Qed.

Lemma log_called c sw : log (called c sw) = log sw ++ [Setup c].
Proof. reflexivity. Qed.

Ltac run_step :=
  unfold sbind at 1;
  first [ rewrite ask_run | rewrite lift_answer_run | rewrite sfprintf_run
        | rewrite call_run | rewrite free_run ];
  cbv beta iota.

Lemma keeps_gl_refl (sw : sys_world) : keeps_gl sw sw.
Proof. repeat split. Qed.

Lemma keeps_gl_trans (sw sw1 sw2 : sys_world) :
  keeps_gl sw sw1 -> keeps_gl sw1 sw2 -> keeps_gl sw sw2.
Proof.
  unfold keeps_gl, same_objects. intros (A & B & C & D) (A' & B' & C' & D').
  repeat split; congruence.
Qed.

Lemma ends_with_refl {A : Type} (l : list A) : ends_with l l.
Proof. now exists []. Qed.

Lemma ends_with_app {A : Type} (a b suffix : list A) :
  ends_with b suffix -> ends_with (a ++ b) suffix.
Proof. intros [pre ->]. exists (a ++ pre). now rewrite app_assoc. Qed.

Lemma ends_with_cons {A : Type} (a : A) (b suffix : list A) :
  ends_with b suffix -> ends_with (a :: b) suffix.
Proof. apply (ends_with_app [a]). Qed.

Ltac ends_tac :=
  repeat first [ apply ends_with_refl | apply ends_with_cons | apply ends_with_app ].

(** Name the log of the world [W] and write it as the log of [sw]
    followed by the events since. *)
Ltac log_of W sw L :=
  let lw := fresh "lw" in
  remember (log W) as lw eqn:L;
  repeat first
    [ rewrite log_logged in L | rewrite log_asked in L
    | rewrite log_answered in L | rewrite log_called in L
    | match type of L with
      | context [log ?v] =>
          lazymatch v with
          | sw => fail
          | _ => unfold v in L
          end
      end ];
  rewrite <- ?app_assoc in L; cbn [app] in L.

Ltac since L :=
  match type of L with
  | _ = log _ ++ ?R => exists R; split; [reflexivity|]; split; [exact L|]
  end.

(** Close a branch of a function that leaves the GL objects alone: the
    result and the world are read off the goal. *)
Ltac outcome sw L :=
  match goal with
  | |- exists r sw' evs, Some (?R, ?W) = _ /\ _ =>
      exists R, W; log_of W sw L; since L; split; [repeat split|]
  end.

Lemma uses_teardown_events (e : egl_backend_t) :
  Forall (uses [LibEGL; LibC]) (teardown_events e).
Proof.
  unfold teardown_events. rewrite Forall_app. split.
  - rewrite Forall_map. apply Forall_forall. intros c _. unfold uses. cbn. auto.
  - repeat apply Forall_cons; try apply Forall_nil; unfold uses; cbn; auto.
Qed.

Lemma terminate_in_teardown (e : egl_backend_t) :
  egl_display e <> 0 ->
  In (Render (Egl (EglTerminate (egl_display e)))) (teardown_events e).
Proof.
  intros H. unfold teardown_events, code_teardown. apply Z.eqb_neq in H.
  rewrite H. apply in_or_app. left.
  apply (in_map (fun c => Render (Egl c))).
  apply in_or_app. right. apply in_or_app. right. now left.
Qed.

Lemma setup_not_in_teardown (c : setup_call) (e : egl_backend_t) :
  ~ In (Setup c) (teardown_events e).
Proof.
  unfold teardown_events. intros H. apply in_app_or in H as [H|H].
  - apply in_map_iff in H as (x & H & _). discriminate.
  - destruct H as [H|[H|[]]]; discriminate.
Qed.

Ltac uses_tac :=
  repeat apply Forall_cons; try apply uses_teardown_events;
  try apply Forall_nil; unfold uses; cbn; auto.

(** In a branch that failed: every display that was initialised is
    terminated by the teardown. *)
Ltac init_tac Ed :=
  let d' := fresh "d'" in let H := fresh "H" in
  intros d' H;
  repeat (destruct H as [H|H]; [try discriminate H|]);
  try (exfalso; exact (setup_not_in_teardown _ _ H));
  injection H as <-; repeat right;
  match goal with
  | |- In _ (teardown_events ?e) => refine (terminate_in_teardown e _)
  end;
  exact Ed.

(** All outcomes of [egl_backend_create]. *)
Lemma egl_backend_create_outcome (garbage : egl_backend_t) (x : x11_backend_t)
    (sw : sys_world) :
  exists r sw' evs,
    egl_backend_create garbage x sw = Some (r, sw') /\
    log sw' = log sw ++ evs /\
    keeps_gl sw sw' /\
    match r with
    | (VLC_SUCCESS, Some e) =>
        egl_display e <> 0 /\ egl_surface e <> 0 /\ egl_context e <> 0 /\
        ends_with evs
          [Setup (EglMakeCurrent (egl_display e) (egl_surface e)
                    (egl_surface e) (egl_context e))] /\
        Forall (fun ev => ~ is_egl_destroy ev) evs /\
        Forall (uses [LibEGL; LibC]) evs /\
        forall d, In (Setup (EglInitialize d)) evs -> d = egl_display e
    | (VLC_ENOMEM, None) =>
        hd 0 (answers (inner sw)) = 0 /\
        evs = [Setup (Malloc "egl"); Render (Fprintf "ERR: %s: malloc failed\n")]
    | (VLC_EGENERIC, None) =>
        hd 0 (answers (inner sw)) <> 0 /\
        (exists e, ends_with evs (teardown_events e)) /\
        Forall (uses [LibEGL; LibC]) evs /\
        forall d, In (Setup (EglInitialize d)) evs ->
                  In (Render (Egl (EglTerminate d))) evs
    | _ => False
    end.
Proof.
  unfold egl_backend_create.
  egl_step. destruct (Z.eqb_spec (hd 0 (answers (inner sw))) 0) as [E0|E0].
  { egl_step. eexists. eexists.
    exists [Setup (Malloc "egl"); Render (Fprintf "ERR: %s: malloc failed\n")].
    split; [reflexivity|].
    split; [|split; [repeat split | split; [exact E0 | reflexivity]]].
    cbn [log logged asked]. now rewrite <- app_assoc. }
  egl_step. cbn [egl_display set_egl_display].
  set (sw1 := asked (Malloc "egl") sw).
  set (d := hd 0 (answers (inner sw1))).
  destruct (Z.eqb_spec d 0) as [Ed|Ed].
  { egl_fail. outcome sw L. split; [exact E0|]. split; [eexists; ends_tac|].
    split; [uses_tac | init_tac Ed]. }
  set (sw2 := asked (EglGetDisplay (x11_display x)) sw1).
  unfold egl_initialize. unfold sbind at 1. egl_step.
  destruct (Z.eqb_spec (hd 0 (answers (inner sw2))) 0) as [Ei|Ei].
  { cbn [sret]. rewrite Ei. cbn [Z.eqb orb].
    egl_fail. outcome sw L. split; [exact E0|]. split; [eexists; ends_tac|].
    split; [uses_tac | init_tac Ed]. }
  do 2 egl_step. cbn [sret].
  set (sw3 := asked (EglInitialize d) sw2).
  rewrite (proj2 (Z.eqb_neq _ _) Ei). cbn [orb].
  destruct (negb (hd 0 (answers (inner sw3)) =? 1)
            || (hd 0 (answers (inner (answered sw3))) <? 2)) eqn:Ev.
  { egl_fail. outcome sw L. split; [exact E0|]. split; [eexists; ends_tac|].
    split; [uses_tac | init_tac Ed]. }
  set (sw4 := answered (answered sw3)).
  egl_step. destruct (Z.eqb_spec (hd 0 (answers (inner sw4))) 0) as [Eb|Eb].
  { egl_fail. outcome sw L. split; [exact E0|]. split; [eexists; ends_tac|].
    split; [uses_tac | init_tac Ed]. }
  set (sw5 := asked EglBindAPI sw4).
  unfold egl_choose_config. unfold sbind at 1. do 2 egl_step. cbn [sret].
  destruct (Z.eqb_spec (hd 0 (answers (inner sw5))) 0) as [Ec|Ec].
  { egl_fail. outcome sw L. split; [exact E0|]. split; [eexists; ends_tac|].
    split; [uses_tac | init_tac Ed]. }
  set (sw6 := answered (asked (EglChooseConfig d) sw5)).
  set (config := hd 0 (answers (inner (asked (EglChooseConfig d) sw5)))).
  egl_step. cbn [egl_display egl_surface set_egl_surface].
  set (s := hd 0 (answers (inner sw6))).
  destruct (Z.eqb_spec s 0) as [Es|Es].
  { egl_fail. outcome sw L. split; [exact E0|]. split; [eexists; ends_tac|].
    split; [uses_tac | init_tac Ed]. }
  set (sw7 := asked (EglCreateWindowSurface d config (window x)) sw6).
  egl_step. cbn [egl_display egl_surface egl_context set_egl_context].
  set (c := hd 0 (answers (inner sw7))).
  destruct (Z.eqb_spec c 0) as [Ex|Ex].
  { egl_fail. outcome sw L. split; [exact E0|]. split; [eexists; ends_tac|].
    split; [uses_tac | init_tac Ed]. }
  set (sw8 := asked (EglCreateContext d config) sw7).
  egl_step.
  cbn [egl_display egl_surface egl_context set_egl_display set_egl_surface
       set_egl_context].
  fold sw8.
  destruct (Z.eqb_spec (hd 0 (answers (inner sw8))) 0) as [Em|Em].
  { egl_fail. outcome sw L. split; [exact E0|]. split; [eexists; ends_tac|].
    split; [uses_tac | init_tac Ed]. }
  unfold sret. outcome sw L.
  cbn [egl_display egl_surface egl_context].
  split; [exact Ed|]. split; [exact Es|]. split; [exact Ex|].
  split; [ends_tac|]. split; [repeat constructor; intros []|].
  split; [uses_tac|].
  intros d' H. repeat (destruct H as [H|H]; [try discriminate H|]);
    [now injection H | destruct H].
Qed.

(** X17 -- [egl_backend_create] always returns.  It returns [VLC_ENOMEM] only
    when [malloc] failed; [VLC_SUCCESS] comes with three handles that are
    not null and were made current by the last call, and nothing was
    destroyed on the way; every other failure ends with the teardown of
    [egl_backend_destroy]; and only success stores a backend through the
    first argument. *)
Theorem egl_backend_create_result (garbage : egl_backend_t) (x : x11_backend_t)
    (sw : sys_world) :
  exists r sw' evs,
    egl_backend_create garbage x sw = Some (r, sw') /\
    log sw' = log sw ++ evs /\
    match r with
    | (VLC_SUCCESS, Some e) =>
        egl_display e <> 0 /\ egl_surface e <> 0 /\ egl_context e <> 0 /\
        ends_with evs
          [Setup (EglMakeCurrent (egl_display e) (egl_surface e)
                    (egl_surface e) (egl_context e))] /\
        Forall (fun ev => ~ is_egl_destroy ev) evs
    | (VLC_ENOMEM, None) =>
        hd 0 (answers (inner sw)) = 0 /\
        evs = [Setup (Malloc "egl"); Render (Fprintf "ERR: %s: malloc failed\n")]
    | (VLC_EGENERIC, None) =>
        hd 0 (answers (inner sw)) <> 0 /\
        exists e, ends_with evs (teardown_events e)
    | _ => False
    end.
Proof.
  destruct (egl_backend_create_outcome garbage x sw)
    as (r & sw' & evs & E & L & _ & H).
  exists r, sw', evs. split; [exact E|]. split; [exact L|].
  destruct r as [[] [e|]]; try exact H.
  - destruct H as (A & B & C & D & F & _). auto.
  - destruct H as (A & B & _). auto.
Qed.

(** X18 -- When [eglGetDisplay] fails, the teardown runs on a backend of which
    only the display member was assigned: whether [eglDestroyContext] and
    [eglDestroySurface] are called, and on what, is decided by what the
    memory from [malloc] happened to hold. *)
Theorem egl_backend_create_uninitialised (garbage : egl_backend_t)
    (x : x11_backend_t) (sw : sys_world) (mem : Z) (rest : list Z) :
  answers (inner sw) = mem :: 0 :: rest -> mem <> 0 ->
  exists sw',
    egl_backend_create garbage x sw = Some ((VLC_EGENERIC, None), sw') /\
    log sw'
    = log sw
      ++ [Setup (Malloc "egl"); Setup (EglGetDisplay (x11_display x));
          Setup EglGetError;
          Render (Fprintf "ERR: %s: eglGetDisplay failed: 0x%x\n")]
      ++ teardown_events (mkEgl 0 (egl_surface garbage) (egl_context garbage)) /\
    (egl_context garbage <> 0 ->
     In (Render (Egl (EglDestroyContext 0 (egl_context garbage)))) (log sw')).
Proof.
  intros Ha Hm. unfold egl_backend_create.
  egl_step. rewrite Ha. cbn [hd].
  destruct (Z.eqb_spec mem 0) as [E|_]; [contradiction|].
  egl_step. cbn [egl_display set_egl_display].
  assert (Hd : hd 0 (answers (inner (asked (Malloc "egl") sw))) = 0)
    by (cbn; now rewrite Ha).
  rewrite Hd. cbn [Z.eqb]. egl_fail.
  eexists. split; [reflexivity|].
  assert (L : log (logged (teardown_events (set_egl_display garbage 0))
                     (logged [Render (Fprintf "ERR: %s: eglGetDisplay failed: 0x%x\n")]
                        (asked EglGetError
                           (asked (EglGetDisplay (x11_display x))
                              (asked (Malloc "egl") sw)))))
              = log sw
                ++ [Setup (Malloc "egl"); Setup (EglGetDisplay (x11_display x));
                    Setup EglGetError;
                    Render (Fprintf "ERR: %s: eglGetDisplay failed: 0x%x\n")]
                ++ teardown_events
                     (mkEgl 0 (egl_surface garbage) (egl_context garbage))).
  { rewrite !log_logged, !log_asked, <- !app_assoc. reflexivity. }
  split; [exact L|]. intros Hc. rewrite L.
  apply in_or_app. right. apply in_or_app. right.
  unfold teardown_events, code_teardown. cbn [egl_context egl_display egl_surface].
  destruct (Z.eqb_spec (egl_context garbage) 0) as [E|_]; [contradiction|].
  cbn. now left.
Qed.

Lemma egl_backend_create_uninitialised_witness :
  exists sw',
    egl_backend_create garbage_backend (x11 (example_sys true))
      (with_answers [1; 0] sys_world0)
    = Some ((VLC_EGENERIC, None), sw') /\
    log sw'
    = log (with_answers [1; 0] sys_world0)
      ++ [Setup (Malloc "egl");
          Setup (EglGetDisplay (x11_display (x11 (example_sys true))));
          Setup EglGetError;
          Render (Fprintf "ERR: %s: eglGetDisplay failed: 0x%x\n")]
      ++ teardown_events
           (mkEgl 0 (egl_surface garbage_backend) (egl_context garbage_backend)) /\
    (egl_context garbage_backend <> 0 ->
     In (Render (Egl (EglDestroyContext 0 (egl_context garbage_backend))))
        (log sw')).
Proof.
  apply (egl_backend_create_uninitialised garbage_backend
           (x11 (example_sys true)) (with_answers [1; 0] sys_world0) 1 []);
    [reflexivity | discriminate].
Defined.

(** **** The GL objects: [texture_create], [opengl_es2_create],
    [opengl_es2_destroy] *)

Lemma sbind_Some {A B : Type} (m : SysM A) (k : A -> SysM B) (sw : sys_world)
    (r : B * sys_world) :
  sbind m k sw = Some r ->
  exists a sw1, m sw = Some (a, sw1) /\ k a sw1 = Some r.
Proof.
  unfold sbind. destruct (m sw) as [[a sw1]|]; [|discriminate].
  intros H. now exists a, sw1.
Qed.

Lemma advances_refl (sw : sys_world) : advances sw sw [] [].
Proof. unfold advances. now rewrite app_nil_r. Qed.

Lemma advances_trans (sw sw1 sw2 : sys_world) (e1 e2 : list sys_event)
    (g1 g2 : list Z) :
  advances sw sw1 e1 g1 -> advances sw1 sw2 e2 g2 ->
  advances sw sw2 (e1 ++ e2) (g2 ++ g1).
Proof.
  intros (L1 & T1 & F1 & X1) (L2 & T2 & F2 & X2). unfold advances.
  rewrite L2, L1, T2, T1, F2, F1, X2, X1, !app_assoc. auto.
Qed.

Lemma same_objects_trans (sw sw1 sw2 : sys_world) :
  same_objects sw sw1 -> same_objects sw1 sw2 -> same_objects sw sw2.
Proof. unfold same_objects. congruence. Qed.

Lemma ask_adv (c : setup_call) (sw sw' : sys_world) (a : Z) :
  ask c sw = Some (a, sw') ->
  advances sw sw' [Setup c] [] /\ same_objects sw sw'.
Proof.
  rewrite ask_run. intros [= _ <-]. unfold advances, same_objects.
  destruct sw as [[t an g q ct sc] l tx fb ex]. cbn. auto.
Qed.

Lemma call_adv (c : setup_call) (sw sw' : sys_world) (u : unit) :
  call c sw = Some (u, sw') ->
  advances sw sw' [Setup c] [] /\ same_objects sw sw'.
Proof.
  intros [= _ <-]. unfold advances, same_objects.
  destruct sw as [[t an g q ct sc] l tx fb ex]. cbn. auto.
Qed.

Lemma lift_adv {A : Type} (m : M A) (sw sw' : sys_world) (a : A) :
  lift m sw = Some (a, sw') ->
  exists wd',
    m (set_trace [] (inner sw)) = Some (a, wd') /\
    advances sw sw' (map Render (trace wd')) [] /\
    inner sw' = set_trace [] wd'.
Proof.
  unfold lift. destruct (m (set_trace [] (inner sw))) as [[a' wd']|];
    [|discriminate].
  intros [= <- <-]. exists wd'. split; [reflexivity|].
  unfold advances. destruct sw as [wd l tx fb ex]. cbn. auto.
Qed.

Lemma sfprintf_adv (f : string) (sw sw' : sys_world) (u : unit) :
  sfprintf f sw = Some (u, sw') ->
  advances sw sw' [Render (Fprintf f)] [] /\ same_objects sw sw'.
Proof.
  rewrite sfprintf_run. intros [= _ <-]. unfold advances, same_objects.
  destruct sw as [[t an g q ct sc] l tx fb ex]. cbn. auto.
Qed.

Lemma texture_create_adv (type : GLparam) (sw sw' : sys_world) (id : Z) :
  texture_create type sw = Some (id, sw') ->
  advances sw sw' (texture_events id type) (handed_out [id]) /\
  same_objects sw sw'.
Proof.
  unfold texture_create, gen_texture.
  unfold sbind at 1. unfold sbind at 1. rewrite ask_run. cbv beta iota.
  destruct sw as [[t an g q ct sc] l tx fb ex].
  unfold handed_out, advances, same_objects, texture_events.
  destruct (Z.eqb_spec (hd 0 (answers (inner
              {| inner := {| trace := t; answers := an; glst := g; xqueue := q;
                             chroma_table := ct; static_c := sc |};
                 log := l; textures := tx; framebuffers := fb;
                 extensions := ex |}))) 0) as [E|E].
  - cbn. intros [= <- <-]. cbn. rewrite <- !app_assoc. auto.
  - cbn. intros [= <- <-]. cbn in E |- *.
    apply Z.eqb_neq in E. rewrite E. cbn. rewrite <- !app_assoc. auto.
Qed.

Lemma list_set_twice {A : Type} (a : list A) (i : nat) (u v : A) (l : list A) :
  list_set a i u = Some l -> list_set l i v = list_set a i v.
Proof.
  revert i l. induction a as [|x a IH]; intros [|i] l; cbn; try discriminate.
  - now intros [= <-].
  - destruct (list_set a i u) as [l'|] eqn:E; [|discriminate].
    intros [= <-]. cbn. now rewrite (IH i l' E).
Qed.

Lemma list_set_nth {A : Type} (a : list A) (i : nat) (v : A) (l : list A) :
  list_set a i v = Some l -> nth_error l i = Some v.
Proof.
  revert i l. induction a as [|x a IH]; intros [|i] l; cbn; try discriminate.
  - now intros [= <-].
  - destruct (list_set a i v) as [l'|] eqn:E; [|discriminate].
    intros [= <-]. cbn. now apply IH.
Qed.

Lemma lift_array_get {A : Type} (a : list A) (i : Z) (sw sw' : sys_world) (v : A) :
  lift (array_get a i) sw = Some (v, sw') ->
  0 <= i /\ nth_error a (Z.to_nat i) = Some v /\
  advances sw sw' [] [] /\ same_objects sw sw'.
Proof.
  intros H. apply lift_adv in H as (wd' & E & Ad & In').
  unfold array_get in E. destruct (Z.ltb_spec i 0); [discriminate|].
  destruct (nth_error a (Z.to_nat i)) as [v'|]; [|discriminate].
  injection E as <- <-. cbn [trace set_trace map] in Ad.
  split; [lia|]. split; [reflexivity|]. split; [exact Ad|].
  unfold same_objects. now rewrite In'.
Qed.

(** Setting one member of [gl->tex[i]]. *)
Lemma set_tex_id_adv (g g' : opengl_es2_t) (i v : Z) (sw sw' : sys_world) :
  set_tex_id g i v sw = Some (g', sw') ->
  exists t l,
    nth_error (tex g) (Z.to_nat i) = Some t /\
    list_set (tex g) (Z.to_nat i) (mkTex v (tex_loc t)) = Some l /\
    g' = set_tex g l /\ advances sw sw' [] [] /\ same_objects sw sw'.
Proof.
  unfold set_tex_id. intros H.
  apply sbind_Some in H as (t & sw1 & H1 & H).
  apply lift_array_get in H1 as (_ & N & Ad & So).
  apply sbind_Some in H as (l & sw2 & H2 & H).
  destruct (list_set (tex g) (Z.to_nat i) (mkTex v (tex_loc t))) as [l'|] eqn:E;
    [|discriminate].
  injection H2 as <- <-. injection H as <- <-.
  exists t, l'. auto.
Qed.

Lemma set_tex_loc_adv (g g' : opengl_es2_t) (i v : Z) (sw sw' : sys_world) :
  set_tex_loc g i v sw = Some (g', sw') ->
  exists t l,
    nth_error (tex g) (Z.to_nat i) = Some t /\
    list_set (tex g) (Z.to_nat i) (mkTex (tex_id t) v) = Some l /\
    g' = set_tex g l /\ advances sw sw' [] [] /\ same_objects sw sw'.
Proof.
  unfold set_tex_loc. intros H.
  apply sbind_Some in H as (t & sw1 & H1 & H).
  apply lift_array_get in H1 as (_ & N & Ad & So).
  apply sbind_Some in H as (l & sw2 & H2 & H).
  destruct (list_set (tex g) (Z.to_nat i) (mkTex (tex_id t) v)) as [l'|] eqn:E;
    [|discriminate].
  injection H2 as <- <-. injection H as <- <-.
  exists t, l'. auto.
Qed.

Lemma lift_gl_ask_adv (c : gl_call) (sw sw' : sys_world) (a : Z) :
  lift (gl_ask c) sw = Some (a, sw') ->
  advances sw sw' [Render (Gl c)] [] /\
  live (glst (inner sw')) = live (gl_apply c a (glst (inner sw))).
Proof.
  intros H. apply lift_adv in H as (wd' & E & Ad & In').
  unfold gl_ask, bind, answer in E.
  destruct sw as [[t [|z an] g q ct sc] l tx fb ex]; cbn in E;
    injection E as <- <-; cbn in Ad, In' |- *; rewrite In'; auto.
Qed.

Lemma create_plane_texture_adv (g g' : opengl_es2_t) (i : Z) (name : string)
    (sw sw' : sys_world) :
  create_plane_texture g i name sw = Some (g', sw') ->
  exists id loc l,
    list_set (tex g) (Z.to_nat i) (mkTex id loc) = Some l /\
    g' = set_tex g l /\
    advances sw sw'
      (texture_events id GL_NEAREST
       ++ [Render (Gl (GlGetUniformLocation (program (deint g)) name))])
      (handed_out [id]) /\
    same_objects sw sw'.
Proof.
  unfold create_plane_texture. intros H.
  apply sbind_Some in H as (id & sw1 & H1 & H).
  apply texture_create_adv in H1 as [A1 S1].
  apply sbind_Some in H as (g1 & sw2 & H2 & H).
  apply set_tex_id_adv in H2 as (t & l1 & N1 & L1 & -> & A2 & S2).
  apply sbind_Some in H as (loc & sw3 & H3 & H).
  apply lift_gl_ask_adv in H3 as [A3 S3].
  apply set_tex_loc_adv in H as (t' & l2 & N2 & L2 & -> & A4 & S4).
  cbn [tex set_tex deint] in *.
  rewrite (list_set_nth _ _ _ _ L1) in N2. injection N2 as <-.
  cbn [tex_id] in L2. rewrite (list_set_twice _ _ _ _ _ L1) in L2.
  exists id, loc, l2. split; [exact L2|]. split; [destruct g; reflexivity|].
  split.
  - pose proof (advances_trans _ _ _ _ _ _ _
                  (advances_trans _ _ _ _ _ _ _
                     (advances_trans _ _ _ _ _ _ _ A1 A2) A3) A4) as A.
    cbn [app] in A. rewrite !app_nil_r in A. exact A.
  - unfold same_objects in *. rewrite S4, S3. cbn [gl_apply].
    now rewrite S2, S1.
Qed.

Lemma keeps_textures_render (evs : list event) :
  Forall keeps_textures (map Render evs).
Proof. induction evs; constructor; [exact I | assumption]. Qed.

Lemma shader_init_failure_code (s : gl_shader_t) (wd : world) :
  returns (shader_init_failure s) (fun r _ => fst r = -1) wd.
Proof.
  unfold shader_init_failure. ShaderFacts.returns_ask e w0 H0.
  ShaderFacts.returns_run.
  unfold returns. rewrite ShaderLifeFacts.shader_delete_run.
  eexists _, _. split; [reflexivity|]. apply returns_ret. reflexivity.
Qed.

Ltac failure_branch :=
  ShaderFacts.returns_run;
  eapply returns_mono; [apply shader_init_failure_code|];
  cbn beta; intros ? ? Hr Hz; rewrite Hr in Hz; discriminate.

(** [shader_init] reports success only with three handles that are not 0. *)
Lemma shader_init_handles (type : shader_types) (wd : world) :
  returns (shader_init shader0 type)
    (fun r _ =>
       fst r = 0 ->
       vertex (snd r) <> 0 /\ fragment (snd r) <> 0 /\ program (snd r) <> 0)
    wd.
Proof.
  unfold shader_init. ShaderFacts.returns_ask pr w0 H0.
  cbn [program set_program shader0].
  destruct (Z.eqb_spec pr 0) as [->|Np].
  - ShaderFacts.returns_ask e w1 H1. ShaderFacts.returns_run. discriminate.
  - apply returns_bind.
    eapply returns_mono; [apply (ShaderFacts.shader_load_live pr)|].
    intros r w2 [(-> & L) | [(v & Nv & -> & L) | (v & f & Nv & Nf & -> & L)]];
      cbn [Z.ltb Z.compare]; try failure_branch.
    cbn [program vertex fragment]. ShaderFacts.returns_run.
    ShaderFacts.returns_ask e1 w3 H3.
    destruct (e1 =? GL_NO_ERROR); cbn [negb]; [|failure_branch].
    ShaderFacts.returns_run. ShaderFacts.returns_ask e2 w4 H4.
    destruct (e2 =? GL_NO_ERROR); cbn [negb]; [|failure_branch].
    ShaderFacts.returns_run. ShaderFacts.returns_ask linked w5 H5.
    destruct (linked =? 0).
    + ShaderFacts.returns_run. ShaderFacts.returns_ask len w6 H6.
      destruct (0 <? len); ShaderFacts.returns_run;
        ShaderFacts.returns_ask ploc w7 H7; ShaderFacts.returns_ask tloc w8 H8;
        ShaderFacts.returns_run; cbn; auto.
    + ShaderFacts.returns_run.
      ShaderFacts.returns_ask ploc w7 H7; ShaderFacts.returns_ask tloc w8 H8;
        ShaderFacts.returns_run; cbn; auto.
Qed.

Lemma lift_shader_init_adv (type : shader_types) (sw sw' : sys_world)
    (r : Z * gl_shader_t) :
  lift (shader_init shader0 type) sw = Some (r, sw') ->
  exists evs,
    advances sw sw' (map Render evs) [] /\
    ((r = (-1, shader0) /\ same_objects sw sw') \/
     (fst r = 0 /\
      (vertex (snd r) <> 0 /\ fragment (snd r) <> 0 /\ program (snd r) <> 0) /\
      exists linked,
        live (glst (inner sw'))
        = shader_objects (snd r) linked ++ live (glst (inner sw)))).
Proof.
  intros H. apply lift_adv in H as (wd' & E & Ad & In').
  exists (trace wd'). split; [exact Ad|].
  destruct (ShaderFacts.shader_init_outcomes type (set_trace [] (inner sw)))
    as (r0 & wd0 & E0 & O).
  rewrite E in E0. injection E0 as <- <-.
  destruct (shader_init_handles type (set_trace [] (inner sw)))
    as (r0 & wd0 & E0 & V).
  rewrite E in E0. injection E0 as <- <-.
  unfold same_objects. rewrite In'. cbn [glst set_trace] in *.
  destruct O as [[-> L] | [R [L|L]]].
  - left. auto.
  - right. split; [exact R|]. split; [exact (V R)|]. exists true. exact L.
  - right. split; [exact R|]. split; [exact (V R)|]. exists false. exact L.
Qed.

Lemma lift_shader_delete_adv (s : gl_shader_t) (sw sw' : sys_world)
    (r : gl_shader_t) :
  lift (shader_delete s) sw = Some (r, sw') ->
  advances sw sw' (map Render (map Gl (shader_delete_calls s))) [] /\
  live (glst (inner sw'))
  = live (gl_run (shader_delete_calls s) (glst (inner sw))).
Proof.
  intros H. apply lift_adv in H as (wd' & E & Ad & In').
  rewrite ShaderLifeFacts.shader_delete_run in E. injection E as _ <-.
  rewrite UploadFacts.gl_steps_world in Ad, In'.
  cbn [trace set_trace set_glst glst app] in Ad, In'.
  split; [exact Ad|]. rewrite In'. reflexivity.
Qed.

Lemma lift_free_adv (what : string) (sw sw' : sys_world) (u : unit) :
  lift (emit (Free what)) sw = Some (u, sw') ->
  advances sw sw' [Render (Free what)] [] /\ same_objects sw sw'.
Proof.
  intros H. apply lift_adv in H as (wd' & E & Ad & In').
  unfold emit in E. injection E as E'. subst wd'.
  cbn [trace set_trace map app] in Ad.
  split; [exact Ad|]. unfold same_objects. rewrite In'. reflexivity.
Qed.

Lemma create_cleanup_adv (g : opengl_es2_t) (sw sw' : sys_world)
    (r : vlc_code * option opengl_es2_t) :
  opengl_es2_create_cleanup g sw = Some (r, sw') ->
  r = (VLC_EGENERIC, None) /\
  exists evs, advances sw sw' evs [] /\ Forall keeps_textures evs.
Proof.
  unfold opengl_es2_create_cleanup. intros H.
  apply sbind_Some in H as (d & sw1 & H1 & H).
  apply lift_shader_delete_adv in H1 as [A1 _].
  apply sbind_Some in H as (s & sw2 & H2 & H).
  apply lift_shader_delete_adv in H2 as [A2 _].
  apply sbind_Some in H as ([] & sw3 & H3 & H).
  apply lift_free_adv in H3 as [A3 _].
  injection H as <- <-. split; [reflexivity|].
  eexists. split.
  - exact (advances_trans _ _ _ _ _ _ _ (advances_trans _ _ _ _ _ _ _ A1 A2) A3).
  - rewrite !Forall_app. repeat split; try apply keeps_textures_render.
    repeat constructor.
Qed.

Lemma handed_out_three (t1 t2 t3 : Z) :
  handed_out [t3] ++ handed_out [t2] ++ handed_out [t1] ++ []
  = handed_out [t3; t2; t1].
Proof.
  unfold handed_out. cbn.
  destruct (t3 =? 0), (t2 =? 0), (t1 =? 0); reflexivity.
Qed.

Ltac adv_step A B :=
  let A' := fresh "A" in
  pose proof (advances_trans _ _ _ _ _ _ _ A B) as A'; clear A B;
  rename A' into A.

(** What [opengl_es2_create] does, outcome by outcome. *)
Lemma opengl_es2_create_effect (sw sw' : sys_world)
    (r : vlc_code * option opengl_es2_t) :
  opengl_es2_create sw = Some (r, sw') ->
  exists evs gens,
    advances sw sw' evs gens /\ Forall keeps_textures evs /\
    ((r = (VLC_ENOMEM, None) /\ hd 0 (answers (inner sw)) = 0 /\ gens = []) \/
     (r = (VLC_EGENERIC, None) /\ In deint_failed evs /\ gens = []) \/
     (r = (VLC_EGENERIC, None) /\ In scale_failed evs /\
      exists t1 t2 t3, gens = handed_out [t3; t2; t1]) \/
     (exists d s a1 a2 a3 a4 t1 t2 t3 ext has linked_d linked_s,
        r = (VLC_SUCCESS,
             Some (mkGles 0 d s [mkTex t1 a1; mkTex t2 a2; mkTex t3 a3]
                     (mkTex 0 a4) rect0 has)) /\
        gens = handed_out [t3; t2; t1] /\
        extensions sw = Some ext /\
        CString.opengl_have_extention (Some ext) GL_EXT_unpack_subimage = Some has /\
        (vertex d <> 0 /\ fragment d <> 0 /\ program d <> 0) /\
        (vertex s <> 0 /\ fragment s <> 0 /\ program s <> 0) /\
        live (glst (inner sw'))
        = shader_objects s linked_s ++ shader_objects d linked_d
          ++ live (glst (inner sw)))).
Proof.
  unfold opengl_es2_create. intros H.
  apply sbind_Some in H as (mem & sw1 & H1 & H).
  assert (Hm : mem = hd 0 (answers (inner sw)))
    by (rewrite ask_run in H1; now injection H1).
  apply ask_adv in H1 as [A S1].
  destruct (Z.eqb_spec mem 0) as [E0|E0].
  { injection H as <- <-. exists [Setup (Calloc "gl")], [].
    split; [exact A|]. split; [repeat constructor|]. left.
    split; [reflexivity|]. split; [congruence | reflexivity]. }
  apply sbind_Some in H as (r1 & sw2 & H2 & H).
  cbn [deint gl_zero] in H2.
  apply lift_shader_init_adv in H2 as (evs1 & A2 & O1).
  adv_step A A2.
  destruct (fst r1 <? 0) eqn:R1.
  { apply sbind_Some in H as ([] & sw3 & H3 & H).
    apply sfprintf_adv in H3 as [A3 _]. adv_step A A3.
    apply create_cleanup_adv in H as (-> & evsC & AC & FC). adv_step A AC.
    eexists. eexists. split; [exact A|]. split.
    - rewrite !Forall_app. repeat split; try apply keeps_textures_render;
        try exact FC; repeat constructor.
    - right. left. split; [reflexivity|]. split; [|reflexivity].
      apply in_or_app. left. apply in_or_app. right. now left. }
  destruct O1 as [[-> _] | [R0 [V1 [linked_d L1]]]]; [discriminate|].
  apply sbind_Some in H as (g1 & sw3 & H3 & H).
  apply create_plane_texture_adv in H3 as (t1 & a1 & l1 & E1 & -> & A3 & S3).
  adv_step A A3.
  apply sbind_Some in H as (g2 & sw4 & H4 & H).
  apply create_plane_texture_adv in H4 as (t2 & a2 & l2 & E2 & -> & A4 & S4).
  adv_step A A4.
  apply sbind_Some in H as (g3 & sw5 & H5 & H).
  apply create_plane_texture_adv in H5 as (t3 & a3 & l3 & E3 & -> & A5 & S5).
  adv_step A A5.
  cbn [tex set_tex set_deint gl_zero deint] in E1, E2, E3.
  cbn in E1. injection E1 as <-. cbn in E2. injection E2 as <-.
  cbn in E3. injection E3 as <-.
  apply sbind_Some in H as (r2 & sw6 & H6 & H).
  cbn [scale set_tex set_deint gl_zero] in H6.
  apply lift_shader_init_adv in H6 as (evs2 & A6 & O2).
  adv_step A A6.
  rewrite handed_out_three in A.
  destruct (fst r2 <? 0) eqn:R2.
  { apply sbind_Some in H as ([] & sw7 & H7 & H).
    apply sfprintf_adv in H7 as [A7 _]. adv_step A A7.
    apply create_cleanup_adv in H as (-> & evsC & AC & FC). adv_step A AC.
    eexists. eexists. split; [exact A|]. split.
    - unfold texture_events.
      rewrite !Forall_app. repeat split; try apply keeps_textures_render;
        try exact FC; repeat constructor.
    - right. right. left. split; [reflexivity|]. split; [|now exists t1, t2, t3].
      apply in_or_app. left. apply in_or_app. right. now left. }
  destruct O2 as [[-> _] | [R0' [V2 [linked_s L2]]]]; [discriminate|].
  apply sbind_Some in H as (a4 & sw7 & H7 & H).
  apply lift_gl_ask_adv in H7 as [A7 S7]. adv_step A A7.
  apply sbind_Some in H as ([] & sw8 & H8 & H).
  apply call_adv in H8 as [A8 S8]. adv_step A A8.
  pose proof (proj2 (proj2 (proj2 A))) as X8.
  apply sbind_Some in H as (ext0 & sw9 & H9 & H).
  injection H9 as <- <-.
  apply sbind_Some in H as (e & sw10 & H10 & H).
  destruct (extensions sw8) as [ext|] eqn:Ex; [|discriminate].
  injection H10 as <- <-.
  apply sbind_Some in H as ([] & sw11 & H11 & H).
  apply sfprintf_adv in H11 as [A11 S11]. adv_step A A11.
  apply sbind_Some in H as (has0 & sw12 & H12 & H).
  destruct (CString.opengl_have_extention (Some ext) GL_EXT_unpack_subimage)
    as [has|] eqn:Eh; [|discriminate].
  injection H12 as <- <-.
  apply sbind_Some in H as ([] & sw13 & H13 & H).
  apply sfprintf_adv in H13 as [A13 S13]. adv_step A A13.
  injection H as <- <-.
  eexists. eexists. split; [exact A|]. split.
  { unfold texture_events.
    rewrite !Forall_app. repeat split; try apply keeps_textures_render;
      repeat constructor. }
  right. right. right.
  exists (snd r1), (snd r2), a1, a2, a3, a4, t1, t2, t3, ext, has, linked_d, linked_s.
  split; [reflexivity|]. split; [reflexivity|].
  split; [congruence|]. split; [exact Eh|].
  split; [exact V1|]. split; [exact V2|].
  unfold same_objects in *.
  rewrite S13, S11, S8, S7. cbn [gl_apply]. rewrite L2, S5, S4, S3, L1, S1.
  reflexivity.
Qed.

Lemma sbind_run {A B : Type} (m : SysM A) (k : A -> SysM B) (sw sw1 : sys_world)
    (a : A) :
  m sw = Some (a, sw1) -> sbind m k sw = k a sw1.
Proof. unfold sbind. now intros ->. Qed.

Lemma lift_run {A : Type} (m : M A) (sw : sys_world) (a : A) (wd' : world) :
  m (set_trace [] (inner sw)) = Some (a, wd') ->
  lift m sw
  = Some (a, set_log (log sw ++ map Render (trace wd'))
               (set_inner (set_trace [] wd') sw)).
Proof. unfold lift. now intros ->. Qed.

Lemma opengl_es2_destroy_returns (g : opengl_es2_t) (sw : sys_world) :
  List.length (tex g) = 3%nat ->
  exists sw', opengl_es2_destroy (Some g) sw = Some (tt, sw').
Proof.
  intros T. destruct (tex g) as [|a [|b [|c [|]]]] eqn:E; try discriminate.
  unfold opengl_es2_destroy. rewrite E.
  do 3 (erewrite sbind_run; [|apply lift_run; reflexivity]).
  do 2 (erewrite sbind_run;
        [|apply lift_run; apply ShaderLifeFacts.shader_delete_run]).
  unfold delete_textures, delete_framebuffers, call, sbind, lift, emit.
  eexists. reflexivity.
Qed.

(** Counting what [remove_name] and [remove_first] leave. *)



Lemma count_remove_name (n x : Z) (l : list Z) :
  count_occ Z.eq_dec (remove_name n l) x
  = (count_occ Z.eq_dec l x - (if Z.eq_dec n x then 1 else 0))%nat.
Proof.
  induction l as [|m l IH]; cbn [remove_name count_occ]; [reflexivity|].
  destruct (Z.eqb_spec n m) as [->|N].
  - destruct (Z.eq_dec m x); lia.
  - cbn [count_occ]. rewrite IH.
    destruct (Z.eq_dec m x), (Z.eq_dec n x); try lia; congruence.
Qed.

Lemma count_remove_names (names l : list Z) (x : Z) :
  count_occ Z.eq_dec (remove_names names l) x
  = (count_occ Z.eq_dec l x - count_occ Z.eq_dec names x)%nat.
Proof.
  unfold remove_names. revert l.
  induction names as [|n names IH]; intros l; cbn [fold_left count_occ]; [lia|].
  rewrite IH, count_remove_name. destruct (Z.eq_dec n x); lia.
Qed.



Lemma count_singleton {A : Type} (dec : forall a b : A, {a = b} + {a <> b})
    (l : list A) (a : A) :
  (forall x, count_occ dec l x = count_occ dec [a] x) -> l = [a].
Proof.
  intros H. destruct l as [|b [|c l]].
  - specialize (H a). cbn in H. destruct (dec a a); [discriminate | congruence].
  - specialize (H b). cbn in H. destruct (dec b b); [|congruence].
    destruct (dec a b); [congruence | discriminate].
  - pose proof (H b) as Hb. pose proof (H c) as Hc. cbn in Hb, Hc.
    destruct (dec b b); [|congruence]. destruct (dec c c); [|congruence].
    destruct (dec a b), (dec a c), (dec c b), (dec b c);
      try discriminate; try congruence; try lia.
Qed.

Lemma shader_delete_live (s : gl_shader_t) (g : gl_state) :
  live (gl_run (shader_delete_calls s) g)
  = remove_objects (shader_handles s) (live g).
Proof.
  unfold shader_delete_calls, shader_handles, gl_run, remove_objects.
  destruct (vertex s =? 0), (fragment s =? 0), (program s =? 0); reflexivity.
Qed.

Lemma delete_textures_effect (names : list Z) (sw sw' : sys_world) (u : unit) :
  delete_textures names sw = Some (u, sw') ->
  log sw' = log sw ++ [Setup (GlDeleteTextures names)] /\
  textures sw' = remove_names names (textures sw) /\
  framebuffers sw' = framebuffers sw /\ same_objects sw sw'.
Proof.
  unfold delete_textures, sbind, call. intros [= _ <-].
  unfold same_objects. destruct sw. cbn. auto.
Qed.

Lemma delete_framebuffers_effect (names : list Z) (sw sw' : sys_world) (u : unit) :
  delete_framebuffers names sw = Some (u, sw') ->
  log sw' = log sw ++ [Setup (GlDeleteFramebuffers names)] /\
  textures sw' = textures sw /\
  framebuffers sw' = remove_names names (framebuffers sw) /\ same_objects sw sw'.
Proof.
  unfold delete_framebuffers, sbind, call. intros [= _ <-].
  unfold same_objects. destruct sw. cbn. auto.
Qed.

(** What [opengl_es2_destroy] does to a structure with the three plane
    textures [ty], [tu], [tv]. *)
Lemma opengl_es2_destroy_effect (g : opengl_es2_t) (ty tu tv : gl_texture_t)
    (sw sw' : sys_world) (u : unit) :
  tex g = [ty; tu; tv] ->
  opengl_es2_destroy (Some g) sw = Some (u, sw') ->
  log sw' = log sw ++ destroy_events g (tex_id ty) (tex_id tu) (tex_id tv) /\
  live (glst (inner sw'))
  = remove_objects (shader_handles (scale g))
      (remove_objects (shader_handles (deint g)) (live (glst (inner sw)))) /\
  textures sw'
  = remove_names [tex_id ty; tex_id tu; tex_id tv; tex_id (rgb_tex g)]
      (textures sw) /\
  framebuffers sw' = remove_names [framebuffer g] (framebuffers sw).
Proof.
  intros T H. unfold opengl_es2_destroy in H. rewrite T in H.
  apply sbind_Some in H as (y & sw1 & H1 & H).
  apply lift_array_get in H1 as (_ & N1 & A1 & S1). injection N1 as <-.
  apply sbind_Some in H as (u' & sw2 & H2 & H).
  apply lift_array_get in H2 as (_ & N2 & A2 & S2). injection N2 as <-.
  apply sbind_Some in H as (v' & sw3 & H3 & H).
  apply lift_array_get in H3 as (_ & N3 & A3 & S3). injection N3 as <-.
  adv_step A1 A2. adv_step A1 A3.
  apply sbind_Some in H as (d & sw4 & H4 & H).
  apply lift_shader_delete_adv in H4 as [A4 S4]. adv_step A1 A4.
  apply sbind_Some in H as (s & sw5 & H5 & H).
  apply lift_shader_delete_adv in H5 as [A5 S5]. adv_step A1 A5.
  apply sbind_Some in H as ([] & sw6 & H6 & H).
  apply delete_textures_effect in H6 as (L6 & T6 & F6 & S6).
  apply sbind_Some in H as ([] & sw7 & H7 & H).
  apply delete_framebuffers_effect in H7 as (L7 & T7 & F7 & S7).
  apply lift_free_adv in H as [(L8 & T8 & F8 & _) S8].
  destruct A1 as (L & T0 & F & _). cbn [app] in L, T0.
  unfold same_objects in *.
  split; [|split; [|split]].
  - rewrite L8, L7, L6, L. unfold destroy_events.
    rewrite <- !app_assoc. reflexivity.
  - rewrite S8, S7, S6, S5, !shader_delete_live, S4, !shader_delete_live,
      S3, S2, S1. reflexivity.
  - rewrite T8, T7, T6, T0. reflexivity.
  - rewrite F8, F7, F6, F. reflexivity.
Qed.

Lemma gen_framebuffer_effect (old fb : Z) (sw sw' : sys_world) :
  gen_framebuffer old sw = Some (fb, sw') ->
  exists a,
    fb = (if a =? 0 then old else a) /\
    log sw' = log sw ++ [Setup (GlGenFramebuffers 1)] /\
    textures sw' = textures sw /\
    framebuffers sw' = handed_out [a] ++ framebuffers sw /\
    same_objects sw sw'.
Proof.
  unfold gen_framebuffer. unfold sbind at 1. rewrite ask_run. cbv beta iota.
  intros H. exists (hd 0 (answers (inner sw))).
  unfold handed_out, same_objects. cbn [filter].
  destruct (hd 0 (answers (inner sw)) =? 0) eqn:E; cbn [negb app];
    injection H as <- <-; destruct sw as [[t an g q ct sc] l tx fb' ex];
    cbn; auto.
Qed.

(** What [do_pool] does when there is no pool yet. *)
Lemma do_pool_effect (sys sys' : vout_display_sys_t) (count pool : Z)
    (sw sw' : sys_world) :
  do_pool sys 0 count sw = Some ((sys', pool), sw') ->
  exists a id,
    let fb := if a =? 0 then framebuffer (gl sys) else a in
    sys' = mkSys (vd sys) (x11 sys) (egl sys)
             (set_rgb_tex (set_framebuffer (gl sys) fb)
                (mkTex id (tex_loc (rgb_tex (gl sys))))) /\
    pool = hd 0 (answers (inner sw)) /\
    log sw' = log sw ++ pool_events (fmt (vd sys)) count fb id /\
    textures sw' = handed_out [id] ++ textures sw /\
    framebuffers sw' = handed_out [a] ++ framebuffers sw /\
    same_objects sw sw'.
Proof.
  unfold do_pool. cbn [Z.eqb]. intros H.
  apply sbind_Some in H as (p & sw1 & H1 & H).
  pose proof H1 as P1. rewrite ask_run in P1. injection P1 as P1 _.
  apply ask_adv in H1 as [(L1 & T1 & F1 & _) S1].
  apply sbind_Some in H as (fb & sw2 & H2 & H).
  apply gen_framebuffer_effect in H2 as (a & -> & L2 & T2 & F2 & S2).
  apply sbind_Some in H as (id & sw3 & H3 & H).
  apply texture_create_adv in H3 as [(L3 & T3 & F3 & _) S3].
  apply sbind_Some in H as ([] & sw4 & H4 & H).
  apply call_adv in H4 as [(L4 & T4 & F4 & _) S4].
  apply sbind_Some in H as ([] & sw5 & H5 & H).
  apply lift_adv in H5 as (wd' & E5 & (L5 & T5 & F5 & _) & I5).
  unfold gl_do, emit in E5. injection E5 as <-.
  apply sbind_Some in H as ([] & sw6 & H6 & H).
  apply call_adv in H6 as [(L6 & T6 & F6 & _) S6].
  injection H as <- <- <-.
  exists a, id. cbv zeta. cbn [framebuffer set_framebuffer set_rgb_tex rgb_tex tex_id] in *.
  unfold same_objects in *.
  split; [reflexivity|]. split; [now rewrite P1|].
  split; [|split; [|split]].
  - rewrite L6, L5, L4, L3, L2, L1. unfold pool_events.
    cbn [trace gl_step set_trace set_glst map app]. rewrite <- !app_assoc.
    reflexivity.
  - rewrite T6, T5, T4, T3, T2, T1. reflexivity.
  - rewrite F6, F5, F4, F3, F2, F1. reflexivity.
  - rewrite S6, I5. cbn [gl_step glst set_trace set_glst gl_apply].
    rewrite S4, S3, S2, S1. reflexivity.
Qed.

(** X19 -- [opengl_es2_create] never calls [glDeleteTextures].  When it fails,
    nothing is stored through its argument; and when it fails because the
    second [shader_init] failed, the names [glGenTextures] handed out for
    the three planes are still in use when it returns: the code after
    [cleanup:] deletes the shaders only. *)
Theorem opengl_es2_create_failure (sw sw' : sys_world) (c : vlc_code)
    (g : option opengl_es2_t) :
  opengl_es2_create sw = Some ((c, g), sw') -> c <> VLC_SUCCESS ->
  g = None /\
  exists evs gens,
    log sw' = log sw ++ evs /\ textures sw' = gens ++ textures sw /\
    Forall keeps_textures evs /\
    ((c = VLC_ENOMEM /\ gens = []) \/
     (c = VLC_EGENERIC /\ In deint_failed evs /\ gens = []) \/
     (c = VLC_EGENERIC /\ In scale_failed evs /\
      exists t1 t2 t3, gens = handed_out [t3; t2; t1])).
Proof.
  intros H Hc.
  apply opengl_es2_create_effect in H as (evs & gens & A & K & O).
  destruct A as (L & T & _).
  destruct O as [(E & _ & G) | [(E & D & G) | [(E & D & G) | O]]].
  - injection E as -> ->. split; [reflexivity|]. exists evs, gens.
    repeat (split; [assumption|]). left. auto.
  - injection E as -> ->. split; [reflexivity|]. exists evs, gens.
    repeat (split; [assumption|]). right. left. auto.
  - injection E as -> ->. split; [reflexivity|]. exists evs, gens.
    repeat (split; [assumption|]). right. right. auto.
  - destruct O as (d & s & a1 & a2 & a3 & a4 & t1 & t2 & t3 & ext & has & ld
                   & ls & E & _).
    injection E as -> _. contradiction.
Qed.

Lemma opengl_es2_create_failure_witness :
  exists sw',
    opengl_es2_create (driver_world scale_fails_answers)
    = Some ((VLC_EGENERIC, None), sw') /\
    textures sw' = [13; 12; 11] /\
    exists evs gens,
      log sw' = log (driver_world scale_fails_answers) ++ evs /\
      textures sw' = gens ++ textures (driver_world scale_fails_answers) /\
      Forall keeps_textures evs /\
      ((VLC_EGENERIC = VLC_ENOMEM /\ gens = []) \/
       (VLC_EGENERIC = VLC_EGENERIC /\ In deint_failed evs /\ gens = []) \/
       (VLC_EGENERIC = VLC_EGENERIC /\ In scale_failed evs /\
        exists t1 t2 t3, gens = handed_out [t3; t2; t1])).
Proof.
  destruct (opengl_es2_create (driver_world scale_fails_answers))
    as [[[c g] sw']|] eqn:E; [|vm_compute in E; discriminate].
  assert (Hc : c = VLC_EGENERIC) by (vm_compute in E; congruence).
  assert (Ht : textures sw' = [13; 12; 11]) by (vm_compute in E; now injection E as _ _ <-).
  subst c.
  destruct (opengl_es2_create_failure _ _ _ _ E) as (-> & H); [discriminate|].
  exists sw'. split; [reflexivity|]. split; [exact Ht | exact H].
Defined.





Ltac count_names :=
  cbn [count_occ app];
  repeat match goal with
    | |- context [Z.eq_dec ?a ?b] => destruct (Z.eq_dec a b)
    end;
  lia.






Lemma retry_textures (t1 t2 t3 r1 r2 : Z) :
  remove_names [t1; t2; t3; r2]
    (handed_out [r2] ++ handed_out [r1] ++ handed_out [t3; t2; t1] ++ [])
  = handed_out [r1].
Proof.
  destruct (r1 =? 0) eqn:E.
  - replace (handed_out [r1]) with (@nil Z)
      by (unfold handed_out; cbn [filter]; now rewrite E).
    apply (count_occ_inv_nil Z.eq_dec); intros x.
    rewrite count_remove_names, !count_occ_app. unfold handed_out.
    cbn [filter]. rewrite ?E.
    first [apply Z.eqb_eq in E | apply Z.eqb_neq in E].
    destruct (Z.eqb_spec r2 0), (Z.eqb_spec t1 0), (Z.eqb_spec t2 0),
      (Z.eqb_spec t3 0); cbn [negb]; count_names.
  - replace (handed_out [r1]) with [r1]
      by (unfold handed_out; cbn [filter]; now rewrite E).
    apply (count_singleton Z.eq_dec); intros x.
    rewrite count_remove_names, !count_occ_app. unfold handed_out.
    cbn [filter]. rewrite ?E.
    first [apply Z.eqb_eq in E | apply Z.eqb_neq in E].
    destruct (Z.eqb_spec r2 0), (Z.eqb_spec t1 0), (Z.eqb_spec t2 0),
      (Z.eqb_spec t3 0); cbn [negb]; count_names.
Qed.

Lemma retry_framebuffers (a1 a2 : Z) :
  let fb1 := if a1 =? 0 then 0 else a1 in
  let fb2 := if a2 =? 0 then fb1 else a2 in
  fb2 <> fb1 ->
  remove_names [fb2] (handed_out [a2] ++ handed_out [a1] ++ [])
  = handed_out [fb1].
Proof.
  cbv zeta. unfold handed_out, remove_names. cbn [filter fold_left].
  destruct (a2 =? 0) eqn:E2; [congruence|]. intros _.
  cbn [negb app remove_name]. rewrite Z.eqb_refl.
  destruct (a1 =? 0) eqn:E1; cbn [negb app]; [reflexivity|].
  now rewrite E1.
Qed.

(** X22 -- When the picture pool could not be allocated, the next call of
    [do_pool] generates a framebuffer and a texture again and overwrites
    the names of the first call: after [opengl_es2_destroy] the first
    texture is still in use, and so is the first framebuffer when a new
    one was generated. *)
Theorem do_pool_retry_leaks (sw sw1 sw2 sw3 : sys_world) (g : opengl_es2_t)
    (disp : vout_display_t) (x : x11_backend_t) (e : egl_backend_t)
    (count count' pool : Z) (sys1 sys2 : vout_display_sys_t) :
  nothing_in_use sw ->
  opengl_es2_create sw = Some ((VLC_SUCCESS, Some g), sw1) ->
  do_pool (mkSys disp x e g) 0 count sw1 = Some ((sys1, 0), sw2) ->
  do_pool sys1 0 count' sw2 = Some ((sys2, pool), sw3) ->
  exists sw4,
    opengl_es2_destroy (Some (gl sys2)) sw3 = Some (tt, sw4) /\
    textures sw4 = handed_out [tex_id (rgb_tex (gl sys1))] /\
    (framebuffer (gl sys2) <> framebuffer (gl sys1) ->
     framebuffers sw4 = handed_out [framebuffer (gl sys1)]).
Proof.
  intros (N1 & N2 & N3) H P1 P2.
  apply opengl_es2_create_effect in H as (evs & gens & A & _ & O).
  destruct O as [(E & _) | [(E & _) | [(E & _) | O]]]; try discriminate.
  destruct O as (d & s & b1 & b2 & b3 & b4 & t1 & t2 & t3 & ext & has & ld
                 & ls & E & -> & _).
  injection E as ->. destruct A as (_ & T & F & _).
  rewrite N2 in T. rewrite N3 in F.
  apply do_pool_effect in P1 as (a1 & r1 & -> & _ & _ & T1 & F1 & _).
  apply do_pool_effect in P2 as (a2 & r2 & -> & _ & _ & T2 & F2 & _).
  cbn [gl vd x11 egl framebuffer rgb_tex tex_loc tex_id set_rgb_tex
       set_framebuffer] in *.
  set (g' := set_rgb_tex _ _).
  destruct (opengl_es2_destroy_returns g' sw3 eq_refl) as (sw4 & D).
  exists sw4. split; [exact D|].
  apply (opengl_es2_destroy_effect g' (mkTex t1 b1) (mkTex t2 b2)
           (mkTex t3 b3) _ _ _ eq_refl) in D as (_ & _ & T4 & F4).
  subst g'.
  cbn [rgb_tex framebuffer tex_id set_rgb_tex set_framebuffer] in T4, F4.
  rewrite T2, T1, T in T4. rewrite F2, F1, F in F4.
  split.
  - rewrite T4. apply retry_textures.
  - intros Hn. rewrite F4. apply (retry_framebuffers a1 a2). exact Hn.
Qed.

Lemma do_pool_retry_leaks_witness :
  exists g sw1 sys1 sw2 sys2 sw3 sw4,
    opengl_es2_create
      (driver_world (create_answers ++ [0; 21; 14] ++ [77; 22; 15]))
    = Some ((VLC_SUCCESS, Some g), sw1) /\
    do_pool (mkSys (vd (example_sys true)) (x11 (example_sys true))
               (egl (example_sys true)) g) 0 3 sw1
    = Some ((sys1, 0), sw2) /\
    do_pool sys1 0 3 sw2 = Some ((sys2, 77), sw3) /\
    opengl_es2_destroy (Some (gl sys2)) sw3 = Some (tt, sw4) /\
    textures sw4 = [14] /\ framebuffers sw4 = [21].
Proof.
  eassert (C : opengl_es2_create
                 (driver_world (create_answers ++ [0; 21; 14] ++ [77; 22; 15]))
               = Some ((VLC_SUCCESS, Some _), _))
    by (vm_compute; reflexivity).
  match type of C with
  | _ = Some ((_, Some ?g), ?sw1) =>
      eassert (P1 : do_pool (mkSys (vd (example_sys true))
                               (x11 (example_sys true))
                               (egl (example_sys true)) g) 0 3 sw1
                    = Some ((_, 0), _))
        by (vm_compute; reflexivity)
  end.
  match type of P1 with
  | _ = Some ((?sys1, _), ?sw2) =>
      eassert (P2 : do_pool sys1 0 3 sw2 = Some ((_, 77), _))
        by (vm_compute; reflexivity)
  end.
  assert (N : nothing_in_use
                (driver_world (create_answers ++ [0; 21; 14] ++ [77; 22; 15])))
    by (repeat split).
  destruct (do_pool_retry_leaks _ _ _ _ _ _ _ _ _ _ _ _ _ N C P1 P2)
    as (sw4 & D & T & F).
  do 6 eexists. exists sw4.
  split; [exact C|]. split; [exact P1|]. split; [exact P2|].
  split; [exact D|]. split; [exact T|].
  apply F. vm_compute. discriminate.
Defined.

(** **** [do_control] *)

Lemma change_display_size_run (vout : vout_display_sys_t)
    (c : vout_display_cfg_t) (sw : sys_world) :
  is_unsigned (display_width c) -> is_unsigned (display_height c) ->
  is_unsigned (width (rect (x11 vout))) ->
  is_unsigned (height (rect (x11 vout))) ->
  exists v,
    compute_bounding_box c (rect (x11 vout)) (viewport (gl vout)) = Some v /\
    inside_window (rect (x11 vout)) v /\
    change_display_size vout c sw
    = Some ((VLC_SUCCESS,
             mkSys (vd vout) (x11 vout) (egl vout) (set_viewport (gl vout) v)),
            logged [Render (Fprintf "MSG: VOUT_DISPLAY_CHANGE_DISPLAY_SIZE\n")] sw).
Proof.
  intros Hw Hh Hdw Hdh.
  destruct c as [cw ch]. destruct (rect (x11 vout)) as [dx dy dw dh] eqn:R.
  destruct (BoundingBoxFacts.bounding_box_inside cw ch dx dy dw dh
              (viewport (gl vout))) as (v & B & I); try assumption.
  exists v. split; [exact B|]. split; [exact I|].
  unfold change_display_size. unfold sbind at 1. rewrite sfprintf_run.
  unfold sbind. rewrite R, B. reflexivity.
Qed.

Ltac plain_query :=
  unfold sbind; rewrite sfprintf_run;
  eexists VLC_SUCCESS, _, _, _; split; [reflexivity|];
  split; [reflexivity|]; right; split; [reflexivity|];
  split; [eexists; reflexivity|]; left; split; [reflexivity|];
  let H := fresh in intros ? [H|H]; discriminate H.

Ltac size_query vout sw c Hr Hc Hdw Hdh :=
  let Hw := fresh in let Hh := fresh in
  let v := fresh "v" in let B := fresh in let I := fresh in let E := fresh in
  destruct (Hc c Hr) as [Hw Hh];
  destruct (change_display_size_run vout c sw Hw Hh Hdw Hdh) as (v & B & I & E);
  eexists _, _, _, _; split; [exact E|]; split; [reflexivity|]; right;
  split; [reflexivity|]; split; [eexists; reflexivity|]; right;
  exists c, v; auto.

(** X23 -- For unsigned sizes [do_control] returns.  It answers [VLC_SUCCESS]
    to the five queries it knows and [VLC_EGENERIC], with an error
    message, to all others; it changes nothing but the viewport, and only
    for the two size queries: the viewport becomes the bounding box of
    the configuration that was passed in the window as the last
    [ConfigureNotify] left it, and lies inside that window. *)
Theorem do_control_result (vout : vout_display_sys_t) (query : control_query)
    (sw : sys_world) :
  is_unsigned (width (rect (x11 vout))) ->
  is_unsigned (height (rect (x11 vout))) ->
  (forall c, resizes query c ->
             is_unsigned (display_width c) /\ is_unsigned (display_height c)) ->
  exists r vout' sw' ev,
    do_control vout query sw = Some ((r, vout'), sw') /\
    log sw' = log sw ++ [ev] /\
    ((r = VLC_EGENERIC /\ vout' = vout /\
      ev = Setup (Msg_Err "Unsupported query %d in vout display gles2") /\
      exists q, query = VOUT_DISPLAY_other q) \/
     (r = VLC_SUCCESS /\ (exists f, ev = Render (Fprintf f)) /\
      ((vout' = vout /\ forall c, ~ resizes query c) \/
       (exists c v,
          resizes query c /\
          compute_bounding_box c (rect (x11 vout)) (viewport (gl vout)) = Some v /\
          inside_window (rect (x11 vout)) v /\
          vout' = mkSys (vd vout) (x11 vout) (egl vout)
                    (set_viewport (gl vout) v))))).
Proof.
  intros Hdw Hdh Hc.
  destruct query as [| |state|c|c|q]; cbn [do_control].
  - plain_query.
  - plain_query.
  - plain_query.
  - assert (Hr : resizes (VOUT_DISPLAY_CHANGE_DISPLAY_SIZE c) c) by now left.
    size_query vout sw c Hr Hc Hdw Hdh.
  - assert (Hr : resizes (VOUT_DISPLAY_CHANGE_SOURCE_ASPECT c) c) by now right.
    size_query vout sw c Hr Hc Hdw Hdh.
  - exists VLC_EGENERIC, vout. eexists. eexists. split; [reflexivity|].
    split; [reflexivity|]. left. repeat split. now exists q.
Qed.

Lemma do_control_result_witness :
  exists r vout' sw' ev,
    do_control (example_sys true)
      (VOUT_DISPLAY_CHANGE_SOURCE_ASPECT (mkCfg 16 9)) sys_world0
    = Some ((r, vout'), sw') /\
    viewport (gl vout') = mkRect 0 3 12 6 /\
    log sw' = log sys_world0 ++ [ev] /\
    ((r = VLC_EGENERIC /\ vout' = example_sys true /\
      ev = Setup (Msg_Err "Unsupported query %d in vout display gles2") /\
      exists q, VOUT_DISPLAY_CHANGE_SOURCE_ASPECT (mkCfg 16 9) = VOUT_DISPLAY_other q) \/
     (r = VLC_SUCCESS /\ (exists f, ev = Render (Fprintf f)) /\
      ((vout' = example_sys true /\
        forall c, ~ resizes (VOUT_DISPLAY_CHANGE_SOURCE_ASPECT (mkCfg 16 9)) c) \/
       (exists c v,
          resizes (VOUT_DISPLAY_CHANGE_SOURCE_ASPECT (mkCfg 16 9)) c /\
          compute_bounding_box c (rect (x11 (example_sys true)))
            (viewport (gl (example_sys true))) = Some v /\
          inside_window (rect (x11 (example_sys true))) v /\
          vout' = mkSys (vd (example_sys true)) (x11 (example_sys true))
                    (egl (example_sys true))
                    (set_viewport (gl (example_sys true)) v))))).
Proof.
  destruct (do_control_result (example_sys true)
              (VOUT_DISPLAY_CHANGE_SOURCE_ASPECT (mkCfg 16 9)) sys_world0)
    as (r & vout' & sw' & ev & E & H).
  - vm_compute; split; congruence.
  - vm_compute; split; congruence.
  - intros c [[=]|[= <-]]. vm_compute. repeat split; congruence.
  - exists r, vout', sw', ev. split; [exact E|]. split; [|exact H].
    vm_compute in E. injection E as _ <- _. reflexivity.
Defined.

(** **** The X11 backend and [Close] *)

Lemma x_get_geometry_run (d w : Z) (r : rectangle_t) (sw : sys_world) :
  exists g sw',
    x_get_geometry d w r sw = Some (g, sw') /\
    log sw' = log sw ++ [Setup (XGetGeometry d w)] /\ keeps_gl sw sw'.
Proof.
  unfold x_get_geometry. run_step.
  destruct (hd 0 (answers (inner sw)) =? 0).
  - eexists _, _. split; [reflexivity|]. split; [reflexivity|]. repeat split.
  - do 4 run_step. eexists _, _. split; [reflexivity|].
    split; [reflexivity|]. repeat split.
Qed.

Lemma window_rect_spec (cfg : vout_window_cfg_t) :
  (let r := mkRect (wrap32 (window_x cfg)) (wrap32 (window_y cfg))
              (window_width cfg) (window_height cfg) in
   if (width r =? UINT_MAX) && (height r =? UINT_MAX)
   then set_height (set_width r 768) 576
   else r)
  = window_rect cfg.
Proof.
  unfold window_rect. cbv zeta. cbn [width height].
  destruct ((window_width cfg =? UINT_MAX) && (window_height cfg =? UINT_MAX));
    reflexivity.
Qed.

(** All outcomes of [x11_backend_create]. *)
Lemma x11_backend_create_outcome (cfg : vout_window_cfg_t) (sw : sys_world) :
  exists r sw' evs,
    x11_backend_create cfg sw = Some (r, sw') /\
    log sw' = log sw ++ evs /\
    keeps_gl sw sw' /\
    match r with
    | (VLC_ENOMEM, None) =>
        hd 0 (answers (inner sw)) = 0 /\ evs = [Setup (Calloc "x11")]
    | (VLC_EGENERIC, None) =>
        hd 0 (answers (inner sw)) <> 0 /\
        evs = x11_preamble
              ++ [Render (Fprintf "ERR: %s: Could not create X display\n");
                  Render (Free "x11")]
    | (VLC_SUCCESS, Some b) =>
        hd 0 (answers (inner sw)) <> 0 /\
        x11_display b <> 0 /\
        ((external b = true /\ window b <> 0 /\
          evs = x11_external_events (x11_display b) (window b)) \/
         (external b = false /\ rect b = window_rect cfg /\
          exists root,
            evs = x11_window_events (x11_display b) root (window b) (rect b)))
    | _ => False
    end.
Proof.
  unfold x11_backend_create. rewrite window_rect_spec.
  run_step. destruct (Z.eqb_spec (hd 0 (answers (inner sw))) 0) as [E0|E0].
  { unfold sret. outcome sw L. auto. }
  set (sw1 := asked (Calloc "x11") sw).
  run_step. set (ext := hd 0 (answers (inner sw1))).
  set (sw2 := asked (Var_InheritInteger "drawable-xid") sw1).
  run_step. set (d := hd 0 (answers (inner sw2))).
  set (sw3 := asked XOpenDisplay sw2).
  assert (Hd : forall b, x11_display (set_x11_display b d) = d) by reflexivity.
  rewrite Hd.
  destruct (Z.eqb_spec d 0) as [Ed|Ed].
  { do 2 run_step. unfold sret. outcome sw L. auto. }
  run_step. run_step.
  set (sw4 := called (XLockDisplay d) sw3).
  set (root := hd 0 (answers (inner sw4))).
  set (sw5 := asked (XDefaultRootWindow d) sw4).
  destruct (Z.eqb_spec ext 0) as [Ee|Ee]; cbn [negb].
  - (* a window of its own *)
    cbn [external set_x11_display set_rect x11_zero rect window x11_display
         set_window set_external].
    unfold sbind at 1. do 6 run_step. cbn [sret]. run_step. unfold sret.
    outcome sw L.
    split; [exact E0|]. split; [exact Ed|]. right.
    split; [reflexivity|]. split; [reflexivity|]. exists root. reflexivity.
  - (* the window of the application *)
    cbn [external set_x11_display set_rect x11_zero rect window x11_display
         set_window set_external].
    unfold sbind at 1. run_step.
    set (sw6 := called (XSelectInput d ext event_masks) sw5).
    destruct (x_get_geometry_run d ext (window_rect cfg) sw6)
      as (g & sw7 & G & LG & KG).
    unfold sbind at 1. rewrite G. cbv beta iota.
    run_step. cbn [sret]. run_step. unfold sret.
    cbn [external set_x11_display set_rect x11_zero rect window x11_display
         set_window set_external].
    eexists _, _, _. split; [reflexivity|].
    split; [|split].
    + rewrite !log_called, LG. unfold sw6. rewrite log_called. unfold sw5.
      rewrite log_asked. unfold sw4. rewrite log_called. unfold sw3.
      rewrite log_asked. unfold sw2. rewrite log_asked. unfold sw1.
      rewrite log_asked. rewrite <- !app_assoc. reflexivity.
    + eapply keeps_gl_trans; [|eapply keeps_gl_trans; [exact KG|]];
        repeat split.
    + split; [exact E0|]. split; [exact Ed|]. left.
      split; [reflexivity|]. split; [exact Ee|]. reflexivity.
Qed.

(** **** Tear-down *)

Lemma x11_backend_destroy_run (b : option x11_backend_t) (sw : sys_world) :
  exists sw',
    x11_backend_destroy b sw = Some (tt, sw') /\
    log sw' = log sw ++ x_teardown b /\ keeps_gl sw sw'.
Proof.
  destruct b as [b|]; cbn [x11_backend_destroy x_teardown].
  2: { exists sw. split; [reflexivity|]. split; [now rewrite app_nil_r|].
       apply keeps_gl_refl. }
  unfold x11_teardown. destruct sw as [[t an g q ct sc] l tx fb ex].
  destruct (window b =? 0), (x11_display b =? 0), (external b);
    (eexists; split; [reflexivity|]; split; [|repeat split]);
    cbn; rewrite <- ?app_assoc; reflexivity.
Qed.

Lemma lift_egl_backend_destroy_run (e : option egl_backend_t) (sw : sys_world) :
  exists sw',
    lift (egl_backend_destroy e) sw = Some (tt, sw') /\
    log sw' = log sw ++ egl_teardown e /\ keeps_gl sw sw'.
Proof.
  destruct e as [e|]; cbn [egl_teardown].
  - exists (logged (teardown_events e) sw). split; [|split; [reflexivity|]].
    + pose proof (cleanup_run e sw) as C.
      unfold egl_backend_create_cleanup, sbind in C.
      destruct (lift (egl_backend_destroy (Some e)) sw) as [[[] sw1]|];
        [|discriminate].
      unfold sret in C. now injection C as ->.
    + destruct sw as [[t an g q ct sc] l tx fb ex]. repeat split.
  - exists (logged [] sw). split; [|split].
    + destruct sw as [[t an g q ct sc] l tx fb ex]. reflexivity.
    + reflexivity.
    + destruct sw as [[t an g q ct sc] l tx fb ex]. repeat split.
Qed.

Lemma nth_three {A : Type} (l : list A) (d : A) :
  List.length l = 3%nat -> l = [nth 0 l d; nth 1 l d; nth 2 l d].
Proof. destruct l as [|a [|b [|c [|]]]]; try discriminate. reflexivity. Qed.

Lemma opengl_es2_destroy_run (g : option opengl_es2_t) (sw : sys_world) :
  (forall g', g = Some g' -> List.length (tex g') = 3%nat) ->
  exists sw',
    opengl_es2_destroy g sw = Some (tt, sw') /\
    log sw' = log sw ++ gl_teardown g /\
    match g with
    | Some g' =>
        live (glst (inner sw'))
        = remove_objects (shader_handles (scale g'))
            (remove_objects (shader_handles (deint g'))
               (live (glst (inner sw)))) /\
        textures sw'
        = remove_names
            [tex_id (nth 0 (tex g') tex_zero); tex_id (nth 1 (tex g') tex_zero);
             tex_id (nth 2 (tex g') tex_zero); tex_id (rgb_tex g')]
            (textures sw) /\
        framebuffers sw' = remove_names [framebuffer g'] (framebuffers sw)
    | None => sw' = sw
    end.
Proof.
  intros Hl. destruct g as [g|]; cbn [gl_teardown].
  2: { exists sw. split; [reflexivity|]. rewrite app_nil_r. auto. }
  specialize (Hl g eq_refl).
  destruct (opengl_es2_destroy_returns g sw Hl) as (sw' & D).
  exists sw'. split; [exact D|].
  pose proof (nth_three (tex g) tex_zero Hl) as T.
  apply (opengl_es2_destroy_effect g _ _ _ _ _ _ T) in D as (L & O & X & F).
  auto.
Qed.

Lemma uses_destroy_events (g : opengl_es2_t) (ty tu tv : Z) :
  Forall (uses [LibGL; LibC]) (destroy_events g ty tu tv).
Proof.
  unfold destroy_events. rewrite !Forall_app. repeat split.
  - rewrite Forall_map, Forall_map. apply Forall_forall. intros c _.
    unfold uses. cbn. auto.
  - rewrite Forall_map, Forall_map. apply Forall_forall. intros c _.
    unfold uses. cbn. auto.
  - repeat apply Forall_cons; try apply Forall_nil; unfold uses; cbn; auto.
Qed.

Lemma uses_x11_teardown (b : x11_backend_t) :
  Forall (uses [LibX11; LibC]) (x11_teardown b).
Proof.
  unfold x11_teardown.
  destruct (window b =? 0), (x11_display b =? 0), (external b);
    repeat apply Forall_cons; try apply Forall_nil; unfold uses; cbn; auto.
Qed.

(** X24 -- [Close] always returns, and tears down in the reverse order of the
    creation: the GL objects first, then the EGL context, then the
    window and the X display, then the picture pool, and [sys] is freed
    last; a backend or a pool that is null is skipped. *)
Theorem Close_order (sys : plugin_t) (sw : sys_world) :
  (forall g, plugin_gl sys = Some g -> List.length (tex g) = 3%nat) ->
  exists sw',
    Close sys sw = Some (tt, sw') /\
    log sw'
    = log sw ++ gl_teardown (plugin_gl sys) ++ egl_teardown (plugin_egl sys)
      ++ x_teardown (plugin_x11 sys) ++ pool_teardown (plugin_pool sys)
      ++ [Render (Free "sys")] /\
    Forall (uses [LibGL; LibC]) (gl_teardown (plugin_gl sys)) /\
    Forall (uses [LibEGL; LibC]) (egl_teardown (plugin_egl sys)) /\
    Forall (uses [LibX11; LibC]) (x_teardown (plugin_x11 sys)) /\
    Forall (uses [LibVLC]) (pool_teardown (plugin_pool sys)).
Proof.
  intros Hl. unfold Close.
  destruct (opengl_es2_destroy_run (plugin_gl sys) sw Hl) as (sw1 & E1 & L1 & _).
  destruct (lift_egl_backend_destroy_run (plugin_egl sys) sw1)
    as (sw2 & E2 & L2 & _).
  destruct (x11_backend_destroy_run (plugin_x11 sys) sw2) as (sw3 & E3 & L3 & _).
  rewrite (sbind_run _ _ _ _ _ E1), (sbind_run _ _ _ _ _ E2),
    (sbind_run _ _ _ _ _ E3).
  assert (E4 : exists sw4,
             swhen (negb (plugin_pool sys =? 0))
               (call (Picture_pool_Delete (plugin_pool sys))) sw3
             = Some (tt, sw4) /\
             log sw4 = log sw3 ++ pool_teardown (plugin_pool sys)).
  { unfold pool_teardown. destruct (plugin_pool sys =? 0); cbn [negb swhen].
    - exists sw3. split; [reflexivity|]. now rewrite app_nil_r.
    - eexists. split; [reflexivity|]. reflexivity. }
  destruct E4 as (sw4 & E4 & L4).
  rewrite (sbind_run _ _ _ _ _ E4), free_run.
  eexists. split; [reflexivity|]. split.
  - rewrite log_logged, L4, L3, L2, L1, <- !app_assoc. reflexivity.
  - split; [|split; [|split]].
    + destruct (plugin_gl sys); [apply uses_destroy_events | constructor].
    + destruct (plugin_egl sys); [apply uses_teardown_events | constructor].
    + destruct (plugin_x11 sys); [apply uses_x11_teardown | constructor].
    + unfold pool_teardown. destruct (plugin_pool sys =? 0);
        repeat apply Forall_cons; try apply Forall_nil; unfold uses; cbn; auto.
Qed.

Lemma Close_order_witness :
  exists sw',
    Close example_plugin sys_world0 = Some (tt, sw') /\
    log sw'
    = log sys_world0 ++ gl_teardown (plugin_gl example_plugin)
      ++ egl_teardown (plugin_egl example_plugin)
      ++ x_teardown (plugin_x11 example_plugin)
      ++ pool_teardown (plugin_pool example_plugin)
      ++ [Render (Free "sys")] /\
    Forall (uses [LibGL; LibC]) (gl_teardown (plugin_gl example_plugin)) /\
    Forall (uses [LibEGL; LibC]) (egl_teardown (plugin_egl example_plugin)) /\
    Forall (uses [LibX11; LibC]) (x_teardown (plugin_x11 example_plugin)) /\
    Forall (uses [LibVLC]) (pool_teardown (plugin_pool example_plugin)).
Proof.
  apply Close_order. intros g [= <-]. reflexivity.
Defined.

(** **** [x11_backend_create] *)


(** X26 -- What [x11_backend_create] created, [x11_backend_destroy] releases:
    the display is closed by the last X call, every lock of the display
    is released, a window of its own is destroyed, and a window of the
    application is never destroyed -- the selection of its events is
    reset instead. *)
Theorem x11_backend_create_destroy (cfg : vout_window_cfg_t)
    (sw sw1 : sys_world) (b : x11_backend_t) :
  x11_backend_create cfg sw = Some ((VLC_SUCCESS, Some b), sw1) ->
  exists sw2 evs,
    x11_backend_destroy (Some b) sw1 = Some (tt, sw2) /\
    log sw2 = log sw ++ evs /\
    ends_with evs
      [Setup (XCloseDisplay (x11_display b)); Render (Free "x11")] /\
    occurrences is_lock evs = occurrences is_unlock evs /\
    (if external b
     then occurrences is_create_window evs = 0%nat /\
          occurrences is_destroy_window evs = 0%nat /\
          In (Setup (XSelectInput (x11_display b) (window b) [])) evs
     else occurrences is_create_window evs = 1%nat /\
          (window b <> 0 ->
           In (Setup (XDestroyWindow (x11_display b) (window b))) evs) /\
          (window b = 0 -> occurrences is_destroy_window evs = 0%nat)).
Proof.
  intros H.
  destruct (x11_backend_create_outcome cfg sw)
    as (r & sw' & evs & E & L & _ & O).
  rewrite H in E. injection E as <- <-.
  destruct O as (_ & Hd & O).
  destruct (x11_backend_destroy_run (Some b) sw1) as (sw2 & D & L2 & _).
  exists sw2, (evs ++ x11_teardown b). split; [exact D|].
  split; [now rewrite L2, L, app_assoc|].
  cbn [x_teardown] in L2. unfold x11_teardown.
  apply Z.eqb_neq in Hd. rewrite Hd.
  destruct O as [(Ex & Hw & ->) | (Ex & _ & root & ->)]; rewrite Ex.
  - apply Z.eqb_neq in Hw. rewrite Hw.
    split; [apply ends_with_app; ends_tac|]. split; [reflexivity|].
    split; [reflexivity|]. split; [reflexivity|].
    apply in_or_app. right. cbn. auto.
  - destruct (Z.eqb_spec (window b) 0) as [Hw|Hw].
    + split; [apply ends_with_app; ends_tac|]. split; [reflexivity|].
      split; [reflexivity|]. split; [contradiction | reflexivity].
    + split; [apply ends_with_app; ends_tac|]. split; [reflexivity|].
      split; [reflexivity|]. split; [|contradiction].
      intros _. apply in_or_app. right. cbn. auto.
Qed.


(** **** What a function logs *)

Lemma logs_sret {A : Type} (P : sys_event -> Prop) (a : A) : logs P (sret a).
Proof. intros sw a' sw' [= _ <-]. exists []. now rewrite app_nil_r. Qed.

Lemma logs_sundefined {A : Type} (P : sys_event -> Prop) :
  logs P (@sundefined A).
Proof. intros sw a sw' H. discriminate. Qed.

Lemma logs_sdefined {A : Type} (P : sys_event -> Prop) (o : option A) :
  logs P (sdefined o).
Proof. destruct o; [apply logs_sret | apply logs_sundefined]. Qed.

Lemma logs_sbind {A B : Type} (P : sys_event -> Prop) (m : SysM A)
    (k : A -> SysM B) :
  logs P m -> (forall a, logs P (k a)) -> logs P (sbind m k).
Proof.
  intros Hm Hk sw b sw' H. apply sbind_Some in H as (a & sw1 & H1 & H2).
  destruct (Hm _ _ _ H1) as (e1 & E1 & F1).
  destruct (Hk a _ _ _ H2) as (e2 & E2 & F2).
  exists (e1 ++ e2). split; [now rewrite E2, E1, app_assoc|].
  apply Forall_app. auto.
Qed.

Lemma logs_call (P : sys_event -> Prop) (c : setup_call) :
  P (Setup c) -> logs P (call c).
Proof.
  intros H sw a sw' [= _ <-]. exists [Setup c]. split; [reflexivity|].
  now constructor.
Qed.

Lemma logs_lift {A : Type} (P : sys_event -> Prop) (m : M A) :
  emits (fun e => P (Render e)) m -> logs P (lift m).
Proof.
  intros Hm sw a sw' H. apply lift_adv in H as (wd' & E & (L & _) & _).
  destruct (Hm _ _ _ E) as (evs & T & F). cbn [trace set_trace app] in T.
  exists (map Render (trace wd')). split; [exact L|].
  rewrite T, Forall_map. exact F.
Qed.

Lemma logs_ask (P : sys_event -> Prop) (c : setup_call) :
  P (Setup c) -> logs P (ask c).
Proof.
  intros H. unfold ask. apply logs_sbind; [now apply logs_call|].
  intros _. apply logs_lift. apply FrameFacts.emits_answer.
Qed.

Lemma logs_state {A : Type} (P : sys_event -> Prop) (f : sys_world -> A)
    (u : sys_world -> sys_world) :
  (forall sw, log (u sw) = log sw) ->
  logs P (fun sw => Some (f sw, u sw)).
Proof.
  intros Hu sw a sw' [= _ <-]. exists []. now rewrite Hu, app_nil_r.
Qed.

Ltac gl_or_c := unfold uses; cbn; auto.

Ltac emits_lib :=
  repeat first
    [ apply FrameFacts.emits_ret
    | apply FrameFacts.emits_undefined
    | apply FrameFacts.emits_defined
    | apply FrameFacts.emits_answer
    | apply FrameFacts.emits_emit; gl_or_c
    | apply FrameFacts.emits_gl_do; gl_or_c
    | apply FrameFacts.emits_gl_ask; gl_or_c
    | apply FrameFacts.emits_bind; [|intros ?]
    | progress unfold when, fprintf, array_get
    | match goal with
      | |- emits _ (if ?a then _ else _) => destruct a
      | |- emits _ (match ?a with _ => _ end) => destruct a
      end ].

Lemma emits_shader_delete (s : gl_shader_t) :
  emits (fun e => uses [LibGL; LibC] (Render e)) (shader_delete s).
Proof. unfold shader_delete. emits_lib. Qed.

Lemma emits_shader_init (s : gl_shader_t) (type : shader_types) :
  emits (fun e => uses [LibGL; LibC] (Render e)) (shader_init s type).
Proof.
  unfold shader_init, shader_init_failure, shader_load, shader_load_source.
  emits_lib; apply emits_shader_delete.
Qed.

Ltac logs_lib :=
  repeat first
    [ apply logs_sret
    | apply logs_sdefined
    | apply logs_call; gl_or_c
    | apply logs_ask; gl_or_c
    | apply logs_lift; first [ apply emits_shader_init
                             | apply emits_shader_delete | emits_lib ]
    | apply logs_state; reflexivity
    | apply logs_sbind; [|intros ?]
    | progress unfold sfprintf, swhen
    | match goal with
      | |- logs _ (if ?a then _ else _) => destruct a
      | |- logs _ (match ?a with _ => _ end) => destruct a
      end ].

Lemma logs_opengl_es2_create :
  logs (uses [LibGL; LibC]) opengl_es2_create.
Proof.
  unfold opengl_es2_create, opengl_es2_create_cleanup, create_plane_texture,
    texture_create, gen_texture, set_tex_id, set_tex_loc.
  logs_lib.
Qed.

Lemma x11_backend_create_destroy_witness :
  exists b sw1 sw2 evs,
    x11_backend_create null_cfg_window (with_answers [1; 0; 5; 9; 42] sys_world0)
    = Some ((VLC_SUCCESS, Some b), sw1) /\
    b = mkX11 5 42 (mkRect 10 20 768 576) false /\
    x11_backend_destroy (Some b) sw1 = Some (tt, sw2) /\
    log sw2 = log (with_answers [1; 0; 5; 9; 42] sys_world0) ++ evs /\
    ends_with evs
      [Setup (XCloseDisplay (x11_display b)); Render (Free "x11")] /\
    occurrences is_lock evs = occurrences is_unlock evs /\
    (if external b
     then occurrences is_create_window evs = 0%nat /\
          occurrences is_destroy_window evs = 0%nat /\
          In (Setup (XSelectInput (x11_display b) (window b) [])) evs
     else occurrences is_create_window evs = 1%nat /\
          (window b <> 0 ->
           In (Setup (XDestroyWindow (x11_display b) (window b))) evs) /\
          (window b = 0 -> occurrences is_destroy_window evs = 0%nat)).
Proof.
  eassert (C : x11_backend_create null_cfg_window
                 (with_answers [1; 0; 5; 9; 42] sys_world0)
               = Some ((VLC_SUCCESS, Some (mkX11 5 42 (mkRect 10 20 768 576) false)), _))
    by (vm_compute; reflexivity).
  destruct (x11_backend_create_destroy _ _ _ _ C) as (sw2 & evs & H).
  eexists _, _, sw2, evs. split; [exact C|]. split; [reflexivity | exact H].
Defined.

(** **** [Open] *)

Lemma advances_keeps_gl (sw sw' : sys_world) (evs : list sys_event) :
  advances sw sw' evs [] -> same_objects sw sw' -> keeps_gl sw sw'.
Proof. intros (_ & T & F & X) S. repeat split; assumption. Qed.

Lemma ask_quiet (c : setup_call) (sw sw' : sys_world) (a : Z) :
  ask c sw = Some (a, sw') ->
  a = hd 0 (answers (inner sw)) /\
  log sw' = log sw ++ [Setup c] /\ keeps_gl sw sw'.
Proof.
  intros H. pose proof H as H'. rewrite ask_run in H'. injection H' as <- _.
  apply ask_adv in H as [A S]. split; [reflexivity|].
  split; [exact (proj1 A) | exact (advances_keeps_gl _ _ _ A S)].
Qed.

Lemma sfprintf_quiet (f : string) (sw sw' : sys_world) (u : unit) :
  sfprintf f sw = Some (u, sw') ->
  log sw' = log sw ++ [Render (Fprintf f)] /\ keeps_gl sw sw'.
Proof.
  intros H. apply sfprintf_adv in H as [A S].
  split; [exact (proj1 A) | exact (advances_keeps_gl _ _ _ A S)].
Qed.

Lemma free_quiet (what : string) (sw sw' : sys_world) (u : unit) :
  lift (emit (Free what)) sw = Some (u, sw') ->
  log sw' = log sw ++ [Render (Free what)] /\ keeps_gl sw sw'.
Proof.
  intros H. apply lift_free_adv in H as [A S].
  split; [exact (proj1 A) | exact (advances_keeps_gl _ _ _ A S)].
Qed.

(** The code after [cleanup:], which is reached with a null [sys->gl]. *)
Lemma Open_cleanup_outcome (b : option x11_backend_t) (e : option egl_backend_t)
    (sw sw' : sys_world) (r : vlc_code * option vout_display_sys_t) :
  Open_cleanup (mkPlugin b e None 0) sw = Some (r, sw') ->
  r = (VLC_EGENERIC, None) /\
  log sw' = log sw ++ egl_teardown e ++ x_teardown b ++ [Render (Free "sys")] /\
  keeps_gl sw sw'.
Proof.
  unfold Open_cleanup.
  cbn [plugin_gl plugin_egl plugin_x11 opengl_es2_destroy].
  intros H. apply sbind_Some in H as ([] & sw0 & H0 & H).
  injection H0 as <-.
  destruct (lift_egl_backend_destroy_run e sw) as (sw1 & E1 & L1 & K1).
  rewrite (sbind_run _ _ _ _ _ E1) in H.
  destruct (x11_backend_destroy_run b sw1) as (sw2 & E2 & L2 & K2).
  rewrite (sbind_run _ _ _ _ _ E2) in H.
  apply sbind_Some in H as ([] & sw3 & H3 & H).
  apply free_quiet in H3 as [L3 K3]. injection H as <- <-.
  split; [reflexivity|]. split.
  - rewrite L3, L2, L1, <- !app_assoc. reflexivity.
  - eauto using keeps_gl_trans.
Qed.

Lemma Open_outcome (f : video_format_t) (vd_cfg : option vout_display_cfg_t)
    (garbage : egl_backend_t) (sw sw' : sys_world)
    (r : vlc_code * option vout_display_sys_t) :
  Open f vd_cfg garbage sw = Some (r, sw') ->
  exists evs,
    log sw' = log sw ++ evs /\
    ((r = (VLC_ENOMEM, None) /\ evs = [Setup (Calloc "sys")] /\
      keeps_gl sw sw' /\ hd 0 (answers (inner sw)) = 0) \/
     (exists evs_x,
        r = (VLC_EGENERIC, None) /\ x11_failed evs_x /\
        evs = Open_preamble ++ evs_x ++ [x11_message; Render (Free "sys")] /\
        keeps_gl sw sw') \/
     (exists vx vy b evs_x evs_e,
        r = (VLC_EGENERIC, None) /\
        x11_created (Open_window vd_cfg vx vy) b evs_x /\ egl_failed evs_e /\
        evs = Open_preamble ++ evs_x ++ evs_e ++ [egl_message]
              ++ x11_teardown b ++ [Render (Free "sys")] /\
        keeps_gl sw sw') \/
     (exists vx vy b e evs_x evs_e evs_g,
        r = (VLC_EGENERIC, None) /\
        x11_created (Open_window vd_cfg vx vy) b evs_x /\
        egl_created e evs_e /\ Forall (uses [LibGL; LibC]) evs_g /\
        evs = Open_preamble ++ evs_x ++ evs_e ++ evs_g ++ [gles2_message]
              ++ teardown_events e ++ x11_teardown b
              ++ [Render (Free "sys")]) \/
     (exists vx vy c b e g v evs_x evs_e evs_g sw0,
        vd_cfg = Some c /\
        r = (VLC_SUCCESS,
             Some (mkSys (mkVd (set_i_chroma f VLC_CODEC_I420) c) b e
                     (set_viewport g v))) /\
        x11_created (Open_window vd_cfg vx vy) b evs_x /\
        egl_created e evs_e /\ Forall (uses [LibGL; LibC]) evs_g /\
        evs = Open_preamble ++ evs_x ++ evs_e ++ evs_g /\
        keeps_gl sw sw0 /\
        opengl_es2_create sw0 = Some ((VLC_SUCCESS, Some g), sw') /\
        compute_bounding_box c (rect b) (viewport g) = Some v)).
Proof.
  unfold Open. intros H.
  apply sbind_Some in H as (mem & sw1 & H1 & H).
  apply ask_quiet in H1 as (-> & L1 & K1).
  destruct (Z.eqb_spec (hd 0 (answers (inner sw))) 0) as [E0|E0].
  { injection H as <- <-. exists [Setup (Calloc "sys")].
    split; [exact L1|]. left. auto. }
  apply sbind_Some in H as (vx & sw2 & H2 & H).
  apply ask_quiet in H2 as (_ & L2 & K2).
  apply sbind_Some in H as (vy & sw3 & H3 & H).
  apply ask_quiet in H3 as (_ & L3 & K3).
  assert (L : log sw3 = log sw ++ Open_preamble)
    by (rewrite L3, L2, L1, <- !app_assoc; reflexivity).
  assert (K : keeps_gl sw sw3) by eauto using keeps_gl_trans.
  clear L1 L2 L3 K1 K2 K3.
  fold (Open_window vd_cfg vx vy) in H.
  apply sbind_Some in H as (rx & sw4 & H4 & H).
  destruct (x11_backend_create_outcome (Open_window vd_cfg vx vy) sw3)
    as (rx' & sw4' & evs_x & Ex & Lx & Kx & Ox).
  rewrite H4 in Ex. injection Ex as <- <-.
  cbn [plugin_egl plugin_gl plugin_pool plugin_x11] in H.
  destruct rx as [[] [b|]]; cbn [fst snd is_success negb] in H;
    try contradiction.
  2: { (* VLC_ENOMEM *)
    apply sbind_Some in H as ([] & sw5 & H5 & H).
    apply sfprintf_quiet in H5 as [L5 K5].
    apply Open_cleanup_outcome in H as (-> & L6 & K6).
    eexists. split; [rewrite L6, L5, Lx, L, <- !app_assoc; reflexivity|].
    right. left. exists evs_x. split; [reflexivity|].
    split; [left; exact (proj2 Ox)|]. split; [reflexivity|].
    eauto using keeps_gl_trans. }
  2: { (* VLC_EGENERIC *)
    apply sbind_Some in H as ([] & sw5 & H5 & H).
    apply sfprintf_quiet in H5 as [L5 K5].
    apply Open_cleanup_outcome in H as (-> & L6 & K6).
    eexists. split; [rewrite L6, L5, Lx, L, <- !app_assoc; reflexivity|].
    right. left. exists evs_x. split; [reflexivity|].
    split; [right; exact (proj2 Ox)|]. split; [reflexivity|].
    eauto using keeps_gl_trans. }
  destruct Ox as (_ & Ox).
  apply sbind_Some in H as (b' & sw5 & H5 & H). injection H5 as <- <-.
  apply sbind_Some in H as (re & sw5 & H5 & H).
  destruct (egl_backend_create_outcome garbage b sw4)
    as (re' & sw5' & evs_e & Ee & Le & Ke & Oe).
  rewrite H5 in Ee. injection Ee as <- <-.
  destruct re as [[] [e|]]; cbn [fst snd is_success negb] in H;
    try contradiction.
  2: { (* VLC_ENOMEM *)
    apply sbind_Some in H as ([] & sw6 & H6 & H).
    apply sfprintf_quiet in H6 as [L6 K6].
    apply Open_cleanup_outcome in H as (-> & L7 & K7).
    eexists. split; [rewrite L7, L6, Le, Lx, L, <- !app_assoc; reflexivity|].
    right. right. left. exists vx, vy, b, evs_x, evs_e.
    split; [reflexivity|]. split; [exact Ox|]. split.
    - destruct Oe as (_ & ->). split.
      + repeat apply Forall_cons; try apply Forall_nil; unfold uses; cbn; auto.
      + intros d [H|[H|[]]]; discriminate.
    - split; [reflexivity|]. eauto using keeps_gl_trans. }
  2: { (* VLC_EGENERIC *)
    apply sbind_Some in H as ([] & sw6 & H6 & H).
    apply sfprintf_quiet in H6 as [L6 K6].
    apply Open_cleanup_outcome in H as (-> & L7 & K7).
    eexists. split; [rewrite L7, L6, Le, Lx, L, <- !app_assoc; reflexivity|].
    right. right. left. exists vx, vy, b, evs_x, evs_e.
    split; [reflexivity|]. split; [exact Ox|].
    split; [exact (proj2 (proj2 Oe))|].
    split; [reflexivity|]. eauto using keeps_gl_trans. }
  assert (Ce : egl_created e evs_e).
  { destruct Oe as (A & B & C & _ & _ & U & I). repeat split; assumption. }
  clear Oe.
  apply sbind_Some in H as (rg & sw6 & H6 & H).
  destruct (logs_opengl_es2_create _ _ _ H6) as (evs_g & Lg & Ug).
  assert (K5 : keeps_gl sw sw5) by eauto using keeps_gl_trans.
  destruct rg as [[] og]; cbn [fst snd is_success negb] in H.
  2,3: (
    apply sbind_Some in H as ([] & sw7 & H7 & H);
    apply sfprintf_quiet in H7 as [L7 K7];
    unfold Open_cleanup in H;
    cbn [plugin_gl plugin_egl plugin_x11] in H).
  - (* success of all three *)
    destruct vd_cfg as [c|]; [|discriminate].
    destruct og as [g|]; [|discriminate].
    cbn [sdefined] in H. unfold sbind, sret in H.
    destruct (compute_bounding_box c (rect b) (viewport g)) as [v|] eqn:B;
      [|discriminate].
    cbn [sdefined] in H. unfold sret in H. injection H as <- <-.
    eexists. split; [rewrite Lg, Le, Lx, L, <- !app_assoc; reflexivity|].
    right. right. right. right.
    exists vx, vy, c, b, e, g, v, evs_x, evs_e, evs_g, sw5.
    repeat (split; [first [reflexivity | assumption]|]). assumption.
  - (* VLC_ENOMEM *)
    destruct (opengl_es2_create_effect _ _ _ H6) as (ev' & gens & _ & _ & O).
    assert (Og : og = None).
    { destruct O as [(E & _) | [(E & _) | [(E & _) | O]]]; try congruence.
      destruct O as (? & ? & ? & ? & ? & ? & ? & ? & ? & ? & ? & ? & ? & E & _).
      discriminate. }
    subst og. cbn [opengl_es2_destroy] in H.
    apply sbind_Some in H as ([] & sw8 & H8 & H). injection H8 as <-.
    destruct (lift_egl_backend_destroy_run (Some e) sw7) as (sw9 & E9 & L9 & _).
    rewrite (sbind_run _ _ _ _ _ E9) in H.
    destruct (x11_backend_destroy_run (Some b) sw9) as (sw10 & E10 & L10 & _).
    rewrite (sbind_run _ _ _ _ _ E10) in H.
    apply sbind_Some in H as ([] & sw11 & H11 & H).
    apply free_quiet in H11 as [L11 _]. injection H as <- <-.
    eexists. split.
    { rewrite L11, L10, L9, L7, Lg, Le, Lx, L, <- !app_assoc. reflexivity. }
    right. right. right. left. exists vx, vy, b, e, evs_x, evs_e, evs_g.
    repeat (split; [first [reflexivity | assumption]|]). reflexivity.
  - (* VLC_EGENERIC *)
    destruct (opengl_es2_create_effect _ _ _ H6) as (ev' & gens & _ & _ & O).
    assert (Og : og = None).
    { destruct O as [(E & _) | [(E & _) | [(E & _) | O]]]; try congruence.
      destruct O as (? & ? & ? & ? & ? & ? & ? & ? & ? & ? & ? & ? & ? & E & _).
      discriminate. }
    subst og. cbn [opengl_es2_destroy] in H.
    apply sbind_Some in H as ([] & sw8 & H8 & H). injection H8 as <-.
    destruct (lift_egl_backend_destroy_run (Some e) sw7) as (sw9 & E9 & L9 & _).
    rewrite (sbind_run _ _ _ _ _ E9) in H.
    destruct (x11_backend_destroy_run (Some b) sw9) as (sw10 & E10 & L10 & _).
    rewrite (sbind_run _ _ _ _ _ E10) in H.
    apply sbind_Some in H as ([] & sw11 & H11 & H).
    apply free_quiet in H11 as [L11 _]. injection H as <- <-.
    eexists. split.
    { rewrite L11, L10, L9, L7, Lg, Le, Lx, L, <- !app_assoc. reflexivity. }
    right. right. right. left. exists vx, vy, b, e, evs_x, evs_e, evs_g.
    repeat (split; [first [reflexivity | assumption]|]). reflexivity.
Qed.




















(** X28 -- With a null [vd->cfg], [Open] never succeeds: when the three
    backends are created, the null pointer is dereferenced, which is
    undefined behaviour; and when [Open] returns, the first [calloc] or
    the creation of a backend has failed. *)
Theorem Open_null_cfg (f : video_format_t) (garbage : egl_backend_t)
    (sw : sys_world) :
  (backends_created garbage None sw -> Open f None garbage sw = None) /\
  (forall r sw',
     Open f None garbage sw = Some (r, sw') ->
     exists evs,
       log sw' = log sw ++ evs /\
       ((r = (VLC_ENOMEM, None) /\ hd 0 (answers (inner sw)) = 0) \/
        (r = (VLC_EGENERIC, None) /\
         (In x11_message evs \/ In egl_message evs \/ In gles2_message evs)))).
Proof.
  split.
  - intros (mem & vx & vy & b & e & g & sw1 & sw2 & sw3 & sw4 & sw5 & sw6
            & H1 & Hm & H2 & H3 & H4 & H5 & H6).
    unfold Open. rewrite (sbind_run _ _ _ _ _ H1).
    apply Z.eqb_neq in Hm. rewrite Hm.
    rewrite (sbind_run _ _ _ _ _ H2), (sbind_run _ _ _ _ _ H3).
    fold (Open_window None vx vy). rewrite (sbind_run _ _ _ _ _ H4).
    cbn [fst snd is_success negb plugin_x11 plugin_egl plugin_gl plugin_pool
         sdefined].
    unfold sbind at 1. unfold sret at 1.
    rewrite (sbind_run _ _ _ _ _ H5).
    cbn [fst snd is_success negb plugin_x11 plugin_egl plugin_gl plugin_pool].
    rewrite (sbind_run _ _ _ _ _ H6).
    reflexivity.
  - intros r sw' H. apply Open_outcome in H as (evs & L & O). exists evs.
    split; [exact L|].
    destruct O as [(E & _ & _ & E0) | [O | [O | [O | O]]]].
    + left. auto.
    + destruct O as (evs_x & E & _ & -> & _). right. split; [exact E|].
      left. rewrite !in_app_iff. do 2 right. now left.
    + destruct O as (vx & vy & b & evs_x & evs_e & E & _ & _ & -> & _).
      right. split; [exact E|]. right. left.
      rewrite !in_app_iff. do 3 right. left. now left.
    + destruct O as (vx & vy & b & e & evs_x & evs_e & evs_g & E & _ & _ & _
                     & ->).
      right. split; [exact E|]. right. right.
      rewrite !in_app_iff. do 4 right. left. now left.
    + destruct O as (vx & vy & c & ? & ? & ? & ? & ? & ? & ? & ? & E & _).
      discriminate.
Qed.

(** A source of the size of the window fills it, whatever the size. *)
Lemma gt_same (a : Binary64.double) : Binary64.gt a a = false.
Proof.
  destruct a as [q| |]; cbn; try reflexivity.
  assert (H : Qle_bool q q = true) by (apply Qle_bool_iff, Qle_refl).
  now rewrite H.
Qed.

Lemma bounding_box_same_size (w_ h_ x_ y_ : Z) (res0 : rectangle_t) :
  compute_bounding_box (mkCfg w_ h_) (mkRect x_ y_ w_ h_) res0
  = Some (mkRect 0 0 w_ h_).
Proof.
  unfold compute_bounding_box. cbn [display_width display_height width height].
  unfold Binary64.lt. rewrite gt_same. reflexivity.
Qed.




(** X29 -- What a successful [Open] hands over: [vd->cfg] was not null, the
    chroma of the display is I420, the X display and the three EGL
    handles are not null, the viewport is the bounding box of the
    configuration in the window -- the whole window, when [Open] created
    the window itself with the size of the configuration -- and the
    framebuffer and the RGB texture do not exist yet. *)
Theorem Open_success (f : video_format_t) (vd_cfg : option vout_display_cfg_t)
    (garbage : egl_backend_t) (sw sw' : sys_world)
    (o : option vout_display_sys_t) :
  Open f vd_cfg garbage sw = Some ((VLC_SUCCESS, o), sw') ->
  exists c sys,
    vd_cfg = Some c /\ o = Some sys /\
    vd sys = mkVd (set_i_chroma f VLC_CODEC_I420) c /\
    x11_display (x11 sys) <> 0 /\
    (egl_display (egl sys) <> 0 /\ egl_surface (egl sys) <> 0 /\
     egl_context (egl sys) <> 0) /\
    compute_bounding_box c (rect (x11 sys)) rect0 = Some (viewport (gl sys)) /\
    (external (x11 sys) = false ->
     (display_width c =? UINT_MAX) && (display_height c =? UINT_MAX) = false ->
     width (rect (x11 sys)) = display_width c /\
     height (rect (x11 sys)) = display_height c /\
     viewport (gl sys) = mkRect 0 0 (display_width c) (display_height c)) /\
    framebuffer (gl sys) = 0 /\ tex_id (rgb_tex (gl sys)) = 0.
Proof.
  intros H. apply Open_outcome in H as (evs & L & O).
  destruct O as [(E & _) | [(? & E & _) | [(? & ? & ? & ? & ? & E & _)
                | [(? & ? & ? & ? & ? & ? & ? & E & _) | O]]]];
    try discriminate.
  destruct O as (vx & vy & c & b & e & g & v & evs_x & evs_e & evs_g & sw0
                 & -> & E & Cx & Ce & _ & _ & _ & C & B).
  injection E as ->.
  apply opengl_es2_create_effect in C as (evs' & gens & _ & _ & O).
  destruct O as [(E & _) | [(E & _) | [(E & _) | O]]]; try discriminate.
  destruct O as (d & s & a1 & a2 & a3 & a4 & t1 & t2 & t3 & ext & has & ld
                 & ls & E & _).
  injection E as ->. cbn [viewport] in B.
  eexists c, _. split; [reflexivity|]. split; [reflexivity|].
  cbn [vd x11 egl gl viewport set_viewport framebuffer rgb_tex tex_id].
  split; [reflexivity|]. split; [exact (proj1 Cx)|].
  split; [destruct Ce as (A1 & A2 & A3 & _); auto|].
  split; [exact B|]. split; [|auto].
  intros Ex Hs. destruct Cx as (_ & [(Ex' & _) | (_ & R & _)]); [congruence|].
  unfold window_rect, Open_window in R.
  cbn [window_width window_height window_x window_y] in R.
  rewrite Hs in R. rewrite R in B |- *. cbn [width height].
  split; [reflexivity|]. split; [reflexivity|].
  destruct c as [cw ch]. cbn [display_width display_height] in *.
  rewrite bounding_box_same_size in B. now injection B.
Qed.


Lemma Open_null_cfg_witness :
  (backends_created garbage_backend None (driver_world open_answers) /\
   Open example_format None garbage_backend (driver_world open_answers) = None) /\
  (exists r sw' evs,
     Open example_format None garbage_backend
       (driver_world display_fails_answers)
     = Some (r, sw') /\
     log sw' = log (driver_world display_fails_answers) ++ evs /\
     ((r = (VLC_ENOMEM, None) /\
       hd 0 (answers (inner (driver_world display_fails_answers))) = 0) \/
      (r = (VLC_EGENERIC, None) /\
       (In x11_message evs \/ In egl_message evs \/ In gles2_message evs)))).
Proof.
  split.
  - assert (B : backends_created garbage_backend None
                  (driver_world open_answers)).
    { unfold backends_created. do 12 eexists.
      repeat (split; [vm_compute; reflexivity|]).
      split; [discriminate|].
      repeat (split; [vm_compute; reflexivity|]).
      vm_compute; reflexivity. }
    split; [exact B|].
    exact (proj1 (Open_null_cfg example_format garbage_backend
                    (driver_world open_answers)) B).
  - eassert (E : Open example_format None garbage_backend
                   (driver_world display_fails_answers)
                 = Some (_, _))
      by (vm_compute; reflexivity).
    destruct (proj2 (Open_null_cfg example_format garbage_backend
                       (driver_world display_fails_answers)) _ _ E)
      as (evs & H).
    eexists _, _, evs. split; [exact E | exact H].
Defined.


Lemma Open_success_witness :
  exists sw' c sys,
    Open example_format (Some (mkCfg 640 480)) garbage_backend
      (driver_world open_answers)
    = Some ((VLC_SUCCESS, Some sys), sw') /\
    x11 sys = mkX11 5 42 (mkRect 10 20 640 480) false /\
    egl sys = mkEgl 6 8 9 /\
    Some (mkCfg 640 480) = Some c /\ Some sys = Some sys /\
    vd sys = mkVd (set_i_chroma example_format VLC_CODEC_I420) c /\
    x11_display (x11 sys) <> 0 /\
    (egl_display (egl sys) <> 0 /\ egl_surface (egl sys) <> 0 /\
     egl_context (egl sys) <> 0) /\
    compute_bounding_box c (rect (x11 sys)) rect0 = Some (viewport (gl sys)) /\
    (external (x11 sys) = false ->
     (display_width c =? UINT_MAX) && (display_height c =? UINT_MAX) = false ->
     width (rect (x11 sys)) = display_width c /\
     height (rect (x11 sys)) = display_height c /\
     viewport (gl sys) = mkRect 0 0 (display_width c) (display_height c)) /\
    framebuffer (gl sys) = 0 /\ tex_id (rgb_tex (gl sys)) = 0.
Proof.
  eassert (E : Open example_format (Some (mkCfg 640 480)) garbage_backend
                 (driver_world open_answers)
               = Some ((VLC_SUCCESS, Some _), _))
    by (vm_compute; reflexivity).
  destruct (Open_success _ _ _ _ _ _ E) as (c & sys & Hc & Hs & H).
  injection Hs as <-.
  eexists _, c, _. split; [exact E|]. split; [reflexivity|].
  split; [reflexivity|]. split; [exact Hc|]. split; [reflexivity | exact H].
Defined.


End SetupFacts.
